(* ===== verification/_CoqProject ===== *)
-Q . S2P
Prelude.v
Text.v
Substring.v
Concrete.v
Json.v
Model.v
Tx.v
Table.v
Store.v
Walk.v
EdgeRules.v
Validation.v
Frames.v
ValidationFacts.v
Clock.v
ProjectRuns.v
Leases.v
Graph.v
Entities.v
Discovery.v
WorkflowPlan.v
WorkflowPlanFacts.v
Workflow.v
LeaseTime.v
GraphFacts.v
WorkflowFacts.v
Status.v
EventLog.v
GraphQueries.v
Runnable.v
Finalization.v
Manifest.v
References.v
EntityRefs.v
RunRefs.v
Consistency.v
Scenario.v
Witnesses.v
WorkflowWitnesses.v
Redaction.v
Threads.v
Network.v
Catalog.v
CatalogFacts.v
Paths.v
Vault.v
Protocol.v
ProtocolFacts.v
Broker.v
Adapters.v
Execution.v
Center.v
Tools.v
Service.v
BrokerFacts.v
CallFacts.v
BrokerSafety.v
Egress.v
Agents.v
TypedFacts.v
BrokerScenario.v
ServiceScenario.v
Provisioning.v
Floats.v
Memories.v
MemoryDb.v
Embeddings.v
Forgetting.v
MemoryStore.v
MemoryCuration.v
SalienceGate.v
MemoryReview.v
MemoryFacts.v
MemoryInvariant.v
MemoryScores.v
MemoryHistory.v
MemoryScenario.v
MemoryOutcomes.v
MemoryBudget.v
MemoryGate.v
