(* ===== verification/Prelude.v ===== *)
(** Elegy's planning store, account broker and memory store, modelled and verified.

    * The program

    Elegy is a set of agent plugins around SQLite files.  Its core logic is
    the planning plugin, [src/plugins/planning/src/]: a store
    ([PlanningStore] of [storage.rs]) of goals, roadmaps, work points, plans,
    todos, issues, review points and insights, of the leases agents take on
    work points (project runs), and of a typed graph of planning nodes and
    edges.  A method of the store is one SQLite transaction: it checks its
    input, reads and writes tables, appends an event to an audit stream,
    validates what it touched and stores the findings, and commits; an error
    rolls it back.  One file outside the database, the session file
    ([session.rs]), mirrors the run an agent works on.

    The accounts plugin, [src/plugins/accounts/crates/elegy-accountd/src/],
    lets agents act with a user's accounts without holding their credentials.
    A vault ([vault.rs]) keeps the credentials encrypted; the broker
    ([broker.rs]) turns a request that the user approves into a grant and a
    grant into leases, tokens under which single operations are authorized.
    Its methods are not transactions: several statements run one after
    another, and other tasks and processes come in between.  Above it
    [provider.rs] loads the manifests of providers into a catalog, [typed.rs]
    runs an operation of the catalog for a client, [proxy.rs] sends it with the
    user's credential, [adapter.rs] verifies, refreshes and revokes
    credentials, [protocol.rs] authenticates the envelopes that clients send
    over a pipe; [elegy-account-cli/src/main.rs] has the handlers behind which
    the user connects accounts and decides requests, the worker that waits for
    a device authorization, and the tools of the agents.

    The memory plugin, [src/plugins/memory/src/], keeps what agents remember:
    texts with a scope (session, workspace, agent, user), a provenance and a
    state, their versions, links and contradictions, and vectors to find
    similar ones by ([storage/sqlite_store.rs] over [storage/schema.rs]).  A
    gate ([gate.rs]) decides whether a candidate is stored, archived or merged;
    what decays and is evicted first is [decay.rs] and [forgetting.rs].  A
    store has one scope, a connection and a mutex around it, which what runs on
    the connection holds; but several stores, of one process or of several, open
    one database, and some calls read outside of the transaction that writes.

    * How it is modelled

    The state is a [World] ([Store]): the database [Db], a record of tables,
    each a list of rows in rowid order; the number of clock readings and of
    UUIDs taken so far; the session file.  A method is a function of the monad
    [M] ([Tx]): from a world, either [Ok] of a result and a world or [Fail] of
    a [PlanningStoreError].  [committed] runs a method as a transaction: a
    failure leaves the world as it was.  SQL statements are list functions
    ([Table]): [update_where], [select_where], [insert_row] with the primary
    key, [order_by] with the stable sort of the [ORDER BY]; the unique indexes
    and the [MAX + 1] subqueries are written out where a statement relies on
    them.  Integers are [Z]; the fencing token, which grows without bound, is
    checked against [i64].

    What is not the repository's code is the class [External] ([Store]): the
    clock and the formatting and parsing of time (chrono, SQLite's
    [julianday]), UUIDs, serde's text of JSON values, file I/O of the session.
    The theorems hold for every instance.  The ones about leases need of it that
    formatted times parse back and that SQLite's [julianday] tells them apart
    when they are two milliseconds apart ([TimeTexts]); of the clock they assume
    nothing, it may stand still or run back.  The one about finalization needs
    that the clock can be formatted ([clock_formats]).
    The glob matcher that defines what a file scope means is a parameter of
    [WorkflowPlanFacts] alone ([ScopeMatcher]: a match starts with the literal
    prefix); the code only compares prefixes.
    [Scenario] gives an instance of [External] in which everything evaluates.

    The broker's methods are programs of atomic sections over a shared state
    ([Threads]): a section is one SQL statement, one transaction, or one
    reading of the clock, one exchange with the network.  [step] interleaves the
    sections of any number of calls, and the theorems are about every
    interleaving.  The mutexes of the daemon are not modelled: they only forbid
    interleavings, and nothing is claimed of blocking.  Proofs are
    rely-guarantee: every section of every call keeps the invariant [vault_ok]
    and moves the tables only as [grows] allows ([BrokerFacts]).  What the
    crate calls is the class [Host] ([Vault]); the laws needed of it
    ([HostLaws]) are that the UUIDs of a history are distinct, that SHA-256
    does not collide on the tokens made of them, and that serde parses back
    the list of strings it printed.  Further classes stand for the rest of the
    world: [Parsers] for the [url] crate, serde of manifests and the
    environment, [Network] for what answers a request (also when it times out,
    or [reqwest] follows redirects or refuses a header), [CredentialTexts] for
    serde of credentials, [Signing] for HMAC, SHA-256 and base64, whose laws
    ([SigningLaws]) are round trips; [Deployment] is the catalog and the client
    key the daemon was started with.  [BrokerScenario] gives instances in
    which the daemon evaluates.

    The memory store's calls are such programs too, over [MemoryWorld]
    ([MemoryDb]): a section is a statement or a transaction, and the class
    [Locking] says what the mutex of [with_connection] makes of the sections it
    spans: one section when all calls are those of one store ([one_store]), the
    sections themselves when those of other stores on the same file may come in
    between ([many_stores]).
    What the crate calls is [MemoryHost] ([Memories]): the clock, UUIDs, Unicode
    tables, SHA-256, [exp] and [ln], the models, the nearest neighbours that the
    vector index returns.  Rust's [f32] and [f64] are the binary32 and binary64
    numbers of the Standard Library's [SpecFloat] ([Floats]).

    * The files

    - [Prelude]: record update, stable sorting, generic lemmas.
    - [Text]: trimming, kebab-case tokens, string lists (the end of [storage.rs]).
    - [Json]: JSON values, as far as the code builds and reads them.
    - [Model]: [model.rs]: the enums with their text ([StringEnum]), the
      records, their JSON values, validation reports.
    - [Tx], [Table], [Store]: the monad with its inversion and framing
      tactics, tables, the world; loading, scopes, correlation ids, events,
      findings, tags, the session file.
    - [Walk], [EdgeRules]: the depth-first walks with a visited set, their
      correctness and fuel; the kinds an edge may join, [would_create_graph_cycle].
    - [Validation], [ValidationFacts]: [validation.rs].
    - [Frames]: what each helper leaves unchanged.
    - [ProjectRuns], [Leases]: claim, activate, heartbeat, release, evidence;
      the lease protocol they refine, step by step.
    - [Graph], [GraphFacts], [GraphQueries], [Finalization], [Manifest]: nodes,
      edges, acceptance, evidence, finalization, upserts and manifests, the
      query for runnable work.
    - [Runnable]: the query for the runnable work points of a roadmap.
    - [Clock], [LeaseTime]: what an operation reads of the clock; leases with
      their deadlines over the readings of any clock, which claims and
      preparations together refine.
    - [WorkflowPlan], [WorkflowPlanFacts]: [workflow.rs]: the delegation
      hints, file scopes, execution plan and dispatches derived from the graph.
    - [Workflow], [WorkflowFacts]: [workflow_view_in_scope],
      [prepare_workflow] and [record_workflow_result]; the histories of the
      operations that write runs, with and without preparations.
    - [Status]: [allowed_transitions], [update_status].
    - [Entities]: creating and revising the planning entities.
    - [Discovery]: the inbox of discoveries, their relationships and checkpoints.
    - [EventLog]: the store's mutations as one type; every
      history of them leaves event streams without gaps.
    - [References], [EntityRefs], [RunRefs], [Consistency]: the references
      between entities and runs, kept by every operation.
    - [Scenario], [Witnesses], [WorkflowWitnesses]: concrete runs.

    - [Substring], [Concrete]: substrings, lower case and replacement;
      injective texts for the instances of the classes.
    - [Redaction], [Provisioning]: [Redactor] and [ProvisioningSaga] ([lib.rs]).
    - [Threads], [Vault], [Broker]: programs and interleavings; [vault.rs] and
      [broker.rs].
    - [Network], [Catalog], [CatalogFacts], [Paths], [Protocol],
      [ProtocolFacts], [Adapters], [Execution]: requests and UTF-8;
      [provider.rs]; [resolve_path]; [protocol.rs]; [adapter.rs]; [proxy.rs]
      and [typed.rs].
    - [Center], [Tools], [Service]: the account center's handlers, the device
      worker and the pipe; the tools; every call of the daemon as one type.
    - [BrokerFacts], [CallFacts], [BrokerSafety]: the invariant of the vault's
      tables, what the calls guarantee, the safety of authorizations.
    - [Egress], [Agents], [TypedFacts]: where requests go, what agents cannot
      do, what a completed operation rests on.
    - [BrokerScenario], [ServiceScenario]: concrete histories.

    - [Floats]: binary32 and binary64 arithmetic.
    - [Memories], [MemoryDb], [Embeddings]: [types.rs], [error.rs], [traits.rs];
      [schema.rs] and the helpers of [sqlite_store.rs] over single rows; the
      blobs of vectors and [similarity.rs].
    - [Forgetting]: [decay.rs], [forgetting.rs], the weights learned from feedback.
    - [MemoryStore], [MemoryCuration], [MemoryReview]: the calls of
      [SqliteMemoryStore]: storing, reading, searching by vector; deleting,
      purging, links, rollback, promotion, the budget, feedback; corrections,
      shared imports, quarantine, and every call as one type ([memory_call]).
    - [SalienceGate]: [gate.rs].
    - [MemoryFacts], [MemoryInvariant]: what runs keep; the invariant [db_ok].
    - [MemoryHistory]: the versions of a memory along every history.
    - [MemoryScores]: scores stay between 0 and 1.
    - [MemoryScenario], [MemoryOutcomes], [MemoryBudget], [MemoryGate]:
      concrete histories; rollback, purging, imports and links; the budget;
      what the gate decides.

    * What the theorems show

    - Leases, without preparations: at most one live run per work point in every
      reachable state; refinement of an abstract protocol; fencing: an older
      owner is refused once a newer token exists, tokens grow and stay in [i64],
      claims are idempotent under their key, the guard decides.
    - Leases, with preparations: they refine leases with deadlines; a run is
      granted under the newest token and when every live lease of its work point
      had lapsed, up to what [julianday] does not resolve; a stale worker is
      refused, after a preparation provided that two milliseconds have passed;
      ended runs are final.
    - Workflows: what is dispatched is leased, a result is recorded once and only
      for its run, node and revision; nodes planned to run at once have disjoint
      file scopes.
    - The graph: well-formed along every history (endpoints, kinds, scope,
      uniqueness, acyclicity); the cycle check decides reachability; runnable
      work is exactly the ready work, in the graph and among the work points
      of a roadmap, where what is reported can be claimed; what finalization
      insists on; a manifest accounts for its nodes and edges.
    - The database: keys unique and the references that operations check
      ([References]) resolved along every history of the operations of
      [PlanningOp] ([Consistency]), a plan stays in its scope; event streams
      without gaps.
    - The inbox: no observation of a discovery is lost, and nothing outside the
      inbox changes; updates find their discovery in its scope or fail.
    - Statuses: tables total and closed, updates follow them; validation
      finds dependency cycles; reports are complete and sorted.
    - Text: tokens match their grammar, lists are normalized, enums round-trip.
    - Exhibited ([WorkflowWitnesses]): the unguarded edge upsert; finalization
      past a self-loop; a preparation leaves an expired run live, so that the
      row-level uniqueness of live runs holds without preparations only; in the
      last millisecond of a lease a preparation and a heartbeat leave two current
      leases of a work point.

    - The broker: an authorization is backed, while it runs, by an unexpired,
      unrevoked grant for exactly the client, purpose, audience and operation,
      which a call made by which a user approves its request; revoking is final
      for the tokens of the grant, past and future; a single-use lease works
      once however many calls race for it.  Two races are exhibited: a request
      cancelled while it is approved is granted; a lease issued while the
      account is disconnected blocks the disconnect's completion.
    - The daemon: a completed operation was approved, reads only, went to the
      URL of its manifest and hides its credential; agents never approve;
      requests only go to what the catalog declares, over TLS; envelopes are
      accepted once.  A superseded device authorization
      that connects and a token account that is not disconnected are exhibited.
    - Catalogs hold exactly the valid manifests of their documents; a path is its
      template with safe words for the placeholders, and arguments cannot lead
      out of it.
    - Redaction leaves no canary and nothing under a secret key, and all else as
      it was; no saga connects an account without a human.

    - The memory store: its tables stay consistent in every interleaving of
      calls of one or several stores; while only one store is used no text of a
      memory that stays is lost and its scope never narrows, while with two an
      update can be overwritten by feedback that read the memory before it
      (exhibited).  The memory a correction names besides its own is no
      reference of the schema and may be gone (exhibited).
    - Importance and reliability stay between 0 and 1 under every call but
      [corroborate], which can exceed 1; the gate merges only what is similar
      enough and never into a wider scope.
    - Alone, a rollback can be undone; a purged user leaves no vector and no row
      of a declared reference; a shared import adds only dormant memories of
      nobody and changes at most the reliability and the time of update of
      others; enforcing the budget leaves as many active memories as it allows,
      evicts none that scores better than one it keeps, and deletes only dormant
      ones; following
      links finds exactly the memories within a distance, with their distance;
      embeddings decode to themselves.

    * Fuel

    The walks carry fuel: the number of rows or ids plus one bounds a path
    through unvisited nodes, and [Walk.walk_total] proves that it is never
    exhausted.  The correlation id of an attached entity follows a review point
    to what it is attached to, with as much fuel as there are review points; the
    code recurses without a bound there.  Following the links of a memory goes
    depth by depth, one more than [max_depth] allows, and has then emptied its
    queue, whatever others do to the database meanwhile
    ([MemoryOutcomes.walk_empties_the_queue]).

    * Not modelled

    Parsing of the command line, rendering (Markdown and JSON projections,
    search results, context bundles), schema migration, the JSON text of
    columns, and bulk status updates of graph nodes (their filter is matched
    against that text).  Of the vault, key zeroization, the
    backup export and the operating system's key protection; a poisoned mutex
    (no code panics while it holds one).  Of the account center, the texts for
    the reader, [web_state], [web_poll_device] (of a map that nothing fills),
    sockets and framing; times that a provider grants beyond chrono's range.
    Of the memory plugin, the ranking of text search (the scores are the
    database engine's), the statistics that detect poisoning (its alerts are an
    argument of the remediation), consolidation by a language model, schema
    migration, the local and recall stores, providers, metrics and the command
    line; a database that is busy or fails to write.
    Of other plugins, network and
    operating-system adapters, installers and protocol servers, which mostly
    call libraries. *)
From stdpp Require Export base tactics list strings sorting numbers option gmap.
From Stdlib Require Import ZArith Lia.

Declare Scope elegy_scope.
Delimit Scope elegy_scope with elegy.
Open Scope elegy_scope.

(** ** Functional record update

    [r <| field := v |>] is the Rust [Record { field: v, ..r }].  A record
    opts in with an [Eta] instance; the setter of a field is derived from it. *)
Class Eta (R : Type) := eta : R -> R.
Class Setter {R T : Type} (proj : R -> T) := set_with : (T -> T) -> R -> R.
Arguments set_with {R T} proj {_} _ _ /.

Ltac build_setter :=
  match goal with
  | |- @Setter ?R ?T ?proj =>
      let f := fresh "f" in
      let r := fresh "r" in
      intros f r;
      let e := eval hnf in (@eta R _ r) in
      let e := eval pattern (proj r) in e in
      match e with
      | ?g (proj r) => let b := eval cbv beta in (g (f (proj r))) in exact b
      end
  end.

#[export] Hint Extern 1 (@Setter _ _ _) => build_setter : typeclass_instances.

Notation "r <| proj := v |>" := (set_with proj (fun _ => v) r)
  (at level 1, left associativity, proj constr) : elegy_scope.
Notation "r <| proj ::= f |>" := (set_with proj f r)
  (at level 1, left associativity, proj constr) : elegy_scope.

(** ** Stable sorting

    Rust's [sort], [sort_by] and SQL's [ORDER BY .. , rowid] are stable sorts
    for a total preorder, which determines their result: insertion sort computes it. *)
Section SortBy.
Context {A : Type} (le : A -> A -> bool).

Fixpoint insert_by (x : A) (l : list A) : list A :=
  match l with
  | [] => [x]
  | y :: l' => if le x y then x :: y :: l' else y :: insert_by x l'
  end.

Definition sort_by (l : list A) : list A := foldr insert_by [] l.

Lemma insert_by_perm x l : insert_by x l ≡ₚ x :: l.
Proof.
  induction l as [|y l IH]; simpl; [done|].
  destruct (le x y); [done|]. rewrite IH. apply Permutation_swap.
Qed.

Lemma sort_by_perm l : sort_by l ≡ₚ l.
Proof. induction l as [|x l IH]; simpl; [done|]. by rewrite insert_by_perm, IH. Qed.

Lemma elem_of_sort_by x l : x ∈ sort_by l <-> x ∈ l.
Proof. by rewrite sort_by_perm. Qed.

Lemma length_sort_by l : length (sort_by l) = length l.
Proof. by rewrite sort_by_perm. Qed.

Context (le_total : forall x y, le x y = true \/ le y x = true).

Lemma insert_by_sorted x l :
  Sorted (fun a b => le a b = true) l ->
  Sorted (fun a b => le a b = true) (insert_by x l).
Proof.
  induction 1 as [|y l Hl IH Hhd]; simpl; [repeat constructor|].
  destruct (le x y) eqn:E; [repeat (constructor; auto)|].
  constructor; [done|].
  destruct Hhd as [|z l Hz]; simpl.
  - constructor. destruct (le_total x y); congruence.
  - destruct (le x z); constructor; [destruct (le_total x y); congruence|done].
Qed.

Lemma sort_by_sorted l : Sorted (fun a b => le a b = true) (sort_by l).
Proof. induction l; simpl; [constructor|by apply insert_by_sorted]. Qed.
End SortBy.

(** [sort_by_id]: a sorted list is a fixed point of the stable sort. *)
Lemma sort_by_id {A} (le : A -> A -> bool) l :
  Sorted (fun a b => le a b = true) l -> sort_by le l = l.
Proof.
  induction 1 as [|x l Hl IH Hhd]; simpl; [done|].
  rewrite IH. destruct Hhd as [|y l' Hxy]; simpl; [done|]. by rewrite Hxy.
Qed.

(** [Vec::dedup]: drops an element equal to the one kept before it. *)
Section Dedup.
Context {A : Type} (same : A -> A -> bool).

Fixpoint dedup_from (x : A) (l : list A) : list A :=
  match l with
  | [] => [x]
  | y :: l' => if same y x then dedup_from x l' else x :: dedup_from y l'
  end.

Definition dedup_by (l : list A) : list A :=
  match l with [] => [] | x :: l' => dedup_from x l' end.
End Dedup.

Section DedupSpec.
Context {A : Type} (same : A -> A -> bool) (same_eq : forall a b, same a b = true <-> a = b).

Lemma elem_of_dedup_from x l z : z ∈ dedup_from same x l <-> z = x \/ z ∈ l.
Proof.
  revert x. induction l as [|y l IH]; intros x; simpl; [set_solver|].
  destruct (same y x) eqn:E.
  - apply same_eq in E as ->. rewrite IH. set_solver.
  - rewrite elem_of_cons, IH. set_solver.
Qed.

Lemma elem_of_dedup_by l z : z ∈ dedup_by same l <-> z ∈ l.
Proof. destruct l as [|x l]; simpl; [done|]. rewrite elem_of_dedup_from. set_solver. Qed.

Lemma dedup_from_id x l : NoDup (x :: l) -> dedup_from same x l = x :: l.
Proof.
  revert x. induction l as [|y l IH]; intros x Hn; simpl; [done|].
  destruct (same y x) eqn:E.
  - apply same_eq in E as ->. apply NoDup_cons in Hn as [Hn _]. set_solver.
  - apply NoDup_cons in Hn as [_ Hn]. by rewrite IH.
Qed.
Lemma dedup_by_id l : NoDup l -> dedup_by same l = l.
Proof. destruct l; [done|apply dedup_from_id]. Qed.

Context (R : A -> A -> Prop) (R_anti : forall a b, R a b -> R b a -> a = b).

(** Removing adjacent duplicates from a sorted list removes all duplicates. *)
Lemma dedup_from_sorted x l :
  StronglySorted R (x :: l) ->
  StronglySorted R (dedup_from same x l) /\ NoDup (dedup_from same x l).
Proof.
  revert x. induction l as [|y l IH]; intros x Hs; simpl.
  - split; [repeat constructor|apply NoDup_singleton].
  - apply StronglySorted_inv in Hs as [Hs Hx]. destruct (same y x) eqn:E.
    + apply same_eq in E as ->. by apply IH.
    + destruct (IH y Hs) as [Hs' Hn]. apply Forall_cons in Hx as [Hxy Hx].
      assert (Hxs : forall z, z ∈ dedup_from same y l -> R x z).
      { intros z [->|Hz]%elem_of_dedup_from; [done|]. rewrite Forall_forall in Hx. by apply Hx. }
      split; [constructor; [done|by apply Forall_forall]|]. constructor; [|done].
      intros Hin. apply elem_of_dedup_from in Hin as [->|Hin].
      * assert (same y y = true) by by apply same_eq. congruence.
      * apply StronglySorted_inv in Hs as [_ Hy]. rewrite Forall_forall in Hy.
        assert (x = y) as -> by (apply R_anti; [done|by apply Hy]).
        assert (same y y = true) by by apply same_eq. congruence.
Qed.

Lemma dedup_by_sorted l :
  StronglySorted R l -> StronglySorted R (dedup_by same l) /\ NoDup (dedup_by same l).
Proof.
  destruct l as [|x l]; simpl; [split; constructor|apply dedup_from_sorted].
Qed.

End DedupSpec.

(** ** Case analysis

    [case_tests] destructs every boolean test and [option] match in sight,
    keeping the equations; [inv_all] unpacks the constructor equalities. *)
Ltac inv_all := repeat match goal with
  | H : Some _ = Some _ |- _ => injection H as H
  | H : None = Some _ |- _ => discriminate H
  | H : Some _ = None |- _ => discriminate H
  | H : true = false |- _ => discriminate H
  | H : false = true |- _ => discriminate H
  end; subst.

Ltac bool_props := repeat match goal with
  | H : _ && _ = true |- _ => apply andb_true_iff in H; destruct H
  | H : _ || _ = false |- _ => apply orb_false_iff in H; destruct H
  | H : negb _ = true |- _ => apply negb_true_iff in H
  | H : negb _ = false |- _ => apply negb_false_iff in H
  | H : bool_decide _ = true |- _ => apply bool_decide_eq_true in H
  | H : bool_decide _ = false |- _ => apply bool_decide_eq_false in H
  end.

(** ** Filters *)
Lemma filter_all_id {A} (P : A -> Prop) `{forall x, Decision (P x)} (l : list A) :
  (forall x, x ∈ l -> P x) -> filter P l = l.
Proof.
  induction l as [|x l IH]; intros Hl; [done|].
  rewrite filter_cons_True by (apply Hl; set_solver). rewrite IH; set_solver.
Qed.

(** ** Tests of lists *)
Lemma existsb_false_iff {A} (f : A -> bool) (l : list A) :
  existsb f l = false <-> forall x, x ∈ l -> f x = false.
Proof.
  induction l as [|x l IH]; simpl; [split; [intros _ y Hy; by apply not_elem_of_nil in Hy|done]|].
  rewrite orb_false_iff, IH. split.
  - intros [Hx Hl] y [->|Hy]%elem_of_cons; [done|by apply Hl].
  - intros Hl. split; [apply Hl; by left|]. intros y Hy. apply Hl. by right.
Qed.

(** When [omap] drops nothing, it maps position by position. *)
Lemma length_omap_le {A B} (f : A -> option B) l : (length (omap f l) <= length l)%nat.
Proof.
  induction l as [|a l IH]; [done|]. unfold omap in *. simpl. destruct (f a); simpl; lia.
Qed.
Lemma omap_full {A B} (f : A -> option B) l i x :
  length (omap f l) = length l -> l !! i = Some x -> exists y, f x = Some y /\ omap f l !! i = Some y.
Proof.
  revert i. induction l as [|a l IH]; intros i; [done|].
  pose proof (length_omap_le f l) as Hle. unfold omap in *. simpl.
  destruct (f a) as [b|] eqn:E; simpl; [|lia]. intros [= Hl].
  destruct i as [|i]; simpl; [intros [= <-]; by exists b|by apply IH].
Qed.
