(* ===== verification/Text.v ===== *)
(** Text helpers of the planning store.

    Strings are byte strings (the UTF-8 bytes of a Rust [String]); Rust's
    [str] order and SQLite's BINARY collation are both the bytewise order,
    which is [String.le].  This file holds [str::trim] (over the Unicode
    White_Space characters, by their UTF-8 encodings), the input guards
    [require_non_empty] and [require_kebab_token] with the grammar the latter
    accepts, and [normalize_string_list]. *)
From Stdlib Require Import Ascii.
From S2P Require Import Prelude.

Notation "a +:+ b" := (String.append a b) (at level 60, right associativity) : elegy_scope.

Definition bytes := list ascii.
Definition to_bytes : string -> bytes := String.list_ascii_of_string.
Definition of_bytes : bytes -> string := String.string_of_list_ascii.

Lemma of_to_bytes s : of_bytes (to_bytes s) = s.
Proof. apply String.string_of_list_ascii_of_string. Qed.
Lemma to_of_bytes l : to_bytes (of_bytes l) = l.
Proof. apply String.list_ascii_of_string_of_list_ascii. Qed.

(** ** [str::trim] *)

(** UTF-8 encodings of the characters with the Unicode White_Space property. *)
Definition white_space : list bytes :=
  map (map ascii_of_nat)
    [[9]; [10]; [11]; [12]; [13]; [32]; [194; 133]; [194; 160]; [225; 154; 128];
     [226; 128; 128]; [226; 128; 129]; [226; 128; 130]; [226; 128; 131];
     [226; 128; 132]; [226; 128; 133]; [226; 128; 134]; [226; 128; 135];
     [226; 128; 136]; [226; 128; 137]; [226; 128; 138]; [226; 128; 168];
     [226; 128; 169]; [226; 128; 175]; [226; 129; 159]; [227; 128; 128]].

Fixpoint strip_prefix (p l : bytes) : option bytes :=
  match p, l with
  | [], _ => Some l
  | a :: p', b :: l' => if decide (a = b) then strip_prefix p' l' else None
  | _ :: _, [] => None
  end.

(** Removes one leading pattern of [ps], if [l] starts with one. *)
Fixpoint strip_one (ps : list bytes) (l : bytes) : option bytes :=
  match ps with
  | [] => None
  | p :: ps' => match strip_prefix p l with Some r => Some r | None => strip_one ps' l end
  end.

Fixpoint trim_front_fuel (n : nat) (ps : list bytes) (l : bytes) : bytes :=
  match n with
  | O => l
  | S n' => match strip_one ps l with Some r => trim_front_fuel n' ps r | None => l end
  end.

(** Every pattern is non-empty, so [length l] rounds are enough
    ([trim_front_done]). *)
Definition trim_front (ps : list bytes) (l : bytes) : bytes := trim_front_fuel (length l) ps l.

Definition trim_bytes (l : bytes) : bytes :=
  rev (trim_front (map (@rev ascii) white_space) (rev (trim_front white_space l))).

Definition trim (s : string) : string := of_bytes (trim_bytes (to_bytes s)).

(** ** Trimming reaches a fixed point *)

Lemma strip_prefix_app p l r : strip_prefix p l = Some r <-> l = p ++ r.
Proof.
  revert l. induction p as [|a p IH]; intros [|b l]; simpl; [naive_solver..|].
  case_decide; subst; [rewrite IH|]; split; congruence.
Qed.

Lemma strip_one_Some ps l r :
  strip_one ps l = Some r -> exists p, p ∈ ps /\ l = p ++ r.
Proof.
  induction ps as [|p ps IH]; simpl; [done|].
  destruct (strip_prefix p l) eqn:E.
  - intros [= ->]. apply strip_prefix_app in E. exists p. set_solver.
  - intros H. destruct (IH H) as (q & Hq & ->). exists q. set_solver.
Qed.

Lemma strip_one_None ps l :
  strip_one ps l = None <-> forall p r, p ∈ ps -> l <> p ++ r.
Proof.
  induction ps as [|p ps IH]; simpl; [set_solver|].
  destruct (strip_prefix p l) as [r|] eqn:E.
  - apply strip_prefix_app in E. split; [done|]. intros H. exfalso. eapply H; [|done]. set_solver.
  - rewrite IH. split; [|set_solver]. intros H q r Hq. apply elem_of_cons in Hq as [->|Hq].
    + intros Hl. apply strip_prefix_app in Hl. congruence.
    + by apply H.
Qed.

Section TrimFront.
Context (ps : list bytes) (ne : Forall (fun p => p <> []) ps).
#[local] Hint Resolve ne : core.

Lemma strip_one_shorter l r : strip_one ps l = Some r -> length r < length l.
Proof.
  intros (p & Hp & ->)%strip_one_Some. rewrite length_app.
  rewrite Forall_forall in ne. specialize (ne p Hp). destruct p; [done|]. simpl. lia.
Qed.

Lemma trim_front_fuel_done n l :
  length l <= n -> strip_one ps (trim_front_fuel n ps l) = None.
Proof.
  revert l. induction n as [|n IH]; intros l Hn; simpl.
  - destruct l; simpl in Hn; [|lia]. apply strip_one_None. intros p r Hp Hl.
    rewrite Forall_forall in ne. specialize (ne p Hp). by destruct p.
  - destruct (strip_one ps l) as [r|] eqn:E; [|done].
    apply IH. pose proof (strip_one_shorter _ _ E). lia.
Qed.

Lemma trim_front_done l : strip_one ps (trim_front ps l) = None.
Proof. by apply trim_front_fuel_done. Qed.

Lemma trim_front_fixed l : strip_one ps l = None -> trim_front ps l = l.
Proof. intros H. unfold trim_front. destruct (length l); simpl; [done|]. by rewrite H. Qed.

Lemma trim_front_fuel_suffix n l : exists p, l = p ++ trim_front_fuel n ps l.
Proof.
  revert l. induction n as [|n IH]; intros l; simpl; [by exists []|].
  destruct (strip_one ps l) as [r|] eqn:E; [|by exists []].
  apply strip_one_Some in E as (p & _ & ->). destruct (IH r) as [q Hq].
  exists (p ++ q). by rewrite <- app_assoc, <- Hq.
Qed.
End TrimFront.

Lemma white_space_ne : Forall (fun p => p <> []) white_space.
Proof. unfold white_space. simpl. repeat constructor; discriminate. Qed.
Lemma rev_white_space_ne : Forall (fun p => p <> []) (map (@rev ascii) white_space).
Proof. unfold white_space. simpl. repeat constructor; discriminate. Qed.

Lemma trim_bytes_front l : strip_one white_space (trim_bytes l) = None.
Proof.
  unfold trim_bytes.
  set (m := trim_front white_space l).
  destruct (trim_front_fuel_suffix (map (@rev ascii) white_space) (length (rev m)) (rev m)) as [p Hp].
  fold (trim_front (map (@rev ascii) white_space) (rev m)) in Hp.
  assert (Hm : m = rev (trim_front (map (@rev ascii) white_space) (rev m)) ++ rev p).
  { rewrite <- rev_app_distr, <- Hp. by rewrite rev_involutive. }
  apply strip_one_None. intros q r Hq Hr.
  pose proof (trim_front_done _ white_space_ne l) as Hd. rewrite strip_one_None in Hd.
  apply (Hd q (r ++ rev p) Hq). fold m. rewrite Hm, Hr. by rewrite app_assoc.
Qed.

Lemma trim_bytes_idemp l : trim_bytes (trim_bytes l) = trim_bytes l.
Proof.
  unfold trim_bytes at 1. rewrite (trim_front_fixed _ _ (trim_bytes_front l)).
  rewrite trim_front_fixed; [by rewrite rev_involutive|].
  unfold trim_bytes. rewrite rev_involutive. apply trim_front_done, rev_white_space_ne.
Qed.

Lemma trim_idemp s : trim (trim s) = trim s.
Proof. unfold trim. by rewrite to_of_bytes, trim_bytes_idemp. Qed.

Create Rewrite HintDb planning.
#[export] Hint Rewrite trim_idemp of_to_bytes to_of_bytes : planning.

(** ** Kebab-case tokens *)

Definition is_lower (c : ascii) : bool := let n := nat_of_ascii c in (97 <=? n) && (n <=? 122).
Definition is_digit (c : ascii) : bool := let n := nat_of_ascii c in (48 <=? n) && (n <=? 57).
Definition is_dash (c : ascii) : bool := bool_decide (c = "-"%char).
Definition is_alnum (c : ascii) : bool := is_lower c || is_digit c.

Definition starts_lower (l : bytes) : bool :=
  match l with c :: _ => is_lower c | [] => false end.
Fixpoint ends_dash (l : bytes) : bool :=
  match l with [] => false | [c] => is_dash c | _ :: l' => ends_dash l' end.
Fixpoint contains_dashes (l : bytes) : bool :=
  match l with
  | a :: ((b :: _) as l') => (is_dash a && is_dash b) || contains_dashes l'
  | _ => false
  end.

(** The test of [require_kebab_token] and of the graph validators, on an
    already trimmed token. *)
Definition is_kebab (s : string) : bool :=
  let l := to_bytes s in
  forallb (fun c => is_lower c || is_digit c || is_dash c) l
  && starts_lower l && negb (ends_dash l) && negb (contains_dashes l).

(** [normalize_string_list]. *)
Definition string_leb (a b : string) : bool := String.leb a b.
Definition normalize_string_list (values : list string) : list string :=
  dedup_by (fun a b => bool_decide (a = b))
    (sort_by string_leb (filter (fun v => v <> "") (map trim values))).

(** The grammar that the comment in [require_kebab_token] gives as a regular
    expression: a lowercase letter, then lowercase letters and digits, then
    any number of groups made of one dash and at least one letter or digit. *)
Definition kebab_grammar (l : bytes) : Prop :=
  exists c seg segs,
    l = c :: seg ++ concat (map (cons "-"%char) segs) /\
    is_lower c = true /\ forallb is_alnum seg = true /\
    Forall (fun w => w <> [] /\ forallb is_alnum w = true) segs.

Lemma is_dash_alnum c : is_dash c = true -> is_alnum c = false.
Proof. unfold is_dash. case_bool_decide; [subst; reflexivity|done]. Qed.

(** Words after the first letter: what the three tests say of a suffix that
    follows an alphanumeric character. *)
Lemma kebab_tail l :
  (forallb (fun c => is_alnum c || is_dash c) l && negb (ends_dash l) && negb (contains_dashes l)
   = true) ->
  exists seg segs, l = seg ++ concat (map (cons "-"%char) segs) /\
    forallb is_alnum seg = true /\
    Forall (fun w => w <> [] /\ forallb is_alnum w = true) segs.
Proof.
  induction l as [|a l IH]; simpl; intros H; [by exists [], []|].
  rewrite !andb_true_iff, !negb_true_iff in H. destruct H as [[[Ha Hl] He] Hc].
  destruct IH as (seg & segs & -> & Hseg & Hsegs).
  { rewrite !andb_true_iff, !negb_true_iff. split_and!; [done| |].
    - by destruct l.
    - destruct l; [done|]. by apply orb_false_iff in Hc as []. }
  destruct (is_dash a) eqn:Hd.
  - destruct seg as [|b seg].
    + destruct segs as [|w segs]; [cbn in He; congruence|].
      unfold is_dash in Hd. case_bool_decide; [subst|done]. done.
    + exists [], ((b :: seg) :: segs). unfold is_dash in Hd.
      case_bool_decide; [subst|done]. simpl. split_and!; [done..|]. by constructor.
  - exists (a :: seg), segs. rewrite orb_false_r in Ha. simpl. by rewrite Ha.
Qed.

Lemma alnum_not_dash c : is_alnum c = true -> is_dash c = false.
Proof. destruct (is_dash c) eqn:E; [|done]. by rewrite (is_dash_alnum _ E). Qed.

(** A word list in the other direction: appending it to an alphanumeric
    character keeps the three tests true. *)
Lemma kebab_tests_word a w l :
  is_alnum a = true -> forallb is_alnum w = true ->
  (l = [] \/ exists b l', l = "-"%char :: b :: l' /\ is_alnum b = true) ->
  ends_dash (a :: w ++ l) = ends_dash (a :: l) /\
  contains_dashes (a :: w ++ l) = contains_dashes l.
Proof.
  intros Ha Hw Hl. revert a Ha. induction w as [|b w IH]; intros a Ha; simpl app.
  - split; [done|]. destruct Hl as [->|(b & l' & -> & Hb)]; simpl; [done|].
    by rewrite (alnum_not_dash a Ha).
  - simpl in Hw. apply andb_true_iff in Hw as [Hb Hw].
    destruct (IH Hw b Hb) as [He Hc]. split.
    + change (ends_dash (a :: b :: w ++ l)) with (ends_dash (b :: w ++ l)). rewrite He.
      by destruct Hl as [->|(? & ? & -> & ?)]; simpl;
        rewrite ?(alnum_not_dash a Ha), ?(alnum_not_dash b Hb).
    + change (contains_dashes (a :: b :: w ++ l)) with
        ((is_dash a && is_dash b) || contains_dashes (b :: w ++ l)).
      by rewrite (alnum_not_dash a Ha), Hc.
Qed.

Lemma kebab_tests_words segs :
  Forall (fun w => w <> [] /\ forallb is_alnum w = true) segs ->
  forall a, is_alnum a = true ->
  let l := concat (map (cons "-"%char) segs) in
  ends_dash (a :: l) = false /\ contains_dashes l = false /\
  forallb (fun c => is_alnum c || is_dash c) l = true /\
  (l = [] \/ exists b l', l = "-"%char :: b :: l' /\ is_alnum b = true).
Proof.
  induction 1 as [|w segs [Hne Hw] _ IH]; intros a Ha; simpl.
  { rewrite (alnum_not_dash a Ha). by auto. }
  destruct w as [|b w]; [done|]. simpl in Hw. apply andb_true_iff in Hw as [Hb Hw].
  destruct (IH b Hb) as (He & Hc & Hf & Hl). cbv zeta in *.
  destruct (kebab_tests_word b w _ Hb Hw Hl) as [He' Hc']. simpl app in *.
  split_and!.
  - change (ends_dash (b :: w ++ concat (map (cons "-"%char) segs)) = false). by rewrite He'.
  - change ((is_dash "-"%char && is_dash b)
            || contains_dashes (b :: w ++ concat (map (cons "-"%char) segs)) = false).
    by rewrite (alnum_not_dash b Hb), Hc', Hc.
  - simpl. rewrite Hb, forallb_app, Hf. simpl. rewrite andb_true_r.
    clear -Hw. induction w as [|c w IHw]; simpl in *; [done|].
    apply andb_true_iff in Hw as [-> Hw]. by rewrite IHw.
  - right. by exists b, (w ++ concat (map (cons "-"%char) segs)).
Qed.

(** [require_kebab_token]'s test accepts exactly the documented grammar:
    a trimmed token passes iff it is a lowercase letter followed by lowercase
    letters and digits and by dash-separated non-empty words of them. *)
Theorem is_kebab_iff_grammar s : is_kebab s = true <-> kebab_grammar (to_bytes s).
Proof.
  unfold is_kebab, kebab_grammar. split.
  - rewrite !andb_true_iff, !negb_true_iff. intros [[[Hf Hs] He] Hc].
    destruct (to_bytes s) as [|c l]; [done|]. simpl in Hs, Hf.
    apply andb_true_iff in Hf as [_ Hf].
    destruct (kebab_tail l) as (seg & segs & -> & Hseg & Hsegs).
    { rewrite !andb_true_iff, !negb_true_iff. split_and!; [done| |];
        destruct l; try done. by apply orb_false_iff in Hc as []. }
    by exists c, seg, segs.
  - intros (c & seg & segs & -> & Hc & Hseg & Hsegs).
    assert (Ha : is_alnum c = true) by (unfold is_alnum; by rewrite Hc).
    destruct (kebab_tests_words segs Hsegs c Ha) as (He & Hd & Hf & Hl). cbv zeta in *.
    destruct (kebab_tests_word c seg _ Ha Hseg Hl) as [He' Hd'].
    rewrite He', Hd', He, Hd. simpl. rewrite Hc, forallb_app. simpl.
    rewrite !andb_true_r. apply andb_true_iff. split; [|exact Hf].
    clear -Hseg. induction seg as [|b seg IH]; simpl in *; [done|].
    apply andb_true_iff in Hseg as [Hb Hseg]. unfold is_alnum in Hb. by rewrite Hb, IH.
Qed.

Lemma string_leb_total a b : string_leb a b = true \/ string_leb b a = true.
Proof. unfold string_leb. destruct (String.leb_total a b); auto. Qed.

#[export] Instance string_leb_trans : Transitive (fun a b => string_leb a b = true).
Proof.
  intros a b c Hab Hbc. unfold string_leb in *.
  assert (String.le a c) as H; [|by apply Is_true_eq_true in H].
  transitivity b; by apply Is_true_eq_left.
Qed.

Lemma string_leb_anti a b : string_leb a b = true -> string_leb b a = true -> a = b.
Proof. apply String.leb_antisym. Qed.

Definition string_eqb (a b : string) : bool := bool_decide (a = b).
Lemma string_eqb_eq a b : string_eqb a b = true <-> a = b.
Proof. apply bool_decide_eq_true. Qed.

Lemma normalize_string_list_elem v values :
  v ∈ normalize_string_list values <-> v <> "" /\ exists u, u ∈ values /\ v = trim u.
Proof.
  unfold normalize_string_list.
  rewrite (elem_of_dedup_by _ string_eqb_eq), elem_of_sort_by, list_elem_of_filter, list_elem_of_fmap.
  naive_solver.
Qed.

Lemma normalize_string_list_strict values :
  StronglySorted (fun a b => string_leb a b = true) (normalize_string_list values)
  /\ NoDup (normalize_string_list values).
Proof.
  apply (dedup_by_sorted _ string_eqb_eq); [exact string_leb_anti|].
  apply Sorted_StronglySorted; [exact string_leb_trans|]. apply sort_by_sorted, string_leb_total.
Qed.

(** [normalize_string_list] returns the trimmed non-empty values, each
    once and in ascending order, and is idempotent. *)
Theorem normalize_string_list_spec values :
  (forall v, v ∈ normalize_string_list values <->
             v <> "" /\ exists u, u ∈ values /\ v = trim u) /\
  NoDup (normalize_string_list values) /\
  StronglySorted (fun a b => string_leb a b = true) (normalize_string_list values) /\
  normalize_string_list (normalize_string_list values) = normalize_string_list values.
Proof.
  destruct (normalize_string_list_strict values) as [Hs Hn].
  split_and!; [intros v; apply normalize_string_list_elem|done|done|].
  set (l := normalize_string_list values) in *.
  assert (Ht : map trim l = l).
  { transitivity (map id l); [|apply list_fmap_id]. apply list_fmap_ext. intros i v Hv%list_elem_of_lookup_2.
    apply normalize_string_list_elem in Hv as (_ & u & _ & ->). apply trim_idemp. }
  assert (Hf : filter (fun v => v <> "") l = l).
  { apply filter_all_id. intros v Hv. by apply normalize_string_list_elem in Hv as [? _]. }
  unfold normalize_string_list at 1. rewrite Ht, Hf, sort_by_id.
  - by apply (dedup_by_id _ string_eqb_eq).
  - by apply StronglySorted_Sorted.
Qed.
