(* ===== verification/Substring.v ===== *)
(** Text operations of Rust's standard library that several components use:
    ASCII case, searching, replacing and splitting, over the bytes of a string. *)
From Stdlib Require Import Ascii.
From S2P Require Import Prelude Text.

(** ** Case and order *)
Fixpoint map_string (f : ascii -> ascii) (s : string) : string :=
  match s with EmptyString => EmptyString | String c s' => String (f c) (map_string f s') end.

(** [str::to_ascii_lowercase]. *)
Definition ascii_lower (c : ascii) : ascii :=
  let n := nat_of_ascii c in
  if (65 <=? n)%nat && (n <=? 90)%nat then ascii_of_nat (n + 32) else c.
Definition to_ascii_lowercase : string -> string := map_string ascii_lower.

(** [s.replace('\\', "/")]. *)
Definition forward_slashes : string -> string :=
  map_string (fun c => if bool_decide (nat_of_ascii c = 92) then ascii_of_nat 47 else c).

(** Sorted without duplicates ([sort], [dedup]). *)
Definition sorted_dedup (l : list string) : list string :=
  dedup_by string_eqb (sort_by string_leb l).

(** ** Searching *)
Definition starts_with (pat l : bytes) : bool := bool_decide (is_Some (strip_prefix pat l)).

(** [str::contains]. *)
Fixpoint contains (pat l : bytes) : bool :=
  starts_with pat l || match l with [] => false | _ :: l' => contains pat l' end.

(** [str::replace] for a pattern that is not empty: the occurrences are found
    from left to right and do not overlap; [skip] bytes of a found one are
    still to be dropped. *)
Fixpoint replace_from (pat by_ : bytes) (skip : nat) (l : bytes) : bytes :=
  match l with
  | [] => []
  | c :: l' =>
      match skip with
      | S k => replace_from pat by_ k l'
      | O => if starts_with pat l then by_ ++ replace_from pat by_ (length pat - 1) l'
             else c :: replace_from pat by_ 0 l'
      end
  end.
Definition replace (pat by_ l : bytes) : bytes := replace_from pat by_ 0 l.

(** [str::split(char)]: always at least one piece. *)
Fixpoint split_on (sep : ascii) (l : bytes) : list bytes :=
  match l with
  | [] => [[]]
  | c :: l' =>
      if decide (c = sep) then [] :: split_on sep l'
      else match split_on sep l' with
           | [] => [[c]]
           | piece :: pieces => (c :: piece) :: pieces
           end
  end.

(** [str::split_whitespace], for the white space of ASCII and Unicode. *)
Fixpoint split_whitespace_from (fuel : nat) (word : bytes) (l : bytes) : list string :=
  let closed := if bool_decide (word = []) then [] else [of_bytes word] in
  match fuel with
  | O => closed
  | S fuel' =>
      match strip_one white_space l with
      | Some rest => closed ++ split_whitespace_from fuel' [] rest
      | None => match l with
                | [] => closed
                | c :: l' => split_whitespace_from fuel' (word ++ [c]) l'
                end
      end
  end.
Definition split_whitespace (s : string) : list string :=
  split_whitespace_from (String.length s) [] (to_bytes s).

(** *** Occurrences *)
Definition occurs (pat l : bytes) : Prop := exists a b, l = a ++ pat ++ b.

Lemma starts_with_iff pat l : starts_with pat l = true <-> exists b, l = pat ++ b.
Proof.
  unfold starts_with. rewrite bool_decide_eq_true. split.
  - intros [b H]. exists b. by apply strip_prefix_app.
  - intros [b H]. exists b. by apply strip_prefix_app.
Qed.

Lemma contains_iff pat l : contains pat l = true <-> occurs pat l.
Proof.
  induction l as [|c l IH]; simpl; rewrite orb_true_iff, starts_with_iff.
  - split; [intros [[b E]|?]; [by exists [], b|done]|].
    intros (a & b & E). left. destruct a; [by exists b|done].
  - rewrite IH. split.
    + intros [[b ->]|(a & b & ->)]; [by exists [], b|by exists (c :: a), b].
    + intros ([|c' a] & b & E); [left; by exists b|right].
      injection E as -> ->. by exists a, b.
Qed.

Lemma occurs_app_l pat a b : occurs pat a -> occurs pat (a ++ b).
Proof. intros (x & y & ->). exists x, (y ++ b). by rewrite <- !app_assoc. Qed.
Lemma occurs_app_r pat a b : occurs pat b -> occurs pat (a ++ b).
Proof. intros (x & y & ->). exists (a ++ x), y. by rewrite <- !app_assoc. Qed.

(** A pattern without [c] does not reach over a [c]. *)
Lemma occurs_separated c pat a b :
  c ∉ pat -> occurs pat (a ++ c :: b) -> occurs pat a \/ occurs pat b.
Proof.
  intros Hc (x & y & E). apply app_eq_app in E as (l & [[-> E]|[-> E]]).
  - (* the occurrence starts in [a] *)
    apply app_eq_app in E as (m & [[-> E]|[-> E]]).
    + destruct m as [|c' m]; [left; exists x, []; by rewrite !app_nil_r|].
      injection E as -> E. exfalso. apply Hc. set_solver.
    + left. by exists x, m.
  - destruct l as [|c' l].
    + destruct pat as [|c' pat]; [right; by exists [], b|].
      injection E as -> E. exfalso. apply Hc. set_solver.
    + injection E as -> ->. right. by exists l, y.
Qed.

(** *** Replacement, from the first occurrence on *)
Section Replace.
Context (pat by_ : bytes) (Hpat : pat <> []).

Lemma replace_from_skip k l : replace_from pat by_ k l = replace_from pat by_ 0 (drop k l).
Proof.
  revert l. induction k as [|k IH]; intros [|c l]; simpl; [done..|apply IH].
Qed.

Lemma replace_cons c l :
  starts_with pat (c :: l) = false -> replace pat by_ (c :: l) = c :: replace pat by_ l.
Proof. unfold replace. cbn [replace_from]. by intros ->. Qed.

Lemma replace_hit c l :
  starts_with pat (c :: l) = true ->
  replace pat by_ (c :: l) = by_ ++ replace pat by_ (drop (length pat) (c :: l)).
Proof.
  unfold replace. cbn [replace_from]. intros ->. f_equal. rewrite replace_from_skip. f_equal.
  assert (length pat = S (length pat - 1)) as -> by (destruct pat; simpl; [done|lia]).
  simpl. by rewrite Nat.sub_0_r.
Qed.

Lemma replace_found l : replace pat by_ (pat ++ l) = by_ ++ replace pat by_ l.
Proof.
  assert (starts_with pat (pat ++ l) = true) as H by (apply starts_with_iff; by exists l).
  destruct (pat ++ l) as [|c l'] eqn:E; [by destruct pat|].
  rewrite replace_hit by done. by rewrite <- E, drop_app_length.
Qed.

(** The text before the first occurrence is kept. *)
Lemma replace_first l :
  (~ occurs pat l /\ replace pat by_ l = l) \/
  exists a b, l = a ++ pat ++ b /\ ~ occurs pat a /\ length b < length l /\
    replace pat by_ l = a ++ by_ ++ replace pat by_ b.
Proof.
  assert (0 < length pat) as Hlen by (destruct pat; simpl; [done|lia]).
  induction l as [|c l IH].
  - left. split; [|done]. intros (a & b & E). destruct a, pat; done.
  - destruct (starts_with pat (c :: l)) eqn:Hs.
    + apply starts_with_iff in Hs as [b E]. right. exists [], b. rewrite E. split; [done|].
      split; [|split; [rewrite length_app; lia|apply replace_found]].
      intros (x & y & E'). destruct x, pat; done.
    + assert (forall b, c :: l <> pat ++ b) as Hn.
      { intros b E. assert (starts_with pat (c :: l) = true) by (apply starts_with_iff; eauto). congruence. }
      destruct IH as [[Ho Er]|(a & b & -> & Ho & Hl & Er)].
      * left. split; [|by rewrite replace_cons, Er].
        intros ([|c' a] & b & E); [by apply (Hn b)|]. injection E as -> E. apply Ho. by exists a, b.
      * right. exists (c :: a), b. split; [done|]. split; [|split; [simpl; lia|by rewrite replace_cons, Er]].
        intros ([|c' x] & y & E).
        -- apply (Hn (y ++ pat ++ b)). change (c :: a ++ pat ++ b) with ((c :: a) ++ pat ++ b).
           rewrite E. simpl. by rewrite <- app_assoc.
        -- injection E as -> E. apply Ho. by exists x, y.
Qed.

Lemma replace_absent l : ~ occurs pat l -> replace pat by_ l = l.
Proof.
  intros Hn. destruct (replace_first l) as [[_ ?]|(a & b & E & _)]; [done|].
  destruct Hn. by exists a, b.
Qed.
End Replace.

(** A replacement of the form [c .. c'] separates what surrounds it: a pattern
    without [c] and [c'] that is not inside the replacement occurs in the
    result only where it occurred before. *)
Section Marked.
Context (c c' : ascii) (inner : bytes).
Let mark := c :: inner ++ [c'].

Lemma occurs_marked pat a b :
  c ∉ pat -> c' ∉ pat -> ~ occurs pat inner ->
  occurs pat (a ++ mark ++ b) -> occurs pat a \/ occurs pat b.
Proof.
  intros Hc Hc' Hi H. unfold mark in H. simpl in H. rewrite <- app_assoc in H.
  apply occurs_separated in H as [?|H]; [by left| |done].
  apply occurs_separated in H as [?|?]; [done|by right|done].
Qed.

Lemma replace_occurs pat pat' l :
  pat' <> [] -> c ∉ pat -> c' ∉ pat -> ~ occurs pat inner ->
  occurs pat (replace pat' mark l) -> occurs pat l.
Proof.
  intros Hne Hc Hc' Hi. remember (length l) as n eqn:En. revert l En.
  induction n as [n IH] using lt_wf_ind. intros l -> H.
  destruct (replace_first pat' mark Hne l) as [[_ E]|(a & b & El & _ & Hl & E)]; rewrite E in H; [done|].
  rewrite El. apply occurs_marked in H as [?|H]; [by apply occurs_app_l| |done..].
  apply occurs_app_r, occurs_app_r. by eapply IH.
Qed.

(** The replaced pattern itself is gone. *)
Lemma replace_gone pat l :
  pat <> [] -> c ∉ pat -> c' ∉ pat -> ~ occurs pat inner -> ~ occurs pat (replace pat mark l).
Proof.
  intros Hne Hc Hc' Hi. remember (length l) as n eqn:En. revert l En.
  induction n as [n IH] using lt_wf_ind. intros l -> H.
  destruct (replace_first pat mark Hne l) as [[? E]|(a & b & El & Ha & Hl & E)]; rewrite E in H; [done|].
  apply occurs_marked in H as [?|H]; [done| |done..]. by eapply IH.
Qed.
End Marked.
