(* ===== verification/Concrete.v ===== *)
(** Concrete stand-ins for library functions, for the scenarios in which the
    development is evaluated: times in decimal, numbered identifiers, and an
    encoding of lists of strings that parses back. *)
From Stdlib Require Import DecimalString DecimalZ Ascii.
From stdpp Require Import pretty.
From S2P Require Import Prelude Text.

(** ** Times *)
Definition time_text (t : Z) : string := NilEmpty.string_of_int (Z.to_int t).
Definition text_time (s : string) : option Z := Z.of_int <$> NilEmpty.int_of_string s.

Lemma text_time_text t : text_time (time_text t) = Some t.
Proof. unfold text_time, time_text. rewrite NilEmpty.isi. simpl. by rewrite DecimalZ.of_to. Qed.

(** ** Identifiers *)
Definition numbered (prefix : string) (n : nat) : string := prefix +:+ pretty n.

Lemma append_inj (p a b : string) : p +:+ a = p +:+ b -> a = b.
Proof. induction p as [|c p IH]; [done|]. intros E. apply IH. by injection E. Qed.

#[export] Instance numbered_inj prefix : Inj (=) (=) (numbered prefix).
Proof. intros n m E%append_inj. by apply (inj pretty). Qed.

(** ** Lists of strings: every byte behind a mark, every string closed *)
Definition byte_mark : ascii := "'"%char.
Definition string_end : ascii := ";"%char.

Fixpoint mark_bytes (s : string) : string :=
  match s with
  | EmptyString => String string_end EmptyString
  | String c s' => String byte_mark (String c (mark_bytes s'))
  end.
Fixpoint strings_text (l : list string) : string :=
  match l with [] => "" | s :: l' => mark_bytes s +:+ strings_text l' end.

(** [acc] is the string being read. *)
Fixpoint text_strings (acc : option string) (s : string) : option (list string) :=
  match s with
  | EmptyString => match acc with None => Some [] | Some _ => None end
  | String m s' =>
      if decide (m = string_end) then l ← text_strings None s'; Some (default "" acc :: l)
      else match s' with
           | String c s'' => text_strings (Some (default "" acc +:+ String c "")) s''
           | EmptyString => None
           end
  end.

Lemma append_nil (s : string) : s +:+ "" = s.
Proof. induction s as [|c s IH]; [done|]. change (String c (s +:+ "") = String c s). by rewrite IH. Qed.
Lemma append_assoc (a b c : string) : (a +:+ b) +:+ c = a +:+ (b +:+ c).
Proof.
  induction a as [|x a IH]; [done|].
  change (String x ((a +:+ b) +:+ c) = String x (a +:+ (b +:+ c))). by rewrite IH.
Qed.

Lemma text_strings_mark s acc rest :
  text_strings acc (mark_bytes s +:+ rest) =
    (l ← text_strings None rest; Some ((default "" acc +:+ s) :: l)).
Proof.
  revert acc. induction s as [|c s IH]; intros acc.
  - change (mark_bytes "" +:+ rest) with (String string_end rest). cbn [text_strings].
    rewrite decide_True by done. by rewrite append_nil.
  - change (mark_bytes (String c s) +:+ rest)
      with (String byte_mark (String c (mark_bytes s +:+ rest))). cbn [text_strings].
    rewrite decide_False by done. rewrite IH. cbn [from_option].
    unfold id. by rewrite append_assoc.
Qed.

Lemma text_strings_text l : text_strings None (strings_text l) = Some l.
Proof. induction l as [|s l IH]; [done|]. cbn [strings_text]. by rewrite text_strings_mark, IH. Qed.
