(* ===== verification/Json.v ===== *)
(** JSON values ([serde_json::Value]) as the planning code uses them.

    [serde_json] is built without [preserve_order], so an object is a
    [BTreeMap]: an association list kept sorted by key, without duplicates.
    Printing and parsing text belong to the library and are parameters
    ([Store.External]); here are the value type and the accessors the source
    calls on it. *)
From S2P Require Import Prelude Text.

Inductive json : Type :=
| JNull
| JBool (b : bool)
| JInt (z : Z)
| JFloat (bits : Z)
| JStr (s : string)
| JArr (l : list json)
| JObj (m : list (string * json)).

(** Induction through the lists of arrays and objects. *)
Section JsonInd.
Context (P : json -> Prop).
Context (Hnull : P JNull) (Hbool : forall b, P (JBool b)) (Hint : forall z, P (JInt z))
  (Hfloat : forall z, P (JFloat z)) (Hstr : forall s, P (JStr s))
  (Harr : forall l, Forall P l -> P (JArr l))
  (Hobj : forall m, Forall (fun e => P (snd e)) m -> P (JObj m)).

Fixpoint json_nested_ind (j : json) : P j :=
  match j with
  | JNull => Hnull | JBool b => Hbool b | JInt z => Hint z | JFloat z => Hfloat z | JStr s => Hstr s
  | JArr l => Harr l
      ((fix items (l : list json) : Forall P l :=
          match l with
          | [] => Forall_nil_2 P
          | x :: l' => Forall_cons_2 P x l' (json_nested_ind x) (items l')
          end) l)
  | JObj m => Hobj m
      ((fix members (m : list (string * json)) : Forall (fun e => P (snd e)) m :=
          match m with
          | [] => Forall_nil_2 _
          | e :: m' => Forall_cons_2 _ e m' (json_nested_ind (snd e)) (members m')
          end) m)
  end.
End JsonInd.

(** [Map::insert]: replaces the value of an existing key. *)
Fixpoint map_insert (k : string) (v : json) (m : list (string * json)) : list (string * json) :=
  match m with
  | [] => [(k, v)]
  | (k', v') :: m' =>
      if decide (k = k') then (k, v) :: m'
      else if string_leb k k' then (k, v) :: m
      else (k', v') :: map_insert k v m'
  end.

Fixpoint map_get (k : string) (m : list (string * json)) : option json :=
  match m with
  | [] => None
  | (k', v) :: m' => if decide (k = k') then Some v else map_get k m'
  end.

(** [serde_json::json!({ ... })]: the entries are inserted in order. *)
Definition json_object (entries : list (string * json)) : json :=
  JObj (fold_left (fun m e => map_insert (fst e) (snd e) m) entries []).

(** [value[k] = v] on an object value. *)
Definition json_set (k : string) (v : json) (j : json) : json :=
  match j with JObj m => JObj (map_insert k v m) | _ => j end.

(** [Value::get] with a string key, [as_str], [as_array], [as_object], [as_bool]. *)
Definition json_get (k : string) (j : json) : option json :=
  match j with JObj m => map_get k m | _ => None end.
Definition json_as_str (j : json) : option string :=
  match j with JStr s => Some s | _ => None end.
Definition json_as_array (j : json) : option (list json) :=
  match j with JArr l => Some l | _ => None end.
Definition json_as_object (j : json) : option json :=
  match j with JObj _ => Some j | _ => None end.
Definition json_as_bool (j : json) : option bool :=
  match j with JBool b => Some b | _ => None end.

(** [payload.get(k).and_then(as_str)], the accessor most of the code uses. *)
Definition json_str_at (k : string) (j : json) : option string :=
  json_get k j ≫= json_as_str.

Definition json_strings (l : list string) : json := JArr (map JStr l).
Definition json_opt (o : option string) : json :=
  match o with Some s => JStr s | None => JNull end.

Lemma map_get_insert k k' v m :
  map_get k (map_insert k' v m) = if decide (k = k') then Some v else map_get k m.
Proof.
  induction m as [|[k0 v0] m IH]; simpl; [done|].
  repeat (case_decide; subst; simpl; try done).
  all: destruct (string_leb k' k0); simpl; repeat case_decide; congruence || done.
Qed.

Lemma json_get_set k k' v m :
  json_get k (json_set k' v (JObj m)) = if decide (k = k') then Some v else json_get k (JObj m).
Proof. apply map_get_insert. Qed.

(** Equality of values, member by member. *)
Fixpoint json_eqb (x y : json) : bool :=
  match x, y with
  | JNull, JNull => true
  | JBool a, JBool b => Bool.eqb a b
  | JInt a, JInt b => Z.eqb a b
  | JFloat a, JFloat b => Z.eqb a b
  | JStr a, JStr b => String.eqb a b
  | JArr l, JArr l' =>
      (fix items l l' := match l, l' with
                         | [], [] => true
                         | a :: l, b :: l' => json_eqb a b && items l l'
                         | _, _ => false
                         end) l l'
  | JObj m, JObj m' =>
      (fix members m m' := match m, m' with
                           | [], [] => true
                           | (k, a) :: m, (k', b) :: m' => String.eqb k k' && json_eqb a b && members m m'
                           | _, _ => false
                           end) m m'
  | _, _ => false
  end.

Lemma json_eqb_eq x y : json_eqb x y = true <-> x = y.
Proof.
  revert y. induction x as [|a|a|a|a|l IH|m IH] using json_nested_ind; intros [| | | | |l'|m']; simpl;
    try (split; [discriminate|by intros [=]]).
  - done.
  - rewrite Bool.eqb_true_iff. split; congruence.
  - rewrite Z.eqb_eq. split; congruence.
  - rewrite Z.eqb_eq. split; congruence.
  - rewrite String.eqb_eq. split; congruence.
  - transitivity (l = l'); [|split; congruence]. revert l'.
    induction IH as [|a l Ha _ IHl]; intros [|b l']; try (split; [discriminate|by intros [=]]); [done|].
    rewrite andb_true_iff, Ha, IHl. split; [by intros [-> ->]|by intros [= -> ->]].
  - transitivity (m = m'); [|split; congruence]. revert m'.
    induction IH as [|[k a] m Ha _ IHm]; intros [|[k' b] m']; try (split; [discriminate|by intros [=]]); [done|].
    simpl in Ha. rewrite !andb_true_iff, String.eqb_eq, Ha, IHm.
    split; [by intros [[-> ->] ->]|by intros [= -> -> ->]].
Qed.

#[export] Instance json_eq_dec : EqDecision json.
Proof.
  intros x y. destruct (json_eqb x y) eqn:E.
  - left. by apply json_eqb_eq.
  - right. intros Exy. apply json_eqb_eq in Exy. congruence.
Defined.
