(* ===== verification/Model.v ===== *)
(** The planning data model ([plugins/planning/src/model.rs]).

    Every [string_enum!] of the source is a Module of its own holding the
    inductive type with the source's constructors ([GoalStatus.Draft] is the
    Rust [GoalStatus::Draft]), its [as_str] table and the class instance that
    gives [from_str]; the records keep the source's fields, each prefixed by
    an abbreviation of the record's name ([pr_] for [ProjectRunRecord], [pn_]
    for [PlanningGraphNode], ...).  A [BTreeMap]-free JSON column is a [json]
    value, an [i64] is a [Z]. *)
From S2P Require Import Prelude Text Json.

(** ** The [string_enum!] macro

    [as_str] prints a variant, [from_str] is the match over the literals in
    declaration order.  The two laws are checked for every enum, and the
    round trip is proved once. *)
Class StringEnum (A : Type) := {
  as_str : A -> string;
  variants : list A;
  variants_complete : forall a, a ∈ variants;
  variants_names : NoDup (map as_str variants);
}.

Fixpoint lookup_variant {A} `{StringEnum A} (value : string) (vs : list A) : option A :=
  match vs with
  | [] => None
  | v :: vs' => if decide (as_str v = value) then Some v else lookup_variant value vs'
  end.

(** [FromStr::from_str]; [None] is the [Err] of an unknown literal. *)
Definition from_str {A} `{StringEnum A} (value : string) : option A :=
  lookup_variant value variants.

Section StringEnumLaws.
Context {A : Type} `{StringEnum A}.

Lemma lookup_variant_Some value vs (v : A) :
  lookup_variant value vs = Some v -> v ∈ vs /\ as_str v = value.
Proof.
  induction vs as [|w vs IH]; simpl; [done|]. case_decide; [|set_solver].
  intros [= ->]. set_solver.
Qed.

Lemma lookup_variant_as_str vs (v : A) :
  NoDup (map as_str vs) -> v ∈ vs -> lookup_variant (as_str v) vs = Some v.
Proof.
  induction vs as [|w vs IH]; simpl; [set_solver|].
  rewrite NoDup_cons, elem_of_cons. intros [Hw Hn] [->|Hv].
  - by rewrite decide_True.
  - rewrite decide_False; [by apply IH|]. intros E. apply Hw. rewrite E.
    apply list_elem_of_fmap. by exists v.
Qed.

Lemma from_as_str (v : A) : from_str (as_str v) = Some v.
Proof. apply lookup_variant_as_str; [apply variants_names|apply variants_complete]. Qed.

Lemma from_str_Some value (v : A) : from_str value = Some v <-> as_str v = value.
Proof.
  split; [|intros <-; apply from_as_str]. by intros [_ ?]%lookup_variant_Some.
Qed.

Lemma as_str_inj (v w : A) : as_str v = as_str w -> v = w.
Proof. intros E%(f_equal (from_str (A:=A))). rewrite !from_as_str in E. congruence. Qed.
End StringEnumLaws.

Ltac solve_complete := let a := fresh in intros a; destruct a; set_solver.
Ltac solve_names := by apply (bool_decide_unpack _); vm_compute.

Module EntityType.
Inductive EntityType : Set := Scope | Goal | Roadmap | RoadmapSection | WorkPoint | Plan | Todo | Issue | ReviewPoint | Insight | ProjectRun | GraphNode | GraphEdge | DiscoveryNode | DiscoveryRelationship | DiscoveryCheckpoint.
#[export] Instance EntityType_eq_dec : EqDecision EntityType. Proof. solve_decision. Defined.
Definition EntityType_as_str (v : EntityType) : string :=
  match v with
  | Scope => "scope"
  | Goal => "goal"
  | Roadmap => "roadmap"
  | RoadmapSection => "roadmap-section"
  | WorkPoint => "work-point"
  | Plan => "plan"
  | Todo => "todo"
  | Issue => "issue"
  | ReviewPoint => "review-point"
  | Insight => "insight"
  | ProjectRun => "project-run"
  | GraphNode => "graph-node"
  | GraphEdge => "graph-edge"
  | DiscoveryNode => "discovery-node"
  | DiscoveryRelationship => "discovery-relationship"
  | DiscoveryCheckpoint => "discovery-checkpoint"
  end.
#[export] Instance EntityType_enum : StringEnum EntityType := {|
  as_str := EntityType_as_str;
  variants := [Scope; Goal; Roadmap; RoadmapSection; WorkPoint; Plan; Todo; Issue; ReviewPoint; Insight; ProjectRun; GraphNode; GraphEdge; DiscoveryNode; DiscoveryRelationship; DiscoveryCheckpoint];
  variants_complete := ltac:(solve_complete);
  variants_names := ltac:(solve_names) |}.
End EntityType.
Export (hints) EntityType.
Abbreviation EntityType := EntityType.EntityType.

Module GoalStatus.
Inductive GoalStatus : Set := Draft | Proposed | Active | Validated | Invalidated | Superseded | Abandoned.
#[export] Instance GoalStatus_eq_dec : EqDecision GoalStatus. Proof. solve_decision. Defined.
Definition GoalStatus_as_str (v : GoalStatus) : string :=
  match v with
  | Draft => "draft"
  | Proposed => "proposed"
  | Active => "active"
  | Validated => "validated"
  | Invalidated => "invalidated"
  | Superseded => "superseded"
  | Abandoned => "abandoned"
  end.
#[export] Instance GoalStatus_enum : StringEnum GoalStatus := {|
  as_str := GoalStatus_as_str;
  variants := [Draft; Proposed; Active; Validated; Invalidated; Superseded; Abandoned];
  variants_complete := ltac:(solve_complete);
  variants_names := ltac:(solve_names) |}.
End GoalStatus.
Export (hints) GoalStatus.
Abbreviation GoalStatus := GoalStatus.GoalStatus.

Module RoadmapStatus.
Inductive RoadmapStatus : Set := Draft | Proposed | Active | Blocked | Completed | Cancelled | Invalidated.
#[export] Instance RoadmapStatus_eq_dec : EqDecision RoadmapStatus. Proof. solve_decision. Defined.
Definition RoadmapStatus_as_str (v : RoadmapStatus) : string :=
  match v with
  | Draft => "draft"
  | Proposed => "proposed"
  | Active => "active"
  | Blocked => "blocked"
  | Completed => "completed"
  | Cancelled => "cancelled"
  | Invalidated => "invalidated"
  end.
#[export] Instance RoadmapStatus_enum : StringEnum RoadmapStatus := {|
  as_str := RoadmapStatus_as_str;
  variants := [Draft; Proposed; Active; Blocked; Completed; Cancelled; Invalidated];
  variants_complete := ltac:(solve_complete);
  variants_names := ltac:(solve_names) |}.
End RoadmapStatus.
Export (hints) RoadmapStatus.
Abbreviation RoadmapStatus := RoadmapStatus.RoadmapStatus.

Module WorkPointStatus.
Inductive WorkPointStatus : Set := Draft | Proposed | Active | Blocked | Completed | Cancelled | Invalidated.
#[export] Instance WorkPointStatus_eq_dec : EqDecision WorkPointStatus. Proof. solve_decision. Defined.
Definition WorkPointStatus_as_str (v : WorkPointStatus) : string :=
  match v with
  | Draft => "draft"
  | Proposed => "proposed"
  | Active => "active"
  | Blocked => "blocked"
  | Completed => "completed"
  | Cancelled => "cancelled"
  | Invalidated => "invalidated"
  end.
#[export] Instance WorkPointStatus_enum : StringEnum WorkPointStatus := {|
  as_str := WorkPointStatus_as_str;
  variants := [Draft; Proposed; Active; Blocked; Completed; Cancelled; Invalidated];
  variants_complete := ltac:(solve_complete);
  variants_names := ltac:(solve_names) |}.
End WorkPointStatus.
Export (hints) WorkPointStatus.
Abbreviation WorkPointStatus := WorkPointStatus.WorkPointStatus.

Module PlanStatus.
Inductive PlanStatus : Set := Draft | Proposed | Active | Blocked | Completed | Cancelled | Invalidated.
#[export] Instance PlanStatus_eq_dec : EqDecision PlanStatus. Proof. solve_decision. Defined.
Definition PlanStatus_as_str (v : PlanStatus) : string :=
  match v with
  | Draft => "draft"
  | Proposed => "proposed"
  | Active => "active"
  | Blocked => "blocked"
  | Completed => "completed"
  | Cancelled => "cancelled"
  | Invalidated => "invalidated"
  end.
#[export] Instance PlanStatus_enum : StringEnum PlanStatus := {|
  as_str := PlanStatus_as_str;
  variants := [Draft; Proposed; Active; Blocked; Completed; Cancelled; Invalidated];
  variants_complete := ltac:(solve_complete);
  variants_names := ltac:(solve_names) |}.
End PlanStatus.
Export (hints) PlanStatus.
Abbreviation PlanStatus := PlanStatus.PlanStatus.

Module TodoStatus.
Inductive TodoStatus : Set := Pending | InProgress | Blocked | Completed | Cancelled.
#[export] Instance TodoStatus_eq_dec : EqDecision TodoStatus. Proof. solve_decision. Defined.
Definition TodoStatus_as_str (v : TodoStatus) : string :=
  match v with
  | Pending => "pending"
  | InProgress => "in-progress"
  | Blocked => "blocked"
  | Completed => "completed"
  | Cancelled => "cancelled"
  end.
#[export] Instance TodoStatus_enum : StringEnum TodoStatus := {|
  as_str := TodoStatus_as_str;
  variants := [Pending; InProgress; Blocked; Completed; Cancelled];
  variants_complete := ltac:(solve_complete);
  variants_names := ltac:(solve_names) |}.
End TodoStatus.
Export (hints) TodoStatus.
Abbreviation TodoStatus := TodoStatus.TodoStatus.

Module IssueStatus.
Inductive IssueStatus : Set := Open | Blocked | Resolved | Reopened.
#[export] Instance IssueStatus_eq_dec : EqDecision IssueStatus. Proof. solve_decision. Defined.
Definition IssueStatus_as_str (v : IssueStatus) : string :=
  match v with
  | Open => "open"
  | Blocked => "blocked"
  | Resolved => "resolved"
  | Reopened => "reopened"
  end.
#[export] Instance IssueStatus_enum : StringEnum IssueStatus := {|
  as_str := IssueStatus_as_str;
  variants := [Open; Blocked; Resolved; Reopened];
  variants_complete := ltac:(solve_complete);
  variants_names := ltac:(solve_names) |}.
End IssueStatus.
Export (hints) IssueStatus.
Abbreviation IssueStatus := IssueStatus.IssueStatus.

Module ReviewPointStatus.
Inductive ReviewPointStatus : Set := Open | Resolved | AcceptedRisk.
#[export] Instance ReviewPointStatus_eq_dec : EqDecision ReviewPointStatus. Proof. solve_decision. Defined.
Definition ReviewPointStatus_as_str (v : ReviewPointStatus) : string :=
  match v with
  | Open => "open"
  | Resolved => "resolved"
  | AcceptedRisk => "accepted-risk"
  end.
#[export] Instance ReviewPointStatus_enum : StringEnum ReviewPointStatus := {|
  as_str := ReviewPointStatus_as_str;
  variants := [Open; Resolved; AcceptedRisk];
  variants_complete := ltac:(solve_complete);
  variants_names := ltac:(solve_names) |}.
End ReviewPointStatus.
Export (hints) ReviewPointStatus.
Abbreviation ReviewPointStatus := ReviewPointStatus.ReviewPointStatus.

Module Priority.
Inductive Priority : Set := Low | Medium | High | Urgent.
#[export] Instance Priority_eq_dec : EqDecision Priority. Proof. solve_decision. Defined.
Definition Priority_as_str (v : Priority) : string :=
  match v with
  | Low => "low"
  | Medium => "medium"
  | High => "high"
  | Urgent => "urgent"
  end.
#[export] Instance Priority_enum : StringEnum Priority := {|
  as_str := Priority_as_str;
  variants := [Low; Medium; High; Urgent];
  variants_complete := ltac:(solve_complete);
  variants_names := ltac:(solve_names) |}.
End Priority.
Export (hints) Priority.
Abbreviation Priority := Priority.Priority.

Module EffortTier.
Inductive EffortTier : Set := Fast | Balanced | Deep.
#[export] Instance EffortTier_eq_dec : EqDecision EffortTier. Proof. solve_decision. Defined.
Definition EffortTier_as_str (v : EffortTier) : string :=
  match v with
  | Fast => "fast"
  | Balanced => "balanced"
  | Deep => "deep"
  end.
#[export] Instance EffortTier_enum : StringEnum EffortTier := {|
  as_str := EffortTier_as_str;
  variants := [Fast; Balanced; Deep];
  variants_complete := ltac:(solve_complete);
  variants_names := ltac:(solve_names) |}.
End EffortTier.
Export (hints) EffortTier.
Abbreviation EffortTier := EffortTier.EffortTier.

Module FileScopeSelectorType.
Inductive FileScopeSelectorType : Set := Exact | Glob.
#[export] Instance FileScopeSelectorType_eq_dec : EqDecision FileScopeSelectorType. Proof. solve_decision. Defined.
Definition FileScopeSelectorType_as_str (v : FileScopeSelectorType) : string :=
  match v with
  | Exact => "exact"
  | Glob => "glob"
  end.
#[export] Instance FileScopeSelectorType_enum : StringEnum FileScopeSelectorType := {|
  as_str := FileScopeSelectorType_as_str;
  variants := [Exact; Glob];
  variants_complete := ltac:(solve_complete);
  variants_names := ltac:(solve_names) |}.
End FileScopeSelectorType.
Export (hints) FileScopeSelectorType.
Abbreviation FileScopeSelectorType := FileScopeSelectorType.FileScopeSelectorType.

Module FileScopeIntent.
Inductive FileScopeIntent : Set := Primary | Review | Affected.
#[export] Instance FileScopeIntent_eq_dec : EqDecision FileScopeIntent. Proof. solve_decision. Defined.
Definition FileScopeIntent_as_str (v : FileScopeIntent) : string :=
  match v with
  | Primary => "primary"
  | Review => "review"
  | Affected => "affected"
  end.
#[export] Instance FileScopeIntent_enum : StringEnum FileScopeIntent := {|
  as_str := FileScopeIntent_as_str;
  variants := [Primary; Review; Affected];
  variants_complete := ltac:(solve_complete);
  variants_names := ltac:(solve_names) |}.
End FileScopeIntent.
Export (hints) FileScopeIntent.
Abbreviation FileScopeIntent := FileScopeIntent.FileScopeIntent.

Module Severity.
Inductive Severity : Set := Low | Medium | High | Critical.
#[export] Instance Severity_eq_dec : EqDecision Severity. Proof. solve_decision. Defined.
Definition Severity_as_str (v : Severity) : string :=
  match v with
  | Low => "low"
  | Medium => "medium"
  | High => "high"
  | Critical => "critical"
  end.
#[export] Instance Severity_enum : StringEnum Severity := {|
  as_str := Severity_as_str;
  variants := [Low; Medium; High; Critical];
  variants_complete := ltac:(solve_complete);
  variants_names := ltac:(solve_names) |}.
End Severity.
Export (hints) Severity.
Abbreviation Severity := Severity.Severity.

Module ValidationSeverity.
Inductive ValidationSeverity : Set := Warning | Error.
#[export] Instance ValidationSeverity_eq_dec : EqDecision ValidationSeverity. Proof. solve_decision. Defined.
Definition ValidationSeverity_as_str (v : ValidationSeverity) : string :=
  match v with
  | Warning => "warning"
  | Error => "error"
  end.
#[export] Instance ValidationSeverity_enum : StringEnum ValidationSeverity := {|
  as_str := ValidationSeverity_as_str;
  variants := [Warning; Error];
  variants_complete := ltac:(solve_complete);
  variants_names := ltac:(solve_names) |}.
End ValidationSeverity.
Export (hints) ValidationSeverity.
Abbreviation ValidationSeverity := ValidationSeverity.ValidationSeverity.

Module ValidationStatus.
Inductive ValidationStatus : Set := Valid | Warning | Invalid.
#[export] Instance ValidationStatus_eq_dec : EqDecision ValidationStatus. Proof. solve_decision. Defined.
Definition ValidationStatus_as_str (v : ValidationStatus) : string :=
  match v with
  | Valid => "valid"
  | Warning => "warning"
  | Invalid => "invalid"
  end.
#[export] Instance ValidationStatus_enum : StringEnum ValidationStatus := {|
  as_str := ValidationStatus_as_str;
  variants := [Valid; Warning; Invalid];
  variants_complete := ltac:(solve_complete);
  variants_names := ltac:(solve_names) |}.
End ValidationStatus.
Export (hints) ValidationStatus.
Abbreviation ValidationStatus := ValidationStatus.ValidationStatus.

Module ProjectionFormat.
Inductive ProjectionFormat : Set := Markdown | Json.
#[export] Instance ProjectionFormat_eq_dec : EqDecision ProjectionFormat. Proof. solve_decision. Defined.
Definition ProjectionFormat_as_str (v : ProjectionFormat) : string :=
  match v with
  | Markdown => "markdown"
  | Json => "json"
  end.
#[export] Instance ProjectionFormat_enum : StringEnum ProjectionFormat := {|
  as_str := ProjectionFormat_as_str;
  variants := [Markdown; Json];
  variants_complete := ltac:(solve_complete);
  variants_names := ltac:(solve_names) |}.
End ProjectionFormat.
Export (hints) ProjectionFormat.
Abbreviation ProjectionFormat := ProjectionFormat.ProjectionFormat.

Module InsightStatus.
Inductive InsightStatus : Set := Active | Superseded | Archived.
#[export] Instance InsightStatus_eq_dec : EqDecision InsightStatus. Proof. solve_decision. Defined.
Definition InsightStatus_as_str (v : InsightStatus) : string :=
  match v with
  | Active => "active"
  | Superseded => "superseded"
  | Archived => "archived"
  end.
#[export] Instance InsightStatus_enum : StringEnum InsightStatus := {|
  as_str := InsightStatus_as_str;
  variants := [Active; Superseded; Archived];
  variants_complete := ltac:(solve_complete);
  variants_names := ltac:(solve_names) |}.
End InsightStatus.
Export (hints) InsightStatus.
Abbreviation InsightStatus := InsightStatus.InsightStatus.

Module InsightType.
Inductive InsightType : Set := DesignDecision | EdgeCase | Optimization | Constraint | Assumption | Risk | Context.
#[export] Instance InsightType_eq_dec : EqDecision InsightType. Proof. solve_decision. Defined.
Definition InsightType_as_str (v : InsightType) : string :=
  match v with
  | DesignDecision => "design-decision"
  | EdgeCase => "edge-case"
  | Optimization => "optimization"
  | Constraint => "constraint"
  | Assumption => "assumption"
  | Risk => "risk"
  | Context => "context"
  end.
#[export] Instance InsightType_enum : StringEnum InsightType := {|
  as_str := InsightType_as_str;
  variants := [DesignDecision; EdgeCase; Optimization; Constraint; Assumption; Risk; Context];
  variants_complete := ltac:(solve_complete);
  variants_names := ltac:(solve_names) |}.
End InsightType.
Export (hints) InsightType.
Abbreviation InsightType := InsightType.InsightType.

Module ProjectRunStatus.
Inductive ProjectRunStatus : Set := Suggested | Claimed | Active | Interrupted | Completed | Failed | Cancelled | Released.
#[export] Instance ProjectRunStatus_eq_dec : EqDecision ProjectRunStatus. Proof. solve_decision. Defined.
Definition ProjectRunStatus_as_str (v : ProjectRunStatus) : string :=
  match v with
  | Suggested => "suggested"
  | Claimed => "claimed"
  | Active => "active"
  | Interrupted => "interrupted"
  | Completed => "completed"
  | Failed => "failed"
  | Cancelled => "cancelled"
  | Released => "released"
  end.
#[export] Instance ProjectRunStatus_enum : StringEnum ProjectRunStatus := {|
  as_str := ProjectRunStatus_as_str;
  variants := [Suggested; Claimed; Active; Interrupted; Completed; Failed; Cancelled; Released];
  variants_complete := ltac:(solve_complete);
  variants_names := ltac:(solve_names) |}.
End ProjectRunStatus.
Export (hints) ProjectRunStatus.
Abbreviation ProjectRunStatus := ProjectRunStatus.ProjectRunStatus.

Module WorkflowResultStatus.
Inductive WorkflowResultStatus : Set := Completed | Failed | Cancelled | TimedOut | Malformed.
#[export] Instance WorkflowResultStatus_eq_dec : EqDecision WorkflowResultStatus. Proof. solve_decision. Defined.
Definition WorkflowResultStatus_as_str (v : WorkflowResultStatus) : string :=
  match v with
  | Completed => "completed"
  | Failed => "failed"
  | Cancelled => "cancelled"
  | TimedOut => "timed-out"
  | Malformed => "malformed"
  end.
#[export] Instance WorkflowResultStatus_enum : StringEnum WorkflowResultStatus := {|
  as_str := WorkflowResultStatus_as_str;
  variants := [Completed; Failed; Cancelled; TimedOut; Malformed];
  variants_complete := ltac:(solve_complete);
  variants_names := ltac:(solve_names) |}.
End WorkflowResultStatus.
Export (hints) WorkflowResultStatus.
Abbreviation WorkflowResultStatus := WorkflowResultStatus.WorkflowResultStatus.

Module WorkPointKind.
Inductive WorkPointKind : Set := Feature | Corrective | ReviewFix | ValidationFix | FollowUp.
#[export] Instance WorkPointKind_eq_dec : EqDecision WorkPointKind. Proof. solve_decision. Defined.
Definition WorkPointKind_as_str (v : WorkPointKind) : string :=
  match v with
  | Feature => "feature"
  | Corrective => "corrective"
  | ReviewFix => "review-fix"
  | ValidationFix => "validation-fix"
  | FollowUp => "follow-up"
  end.
#[export] Instance WorkPointKind_enum : StringEnum WorkPointKind := {|
  as_str := WorkPointKind_as_str;
  variants := [Feature; Corrective; ReviewFix; ValidationFix; FollowUp];
  variants_complete := ltac:(solve_complete);
  variants_names := ltac:(solve_names) |}.
End WorkPointKind.
Export (hints) WorkPointKind.
Abbreviation WorkPointKind := WorkPointKind.WorkPointKind.

Module DiscoveryClassification.
Inductive DiscoveryClassification : Set := Defect | DeferredWork | ReviewFinding | Insight | Observation.
#[export] Instance DiscoveryClassification_eq_dec : EqDecision DiscoveryClassification. Proof. solve_decision. Defined.
Definition DiscoveryClassification_as_str (v : DiscoveryClassification) : string :=
  match v with
  | Defect => "defect"
  | DeferredWork => "deferred-work"
  | ReviewFinding => "review-finding"
  | Insight => "insight"
  | Observation => "observation"
  end.
#[export] Instance DiscoveryClassification_enum : StringEnum DiscoveryClassification := {|
  as_str := DiscoveryClassification_as_str;
  variants := [Defect; DeferredWork; ReviewFinding; Insight; Observation];
  variants_complete := ltac:(solve_complete);
  variants_names := ltac:(solve_names) |}.
End DiscoveryClassification.
Export (hints) DiscoveryClassification.
Abbreviation DiscoveryClassification := DiscoveryClassification.DiscoveryClassification.

Module VerificationState.
Inductive VerificationState : Set := Unverified | Verified | Rejected.
#[export] Instance VerificationState_eq_dec : EqDecision VerificationState. Proof. solve_decision. Defined.
Definition VerificationState_as_str (v : VerificationState) : string :=
  match v with
  | Unverified => "unverified"
  | Verified => "verified"
  | Rejected => "rejected"
  end.
#[export] Instance VerificationState_enum : StringEnum VerificationState := {|
  as_str := VerificationState_as_str;
  variants := [Unverified; Verified; Rejected];
  variants_complete := ltac:(solve_complete);
  variants_names := ltac:(solve_names) |}.
End VerificationState.
Export (hints) VerificationState.
Abbreviation VerificationState := VerificationState.VerificationState.

Module DiscoveryStatus.
Inductive DiscoveryStatus : Set := Candidate | Triaged | Promoted | Resolved | Reopened.
#[export] Instance DiscoveryStatus_eq_dec : EqDecision DiscoveryStatus. Proof. solve_decision. Defined.
Definition DiscoveryStatus_as_str (v : DiscoveryStatus) : string :=
  match v with
  | Candidate => "candidate"
  | Triaged => "triaged"
  | Promoted => "promoted"
  | Resolved => "resolved"
  | Reopened => "reopened"
  end.
#[export] Instance DiscoveryStatus_enum : StringEnum DiscoveryStatus := {|
  as_str := DiscoveryStatus_as_str;
  variants := [Candidate; Triaged; Promoted; Resolved; Reopened];
  variants_complete := ltac:(solve_complete);
  variants_names := ltac:(solve_names) |}.
End DiscoveryStatus.
Export (hints) DiscoveryStatus.
Abbreviation DiscoveryStatus := DiscoveryStatus.DiscoveryStatus.

Module DiscoveryRelationshipKind.
Inductive DiscoveryRelationshipKind : Set := AppliesTo | Found | EvidencedBy | Supersedes.
#[export] Instance DiscoveryRelationshipKind_eq_dec : EqDecision DiscoveryRelationshipKind. Proof. solve_decision. Defined.
Definition DiscoveryRelationshipKind_as_str (v : DiscoveryRelationshipKind) : string :=
  match v with
  | AppliesTo => "applies-to"
  | Found => "found"
  | EvidencedBy => "evidenced-by"
  | Supersedes => "supersedes"
  end.
#[export] Instance DiscoveryRelationshipKind_enum : StringEnum DiscoveryRelationshipKind := {|
  as_str := DiscoveryRelationshipKind_as_str;
  variants := [AppliesTo; Found; EvidencedBy; Supersedes];
  variants_complete := ltac:(solve_complete);
  variants_names := ltac:(solve_names) |}.
End DiscoveryRelationshipKind.
Export (hints) DiscoveryRelationshipKind.
Abbreviation DiscoveryRelationshipKind := DiscoveryRelationshipKind.DiscoveryRelationshipKind.

Module PlanningNodeKind.
Inductive PlanningNodeKind : Set := Goal | Roadmap | Milestone | Work | Plan | Task | Run | Acceptance | Evidence | Issue | Review | Insight.
#[export] Instance PlanningNodeKind_eq_dec : EqDecision PlanningNodeKind. Proof. solve_decision. Defined.
Definition PlanningNodeKind_as_str (v : PlanningNodeKind) : string :=
  match v with
  | Goal => "goal"
  | Roadmap => "roadmap"
  | Milestone => "milestone"
  | Work => "work"
  | Plan => "plan"
  | Task => "task"
  | Run => "run"
  | Acceptance => "acceptance"
  | Evidence => "evidence"
  | Issue => "issue"
  | Review => "review"
  | Insight => "insight"
  end.
#[export] Instance PlanningNodeKind_enum : StringEnum PlanningNodeKind := {|
  as_str := PlanningNodeKind_as_str;
  variants := [Goal; Roadmap; Milestone; Work; Plan; Task; Run; Acceptance; Evidence; Issue; Review; Insight];
  variants_complete := ltac:(solve_complete);
  variants_names := ltac:(solve_names) |}.
End PlanningNodeKind.
Export (hints) PlanningNodeKind.
Abbreviation PlanningNodeKind := PlanningNodeKind.PlanningNodeKind.

Module PlanningEdgeKind.
Inductive PlanningEdgeKind : Set := DecomposesTo | DependsOn | Blocks | ParallelSafeWith | PlannedBy | ExecutedBy | Contains | Requires | Satisfies | EvidencedBy | Found | AddressedBy | Repairs | Supersedes.
#[export] Instance PlanningEdgeKind_eq_dec : EqDecision PlanningEdgeKind. Proof. solve_decision. Defined.
Definition PlanningEdgeKind_as_str (v : PlanningEdgeKind) : string :=
  match v with
  | DecomposesTo => "decomposes-to"
  | DependsOn => "depends-on"
  | Blocks => "blocks"
  | ParallelSafeWith => "parallel-safe-with"
  | PlannedBy => "planned-by"
  | ExecutedBy => "executed-by"
  | Contains => "contains"
  | Requires => "requires"
  | Satisfies => "satisfies"
  | EvidencedBy => "evidenced-by"
  | Found => "found"
  | AddressedBy => "addressed-by"
  | Repairs => "repairs"
  | Supersedes => "supersedes"
  end.
#[export] Instance PlanningEdgeKind_enum : StringEnum PlanningEdgeKind := {|
  as_str := PlanningEdgeKind_as_str;
  variants := [DecomposesTo; DependsOn; Blocks; ParallelSafeWith; PlannedBy; ExecutedBy; Contains; Requires; Satisfies; EvidencedBy; Found; AddressedBy; Repairs; Supersedes];
  variants_complete := ltac:(solve_complete);
  variants_names := ltac:(solve_names) |}.
End PlanningEdgeKind.
Export (hints) PlanningEdgeKind.
Abbreviation PlanningEdgeKind := PlanningEdgeKind.PlanningEdgeKind.

Module AcceptanceKind.
Inductive AcceptanceKind : Set := Abstract | Concrete.
#[export] Instance AcceptanceKind_eq_dec : EqDecision AcceptanceKind. Proof. solve_decision. Defined.
Definition AcceptanceKind_as_str (v : AcceptanceKind) : string :=
  match v with
  | Abstract => "abstract"
  | Concrete => "concrete"
  end.
#[export] Instance AcceptanceKind_enum : StringEnum AcceptanceKind := {|
  as_str := AcceptanceKind_as_str;
  variants := [Abstract; Concrete];
  variants_complete := ltac:(solve_complete);
  variants_names := ltac:(solve_names) |}.
End AcceptanceKind.
Export (hints) AcceptanceKind.
Abbreviation AcceptanceKind := AcceptanceKind.AcceptanceKind.

Module EvidenceKind.
Inductive EvidenceKind : Set := CommandResult | TestResult | ArtifactRef | CommitRef | PrRef | Review | TraceExcerpt | ExternalUrl.
#[export] Instance EvidenceKind_eq_dec : EqDecision EvidenceKind. Proof. solve_decision. Defined.
Definition EvidenceKind_as_str (v : EvidenceKind) : string :=
  match v with
  | CommandResult => "command-result"
  | TestResult => "test-result"
  | ArtifactRef => "artifact-ref"
  | CommitRef => "commit-ref"
  | PrRef => "pr-ref"
  | Review => "review"
  | TraceExcerpt => "trace-excerpt"
  | ExternalUrl => "external-url"
  end.
#[export] Instance EvidenceKind_enum : StringEnum EvidenceKind := {|
  as_str := EvidenceKind_as_str;
  variants := [CommandResult; TestResult; ArtifactRef; CommitRef; PrRef; Review; TraceExcerpt; ExternalUrl];
  variants_complete := ltac:(solve_complete);
  variants_names := ltac:(solve_names) |}.
End EvidenceKind.
Export (hints) EvidenceKind.
Abbreviation EvidenceKind := EvidenceKind.EvidenceKind.

(** [WarningRecord]. *)
Record WarningRecord := mkWarningRecord {
  wr_level : string;
  wr_message : string;
  wr_source : option string }.
#[export] Instance eta_WarningRecord : Eta WarningRecord := fun r =>
  mkWarningRecord (wr_level r) (wr_message r) (wr_source r).

(** [ProjectRunEvidence]. *)
Record ProjectRunEvidence := mkProjectRunEvidence {
  ev_implementation_run_refs : list string;
  ev_warning_records : list WarningRecord;
  ev_validation_finding_refs : list string;
  ev_commit_sha : option string;
  ev_pr_url : option string;
  ev_linked_spec_ids : list string;
  ev_workflow_result_keys : list string }.
#[export] Instance eta_ProjectRunEvidence : Eta ProjectRunEvidence := fun r =>
  mkProjectRunEvidence (ev_implementation_run_refs r) (ev_warning_records r) (ev_validation_finding_refs r) (ev_commit_sha r) (ev_pr_url r) (ev_linked_spec_ids r) (ev_workflow_result_keys r).

(** [ProjectRunRecord]. *)
Record ProjectRunRecord := mkProjectRunRecord {
  pr_id : string;
  pr_scope_key : string;
  pr_goal_id : string;
  pr_roadmap_id : string;
  pr_work_point_id : string;
  pr_repo_id : option string;
  pr_branch : option string;
  pr_worktree_id : option string;
  pr_session_id : option string;
  pr_run_id : option string;
  pr_profile_id : option string;
  pr_owner_id : string;
  pr_idempotency_key : option string;
  pr_fencing_token : Z;
  pr_lease_expires_at : string;
  pr_heartbeat_at : string;
  pr_status : ProjectRunStatus;
  pr_evidence : ProjectRunEvidence;
  pr_revision : Z;
  pr_claimed_at : option string;
  pr_completed_at : option string;
  pr_created_at : string;
  pr_updated_at : string }.
#[export] Instance eta_ProjectRunRecord : Eta ProjectRunRecord := fun r =>
  mkProjectRunRecord (pr_id r) (pr_scope_key r) (pr_goal_id r) (pr_roadmap_id r) (pr_work_point_id r) (pr_repo_id r) (pr_branch r) (pr_worktree_id r) (pr_session_id r) (pr_run_id r) (pr_profile_id r) (pr_owner_id r) (pr_idempotency_key r) (pr_fencing_token r) (pr_lease_expires_at r) (pr_heartbeat_at r) (pr_status r) (pr_evidence r) (pr_revision r) (pr_claimed_at r) (pr_completed_at r) (pr_created_at r) (pr_updated_at r).

(** [PlanningGraphNode]. *)
Record PlanningGraphNode := mkPlanningGraphNode {
  pn_id : string;
  pn_scope_key : string;
  pn_kind : PlanningNodeKind;
  pn_title : string;
  pn_summary : string;
  pn_status : string;
  pn_payload : json;
  pn_tags : list string;
  pn_revision : Z;
  pn_created_at : string;
  pn_updated_at : string }.
#[export] Instance eta_PlanningGraphNode : Eta PlanningGraphNode := fun r =>
  mkPlanningGraphNode (pn_id r) (pn_scope_key r) (pn_kind r) (pn_title r) (pn_summary r) (pn_status r) (pn_payload r) (pn_tags r) (pn_revision r) (pn_created_at r) (pn_updated_at r).

(** [PlanningGraphEdge]. *)
Record PlanningGraphEdge := mkPlanningGraphEdge {
  pe_id : string;
  pe_scope_key : string;
  pe_kind : PlanningEdgeKind;
  pe_source_node_id : string;
  pe_target_node_id : string;
  pe_status : string;
  pe_payload : json;
  pe_revision : Z;
  pe_created_at : string;
  pe_updated_at : string }.
#[export] Instance eta_PlanningGraphEdge : Eta PlanningGraphEdge := fun r =>
  mkPlanningGraphEdge (pe_id r) (pe_scope_key r) (pe_kind r) (pe_source_node_id r) (pe_target_node_id r) (pe_status r) (pe_payload r) (pe_revision r) (pe_created_at r) (pe_updated_at r).

(** [ScopeRecord]. *)
Record ScopeRecord := mkScopeRecord {
  sc_scope_key : string;
  sc_scope_type : option string;
  sc_parent_scope_key : option string;
  sc_metadata : json;
  sc_tags : list string;
  sc_revision : Z;
  sc_created_at : string;
  sc_updated_at : string }.
#[export] Instance eta_ScopeRecord : Eta ScopeRecord := fun r =>
  mkScopeRecord (sc_scope_key r) (sc_scope_type r) (sc_parent_scope_key r) (sc_metadata r) (sc_tags r) (sc_revision r) (sc_created_at r) (sc_updated_at r).

(** [GoalRecord]. *)
Record GoalRecord := mkGoalRecord {
  gl_id : string;
  gl_scope_key : string;
  gl_correlation_id : string;
  gl_title : string;
  gl_description : string;
  gl_acceptance_criteria : list string;
  gl_rejection_criteria : list string;
  gl_status : GoalStatus;
  gl_tags : list string;
  gl_revision : Z;
  gl_created_at : string;
  gl_updated_at : string }.
#[export] Instance eta_GoalRecord : Eta GoalRecord := fun r =>
  mkGoalRecord (gl_id r) (gl_scope_key r) (gl_correlation_id r) (gl_title r) (gl_description r) (gl_acceptance_criteria r) (gl_rejection_criteria r) (gl_status r) (gl_tags r) (gl_revision r) (gl_created_at r) (gl_updated_at r).

(** [RoadmapRecord]. *)
Record RoadmapRecord := mkRoadmapRecord {
  rm_id : string;
  rm_scope_key : string;
  rm_goal_id : string;
  rm_correlation_id : string;
  rm_title : string;
  rm_summary : string;
  rm_status : RoadmapStatus;
  rm_tags : list string;
  rm_revision : Z;
  rm_created_at : string;
  rm_updated_at : string }.
#[export] Instance eta_RoadmapRecord : Eta RoadmapRecord := fun r =>
  mkRoadmapRecord (rm_id r) (rm_scope_key r) (rm_goal_id r) (rm_correlation_id r) (rm_title r) (rm_summary r) (rm_status r) (rm_tags r) (rm_revision r) (rm_created_at r) (rm_updated_at r).

(** [RoadmapSectionRecord]. *)
Record RoadmapSectionRecord := mkRoadmapSectionRecord {
  rs_id : string;
  rs_scope_key : string;
  rs_roadmap_id : string;
  rs_slug : string;
  rs_title : string;
  rs_summary : string;
  rs_ordering : Z;
  rs_revision : Z;
  rs_created_at : string;
  rs_updated_at : string }.
#[export] Instance eta_RoadmapSectionRecord : Eta RoadmapSectionRecord := fun r =>
  mkRoadmapSectionRecord (rs_id r) (rs_scope_key r) (rs_roadmap_id r) (rs_slug r) (rs_title r) (rs_summary r) (rs_ordering r) (rs_revision r) (rs_created_at r) (rs_updated_at r).

(** [FileScopeRecord]. *)
Record FileScopeRecord := mkFileScopeRecord {
  fs_selector_type : FileScopeSelectorType;
  fs_selector : string;
  fs_intent : FileScopeIntent }.
#[export] Instance eta_FileScopeRecord : Eta FileScopeRecord := fun r =>
  mkFileScopeRecord (fs_selector_type r) (fs_selector r) (fs_intent r).

(** [WorkPointRecord]. *)
Record WorkPointRecord := mkWorkPointRecord {
  wp_id : string;
  wp_scope_key : string;
  wp_roadmap_id : string;
  wp_section_id : option string;
  wp_title : string;
  wp_summary : string;
  wp_status : WorkPointStatus;
  wp_ordering : Z;
  wp_dependency_ids : list string;
  wp_validation_expectations : list string;
  wp_effort_tier : EffortTier;
  wp_kind : WorkPointKind;
  wp_priority : Priority;
  wp_repairs_work_point_ids : list string;
  wp_supersedes_work_point_ids : list string;
  wp_blocks_work_point_ids : list string;
  wp_file_scopes : list FileScopeRecord;
  wp_tags : list string;
  wp_revision : Z;
  wp_created_at : string;
  wp_updated_at : string }.
#[export] Instance eta_WorkPointRecord : Eta WorkPointRecord := fun r =>
  mkWorkPointRecord (wp_id r) (wp_scope_key r) (wp_roadmap_id r) (wp_section_id r) (wp_title r) (wp_summary r) (wp_status r) (wp_ordering r) (wp_dependency_ids r) (wp_validation_expectations r) (wp_effort_tier r) (wp_kind r) (wp_priority r) (wp_repairs_work_point_ids r) (wp_supersedes_work_point_ids r) (wp_blocks_work_point_ids r) (wp_file_scopes r) (wp_tags r) (wp_revision r) (wp_created_at r) (wp_updated_at r).

(** [PlanRecord]. *)
Record PlanRecord := mkPlanRecord {
  pl_id : string;
  pl_scope_key : string;
  pl_goal_id : string;
  pl_roadmap_id : string;
  pl_correlation_id : string;
  pl_title : string;
  pl_summary : string;
  pl_scope : string;
  pl_assumptions : list string;
  pl_stop_conditions : list string;
  pl_validation_steps : list string;
  pl_targeted_work_point_ids : list string;
  pl_effort_tier : EffortTier;
  pl_routing_hint : option string;
  pl_allow_parallel_overlap : bool;
  pl_file_scopes : list FileScopeRecord;
  pl_status : PlanStatus;
  pl_tags : list string;
  pl_revision : Z;
  pl_created_at : string;
  pl_updated_at : string }.
#[export] Instance eta_PlanRecord : Eta PlanRecord := fun r =>
  mkPlanRecord (pl_id r) (pl_scope_key r) (pl_goal_id r) (pl_roadmap_id r) (pl_correlation_id r) (pl_title r) (pl_summary r) (pl_scope r) (pl_assumptions r) (pl_stop_conditions r) (pl_validation_steps r) (pl_targeted_work_point_ids r) (pl_effort_tier r) (pl_routing_hint r) (pl_allow_parallel_overlap r) (pl_file_scopes r) (pl_status r) (pl_tags r) (pl_revision r) (pl_created_at r) (pl_updated_at r).

(** [TodoRecord]. *)
Record TodoRecord := mkTodoRecord {
  td_id : string;
  td_scope_key : string;
  td_plan_id : option string;
  td_work_point_id : option string;
  td_title : string;
  td_summary : string;
  td_status : TodoStatus;
  td_priority : Priority;
  td_effort_tier : EffortTier;
  td_file_scopes : list FileScopeRecord;
  td_evidence_refs : list string;
  td_tags : list string;
  td_ordering : Z;
  td_revision : Z;
  td_created_at : string;
  td_updated_at : string }.
#[export] Instance eta_TodoRecord : Eta TodoRecord := fun r =>
  mkTodoRecord (td_id r) (td_scope_key r) (td_plan_id r) (td_work_point_id r) (td_title r) (td_summary r) (td_status r) (td_priority r) (td_effort_tier r) (td_file_scopes r) (td_evidence_refs r) (td_tags r) (td_ordering r) (td_revision r) (td_created_at r) (td_updated_at r).

(** [IssueRecord]. *)
Record IssueRecord := mkIssueRecord {
  is_id : string;
  is_scope_key : string;
  is_correlation_id : string;
  is_title : string;
  is_summary : string;
  is_status : IssueStatus;
  is_severity : Severity;
  is_related_entity_type : option EntityType;
  is_related_entity_id : option string;
  is_tags : list string;
  is_revision : Z;
  is_created_at : string;
  is_updated_at : string }.
#[export] Instance eta_IssueRecord : Eta IssueRecord := fun r =>
  mkIssueRecord (is_id r) (is_scope_key r) (is_correlation_id r) (is_title r) (is_summary r) (is_status r) (is_severity r) (is_related_entity_type r) (is_related_entity_id r) (is_tags r) (is_revision r) (is_created_at r) (is_updated_at r).

(** [ReviewPointRecord]. *)
Record ReviewPointRecord := mkReviewPointRecord {
  rp_id : string;
  rp_scope_key : string;
  rp_attached_entity_type : EntityType;
  rp_attached_entity_id : string;
  rp_title : string;
  rp_summary : string;
  rp_status : ReviewPointStatus;
  rp_severity : Severity;
  rp_revision : Z;
  rp_created_at : string;
  rp_updated_at : string }.
#[export] Instance eta_ReviewPointRecord : Eta ReviewPointRecord := fun r =>
  mkReviewPointRecord (rp_id r) (rp_scope_key r) (rp_attached_entity_type r) (rp_attached_entity_id r) (rp_title r) (rp_summary r) (rp_status r) (rp_severity r) (rp_revision r) (rp_created_at r) (rp_updated_at r).

(** [InsightRecord]. *)
Record InsightRecord := mkInsightRecord {
  ins_id : string;
  ins_scope_key : string;
  ins_correlation_id : string;
  ins_title : string;
  ins_content : string;
  ins_insight_type : InsightType;
  ins_parent_entity_type : EntityType;
  ins_parent_entity_id : string;
  ins_tags : list string;
  ins_status : InsightStatus;
  ins_revision : Z;
  ins_created_at : string;
  ins_updated_at : string }.
#[export] Instance eta_InsightRecord : Eta InsightRecord := fun r =>
  mkInsightRecord (ins_id r) (ins_scope_key r) (ins_correlation_id r) (ins_title r) (ins_content r) (ins_insight_type r) (ins_parent_entity_type r) (ins_parent_entity_id r) (ins_tags r) (ins_status r) (ins_revision r) (ins_created_at r) (ins_updated_at r).

(** [PlanningEvent]. *)
Record PlanningEvent := mkPlanningEvent {
  pev_event_id : string;
  pev_entity_type : EntityType;
  pev_entity_id : string;
  pev_aggregate_type : EntityType;
  pev_aggregate_id : string;
  pev_correlation_id : string;
  pev_causation_id : option string;
  pev_run_id : string;
  pev_stream_id : string;
  pev_sequence : Z;
  pev_parent_event_id : option string;
  pev_event_type : string;
  pev_timestamp : string;
  pev_payload : json }.
#[export] Instance eta_PlanningEvent : Eta PlanningEvent := fun r =>
  mkPlanningEvent (pev_event_id r) (pev_entity_type r) (pev_entity_id r) (pev_aggregate_type r) (pev_aggregate_id r) (pev_correlation_id r) (pev_causation_id r) (pev_run_id r) (pev_stream_id r) (pev_sequence r) (pev_parent_event_id r) (pev_event_type r) (pev_timestamp r) (pev_payload r).

(** [ValidationFinding]. *)
Record ValidationFinding := mkValidationFinding {
  vf_finding_id : string;
  vf_entity_type : EntityType;
  vf_entity_id : string;
  vf_severity : ValidationSeverity;
  vf_code : string;
  vf_message : string;
  vf_scope_key : string;
  vf_fingerprint : string;
  vf_created_at : string }.
#[export] Instance eta_ValidationFinding : Eta ValidationFinding := fun r =>
  mkValidationFinding (vf_finding_id r) (vf_entity_type r) (vf_entity_id r) (vf_severity r) (vf_code r) (vf_message r) (vf_scope_key r) (vf_fingerprint r) (vf_created_at r).

(** [ValidationReport]. *)
Record ValidationReport := mkValidationReport {
  vr_status : ValidationStatus;
  vr_findings : list ValidationFinding }.
#[export] Instance eta_ValidationReport : Eta ValidationReport := fun r =>
  mkValidationReport (vr_status r) (vr_findings r).

(** [DiscoverySourceEntry]. *)
Record DiscoverySourceEntry := mkDiscoverySourceEntry {
  dse_source_type : string;
  dse_source_id : string;
  dse_observed_at : string }.
#[export] Instance eta_DiscoverySourceEntry : Eta DiscoverySourceEntry := fun r =>
  mkDiscoverySourceEntry (dse_source_type r) (dse_source_id r) (dse_observed_at r).

(** [DiscoveryRecord]. *)
Record DiscoveryRecord := mkDiscoveryRecord {
  dn_id : string;
  dn_scope_key : string;
  dn_correlation_id : string;
  dn_classification : DiscoveryClassification;
  dn_verification_state : VerificationState;
  dn_severity : Severity;
  dn_status : DiscoveryStatus;
  dn_claim : string;
  dn_impact : option string;
  dn_next_action : option string;
  dn_verification_step : option string;
  dn_recurrence_key : option string;
  dn_fingerprint : option string;
  dn_observed_at : list string;
  dn_occurrence_count : Z;
  dn_source_lineage : list DiscoverySourceEntry;
  dn_review_date : option string;
  dn_resolved_at : option string;
  dn_resolution_rationale : option string;
  dn_promoted_entity_type : option EntityType;
  dn_promoted_entity_id : option string;
  dn_tags : list string;
  dn_revision : Z;
  dn_created_at : string;
  dn_updated_at : string }.
#[export] Instance eta_DiscoveryRecord : Eta DiscoveryRecord := fun r =>
  mkDiscoveryRecord (dn_id r) (dn_scope_key r) (dn_correlation_id r) (dn_classification r) (dn_verification_state r) (dn_severity r) (dn_status r) (dn_claim r) (dn_impact r) (dn_next_action r) (dn_verification_step r) (dn_recurrence_key r) (dn_fingerprint r) (dn_observed_at r) (dn_occurrence_count r) (dn_source_lineage r) (dn_review_date r) (dn_resolved_at r) (dn_resolution_rationale r) (dn_promoted_entity_type r) (dn_promoted_entity_id r) (dn_tags r) (dn_revision r) (dn_created_at r) (dn_updated_at r).

(** [DiscoveryRelationshipRecord]. *)
Record DiscoveryRelationshipRecord := mkDiscoveryRelationshipRecord {
  dr_id : string;
  dr_scope_key : string;
  dr_source_id : string;
  dr_target_id : string;
  dr_relationship_kind : DiscoveryRelationshipKind;
  dr_metadata : option json;
  dr_created_at : string }.
#[export] Instance eta_DiscoveryRelationshipRecord : Eta DiscoveryRelationshipRecord := fun r =>
  mkDiscoveryRelationshipRecord (dr_id r) (dr_scope_key r) (dr_source_id r) (dr_target_id r) (dr_relationship_kind r) (dr_metadata r) (dr_created_at r).

(** [DiscoveryCheckpointRecord]. *)
Record DiscoveryCheckpointRecord := mkDiscoveryCheckpointRecord {
  dc_id : string;
  dc_scope_key : string;
  dc_run_id : string;
  dc_event : string;
  dc_snapshot : option json;
  dc_created_at : string }.
#[export] Instance eta_DiscoveryCheckpointRecord : Eta DiscoveryCheckpointRecord := fun r =>
  mkDiscoveryCheckpointRecord (dc_id r) (dc_scope_key r) (dc_run_id r) (dc_event r) (dc_snapshot r) (dc_created_at r).

(** [RunnableWorkPointCandidate]. *)
Record RunnableWorkPointCandidate := mkRunnableWorkPointCandidate {
  rwc_work_point : WorkPointRecord;
  rwc_roadmap_id : string;
  rwc_roadmap_title : string;
  rwc_dependency_titles : list string;
  rwc_reasons : list string;
  rwc_required_reason : option string }.
#[export] Instance eta_RunnableWorkPointCandidate : Eta RunnableWorkPointCandidate := fun r =>
  mkRunnableWorkPointCandidate (rwc_work_point r) (rwc_roadmap_id r) (rwc_roadmap_title r) (rwc_dependency_titles r) (rwc_reasons r) (rwc_required_reason r).

(** [BlockedCandidate]. *)
Record BlockedCandidate := mkBlockedCandidate {
  bc_work_point_id : string;
  bc_work_point_title : string;
  bc_blocker_id : string;
  bc_blocker_title : string;
  bc_reason : string }.
#[export] Instance eta_BlockedCandidate : Eta BlockedCandidate := fun r =>
  mkBlockedCandidate (bc_work_point_id r) (bc_work_point_title r) (bc_blocker_id r) (bc_blocker_title r) (bc_reason r).

(** [RunnableCandidates]. *)
Record RunnableCandidates := mkRunnableCandidates {
  rc_roadmap_id : string;
  rc_candidates : list RunnableWorkPointCandidate;
  rc_blocked : list BlockedCandidate }.
#[export] Instance eta_RunnableCandidates : Eta RunnableCandidates := fun r =>
  mkRunnableCandidates (rc_roadmap_id r) (rc_candidates r) (rc_blocked r).

(** [GraphRunnableCandidate]. *)
Record GraphRunnableCandidate := mkGraphRunnableCandidate {
  grc_node_id : string;
  grc_title : string;
  grc_status : string;
  grc_reason : string;
  grc_incomplete_dependencies : list string;
  grc_active_blockers : list string }.
#[export] Instance eta_GraphRunnableCandidate : Eta GraphRunnableCandidate := fun r =>
  mkGraphRunnableCandidate (grc_node_id r) (grc_title r) (grc_status r) (grc_reason r) (grc_incomplete_dependencies r) (grc_active_blockers r).

(** [BlockedGraphCandidate]. *)
Record BlockedGraphCandidate := mkBlockedGraphCandidate {
  bgc_node_id : string;
  bgc_title : string;
  bgc_reason : string;
  bgc_blocker_ids : list string }.
#[export] Instance eta_BlockedGraphCandidate : Eta BlockedGraphCandidate := fun r =>
  mkBlockedGraphCandidate (bgc_node_id r) (bgc_title r) (bgc_reason r) (bgc_blocker_ids r).

(** [GraphRunnableResult]. *)
Record GraphRunnableResult := mkGraphRunnableResult {
  grr_candidates : list GraphRunnableCandidate;
  grr_blocked : list BlockedGraphCandidate }.
#[export] Instance eta_GraphRunnableResult : Eta GraphRunnableResult := fun r =>
  mkGraphRunnableResult (grr_candidates r) (grr_blocked r).

(** ** [serde_json::to_value] of the records written into event payloads

    The derived [Serialize] with [rename_all = "camelCase"]: one entry per
    field, in declaration order. *)
Definition WarningRecord_to_value (r : WarningRecord) : json :=
  json_object [
    ("level", (JStr (wr_level r)));
    ("message", (JStr (wr_message r)));
    ("source", (json_opt (wr_source r)))].

Definition ProjectRunEvidence_to_value (r : ProjectRunEvidence) : json :=
  json_object [
    ("implementationRunRefs", (json_strings (ev_implementation_run_refs r)));
    ("warningRecords", (JArr (map WarningRecord_to_value (ev_warning_records r))));
    ("validationFindingRefs", (json_strings (ev_validation_finding_refs r)));
    ("commitSha", (json_opt (ev_commit_sha r)));
    ("prUrl", (json_opt (ev_pr_url r)));
    ("linkedSpecIds", (json_strings (ev_linked_spec_ids r)));
    ("workflowResultKeys", (json_strings (ev_workflow_result_keys r)))].

Definition ProjectRunRecord_to_value (r : ProjectRunRecord) : json :=
  json_object [
    ("id", (JStr (pr_id r)));
    ("scopeKey", (JStr (pr_scope_key r)));
    ("goalId", (JStr (pr_goal_id r)));
    ("roadmapId", (JStr (pr_roadmap_id r)));
    ("workPointId", (JStr (pr_work_point_id r)));
    ("repoId", (json_opt (pr_repo_id r)));
    ("branch", (json_opt (pr_branch r)));
    ("worktreeId", (json_opt (pr_worktree_id r)));
    ("sessionId", (json_opt (pr_session_id r)));
    ("runId", (json_opt (pr_run_id r)));
    ("profileId", (json_opt (pr_profile_id r)));
    ("ownerId", (JStr (pr_owner_id r)));
    ("idempotencyKey", (json_opt (pr_idempotency_key r)));
    ("fencingToken", (JInt (pr_fencing_token r)));
    ("leaseExpiresAt", (JStr (pr_lease_expires_at r)));
    ("heartbeatAt", (JStr (pr_heartbeat_at r)));
    ("status", (JStr (as_str (pr_status r))));
    ("evidence", (ProjectRunEvidence_to_value (pr_evidence r)));
    ("revision", (JInt (pr_revision r)));
    ("claimedAt", (json_opt (pr_claimed_at r)));
    ("completedAt", (json_opt (pr_completed_at r)));
    ("createdAt", (JStr (pr_created_at r)));
    ("updatedAt", (JStr (pr_updated_at r)))].

Definition PlanningGraphNode_to_value (r : PlanningGraphNode) : json :=
  json_object [
    ("id", (JStr (pn_id r)));
    ("scopeKey", (JStr (pn_scope_key r)));
    ("kind", (JStr (as_str (pn_kind r))));
    ("title", (JStr (pn_title r)));
    ("summary", (JStr (pn_summary r)));
    ("status", (JStr (pn_status r)));
    ("payload", (pn_payload r));
    ("tags", (json_strings (pn_tags r)));
    ("revision", (JInt (pn_revision r)));
    ("createdAt", (JStr (pn_created_at r)));
    ("updatedAt", (JStr (pn_updated_at r)))].

Definition PlanningGraphEdge_to_value (r : PlanningGraphEdge) : json :=
  json_object [
    ("id", (JStr (pe_id r)));
    ("scopeKey", (JStr (pe_scope_key r)));
    ("kind", (JStr (as_str (pe_kind r))));
    ("sourceNodeId", (JStr (pe_source_node_id r)));
    ("targetNodeId", (JStr (pe_target_node_id r)));
    ("status", (JStr (pe_status r)));
    ("payload", (pe_payload r));
    ("revision", (JInt (pe_revision r)));
    ("createdAt", (JStr (pe_created_at r)));
    ("updatedAt", (JStr (pe_updated_at r)))].

Definition FileScopeRecord_to_value (r : FileScopeRecord) : json :=
  json_object [
    ("selectorType", (JStr (as_str (fs_selector_type r))));
    ("selector", (JStr (fs_selector r)));
    ("intent", (JStr (as_str (fs_intent r))))].

Definition ScopeRecord_to_value (r : ScopeRecord) : json :=
  json_object [
    ("scopeKey", (JStr (sc_scope_key r)));
    ("scopeType", (json_opt (sc_scope_type r)));
    ("parentScopeKey", (json_opt (sc_parent_scope_key r)));
    ("metadata", (sc_metadata r));
    ("tags", (json_strings (sc_tags r)));
    ("revision", (JInt (sc_revision r)));
    ("createdAt", (JStr (sc_created_at r)));
    ("updatedAt", (JStr (sc_updated_at r)))].

Definition GoalRecord_to_value (r : GoalRecord) : json :=
  json_object [
    ("id", (JStr (gl_id r)));
    ("scopeKey", (JStr (gl_scope_key r)));
    ("correlationId", (JStr (gl_correlation_id r)));
    ("title", (JStr (gl_title r)));
    ("description", (JStr (gl_description r)));
    ("acceptanceCriteria", (json_strings (gl_acceptance_criteria r)));
    ("rejectionCriteria", (json_strings (gl_rejection_criteria r)));
    ("status", (JStr (as_str (gl_status r))));
    ("tags", (json_strings (gl_tags r)));
    ("revision", (JInt (gl_revision r)));
    ("createdAt", (JStr (gl_created_at r)));
    ("updatedAt", (JStr (gl_updated_at r)))].

Definition RoadmapRecord_to_value (r : RoadmapRecord) : json :=
  json_object [
    ("id", (JStr (rm_id r)));
    ("scopeKey", (JStr (rm_scope_key r)));
    ("goalId", (JStr (rm_goal_id r)));
    ("correlationId", (JStr (rm_correlation_id r)));
    ("title", (JStr (rm_title r)));
    ("summary", (JStr (rm_summary r)));
    ("status", (JStr (as_str (rm_status r))));
    ("tags", (json_strings (rm_tags r)));
    ("revision", (JInt (rm_revision r)));
    ("createdAt", (JStr (rm_created_at r)));
    ("updatedAt", (JStr (rm_updated_at r)))].

Definition RoadmapSectionRecord_to_value (r : RoadmapSectionRecord) : json :=
  json_object [
    ("id", (JStr (rs_id r)));
    ("scopeKey", (JStr (rs_scope_key r)));
    ("roadmapId", (JStr (rs_roadmap_id r)));
    ("slug", (JStr (rs_slug r)));
    ("title", (JStr (rs_title r)));
    ("summary", (JStr (rs_summary r)));
    ("ordering", (JInt (rs_ordering r)));
    ("revision", (JInt (rs_revision r)));
    ("createdAt", (JStr (rs_created_at r)));
    ("updatedAt", (JStr (rs_updated_at r)))].

Definition WorkPointRecord_to_value (r : WorkPointRecord) : json :=
  json_object [
    ("id", (JStr (wp_id r)));
    ("scopeKey", (JStr (wp_scope_key r)));
    ("roadmapId", (JStr (wp_roadmap_id r)));
    ("sectionId", (json_opt (wp_section_id r)));
    ("title", (JStr (wp_title r)));
    ("summary", (JStr (wp_summary r)));
    ("status", (JStr (as_str (wp_status r))));
    ("ordering", (JInt (wp_ordering r)));
    ("dependencyIds", (json_strings (wp_dependency_ids r)));
    ("validationExpectations", (json_strings (wp_validation_expectations r)));
    ("effortTier", (JStr (as_str (wp_effort_tier r))));
    ("kind", (JStr (as_str (wp_kind r))));
    ("priority", (JStr (as_str (wp_priority r))));
    ("repairsWorkPointIds", (json_strings (wp_repairs_work_point_ids r)));
    ("supersedesWorkPointIds", (json_strings (wp_supersedes_work_point_ids r)));
    ("blocksWorkPointIds", (json_strings (wp_blocks_work_point_ids r)));
    ("fileScopes", (JArr (map FileScopeRecord_to_value (wp_file_scopes r))));
    ("tags", (json_strings (wp_tags r)));
    ("revision", (JInt (wp_revision r)));
    ("createdAt", (JStr (wp_created_at r)));
    ("updatedAt", (JStr (wp_updated_at r)))].

Definition PlanRecord_to_value (r : PlanRecord) : json :=
  json_object [
    ("id", (JStr (pl_id r)));
    ("scopeKey", (JStr (pl_scope_key r)));
    ("goalId", (JStr (pl_goal_id r)));
    ("roadmapId", (JStr (pl_roadmap_id r)));
    ("correlationId", (JStr (pl_correlation_id r)));
    ("title", (JStr (pl_title r)));
    ("summary", (JStr (pl_summary r)));
    ("scope", (JStr (pl_scope r)));
    ("assumptions", (json_strings (pl_assumptions r)));
    ("stopConditions", (json_strings (pl_stop_conditions r)));
    ("validationSteps", (json_strings (pl_validation_steps r)));
    ("targetedWorkPointIds", (json_strings (pl_targeted_work_point_ids r)));
    ("effortTier", (JStr (as_str (pl_effort_tier r))));
    ("routingHint", (json_opt (pl_routing_hint r)));
    ("allowParallelOverlap", (JBool (pl_allow_parallel_overlap r)));
    ("fileScopes", (JArr (map FileScopeRecord_to_value (pl_file_scopes r))));
    ("status", (JStr (as_str (pl_status r))));
    ("tags", (json_strings (pl_tags r)));
    ("revision", (JInt (pl_revision r)));
    ("createdAt", (JStr (pl_created_at r)));
    ("updatedAt", (JStr (pl_updated_at r)))].

Definition TodoRecord_to_value (r : TodoRecord) : json :=
  json_object [
    ("id", (JStr (td_id r)));
    ("scopeKey", (JStr (td_scope_key r)));
    ("planId", (json_opt (td_plan_id r)));
    ("workPointId", (json_opt (td_work_point_id r)));
    ("title", (JStr (td_title r)));
    ("summary", (JStr (td_summary r)));
    ("status", (JStr (as_str (td_status r))));
    ("priority", (JStr (as_str (td_priority r))));
    ("effortTier", (JStr (as_str (td_effort_tier r))));
    ("fileScopes", (JArr (map FileScopeRecord_to_value (td_file_scopes r))));
    ("evidenceRefs", (json_strings (td_evidence_refs r)));
    ("tags", (json_strings (td_tags r)));
    ("ordering", (JInt (td_ordering r)));
    ("revision", (JInt (td_revision r)));
    ("createdAt", (JStr (td_created_at r)));
    ("updatedAt", (JStr (td_updated_at r)))].

Definition IssueRecord_to_value (r : IssueRecord) : json :=
  json_object [
    ("id", (JStr (is_id r)));
    ("scopeKey", (JStr (is_scope_key r)));
    ("correlationId", (JStr (is_correlation_id r)));
    ("title", (JStr (is_title r)));
    ("summary", (JStr (is_summary r)));
    ("status", (JStr (as_str (is_status r))));
    ("severity", (JStr (as_str (is_severity r))));
    ("relatedEntityType", (json_opt (as_str <$> (is_related_entity_type r))));
    ("relatedEntityId", (json_opt (is_related_entity_id r)));
    ("tags", (json_strings (is_tags r)));
    ("revision", (JInt (is_revision r)));
    ("createdAt", (JStr (is_created_at r)));
    ("updatedAt", (JStr (is_updated_at r)))].

Definition ReviewPointRecord_to_value (r : ReviewPointRecord) : json :=
  json_object [
    ("id", (JStr (rp_id r)));
    ("scopeKey", (JStr (rp_scope_key r)));
    ("attachedEntityType", (JStr (as_str (rp_attached_entity_type r))));
    ("attachedEntityId", (JStr (rp_attached_entity_id r)));
    ("title", (JStr (rp_title r)));
    ("summary", (JStr (rp_summary r)));
    ("status", (JStr (as_str (rp_status r))));
    ("severity", (JStr (as_str (rp_severity r))));
    ("revision", (JInt (rp_revision r)));
    ("createdAt", (JStr (rp_created_at r)));
    ("updatedAt", (JStr (rp_updated_at r)))].

Definition InsightRecord_to_value (r : InsightRecord) : json :=
  json_object [
    ("id", (JStr (ins_id r)));
    ("scopeKey", (JStr (ins_scope_key r)));
    ("correlationId", (JStr (ins_correlation_id r)));
    ("title", (JStr (ins_title r)));
    ("content", (JStr (ins_content r)));
    ("insightType", (JStr (as_str (ins_insight_type r))));
    ("parentEntityType", (JStr (as_str (ins_parent_entity_type r))));
    ("parentEntityId", (JStr (ins_parent_entity_id r)));
    ("tags", (json_strings (ins_tags r)));
    ("status", (JStr (as_str (ins_status r))));
    ("revision", (JInt (ins_revision r)));
    ("createdAt", (JStr (ins_created_at r)));
    ("updatedAt", (JStr (ins_updated_at r)))].

(** [ProjectRunEvidence::default()]. *)
Definition ProjectRunEvidence_default : ProjectRunEvidence :=
  mkProjectRunEvidence [] [] [] None None [] [].

(** [MutationResult<T>]. *)
Record MutationResult (T : Type) := mkMutationResult {
  mr_record : T; mr_validation : ValidationReport }.
Arguments mkMutationResult {T}.
Arguments mr_record {T}.
Arguments mr_validation {T}.

(** ** Validation reports *)

(** The comparator of [ValidationReport::from_findings]: severity by its
    printed name, then code, then message. *)
Definition finding_leb (l r : ValidationFinding) : bool :=
  match String.compare (as_str (vf_severity l)) (as_str (vf_severity r)) with
  | Lt => true | Gt => false
  | Eq => match String.compare (vf_code l) (vf_code r) with
          | Lt => true | Gt => false
          | Eq => match String.compare (vf_message l) (vf_message r) with
                  | Gt => false | _ => true
                  end
          end
  end.

Definition is_error (f : ValidationFinding) : bool :=
  bool_decide (vf_severity f = ValidationSeverity.Error).

(** [ValidationReport::from_findings]. *)
Definition from_findings (findings : list ValidationFinding) : ValidationReport :=
  let findings := sort_by finding_leb findings in
  let status :=
    if existsb is_error findings then ValidationStatus.Invalid
    else match findings with [] => ValidationStatus.Valid | _ => ValidationStatus.Warning end in
  mkValidationReport status findings.

Lemma compare_total a b : String.compare a b = Gt -> String.compare b a = Lt.
Proof. rewrite (String.compare_antisym a b). by destruct (String.compare b a). Qed.

Lemma finding_leb_total l r : finding_leb l r = true \/ finding_leb r l = true.
Proof.
  unfold finding_leb.
  rewrite (String.compare_antisym (as_str (vf_severity r))),
    (String.compare_antisym (vf_code r)), (String.compare_antisym (vf_message r)).
  destruct (String.compare (as_str (vf_severity l)) (as_str (vf_severity r))); auto.
  destruct (String.compare (vf_code l) (vf_code r)); auto.
  destruct (String.compare (vf_message l) (vf_message r)); auto.
Qed.

(** [from_findings] keeps every finding, in the order of the comparator,
    and its status is Invalid iff some finding is an error, Valid iff there is
    none, and Warning otherwise. *)
Theorem from_findings_spec fs :
  vr_findings (from_findings fs) ≡ₚ fs /\
  Sorted (fun a b => finding_leb a b = true) (vr_findings (from_findings fs)) /\
  (vr_status (from_findings fs) = ValidationStatus.Invalid <->
     exists f, f ∈ fs /\ vf_severity f = ValidationSeverity.Error) /\
  (vr_status (from_findings fs) = ValidationStatus.Valid <-> fs = []).
Proof.
  pose proof (sort_by_perm finding_leb fs) as Hp. unfold from_findings; simpl.
  split_and!; [done|apply sort_by_sorted, finding_leb_total| |].
  - assert (existsb is_error (sort_by finding_leb fs) = true <->
      exists f, f ∈ fs /\ vf_severity f = ValidationSeverity.Error) as <-.
    { rewrite existsb_exists. setoid_rewrite <- list_elem_of_In. setoid_rewrite Hp.
      unfold is_error. by setoid_rewrite bool_decide_eq_true. }
    destruct (existsb _ _); [done|]. by destruct (sort_by finding_leb fs).
  - destruct (existsb is_error (sort_by finding_leb fs)) eqn:E.
    + split; [done|]. intros ->. done.
    + destruct (sort_by finding_leb fs) eqn:Es.
      * split; [|done]. intros _. symmetry in Hp. by apply Permutation_nil_r in Hp.
      * split; [done|]. intros ->. done.
Qed.

(** Every status, kind and type column survives the database: printing a
    variant and parsing it back gives the variant, distinct variants print
    differently, and a text parses only if it is the literal of the variant.
    (Stated over the class every [string_enum!] instantiates.) *)
Theorem string_enum_roundtrip {A} `{StringEnum A} (v : A) (s : string) :
  from_str (as_str v) = Some v /\ (from_str s = Some v <-> as_str v = s) /\
  (from_str (A:=A) s = None <-> forall w : A, as_str w <> s).
Proof.
  split_and!; [apply from_as_str|apply from_str_Some|]. split.
  - intros E w Hw. apply from_str_Some in Hw. congruence.
  - intros Hn. destruct (from_str s) as [w|] eqn:E; [|done].
    apply from_str_Some in E. by destruct (Hn w).
Qed.
