(* ===== verification/Tx.v ===== *)
(** Transactions: a state and error monad over the planning store's world.

    [Tx S A] reads and updates a state and either returns or fails.  A
    failure carries no state: a [rusqlite::Transaction] dropped on an error
    path rolls back, and a single failing statement changes nothing, so the
    code that goes on after an error goes on from the state before it. *)
From S2P Require Import Prelude Text.

(** The errors SQLite reports for the statements the store executes. *)
Inductive SqliteError :=
| QueryReturnedNoRows
| InvalidColumnType
| FromSqlConversionFailure
| UniqueViolation (table : string)
| ForeignKeyViolation (table : string).

(** [PlanningStoreError] ([plugins/planning/src/error.rs]). *)
Inductive PlanningStoreError :=
| Sqlite (e : SqliteError)
| Json (message : string)
| CreateDirectory (path : string)
| NotFound (entity_type entity_id : string)
| InvalidInput (message : string)
| ProjectionParentMissing (path : string)
| ProjectionWrite (path : string)
| TimeFormat
| ActiveLeaseConflict (work_point_id : string)
| ProjectRunStatusMismatch (expected actual : string).

Inductive Outcome (S A : Type) :=
| Ok (a : A) (s : S)
| Fail (e : PlanningStoreError).
Arguments Ok {S A}.
Arguments Fail {S A}.

Definition Tx (S A : Type) := S -> Outcome S A.

#[export] Instance Tx_ret S : MRet (Tx S) := fun A a s => Ok a s.
#[export] Instance Tx_bind S : MBind (Tx S) := fun A B k m s =>
  match m s with Ok a s' => k a s' | Fail e => Fail e end.

Section Operations.
Context {S : Type}.

Definition fail {A} (e : PlanningStoreError) : Tx S A := fun _ => Fail e.
Definition reads {A} (f : S -> A) : Tx S A := fun s => Ok (f s) s.
Definition modify (f : S -> S) : Tx S unit := fun s => Ok tt (f s).

(** Rust's [?] on an [Option] turned into a [Result] with [ok_or]. *)
Definition ok_or {A} (o : option A) (e : PlanningStoreError) : Tx S A :=
  match o with Some a => mret a | None => fail e end.

(** [if !cond { return Err(e) }]. *)
Definition guard_or (b : bool) (e : PlanningStoreError) : Tx S unit :=
  if b then mret tt else fail e.

(** A [match] on a [Result]: [handle m] goes on with the error as a value. *)
Definition handle {A} (m : Tx S A) : Tx S (PlanningStoreError + A) := fun s =>
  match m s with Ok a s' => Ok (inr a) s' | Fail e => Ok (inl e) s end.

(** [result.map_err(f)]. *)
Definition map_err {A} (f : PlanningStoreError -> PlanningStoreError) (m : Tx S A) : Tx S A :=
  fun s => match m s with Ok a s' => Ok a s' | Fail e => Fail (f e) end.

(** [result.or_else(|_| m')]. *)
Definition or_else {A} (m m' : Tx S A) : Tx S A := fun s =>
  match m s with Ok a s' => Ok a s' | Fail _ => m' s end.

(** A [for] loop that only has effects, and one that threads an accumulator. *)
Fixpoint for_each {A} (l : list A) (f : A -> Tx S unit) : Tx S unit :=
  match l with [] => mret tt | x :: l' => _ ← f x; for_each l' f end.
Fixpoint for_acc {A B} (l : list A) (f : B -> A -> Tx S B) (b : B) : Tx S B :=
  match l with [] => mret b | x :: l' => b' ← f b x; for_acc l' f b' end.

(** [transaction.commit()] on success, rollback on failure: the store's state
    after an operation. *)
Definition committed {A} (m : Tx S A) (s : S) : S :=
  match m s with Ok _ s' => s' | Fail _ => s end.
End Operations.

(** ** Inversion of successful runs *)

Section Inversion.
Context {S : Type}.
Implicit Types s : S.

Lemma bind_Ok {A B} (m : Tx S A) (k : A -> Tx S B) s b s2 :
  (m ≫= k) s = Ok b s2 <-> exists a s1, m s = Ok a s1 /\ k a s1 = Ok b s2.
Proof.
  unfold mbind, Tx_bind. destruct (m s) as [a s1|e]; split; try naive_solver.
Qed.
Lemma ret_Ok {A} (a b : A) s s' : mret (M:=Tx S) a s = Ok b s' <-> b = a /\ s' = s.
Proof. unfold mret, Tx_ret. naive_solver. Qed.
Lemma reads_Ok {A} (f : S -> A) b s s' : reads f s = Ok b s' <-> b = f s /\ s' = s.
Proof. unfold reads. split; [by intros [= <- <-]|by intros [-> ->]]. Qed.
Lemma fail_Ok {A} e (b : A) s s' : fail e s = Ok b s' <-> False.
Proof. done. Qed.
Lemma modify_Ok (f : S -> S) b s s' : modify f s = Ok b s' <-> s' = f s.
Proof. unfold modify. destruct b. naive_solver. Qed.
Lemma ok_or_Ok {A} (o : option A) e b s s' : ok_or o e s = Ok b s' <-> o = Some b /\ s' = s.
Proof. unfold ok_or, mret, Tx_ret, fail. destruct o; naive_solver. Qed.
Lemma guard_or_Ok c e b s s' : guard_or c e s = Ok b s' <-> c = true /\ s' = s.
Proof. unfold guard_or, mret, Tx_ret, fail. destruct c, b; naive_solver. Qed.
Lemma map_err_Ok {A} f (m : Tx S A) b s s' : map_err f m s = Ok b s' <-> m s = Ok b s'.
Proof. unfold map_err. destruct (m s); naive_solver. Qed.
Lemma handle_inr {A} (m : Tx S A) b s s' : handle m s = Ok (inr b) s' <-> m s = Ok b s'.
Proof. unfold handle. destruct (m s); naive_solver. Qed.
Lemma handle_inl {A} (m : Tx S A) e s s' :
  handle m s = Ok (inl e) s' <-> m s = Fail e /\ s' = s.
Proof. unfold handle. destruct (m s); naive_solver. Qed.
End Inversion.

(** [tx_inv] unpacks every equation [m s = Ok a s'] of a composed [m]. *)
Ltac tx_step := match goal with
  | H : (let '(_, _) := ?p in _) _ = Ok _ _ |- _ => destruct p
  | H : (_ ≫= _) _ = Ok _ _ |- _ =>
      let a := fresh "a" in let s := fresh "s" in let H1 := fresh "R" in
      apply (proj1 (bind_Ok _ _ _ _ _)) in H; destruct H as (a & s & H1 & H)
  | H : mret _ _ = Ok _ _ |- _ => apply (proj1 (ret_Ok _ _ _ _)) in H; destruct H; subst
  | H : reads _ _ = Ok _ _ |- _ => apply (proj1 (reads_Ok _ _ _ _)) in H; destruct H; subst
  | H : fail _ _ = Ok _ _ |- _ => destruct (proj1 (fail_Ok _ _ _ _) H)
  | H : modify _ _ = Ok _ _ |- _ => apply (proj1 (modify_Ok _ _ _ _)) in H; subst
  | H : ok_or _ _ _ = Ok _ _ |- _ => apply (proj1 (ok_or_Ok _ _ _ _ _)) in H; destruct H; subst
  | H : guard_or _ _ _ = Ok _ _ |- _ => apply (proj1 (guard_or_Ok _ _ _ _ _)) in H; destruct H; subst
  | H : map_err _ _ _ = Ok _ _ |- _ => apply (proj1 (map_err_Ok _ _ _ _ _)) in H
  | H : handle _ _ = Ok (inr _) _ |- _ => apply (proj1 (handle_inr _ _ _ _)) in H
  | H : handle _ _ = Ok (inl _) _ |- _ => apply (proj1 (handle_inl _ _ _ _)) in H; destruct H; subst
  end.
Ltac tx_inv := repeat tx_step.

(** ** Frames

    [keeps f m]: a successful run of [m] leaves the component [f] of the
    state as it was.  The [frame] database decides it by the shape of [m]. *)
Definition keeps {S X A} (f : S -> X) (m : Tx S A) : Prop :=
  forall s a s', m s = Ok a s' -> f s' = f s.

Create HintDb frame.

Section Frames.
Context {S X : Type} (f : S -> X).

Lemma keeps_bind {A B} (m : Tx S A) (k : A -> Tx S B) :
  keeps f m -> (forall a, keeps f (k a)) -> keeps f (m ≫= k).
Proof.
  intros Hm Hk s b s' H. tx_inv. rewrite (Hk _ _ _ _ H). exact (Hm _ _ _ R).
Qed.
Lemma keeps_ret {A} (a : A) : keeps f (mret a).
Proof. intros s b s' H. by tx_inv. Qed.
Lemma keeps_fail {A} e : keeps f (fail (A:=A) e).
Proof. by intros s b s' H. Qed.
Lemma keeps_reads {A} (g : S -> A) : keeps f (reads g).
Proof. intros s b s' H. by tx_inv. Qed.
Lemma keeps_modify g : (forall s, f (g s) = f s) -> keeps f (modify g).
Proof. intros Hg s b s' H. by tx_inv. Qed.
Lemma keeps_ok_or {A} (o : option A) e : keeps f (ok_or o e).
Proof. intros s b s' H. by tx_inv. Qed.
Lemma keeps_guard_or b e : keeps f (guard_or b e).
Proof. intros s c s' H. by tx_inv. Qed.
Lemma keeps_handle {A} (m : Tx S A) : keeps f m -> keeps f (handle m).
Proof. intros Hm s [e|b] s' H; tx_inv; [done|exact (Hm _ _ _ H)]. Qed.
Lemma keeps_map_err {A} g (m : Tx S A) : keeps f m -> keeps f (map_err g m).
Proof. intros Hm s b s' H. tx_inv. exact (Hm _ _ _ H). Qed.
Lemma keeps_or_else {A} (m m' : Tx S A) : keeps f m -> keeps f m' -> keeps f (or_else m m').
Proof.
  intros Hm Hm' s b s' H. unfold or_else in H.
  destruct (m s) eqn:E; [injection H as <- <-; exact (Hm _ _ _ E)|exact (Hm' _ _ _ H)].
Qed.
Lemma keeps_for_each {A} (l : list A) g : (forall x, keeps f (g x)) -> keeps f (for_each l g).
Proof. intros Hg. induction l; simpl; [apply keeps_ret|by apply keeps_bind]. Qed.
Lemma keeps_for_acc {A B} (l : list A) (g : B -> A -> Tx S B) b :
  (forall b x, keeps f (g b x)) -> keeps f (for_acc l g b).
Proof.
  intros Hg. revert b. induction l; intros b; simpl; [apply keeps_ret|by apply keeps_bind].
Qed.
Lemma keeps_mapM {A B} (g : A -> Tx S B) (l : list A) :
  (forall x, keeps f (g x)) -> keeps f (mapM g l).
Proof.
  intros Hg. induction l as [|x l IH]; simpl; [apply keeps_ret|].
  apply keeps_bind; [done|]. intros y. apply keeps_bind; [done|]. intros. apply keeps_ret.
Qed.
Lemma keeps_if {A} (c : bool) (m m' : Tx S A) :
  keeps f m -> keeps f m' -> keeps f (if c then m else m').
Proof. by destruct c. Qed.
End Frames.

(** A frame for [f] is one for whatever [f] determines. *)
Lemma keeps_proj {S X Y A} (f : S -> X) (g : S -> Y) (m : Tx S A) :
  keeps f m -> (forall s s', f s' = f s -> g s' = g s) -> keeps g m.
Proof. intros Hm Hfg s a s' H. by eapply Hfg, Hm. Qed.

#[export] Hint Resolve keeps_bind keeps_ret keeps_fail keeps_reads keeps_ok_or keeps_guard_or
  keeps_handle keeps_map_err keeps_or_else keeps_for_each keeps_for_acc keeps_mapM : frame.

(** [frame]: proves a [keeps] goal from the [frame] database, splitting on
    the tests and matches of the program. *)
Ltac frame_step := lazymatch goal with
  | |- keeps _ (_ ≫= _) => apply keeps_bind; [|intros ?]
  | |- keeps _ (match ?x with _ => _ end) => destruct x
  | |- keeps _ (let _ := _ in _) => cbv zeta
  | |- keeps _ (for_each _ _) => apply keeps_for_each; intros ?
  | |- keeps _ (for_acc _ _ _) => apply keeps_for_acc; intros ? ?
  | |- keeps _ (mapM _ _) => apply keeps_mapM; intros ?
  | |- keeps _ _ => first
      [ solve [eauto 2 with frame nocore]
      | apply keeps_handle | apply keeps_map_err | apply keeps_or_else
      | apply keeps_modify; intros; reflexivity
      | apply keeps_bind | apply keeps_for_each | apply keeps_for_acc | apply keeps_mapM ]
  | |- _ => progress intros
  end.
Ltac frame := repeat frame_step.

(** ** Invariants

    [preserves P m]: a successful run of [m] from a state in [P] ends in [P].
    What keeps the part of
    the state [P] is about preserves [P] ([preserves_keeps]). *)
Definition preserves {S A} (P : S -> Prop) (m : Tx S A) : Prop :=
  forall s a s', m s = Ok a s' -> P s -> P s'.

Section Preserves.
Context {S : Type} (P : S -> Prop).

Lemma preserves_keeps {X A} (f : S -> X) (m : Tx S A) :
  (forall s s', f s' = f s -> P s -> P s') -> keeps f m -> preserves P m.
Proof. intros Hf Hm s a s' H. apply Hf. exact (Hm _ _ _ H). Qed.
Lemma preserves_bind {A B} (m : Tx S A) (k : A -> Tx S B) :
  preserves P m -> (forall a, preserves P (k a)) -> preserves P (m ≫= k).
Proof. intros Hm Hk s b s' H Hs. tx_inv. eapply Hk; [exact H|]. by eapply Hm. Qed.
Lemma preserves_ret {A} (a : A) : preserves P (mret a).
Proof. intros s b s' H. by tx_inv. Qed.
Lemma preserves_handle {A} (m : Tx S A) : preserves P m -> preserves P (handle m).
Proof. intros Hm s [e|b] s' H; tx_inv; [done|exact (Hm _ _ _ H)]. Qed.
Lemma preserves_map_err {A} g (m : Tx S A) : preserves P m -> preserves P (map_err g m).
Proof. intros Hm s b s' H. tx_inv. exact (Hm _ _ _ H). Qed.
Lemma preserves_for_each {A} (l : list A) g :
  (forall x, preserves P (g x)) -> preserves P (for_each l g).
Proof. intros Hg. induction l; simpl; [apply preserves_ret|by apply preserves_bind]. Qed.
Lemma preserves_for_acc {A B} (l : list A) (g : B -> A -> Tx S B) b :
  (forall b x, preserves P (g b x)) -> preserves P (for_acc l g b).
Proof.
  intros Hg. revert b. induction l; intros b; simpl; [apply preserves_ret|by apply preserves_bind].
Qed.
Lemma preserves_committed {A} (m : Tx S A) s : preserves P m -> P s -> P (committed m s).
Proof. intros Hm Hs. unfold committed. destruct (m s) eqn:E; [by eapply Hm|done]. Qed.
End Preserves.
