(* ===== verification/Table.v ===== *)
(** SQL tables as the store's statements use them.

    A table is the list of its rows in rowid order (insertion order).  A
    [SELECT .. WHERE key = ?] is [find_by], an [UPDATE .. WHERE] is
    [update_where], a [DELETE .. WHERE] keeps the other rows, and an [INSERT]
    appends the row unless its primary key is taken ([insert_row]).
    [ORDER BY a, b] sorts stably by the comparators in turn. *)
From S2P Require Import Prelude Text Tx.

Section Tables.
Context {R : Type}.
Implicit Types (key : R -> string) (l : list R).

Fixpoint find_by key (k : string) l : option R :=
  match l with
  | [] => None
  | r :: l' => if decide (key r = k) then Some r else find_by key k l'
  end.

Definition update_where (p : R -> bool) (f : R -> R) l : list R :=
  map (fun r => if p r then f r else r) l.

Definition select_where (p : R -> bool) l : list R := List.filter p l.
Definition delete_where (p : R -> bool) l : list R := List.filter (fun r => negb (p r)) l.

(** The rows after the [INSERT], or [None] on a primary-key conflict. *)
Definition insert_row key (r : R) l : option (list R) :=
  match find_by key (key r) l with Some _ => None | None => Some (l ++ [r]) end.

(** [COALESCE(MAX(column), 0)] over the selected rows. *)
Definition max_or_zero (col : R -> Z) l : Z :=
  match map col l with [] => 0%Z | x :: xs => fold_left Z.max xs x end.

Lemma find_by_Some key k l r : find_by key k l = Some r -> r ∈ l /\ key r = k.
Proof.
  induction l as [|r' l IH]; simpl; [done|]. case_decide; [intros [= ->]|]; set_solver.
Qed.

Lemma find_by_None key k l : find_by key k l = None <-> forall r, r ∈ l -> key r <> k.
Proof.
  induction l as [|r l IH]; simpl; [set_solver|]. case_decide.
  - split; [done|]. intros H'. exfalso. eapply H'; [|done]. set_solver.
  - rewrite IH. split; [|set_solver]. intros Hl r' [->|Hr]%elem_of_cons; [done|by apply Hl].
Qed.

Lemma find_by_elem key l r : NoDup (map key l) -> r ∈ l -> find_by key (key r) l = Some r.
Proof.
  induction l as [|r' l IH]; simpl; [set_solver|].
  rewrite NoDup_cons, elem_of_cons. intros [Hn Hl] [->|Hr]; [by rewrite decide_True|].
  rewrite decide_False; [by apply IH|]. intros E. apply Hn. rewrite E.
  apply list_elem_of_fmap. by exists r.
Qed.

Lemma find_by_app_l key k l l' r : find_by key k l = Some r -> find_by key k (l ++ l') = Some r.
Proof. induction l as [|x l IH]; simpl; [done|]. by case_decide. Qed.

Lemma find_by_app_r key k l l' : find_by key k l = None -> find_by key k (l ++ l') = find_by key k l'.
Proof. induction l as [|r l IH]; simpl; [done|]. case_decide; [done|]. apply IH. Qed.
Lemma find_by_update_where key p f k l :
  (forall r, key (f r) = key r) ->
  find_by key k (update_where p f l) = (fun r => if p r then f r else r) <$> find_by key k l.
Proof.
  intros Hf. induction l as [|r l IH]; simpl; [done|].
  assert (key (if p r then f r else r) = key r) as -> by (destruct (p r); auto).
  case_decide; [done|apply IH].
Qed.

Lemma keys_update_where key p f l :
  (forall r, key (f r) = key r) -> map key (update_where p f l) = map key l.
Proof.
  intros Hf. unfold update_where. rewrite map_map. apply map_ext. intros r.
  by destruct (p r).
Qed.

Lemma elem_of_update_where p f l r :
  r ∈ update_where p f l <-> exists r', r' ∈ l /\ r = if p r' then f r' else r'.
Proof. unfold update_where. rewrite list_elem_of_fmap. naive_solver. Qed.

Lemma elem_of_select_where p l r : r ∈ select_where p l <-> r ∈ l /\ p r = true.
Proof. unfold select_where. by rewrite !list_elem_of_In, filter_In. Qed.

Lemma elem_of_delete_where p l r : r ∈ delete_where p l <-> r ∈ l /\ p r = false.
Proof. unfold delete_where. by rewrite !list_elem_of_In, filter_In, negb_true_iff. Qed.

Lemma insert_row_Some key r l l' :
  insert_row key r l = Some l' <-> l' = l ++ [r] /\ forall r', r' ∈ l -> key r' <> key r.
Proof.
  unfold insert_row. rewrite <- find_by_None. destruct (find_by _ _ _); naive_solver.
Qed.

Lemma insert_row_NoDup key r l l' :
  insert_row key r l = Some l' -> NoDup (map key l) -> NoDup (map key l').
Proof.
  intros [-> Hr]%insert_row_Some Hn. rewrite map_app. simpl. apply NoDup_app.
  split_and!; [done| |apply NoDup_singleton].
  intros k Hk ->%list_elem_of_singleton. apply list_elem_of_fmap in Hk as (r' & E & Hr').
  by apply (Hr r').
Qed.

Lemma fold_max_le (xs : list Z) x y :
  (y <= x \/ exists z, z ∈ xs /\ y <= z)%Z -> (y <= fold_left Z.max xs x)%Z.
Proof.
  revert x. induction xs as [|z xs IH]; intros x; simpl.
  - intros [?|(z & Hz & _)]; [done|set_solver].
  - intros [?|(z' & [->|Hz]%elem_of_cons & ?)]; apply IH; [left; lia|left; lia|right; eauto].
Qed.

Lemma max_or_zero_ge (col : R -> Z) l r : r ∈ l -> (col r <= max_or_zero col l)%Z.
Proof.
  unfold max_or_zero. destruct l as [|r' l]; simpl; [set_solver|].
  intros [->|Hr]%elem_of_cons; apply fold_max_le; [left; lia|right].
  exists (col r). split; [|lia]. apply list_elem_of_fmap. by exists r.
Qed.

Lemma fold_max_in (xs : list Z) x : fold_left Z.max xs x = x \/ fold_left Z.max xs x ∈ xs.
Proof.
  revert x. induction xs as [|z xs IH]; intros x; simpl; [by left|].
  destruct (IH (Z.max x z)) as [->|?]; [|right; set_solver].
  destruct (Z.max_spec x z) as [[_ ->]|[_ ->]]; [right; set_solver|by left].
Qed.

Lemma max_or_zero_in (col : R -> Z) l :
  max_or_zero col l = 0%Z \/ exists r, r ∈ l /\ col r = max_or_zero col l.
Proof.
  unfold max_or_zero. destruct l as [|r l]; simpl; [by left|right].
  destruct (fold_max_in (map col l) (col r)) as [->|Hi]; [exists r; set_solver|].
  apply list_elem_of_fmap in Hi as (r' & -> & Hr'). exists r'. set_solver.
Qed.
End Tables.

(** ** [ORDER BY] *)
Definition leb_by {A} (cmp : A -> A -> comparison) (a b : A) : bool :=
  match cmp a b with Gt => false | _ => true end.
(** [Ordering::then_with], or the next column of an [ORDER BY]. *)
Definition then_by {A} (c d : A -> A -> comparison) (a b : A) : comparison :=
  match c a b with Eq => d a b | r => r end.
Definition asc_str {A} (f : A -> string) (a b : A) : comparison := String.compare (f a) (f b).
Definition desc_str {A} (f : A -> string) (a b : A) : comparison := String.compare (f b) (f a).
Definition asc_Z {A} (f : A -> Z) (a b : A) : comparison := Z.compare (f a) (f b).
Definition order_by {A} (cmp : A -> A -> comparison) (l : list A) : list A :=
  sort_by (leb_by cmp) l.

Lemma elem_of_order_by {A} cmp (l : list A) x : x ∈ order_by cmp l <-> x ∈ l.
Proof. apply elem_of_sort_by. Qed.
