(* ===== verification/Store.v ===== *)
(** The planning store: its tables, its world and the shared helpers of
    [plugins/planning/src/storage.rs] and [session.rs].

    [Db] has a table per SQL table the modelled operations touch; a column
    holding JSON text or a printed enum is kept as the value it encodes (the
    enum columns are lossless by [Model.string_enum_roundtrip]).  [World] adds
    the position in the streams of clock readings and of fresh UUIDs and the
    session file.  Everything outside the repository (the clock, RFC 3339
    text, SQLite's [julianday], UUIDs, JSON text, file-system success) is a
    field of the class [External]. *)
From stdpp Require Import pretty.
From S2P Require Import Prelude Text Json Model Tx Table.

(** ** The outside world *)
Class External := {
  utc_now : nat -> Z;                          (* ns since the epoch, n-th reading *)
  rfc3339_format : Z -> option string;         (* OffsetDateTime::format *)
  rfc3339_parse : string -> option Z;          (* OffsetDateTime::parse *)
  julianday : string -> option Z;              (* SQLite julianday, NULL as None *)
  uuid_v4 : nat -> string;                     (* n-th Uuid::new_v4 *)
  json_to_string : json -> string;
  json_to_string_pretty : json -> string;
  debug_strings : list string -> string;       (* {:?} of a Vec<&String> *)
  session_readable : nat -> bool;              (* session file I/O succeeds *)
  session_writable : nat -> bool;
}.

(** ** Rows that are not records of the model *)
Record FileScopeRow := mkFileScopeRow {
  fsr_id : string; fsr_scope_key : string; fsr_owner_type : EntityType;
  fsr_owner_id : string; fsr_scope : FileScopeRecord; fsr_ordering : Z }.
Record TagRow := mkTagRow {
  tg_scope_key : string; tg_entity_type : EntityType; tg_entity_id : string; tg_tag : string }.
(** The rows of [entities_fts] and [insights_fts]. *)
Record FtsRow := mkFtsRow {
  ft_entity_id : string; ft_entity_type : EntityType; ft_scope_key : string;
  ft_title : string; ft_content : string }.
Record InsightFtsRow := mkInsightFtsRow {
  ift_entity_id : string; ift_title : string; ift_content : string }.
Record EventRow := mkEventRow { evr_scope_key : string; evr_event : PlanningEvent }.

(** [ActiveProjectRunState] and [PlanningSession]. *)
Record ActiveProjectRunState := mkActiveProjectRunState {
  as_project_run_id : string; as_goal_id : string; as_roadmap_id : string;
  as_work_point_id : string; as_status : string; as_claimed_at : string;
  as_activated_at : option string; as_evidence_refs : list string }.
Record PlanningSession := mkPlanningSession {
  ps_session_id : string; ps_scope : string; ps_created_at : string; ps_last_used : string;
  ps_active_project_run : option ActiveProjectRunState;
  ps_last_active_work_point_id : option string;
  ps_last_completed_work_point_id : option string }.
#[export] Instance eta_PlanningSession : Eta PlanningSession := fun r =>
  mkPlanningSession (ps_session_id r) (ps_scope r) (ps_created_at r) (ps_last_used r)
    (ps_active_project_run r) (ps_last_active_work_point_id r)
    (ps_last_completed_work_point_id r).

(** ** The tables ([create_schema]) *)
Record Db := mkDb {
  db_scopes : list ScopeRecord;
  db_goals : list GoalRecord;
  db_roadmaps : list RoadmapRecord;
  db_sections : list RoadmapSectionRecord;
  db_work_points : list WorkPointRecord;
  db_plans : list PlanRecord;
  db_todos : list TodoRecord;
  db_issues : list IssueRecord;
  db_review_points : list ReviewPointRecord;
  db_insights : list InsightRecord;
  db_project_runs : list ProjectRunRecord;
  db_nodes : list PlanningGraphNode;
  db_edges : list PlanningGraphEdge;
  db_discoveries : list DiscoveryRecord;
  db_discovery_relationships : list DiscoveryRelationshipRecord;
  db_discovery_checkpoints : list DiscoveryCheckpointRecord;
  db_events : list EventRow;
  db_findings : list ValidationFinding;
  db_file_scopes : list FileScopeRow;
  db_tags : list TagRow;
  db_entities_fts : list FtsRow;
  db_insights_fts : list InsightFtsRow }.
#[export] Instance eta_Db : Eta Db := fun d =>
  mkDb (db_scopes d) (db_goals d) (db_roadmaps d) (db_sections d) (db_work_points d)
    (db_plans d) (db_todos d) (db_issues d) (db_review_points d) (db_insights d)
    (db_project_runs d) (db_nodes d) (db_edges d) (db_discoveries d)
    (db_discovery_relationships d) (db_discovery_checkpoints d) (db_events d)
    (db_findings d) (db_file_scopes d) (db_tags d) (db_entities_fts d) (db_insights_fts d).
Definition empty_db : Db := mkDb [] [] [] [] [] [] [] [] [] [] [] [] [] [] [] [] [] [] [] [] [] [].

Record World := mkWorld {
  w_db : Db; w_clock : nat; w_uuid : nat; w_io : nat; w_session : option PlanningSession }.
#[export] Instance eta_World : Eta World := fun w =>
  mkWorld (w_db w) (w_clock w) (w_uuid w) (w_io w) (w_session w).

Abbreviation M := (Tx World).

Definition rows {R} (table : Db -> list R) : M (list R) := reads (fun w => table (w_db w)).
Definition update_db (f : Db -> Db) : M unit := modify (fun w => w <| w_db ::= f |>).

Definition DEFAULT_LEASE_SECONDS : Z := 900.
Definition DEFAULT_SCOPE_KEY : string := "default".

Section Store.
Context `{External}.

(** ** Clock and identifiers *)
Definition now_string : M string :=
  n ← reads w_clock;
  _ ← modify (fun w => w <| w_clock := S n |>);
  ok_or (rfc3339_format (utc_now n)) TimeFormat.

Definition new_id : M string :=
  n ← reads w_uuid;
  _ ← modify (fun w => w <| w_uuid := S n |>);
  mret (uuid_v4 n).

(** [input.id.unwrap_or_else(new_id)]. *)
Definition id_or_new (id : option string) : M string :=
  match id with Some i => mret i | None => new_id end.

(** ** Input guards *)
Definition require_non_empty (field value : string) : M unit :=
  guard_or (negb (bool_decide (trim value = "")))
    (InvalidInput (field +:+ " must not be empty")).

Definition require_kebab_token (field value : string) : M unit :=
  let trimmed := trim value in
  _ ← guard_or (negb (bool_decide (trimmed = "")))
        (InvalidInput (field +:+ " must not be empty"));
  guard_or (is_kebab trimmed)
    (InvalidInput (field +:+ " must be a lowercase kebab-case token matching "
      +:+ "[a-z]([a-z0-9]*(-[a-z0-9]+)*)?, got: '" +:+ trimmed +:+ "'")).

Definition normalize_scope_key_value (value : string) : string :=
  let trimmed := trim value in
  if bool_decide (trimmed = "") then DEFAULT_SCOPE_KEY else trimmed.

Definition normalized_scope_key (scope_key : option string) : string :=
  match scope_key with
  | Some v => normalize_scope_key_value v
  | None => DEFAULT_SCOPE_KEY
  end.

(** An error whose message is a JSON object with a [code]. *)
Definition coded_error (fields : list (string * json)) : PlanningStoreError :=
  InvalidInput (json_to_string (json_object fields)).

(** ** Leases *)
Definition normalize_lease_seconds (value : option Z) : M Z :=
  let seconds := default DEFAULT_LEASE_SECONDS value in
  _ ← guard_or ((1 <=? seconds) && (seconds <=? 86400))%Z
        (coded_error [("code", JStr "PROJECT-RUN-LEASE-DURATION-INVALID");
                      ("message", JStr "leaseSeconds must be between 1 and 86400");
                      ("leaseSeconds", JInt seconds)]);
  mret seconds.

Definition lease_deadline (now : string) (lease_seconds : Z) : M string :=
  parsed ← ok_or (rfc3339_parse now) TimeFormat;
  ok_or (rfc3339_format (parsed + lease_seconds * 1000000000)%Z) TimeFormat.

Definition require_current_lease (record : ProjectRunRecord) (fencing_token : option Z)
    (now : string) : M unit :=
  supplied ← ok_or fencing_token
    (coded_error [("code", JStr "PROJECT-RUN-FENCING-TOKEN-REQUIRED");
                  ("message", JStr "pass the fencingToken returned by project-run claim");
                  ("projectRunId", JStr (pr_id record));
                  ("expectedFencingToken", JInt (pr_fencing_token record))]);
  _ ← guard_or (bool_decide (supplied = pr_fencing_token record))
    (coded_error [("code", JStr "PROJECT-RUN-STALE-FENCING-TOKEN");
                  ("message", JStr "the project run fencing token is stale");
                  ("projectRunId", JStr (pr_id record));
                  ("expectedFencingToken", JInt (pr_fencing_token record));
                  ("actualFencingToken", JInt supplied)]);
  lease_expires_at ← ok_or (rfc3339_parse (pr_lease_expires_at record)) TimeFormat;
  current_time ← ok_or (rfc3339_parse now) TimeFormat;
  guard_or (negb (lease_expires_at <=? current_time)%Z)
    (coded_error [("code", JStr "PROJECT-RUN-LEASE-EXPIRED");
                  ("message", JStr "the project run lease has expired");
                  ("projectRunId", JStr (pr_id record));
                  ("leaseExpiresAt", JStr (pr_lease_expires_at record))]).

(** ** Loading records *)

(** [query_row(.. WHERE key = ?1)] with [map_not_found]. *)
Definition load_by {R} (table : Db -> list R) (key : R -> string) (ty : EntityType)
    (id : string) : M R :=
  t ← rows table;
  ok_or (find_by key id t) (NotFound (as_str ty) id).

Definition load_file_scopes_for_entity (ty : EntityType) (id : string) : M (list FileScopeRecord) :=
  t ← rows db_file_scopes;
  mret (map fsr_scope
    (order_by (then_by (asc_Z fsr_ordering) (asc_str fsr_id))
      (select_where (fun r => bool_decide (fsr_owner_type r = ty)
                              && bool_decide (fsr_owner_id r = id)) t))).

Definition load_scope (key : string) : M ScopeRecord :=
  load_by db_scopes sc_scope_key EntityType.Scope key.
Definition load_goal (id : string) : M GoalRecord := load_by db_goals gl_id EntityType.Goal id.
Definition load_roadmap (id : string) : M RoadmapRecord :=
  load_by db_roadmaps rm_id EntityType.Roadmap id.
Definition load_plan (id : string) : M PlanRecord :=
  record ← load_by db_plans pl_id EntityType.Plan id;
  fs ← load_file_scopes_for_entity EntityType.Plan id;
  mret (record <| pl_file_scopes := fs |>).
Definition load_work_point (id : string) : M WorkPointRecord :=
  record ← load_by db_work_points wp_id EntityType.WorkPoint id;
  fs ← load_file_scopes_for_entity EntityType.WorkPoint id;
  mret (record <| wp_file_scopes := fs |>).
Definition load_todo (id : string) : M TodoRecord :=
  record ← load_by db_todos td_id EntityType.Todo id;
  fs ← load_file_scopes_for_entity EntityType.Todo id;
  mret (record <| td_file_scopes := fs |>).
Definition load_issue (id : string) : M IssueRecord := load_by db_issues is_id EntityType.Issue id.
Definition load_review_point (id : string) : M ReviewPointRecord :=
  load_by db_review_points rp_id EntityType.ReviewPoint id.
Definition load_insight (id : string) : M InsightRecord :=
  load_by db_insights ins_id EntityType.Insight id.
Definition load_project_run (id : string) : M ProjectRunRecord :=
  load_by db_project_runs pr_id EntityType.ProjectRun id.
Definition load_discovery (id : string) : M DiscoveryRecord :=
  load_by db_discoveries dn_id EntityType.DiscoveryNode id.
Definition load_graph_node (id : string) : M PlanningGraphNode :=
  load_by db_nodes pn_id EntityType.GraphNode id.
Definition load_graph_edge (id : string) : M PlanningGraphEdge :=
  load_by db_edges pe_id EntityType.GraphEdge id.

(** ** Listing records *)
Definition list_work_points_for_roadmap (roadmap_id : string) : M (list WorkPointRecord) :=
  t ← rows db_work_points;
  mapM (fun r => fs ← load_file_scopes_for_entity EntityType.WorkPoint (wp_id r);
                 mret (r <| wp_file_scopes := fs |>))
    (order_by (then_by (asc_Z wp_ordering) (asc_str wp_id))
      (select_where (fun r => bool_decide (wp_roadmap_id r = roadmap_id)) t)).
Definition list_todos_for_plan (plan_id : string) : M (list TodoRecord) :=
  t ← rows db_todos;
  mapM (fun r => fs ← load_file_scopes_for_entity EntityType.Todo (td_id r);
                 mret (r <| td_file_scopes := fs |>))
    (order_by (then_by (asc_Z td_ordering) (asc_str td_id))
      (select_where (fun r => bool_decide (td_plan_id r = Some plan_id)) t)).
Definition list_review_points_for_entity (ty : EntityType) (id : string)
    : M (list ReviewPointRecord) :=
  t ← rows db_review_points;
  mret (order_by (then_by (asc_str rp_created_at) (asc_str rp_id))
    (select_where (fun r => bool_decide (rp_attached_entity_type r = ty)
                            && bool_decide (rp_attached_entity_id r = id)) t)).

Definition kind_filter (kind : option PlanningEdgeKind) (e : PlanningGraphEdge) : bool :=
  match kind with Some k => bool_decide (pe_kind e = k) | None => true end.
Definition edge_order : PlanningGraphEdge -> PlanningGraphEdge -> comparison :=
  then_by (desc_str pe_updated_at) (asc_str pe_id).
Definition list_incoming_edges_for_node (node_id : string) (kind : option PlanningEdgeKind)
    : M (list PlanningGraphEdge) :=
  t ← rows db_edges;
  mret (order_by edge_order
    (select_where (fun e => bool_decide (pe_target_node_id e = node_id) && kind_filter kind e) t)).
Definition list_outgoing_edges_for_node (node_id : string) (kind : option PlanningEdgeKind)
    : M (list PlanningGraphEdge) :=
  t ← rows db_edges;
  mret (order_by edge_order
    (select_where (fun e => bool_decide (pe_source_node_id e = node_id) && kind_filter kind e) t)).
Definition list_incoming_edges_in_scope (node_id scope_key : string)
    (kind : option PlanningEdgeKind) : M (list PlanningGraphEdge) :=
  edges ← list_incoming_edges_for_node node_id kind;
  mret (select_where (fun e => bool_decide (pe_scope_key e = scope_key)) edges).
Definition list_outgoing_edges_in_scope (node_id scope_key : string)
    (kind : option PlanningEdgeKind) : M (list PlanningGraphEdge) :=
  edges ← list_outgoing_edges_for_node node_id kind;
  mret (select_where (fun e => bool_decide (pe_scope_key e = scope_key)) edges).

(** ** Scopes *)
Definition scope_of {R} (table : Db -> list R) (key scope : R -> string) (ty : EntityType)
    (id : string) : M string :=
  r ← load_by table key ty id; mret (scope r).

Definition scope_key_for_entity (ty : EntityType) (id : string) : M string :=
  match ty with
  | EntityType.Scope => scope_of db_scopes sc_scope_key sc_scope_key ty id
  | EntityType.Goal => scope_of db_goals gl_id gl_scope_key ty id
  | EntityType.Roadmap => scope_of db_roadmaps rm_id rm_scope_key ty id
  | EntityType.RoadmapSection => scope_of db_sections rs_id rs_scope_key ty id
  | EntityType.WorkPoint => scope_of db_work_points wp_id wp_scope_key ty id
  | EntityType.Plan => scope_of db_plans pl_id pl_scope_key ty id
  | EntityType.Todo => scope_of db_todos td_id td_scope_key ty id
  | EntityType.Issue => scope_of db_issues is_id is_scope_key ty id
  | EntityType.ReviewPoint => scope_of db_review_points rp_id rp_scope_key ty id
  | EntityType.Insight => scope_of db_insights ins_id ins_scope_key ty id
  | EntityType.ProjectRun => scope_of db_project_runs pr_id pr_scope_key ty id
  | EntityType.GraphNode => scope_of db_nodes pn_id pn_scope_key ty id
  | EntityType.GraphEdge => scope_of db_edges pe_id pe_scope_key ty id
  | EntityType.DiscoveryNode => scope_of db_discoveries dn_id dn_scope_key ty id
  | EntityType.DiscoveryRelationship =>
      scope_of db_discovery_relationships dr_id dr_scope_key ty id
  | EntityType.DiscoveryCheckpoint => scope_of db_discovery_checkpoints dc_id dc_scope_key ty id
  end.

Definition ensure_scope_exists (scope_key : string) : M unit :=
  t ← rows db_scopes;
  guard_or (bool_decide (is_Some (find_by sc_scope_key scope_key t)))
    (InvalidInput ("scopeKey references missing scope `" +:+ scope_key +:+ "`")).

Definition scope_reference_mismatch_error (field_name : string) (ty : EntityType)
    (id actual active : string) : PlanningStoreError :=
  InvalidInput (field_name +:+ " references " +:+ as_str ty +:+ " `" +:+ id +:+ "` in scope `"
    +:+ actual +:+ "`, not active scope `" +:+ active +:+ "`").
Definition scope_entity_mismatch_error (ty : EntityType) (id actual active : string)
    : PlanningStoreError :=
  InvalidInput (as_str ty +:+ " `" +:+ id +:+ "` is in scope `" +:+ actual
    +:+ "`, not active scope `" +:+ active +:+ "`").

(** Every lookup of [ensure_entity_exists] fails with [NotFound] exactly when
    the row is missing, which [scope_key_for_entity]'s lookup does too. *)
Definition ensure_entity_exists (ty : EntityType) (id field_name : string) : M unit :=
  map_err (fun e => match e with
    | NotFound _ _ => InvalidInput (field_name +:+ " references missing " +:+ as_str ty
                                    +:+ " `" +:+ id +:+ "`")
    | e => e end)
  match ty with
  | EntityType.WorkPoint => _ ← load_work_point id; mret tt
  | EntityType.Plan => _ ← load_plan id; mret tt
  | EntityType.Todo => _ ← load_todo id; mret tt
  | _ => _ ← scope_key_for_entity ty id; mret tt
  end.

Definition ensure_referenced_entity_in_scope (ty : EntityType) (id field_name active : string)
    : M string :=
  _ ← ensure_entity_exists ty id field_name;
  scope_key ← scope_key_for_entity ty id;
  _ ← guard_or (bool_decide (scope_key = active))
        (scope_reference_mismatch_error field_name ty id scope_key active);
  mret scope_key.

Definition ensure_entity_in_scope (ty : EntityType) (id active : string) : M string :=
  scope_key ← scope_key_for_entity ty id;
  _ ← guard_or (bool_decide (scope_key = active))
        (scope_entity_mismatch_error ty id scope_key active);
  mret scope_key.

(** ** Correlation ids *)
Definition roadmap_correlation_id (roadmap_id : string) : M string :=
  r ← load_roadmap roadmap_id; mret (rm_correlation_id r).
Definition plan_correlation_id (plan_id : string) : M string :=
  r ← load_plan plan_id; mret (pl_correlation_id r).
Definition work_point_correlation_id (work_point_id : string) : M string :=
  wp ← load_work_point work_point_id; roadmap_correlation_id (wp_roadmap_id wp).

Definition todo_correlation_id (todo : TodoRecord) : M string :=
  match td_plan_id todo, td_work_point_id todo with
  | Some plan_id, _ => plan_correlation_id plan_id
  | None, Some work_point_id => work_point_correlation_id work_point_id
  | None, None => mret ("corr-" +:+ td_id todo)
  end.

(** The recursion follows a review point to what it is attached to; [fuel]
    bounds it by the number of review points. *)
Fixpoint attached_entity_correlation_id_fuel (fuel : nat) (ty : EntityType) (id : string)
    : M string :=
  match ty with
  | EntityType.Scope => mret ("corr-scope-" +:+ id)
  | EntityType.Goal => r ← load_goal id; mret (gl_correlation_id r)
  | EntityType.Roadmap => roadmap_correlation_id id
  | EntityType.WorkPoint => work_point_correlation_id id
  | EntityType.Plan => plan_correlation_id id
  | EntityType.Todo => todo ← load_todo id; todo_correlation_id todo
  | EntityType.Issue => r ← load_issue id; mret (is_correlation_id r)
  | EntityType.Insight => r ← load_insight id; mret (ins_correlation_id r)
  | EntityType.ProjectRun => r ← load_project_run id; roadmap_correlation_id (pr_roadmap_id r)
  | EntityType.RoadmapSection =>
      r ← load_by db_sections rs_id EntityType.RoadmapSection id;
      roadmap_correlation_id (rs_roadmap_id r)
  | EntityType.ReviewPoint =>
      r ← load_review_point id;
      match fuel with
      | O => fail (Sqlite QueryReturnedNoRows)
      | S fuel' => attached_entity_correlation_id_fuel fuel'
                     (rp_attached_entity_type r) (rp_attached_entity_id r)
      end
  | EntityType.GraphNode => mret ("corr-graph-node-" +:+ id)
  | EntityType.GraphEdge => mret ("corr-graph-edge-" +:+ id)
  | EntityType.DiscoveryNode => r ← load_discovery id; mret (dn_correlation_id r)
  | EntityType.DiscoveryRelationship => mret ("corr-discovery-rel-" +:+ id)
  | EntityType.DiscoveryCheckpoint => mret ("corr-discovery-cp-" +:+ id)
  end.

Definition attached_entity_correlation_id (ty : EntityType) (id : string) : M string :=
  t ← rows db_review_points;
  attached_entity_correlation_id_fuel (length t) ty id.

(** ** Events *)
Definition resolve_event_scope_key (ty : EntityType) (id : string) (agg_ty : EntityType)
    (agg_id : string) : M string :=
  or_else (scope_key_for_entity ty id) (scope_key_for_entity agg_ty agg_id).

(** [SELECT COALESCE(MAX(sequence), 0) + 1 .. WHERE stream_id = ?1]. *)
Definition next_sequence (stream_id : string) (events : list EventRow) : Z :=
  (max_or_zero (fun r => pev_sequence (evr_event r))
     (select_where (fun r => bool_decide (pev_stream_id (evr_event r) = stream_id)) events) + 1)%Z.

Definition build_event (ty : EntityType) (id : string) (agg_ty : EntityType) (agg_id : string)
    (correlation_id : string) (run_id : option string) (event_type : string) (payload : json)
    : M PlanningEvent :=
  event_id ← new_id;
  timestamp ← now_string;
  events ← rows db_events;
  let sequence := next_sequence agg_id events in
  _ ← guard_or (0 <=? sequence)%Z (InvalidInput "event sequence became negative");
  mret (mkPlanningEvent event_id ty id agg_ty agg_id correlation_id None
          (default ("run-" +:+ event_id) run_id) agg_id sequence None event_type timestamp payload).

Definition append_event (event : PlanningEvent) : M unit :=
  scope_key ← resolve_event_scope_key (pev_entity_type event) (pev_entity_id event)
                (pev_aggregate_type event) (pev_aggregate_id event);
  _ ← guard_or (pev_sequence event <=? 9223372036854775807)%Z
        (InvalidInput "event sequence exceeds i64 range");
  t ← rows db_events;
  t' ← ok_or (insert_row (fun r => pev_event_id (evr_event r)) (mkEventRow scope_key event) t)
         (Sqlite (UniqueViolation "planning_events"));
  update_db (fun d => d <| db_events := t' |>).

(** The [append_event(&tx, build_event(&tx, ..)?)?] of every mutation. *)
Definition record_event (ty : EntityType) (id : string) (agg_ty : EntityType) (agg_id : string)
    (correlation_id : string) (run_id : option string) (event_type : string) (payload : json)
    : M unit :=
  event ← build_event ty id agg_ty agg_id correlation_id run_id event_type payload;
  append_event event.

(** ** Validation findings and tags *)
Definition persist_validation_findings (ty : EntityType) (id : string)
    (findings : list ValidationFinding) : M unit :=
  _ ← update_db (fun d => d <| db_findings ::=
        delete_where (fun f => bool_decide (vf_entity_type f = ty)
                               && bool_decide (vf_entity_id f = id)) |>);
  for_each findings (fun finding =>
    t ← rows db_findings;
    t' ← ok_or (insert_row vf_finding_id finding t) (Sqlite (UniqueViolation "validation_findings"));
    update_db (fun d => d <| db_findings := t' |>)).

Definition same_tag (a b : TagRow) : bool :=
  bool_decide (tg_scope_key a = tg_scope_key b) && bool_decide (tg_entity_type a = tg_entity_type b)
  && bool_decide (tg_entity_id a = tg_entity_id b) && bool_decide (tg_tag a = tg_tag b).

Definition rebuild_tag_index_for_entity (ty : EntityType) (id : string) (tags : list string)
    : M unit :=
  _ ← update_db (fun d => d <| db_tags ::=
        delete_where (fun t => bool_decide (tg_entity_type t = ty)
                               && bool_decide (tg_entity_id t = id)) |>);
  scope_key ← scope_key_for_entity ty id;
  for_each tags (fun tag =>
    let row := mkTagRow scope_key ty id tag in
    update_db (fun d => d <| db_tags ::= fun t =>
      if existsb (same_tag row) t then t else t ++ [row] |>)).

(** ** Full-text indexes *)
Definition upsert_fts_entry (ty : EntityType) (scope_key row_id title content : string) : M unit :=
  _ ← update_db (fun d => d <| db_entities_fts ::=
        delete_where (fun r => bool_decide (ft_entity_id r = row_id)
                               && bool_decide (ft_entity_type r = ty)
                               && bool_decide (ft_scope_key r = scope_key)) |>);
  update_db (fun d => d <| db_entities_fts ::= fun t =>
    t ++ [mkFtsRow row_id ty scope_key title content] |>).
Definition upsert_insights_fts_entry (row_id title content : string) : M unit :=
  _ ← update_db (fun d => d <| db_insights_fts ::=
        delete_where (fun r => bool_decide (ift_entity_id r = row_id)) |>);
  update_db (fun d => d <| db_insights_fts ::= fun t => t ++ [mkInsightFtsRow row_id title content] |>).

(** ** The session file *)
Definition session_readable_now : M bool :=
  n ← reads w_io; _ ← modify (fun w => w <| w_io := S n |>); mret (session_readable n).

Definition read_session : M (option PlanningSession) :=
  session ← reads w_session;
  match session with
  | None => mret None
  | Some s => b ← session_readable_now;
              _ ← guard_or b (CreateDirectory "planning-session.json"); mret (Some s)
  end.

Definition write_session (session : PlanningSession) : M unit :=
  n ← reads w_io;
  _ ← modify (fun w => w <| w_io := S n |>);
  _ ← guard_or (session_writable n) (CreateDirectory "planning-session.json");
  modify (fun w => w <| w_session := Some session |>).

Definition set_active_project_run (state : ActiveProjectRunState) : M unit :=
  existing ← read_session;
  session ← match existing with
            | Some s => mret s
            | None => id ← new_id; mret (mkPlanningSession id "default" "" "" None None None)
            end;
  write_session (session <| ps_active_project_run := Some state |>
                         <| ps_last_active_work_point_id := Some (as_work_point_id state) |>).

Definition clear_active_project_run (last_completed : option string) : M unit :=
  existing ← read_session;
  match existing with
  | None => mret tt
  | Some s =>
      let s := s <| ps_active_project_run := None |> in
      write_session (match last_completed with
                     | Some id => s <| ps_last_completed_work_point_id := Some id |>
                     | None => s end)
  end.

(** [let _ = m;]: the error of a best-effort call is dropped. *)
Definition ignore_result {A} (m : M A) : M unit := _ ← handle m; mret tt.
End Store.
