(* ===== verification/Walk.v ===== *)
(** The graph searches of the planning store.

    [walk] is the recursion shared by [walk_graph_edges] (over active edges of
    one kind) and [PlanningStore::would_create_cycle] (over "blocks" lists);
    [stack_walk] is the explicit-stack search of [validate_work_point].  Both
    thread the set of visited nodes.  The recursion is given fuel; a search
    over a graph whose nodes with successors lie in a finite set [D] needs at
    most [size D + 2] levels ([walk_total]), and both searches decide
    reachability ([walk_spec], [stack_walk_spec]). *)
From stdpp Require Import relations.
From S2P Require Import Prelude.

(** ** Acyclic relations *)
Definition acyclic {A} (R : relation A) : Prop := forall x, ~ tc R x x.
Definition add_edge {A} (R : relation A) (s t : A) : relation A :=
  fun x y => R x y \/ (x = s /\ y = t).

Section Acyclic.
Context {A : Type} (R : relation A).

Lemma add_edge_path s t x y :
  tc (add_edge R s t) x y -> tc R x y \/ (rtc R x s /\ rtc R t y).
Proof.
  induction 1 as [x y [HR|[-> ->]]|x y z [HR|[-> ->]] _ IH].
  - left. by apply tc_once.
  - right. split; apply rtc_refl.
  - destruct IH as [?|[? ?]]; [left; by eapply tc_l|right].
    split; [by eapply rtc_l|done].
  - right. split; [apply rtc_refl|]. destruct IH as [?|[_ ?]]; [by apply tc_rtc|done].
Qed.

(** Adding an edge whose target does not reach its source closes no cycle. *)
Lemma add_edge_acyclic s t : acyclic R -> ~ rtc R t s -> acyclic (add_edge R s t).
Proof.
  intros Ha Hts x [Hx|[Hxs Htx]]%add_edge_path; [by apply (Ha x)|].
  apply Hts. by transitivity x.
Qed.

Lemma acyclic_sub (Q : relation A) : (forall x y, Q x y -> R x y) -> acyclic R -> acyclic Q.
Proof. intros HQ Ha x Hx. apply (Ha x). by eapply (tc_congruence id R). Qed.
End Acyclic.

Section Walk.
Context (succ : string -> list string).

Definition next (x y : string) : Prop := y ∈ succ x.

(** The [for] loop over the successors, around the recursive call [rec]. *)
Fixpoint walk_each (rec : string -> gset string -> option (bool * gset string))
    (l : list string) (visited : gset string) : option (bool * gset string) :=
  match l with
  | [] => Some (false, visited)
  | x :: l' => match rec x visited with
               | Some (true, v) => Some (true, v)
               | Some (false, v) => walk_each rec l' v
               | None => None
               end
  end.

Fixpoint walk (fuel : nat) (target current : string) (visited : gset string)
    : option (bool * gset string) :=
  match fuel with
  | O => None
  | S fuel' =>
      if decide (current = target) then Some (true, visited)
      else if decide (current ∈ visited) then Some (false, visited)
      else walk_each (walk fuel' target) (succ current) ({[current]} ∪ visited)
  end.

Lemma walk_visited fuel target x v b v' : walk fuel target x v = Some (b, v') -> v ⊆ v'.
Proof.
  revert x v b v'. induction fuel as [|n IH]; intros x v b v'; simpl; [done|].
  case_decide; [intros [= <- <-]; done|]. case_decide; [intros [= <- <-]; done|].
  assert (forall l v b v', walk_each (walk n target) l v = Some (b, v') -> v ⊆ v') as Hl.
  { induction l as [|y l IHl]; simpl; intros v0 b0 v0'; [by intros [= <- <-]|].
    destruct (walk n target y v0) as [[[] v1]|] eqn:E; [intros [= <- <-]|intros Hl|done].
    - by eapply IH.
    - apply IH in E. apply IHl in Hl. set_solver. }
  intros Hw%Hl. set_solver.
Qed.

(** *** Termination *)
Section Total.
Context (D : gset string) (D_succ : forall x, x ∉ D -> succ x = []).

Lemma walk_total fuel target x v :
  size (D ∖ v) + 2 <= fuel -> is_Some (walk fuel target x v).
Proof.
  revert x v. induction fuel as [|n IH]; intros x v Hn; simpl; [lia|].
  case_decide; [done|]. case_decide as Hv; [done|].
  destruct (decide (x ∈ D)) as [HD|HD]; [|by rewrite (D_succ x HD)].
  assert (size (D ∖ ({[x]} ∪ v)) < size (D ∖ v)) as Hlt.
  { apply subset_size. split; [set_solver|]. intros Hsub. set_solver. }
  assert (size (D ∖ ({[x]} ∪ v)) + 2 <= n) as Hn' by lia. clear Hn Hlt.
  revert Hn'. generalize ({[x]} ∪ v) as u. induction (succ x) as [|y l IHl]; intros u Hu; simpl.
  - done.
  - destruct (IH y u Hu) as [[[] u'] E]; rewrite E; [done|]. apply IHl.
    apply walk_visited in E.
    assert (size (D ∖ u') <= size (D ∖ u)); [|lia]. apply subseteq_size. set_solver.
Qed.
End Total.

(** *** Correctness *)
Lemma walk_true fuel target x v v' :
  walk fuel target x v = Some (true, v') -> rtc next x target.
Proof.
  revert x v v'. induction fuel as [|n IH]; intros x v v'; simpl; [done|].
  case_decide; [intros _; subst; apply rtc_refl|]. case_decide; [done|].
  assert (forall l u, walk_each (walk n target) l u = Some (true, v') ->
                      exists y, y ∈ l /\ rtc next y target) as Hl.
  { induction l as [|y l IHl]; simpl; intros u; [done|].
    destruct (walk n target y u) as [[[] u']|] eqn:E; [intros _|intros Hl|done].
    - exists y. split; [set_solver|by eapply IH].
    - destruct (IHl _ Hl) as (z & Hz & ?). exists z. set_solver. }
  intros (y & Hy & Hr)%Hl. by eapply rtc_l.
Qed.

(** A negative answer leaves a visited set that contains the start, misses
    the target in its new part, and is closed under successors there. *)
Lemma walk_false fuel target x v v' :
  walk fuel target x v = Some (false, v') ->
  x ∈ v' /\ forall y, y ∈ v' -> y ∉ v -> y <> target /\ forall z, z ∈ succ y -> z ∈ v'.
Proof.
  revert x v v'. induction fuel as [|n IH]; intros x v v'; simpl; [done|].
  case_decide as Hx; [done|]. case_decide as Hv; [intros [= <-]; set_solver|].
  assert (forall l u, walk_each (walk n target) l u = Some (false, v') ->
            (forall y, y ∈ l -> y ∈ v') /\ u ⊆ v' /\
            forall y, y ∈ v' -> y ∉ u -> y <> target /\ forall z, z ∈ succ y -> z ∈ v') as Hl.
  { induction l as [|y l IHl]; simpl; intros u; [intros [= <-]; set_solver|].
    destruct (walk n target y u) as [[[] u']|] eqn:E; [done|intros Hl|done].
    destruct (IHl _ Hl) as (Hin & Hsub & Hcl). pose proof (walk_visited _ _ _ _ _ _ E).
    destruct (IH _ _ _ E) as [Hy Hcl']. split_and!; [set_solver|set_solver|].
    intros z Hz Hzu. destruct (decide (z ∈ u')) as [Hz'|Hz'].
    - destruct (Hcl' z Hz' Hzu) as [? Hs]. split; [done|]. intros a Ha. apply Hsub, Hs, Ha.
    - by apply Hcl. }
  intros (Hin & Hsub & Hcl)%Hl. split; [set_solver|].
  intros y Hy Hyv. destruct (decide (y = x)) as [->|Hne]; [by split|].
  apply Hcl; [done|]. set_solver.
Qed.

Lemma walk_spec fuel target x b v' :
  walk fuel target x ∅ = Some (b, v') -> (b = true <-> rtc next x target).
Proof.
  destruct b; intros Hw; [split; [|done]; intros _; by eapply walk_true|].
  split; [done|]. intros Hr. exfalso. apply walk_false in Hw as [Hx Hcl].
  assert (forall y, rtc next y target -> y ∈ v' -> False) as Hno; [|by eapply Hno].
  clear Hr Hx. intros y Hr. induction Hr as [y|y z w Hyz _ IH]; intros Hy.
  - destruct (Hcl y Hy); [set_solver|done].
  - apply IH; [done|]. by apply (Hcl y Hy); [set_solver|].
Qed.
End Walk.

(** ** The explicit-stack search

    The head of [stack] is the top of the Rust [Vec]: [pop] takes the head and
    [extend] pushes the successors with the last one on top. *)
Section StackWalk.
Context (succ : string -> list string).

Fixpoint stack_walk (fuel : nat) (target : string) (stack : list string) (visited : gset string)
    : option bool :=
  match fuel with
  | O => None
  | S fuel' =>
      match stack with
      | [] => Some false
      | x :: stack' =>
          if decide (x = target) then Some true
          else if decide (x ∈ visited) then stack_walk fuel' target stack' visited
          else stack_walk fuel' target (rev (succ x) ++ stack') ({[x]} ∪ visited)
      end
  end.

(** Successor lists not expanded yet, over the nodes [ds] that have any. *)
Definition weight (ds : list string) (v : gset string) : nat :=
  sum_list_with (fun x => if decide (x ∈ v) then 0 else length (succ x)) ds.

Lemma weight_mono ds (u v : gset string) : u ⊆ v -> weight ds v <= weight ds u.
Proof.
  intros Huv. unfold weight. induction ds as [|x ds IH]; simpl; [lia|].
  repeat case_decide; set_solver by lia.
Qed.

Lemma weight_visit ds x v :
  x ∈ ds -> x ∉ v -> weight ds ({[x]} ∪ v) + length (succ x) <= weight ds v.
Proof.
  intros Hx Hv. induction ds as [|y ds IH]; [set_solver|].
  apply elem_of_cons in Hx as [<-|Hx]; unfold weight in *; simpl.
  - rewrite decide_True by set_solver. rewrite decide_False by done.
    pose proof (weight_mono ds v ({[x]} ∪ v)) as Hm. unfold weight in Hm.
    assert (v ⊆ {[x]} ∪ v) as Hs by set_solver. specialize (Hm Hs). lia.
  - specialize (IH Hx). repeat case_decide; try lia. set_solver.
Qed.

Lemma stack_walk_total ds fuel target stack v :
  (forall x, x ∉ ds -> succ x = []) ->
  length stack + weight ds v < fuel -> is_Some (stack_walk fuel target stack v).
Proof.
  intros Hds. revert stack v. induction fuel as [|n IH]; intros stack v Hn; [lia|].
  destruct stack as [|x stack]; simpl in *; [done|].
  case_decide; [done|]. case_decide as Hv; [apply IH; lia|].
  apply IH. rewrite length_app, length_rev.
  destruct (decide (x ∈ ds)) as [Hx|Hx].
  - pose proof (weight_visit ds x v Hx Hv). lia.
  - rewrite (Hds x Hx). simpl.
    pose proof (weight_mono ds v ({[x]} ∪ v)) as Hm.
    assert (v ⊆ {[x]} ∪ v) as Hs by set_solver. specialize (Hm Hs). lia.
Qed.

Lemma stack_walk_true fuel target stack v :
  stack_walk fuel target stack v = Some true ->
  exists x, x ∈ stack /\ rtc (next succ) x target.
Proof.
  revert stack v. induction fuel as [|n IH]; intros stack v; simpl; [done|].
  destruct stack as [|x stack]; [done|].
  case_decide; [intros _; subst; exists target; split; [set_solver|apply rtc_refl]|].
  case_decide; intros (y & Hy & Hr)%IH.
  - exists y. split; [set_solver|done].
  - apply elem_of_app in Hy as [Hy|Hy]; [|exists y; split; [set_solver|done]].
    exists x. split; [set_solver|]. eapply rtc_l; [|done].
    unfold next. by rewrite <- Permutation_rev in Hy.
Qed.

Lemma stack_walk_false fuel target stack v :
  stack_walk fuel target stack v = Some false ->
  exists v', (forall x, x ∈ stack -> x ∈ v') /\ v ⊆ v' /\
    forall y, y ∈ v' -> y ∉ v -> y <> target /\ forall z, z ∈ succ y -> z ∈ v'.
Proof.
  revert stack v. induction fuel as [|n IH]; intros stack v; simpl; [done|].
  destruct stack as [|x stack]; [intros _; exists v; set_solver|].
  case_decide as Hx; [done|]. case_decide as Hv; intros (v' & Hst & Hsub & Hcl)%IH.
  - exists v'. split_and!; [set_solver|done|done].
  - exists v'. split_and!; [intros y Hy; set_solver|set_solver|].
    intros y Hy Hyv. destruct (decide (y = x)) as [->|Hne].
    + split; [done|]. intros z Hz. apply Hst, elem_of_app. left.
      by rewrite <- Permutation_rev.
    + apply Hcl; [done|set_solver].
Qed.

Lemma stack_walk_spec fuel target stack b :
  stack_walk fuel target stack ∅ = Some b ->
  (b = true <-> exists x, x ∈ stack /\ rtc (next succ) x target).
Proof.
  destruct b; intros Hw; [split; [|done]; intros _; by eapply stack_walk_true|].
  split; [done|]. intros (x & Hx & Hr). exfalso.
  apply stack_walk_false in Hw as (v' & Hst & _ & Hcl).
  apply Hst in Hx. clear Hst. induction Hr as [y|y z w Hyz _ IH].
  - destruct (Hcl y Hx); [set_solver|done].
  - apply IH; [done|]. by apply (Hcl y Hx); [set_solver|].
Qed.
End StackWalk.
