(* ===== verification/EdgeRules.v ===== *)
(** The rules an edge of the planning graph must obey
    ([plugins/planning/src/storage.rs], "Graph edge preflight helpers"):
    which node kinds an edge kind may connect, and the search that refuses
    an edge closing a cycle. *)
From stdpp Require Import relations.
From S2P Require Import Prelude Text Json Model Tx Table Store Walk.

Section EdgeRules.
Context `{External}.

(** ** Kind pairs *)
Definition kind_pair_error (edge_kind : PlanningEdgeKind) (source_kind target_kind : PlanningNodeKind)
    : PlanningStoreError :=
  InvalidInput ("invalid edge: " +:+ as_str edge_kind +:+ " edge cannot connect source kind `"
    +:+ as_str source_kind +:+ "` to target kind `" +:+ as_str target_kind +:+ "`").

(** The pairs for which the match of [validate_edge_kind_pair] is [Ok]. *)
Definition edge_kind_pair_ok (edge_kind : PlanningEdgeKind) (source target : PlanningNodeKind)
    : bool :=
  match edge_kind with
  | PlanningEdgeKind.DecomposesTo =>
      match source, target with
      | (PlanningNodeKind.Goal | PlanningNodeKind.Roadmap | PlanningNodeKind.Milestone
        | PlanningNodeKind.Work | PlanningNodeKind.Plan | PlanningNodeKind.Run),
        (PlanningNodeKind.Roadmap | PlanningNodeKind.Milestone | PlanningNodeKind.Work
        | PlanningNodeKind.Task) => true
      | _, _ => false
      end
  | PlanningEdgeKind.DependsOn =>
      match source, target with
      | (PlanningNodeKind.Work | PlanningNodeKind.Task),
        (PlanningNodeKind.Work | PlanningNodeKind.Task) => true
      | _, _ => false
      end
  | PlanningEdgeKind.Blocks =>
      match source, target with
      | (PlanningNodeKind.Work | PlanningNodeKind.Issue | PlanningNodeKind.Review),
        (PlanningNodeKind.Work | PlanningNodeKind.Task | PlanningNodeKind.Acceptance) => true
      | _, _ => false
      end
  | PlanningEdgeKind.ParallelSafeWith =>
      match source, target with PlanningNodeKind.Work, PlanningNodeKind.Work => true | _, _ => false end
  | PlanningEdgeKind.PlannedBy =>
      match source, target with PlanningNodeKind.Work, PlanningNodeKind.Plan => true | _, _ => false end
  | PlanningEdgeKind.ExecutedBy =>
      match source, target with
      | (PlanningNodeKind.Work | PlanningNodeKind.Plan), PlanningNodeKind.Run => true
      | _, _ => false
      end
  | PlanningEdgeKind.Contains =>
      match source, target with
      | (PlanningNodeKind.Run | PlanningNodeKind.Plan),
        (PlanningNodeKind.Task | PlanningNodeKind.Evidence | PlanningNodeKind.Issue
        | PlanningNodeKind.Review | PlanningNodeKind.Insight) => true
      | _, _ => false
      end
  | PlanningEdgeKind.Requires =>
      match source, target with
      | (PlanningNodeKind.Goal | PlanningNodeKind.Roadmap | PlanningNodeKind.Milestone
        | PlanningNodeKind.Work | PlanningNodeKind.Plan), PlanningNodeKind.Acceptance => true
      | _, _ => false
      end
  | PlanningEdgeKind.Satisfies =>
      match source, target with
      | PlanningNodeKind.Acceptance, PlanningNodeKind.Acceptance => true
      | _, _ => false
      end
  | PlanningEdgeKind.EvidencedBy =>
      match source, target with
      | (PlanningNodeKind.Acceptance | PlanningNodeKind.Work | PlanningNodeKind.Plan
        | PlanningNodeKind.Run | PlanningNodeKind.Issue | PlanningNodeKind.Review),
        PlanningNodeKind.Evidence => true
      | _, _ => false
      end
  | PlanningEdgeKind.Found =>
      match source, target with
      | (PlanningNodeKind.Run | PlanningNodeKind.Work | PlanningNodeKind.Plan),
        (PlanningNodeKind.Issue | PlanningNodeKind.Review) => true
      | _, _ => false
      end
  | PlanningEdgeKind.AddressedBy =>
      match source, target with
      | (PlanningNodeKind.Issue | PlanningNodeKind.Review),
        (PlanningNodeKind.Work | PlanningNodeKind.Plan) => true
      | _, _ => false
      end
  | PlanningEdgeKind.Repairs =>
      match source, target with PlanningNodeKind.Work, PlanningNodeKind.Work => true | _, _ => false end
  | PlanningEdgeKind.Supersedes =>
      match source, target with
      | (PlanningNodeKind.Work | PlanningNodeKind.Plan | PlanningNodeKind.Acceptance),
        (PlanningNodeKind.Work | PlanningNodeKind.Plan | PlanningNodeKind.Acceptance) => true
      | _, _ => false
      end
  end.

Definition validate_edge_kind_pair (edge_kind : PlanningEdgeKind)
    (source_kind target_kind : PlanningNodeKind) : M unit :=
  guard_or (edge_kind_pair_ok edge_kind source_kind target_kind)
    (kind_pair_error edge_kind source_kind target_kind).

(** ** Cycles *)
Definition is_active (e : PlanningGraphEdge) : bool := bool_decide (pe_status e = "active").

(** [SELECT target_node_id .. WHERE source_node_id = ?1 AND kind = ?2 AND status = 'active']. *)
Definition active_targets (kind : PlanningEdgeKind) (edges : list PlanningGraphEdge)
    (node : string) : list string :=
  map pe_target_node_id
    (select_where (fun e => bool_decide (pe_source_node_id e = node)
                            && bool_decide (pe_kind e = kind) && is_active e) edges).

(** [would_create_graph_cycle] runs [walk_graph_edges] from the target,
    looking for the source.  Only sources of edges have successors, so
    [length edges + 2] levels are enough ([would_create_cycle_decides]). *)
Definition cycle_walk (kind : PlanningEdgeKind) (edges : list PlanningGraphEdge)
    (source target : string) : option (bool * gset string) :=
  walk (active_targets kind edges) (length edges + 2) source target ∅.

Definition would_create_graph_cycle (source_node_id target_node_id : string)
    (edge_kind : PlanningEdgeKind) : M bool :=
  edges ← rows db_edges;
  r ← ok_or (cycle_walk edge_kind edges source_node_id target_node_id)
        (Sqlite QueryReturnedNoRows);
  mret (fst r).

(** [matches!(kind, DecomposesTo | DependsOn)]: the kinds kept acyclic. *)
Definition is_acyclic_kind (k : PlanningEdgeKind) : bool :=
  match k with PlanningEdgeKind.DecomposesTo | PlanningEdgeKind.DependsOn => true | _ => false end.

(** ** Facts *)

(** The active edges of one kind, as a relation on node ids. *)
Definition edge_rel (kind : PlanningEdgeKind) (edges : list PlanningGraphEdge) : relation string :=
  fun x y => exists e, e ∈ edges /\ pe_kind e = kind /\ pe_status e = "active" /\
                       pe_source_node_id e = x /\ pe_target_node_id e = y.

Lemma elem_of_active_targets kind edges x y :
  y ∈ active_targets kind edges x <-> edge_rel kind edges x y.
Proof.
  unfold active_targets, edge_rel, is_active. rewrite list_elem_of_fmap.
  setoid_rewrite elem_of_select_where. setoid_rewrite andb_true_iff.
  setoid_rewrite andb_true_iff. setoid_rewrite bool_decide_eq_true. naive_solver.
Qed.

Lemma active_targets_sources kind edges x :
  x ∉ list_to_set (C:=gset string) (map pe_source_node_id edges) ->
  active_targets kind edges x = [].
Proof.
  intros Hx. destruct (active_targets kind edges x) as [|y l] eqn:E; [done|].
  assert (edge_rel kind edges x y) as (e & He & _ & _ & <- & _).
  { apply elem_of_active_targets. rewrite E. set_solver. }
  destruct Hx. apply elem_of_list_to_set, list_elem_of_fmap. by exists e.
Qed.

Lemma cycle_walk_total kind edges source target :
  is_Some (cycle_walk kind edges source target).
Proof.
  eapply walk_total; [apply active_targets_sources|].
  rewrite difference_empty_L.
  assert (forall l : list string, size (list_to_set (C:=gset string) l) <= length l) as Hsz.
  { induction l as [|a l IH]; [by rewrite list_to_set_nil, size_empty|].
    rewrite list_to_set_cons, size_union_alt, size_singleton. simpl.
    assert (size (list_to_set l ∖ {[a]} : gset string) <= size (list_to_set (C:=gset string) l)); [|lia].
    apply subseteq_size. set_solver. }
  pose proof (Hsz (map pe_source_node_id edges)) as Hl. rewrite length_map in Hl. lia.
Qed.

Lemma would_create_graph_cycle_run source target kind w :
  exists b, would_create_graph_cycle source target kind w = Ok b w /\
            (b = true <-> rtc (edge_rel kind (db_edges (w_db w))) target source).
Proof.
  destruct (cycle_walk_total kind (db_edges (w_db w)) source target) as [[b v] E].
  exists b. split.
  - unfold would_create_graph_cycle, rows, reads, mbind, Tx_bind. by rewrite E.
  - rewrite (walk_spec _ _ _ _ _ _ E). unfold next.
    assert (forall x y, y ∈ active_targets kind (db_edges (w_db w)) x
                        <-> edge_rel kind (db_edges (w_db w)) x y) as Hr
      by (intros; apply elem_of_active_targets).
    split; intros Hp.
    + eapply (rtc_congruence id); [|done]. intros x y; apply Hr.
    + eapply (rtc_congruence id); [|done]. intros x y; apply Hr.
Qed.

(** C26. The cycle check terminates on every edge table within the fuel the
    model gives it, and answers true exactly when the target already reaches
    the source over active edges of that kind. *)
Theorem would_create_cycle_decides source target kind w :
  exists b, would_create_graph_cycle source target kind w = Ok b w /\
            (b = true <-> rtc (edge_rel kind (db_edges (w_db w))) target source).
Proof. apply would_create_graph_cycle_run. Qed.
End EdgeRules.
