(* ===== verification/Validation.v ===== *)
(** The validators ([plugins/planning/src/validation.rs]).

    One definition per [validate_*] function: each reads the record and what
    it refers to and returns its findings, in the order the source pushes
    them.  [validate_entity] dispatches on the entity type, and
    [refresh_validation_target] stores the findings and reports them. *)
From stdpp Require Import pretty relations.
From S2P Require Import Prelude Text Json Model Tx Table Store Walk EdgeRules.

Section Validation.
Context `{External}.

(** ** Building findings *)
Definition finding (ty : EntityType) (id scope_key : string) (severity : ValidationSeverity)
    (code message : string) : M ValidationFinding :=
  let fingerprint := as_str ty +:+ "::" +:+ id +:+ "::" +:+ scope_key +:+ "::" +:+ code in
  finding_id ← new_id;
  created_at ← now_string;
  mret (mkValidationFinding finding_id ty id severity code message scope_key fingerprint created_at).
Definition warning (ty : EntityType) (id scope_key code message : string) : M ValidationFinding :=
  finding ty id scope_key ValidationSeverity.Warning code message.
Definition error (ty : EntityType) (id scope_key code message : string) : M ValidationFinding :=
  finding ty id scope_key ValidationSeverity.Error code message.

(** [if cond { findings.push(mk?) }]. *)
Definition push_if (cond : bool) (mk : M ValidationFinding) (findings : list ValidationFinding)
    : M (list ValidationFinding) :=
  if cond then f ← mk; mret (findings ++ [f]) else mret findings.

(** [if let Ok(x) = load(..)]. *)
Definition try_load {A} (m : M A) : M (option A) :=
  r ← handle m; mret (match r with inr a => Some a | inl _ => None end).

(** A load whose [NotFound] is a finding and whose other errors are returned. *)
Definition load_or_missing {A} (m : M A) : M (option A) :=
  r ← handle m;
  match r with
  | inr a => mret (Some a)
  | inl (NotFound _ _) => mret None
  | inl e => fail e
  end.

Definition cross_scope (ty : EntityType) (id scope_key : string) (message : string)
    : M ValidationFinding :=
  error ty id scope_key "CROSS-SCOPE-REFERENCE" message.

(** ** Status sets of the [matches!] tests *)
Definition goal_not_active (s : GoalStatus) : bool :=
  match s with
  | GoalStatus.Invalidated | GoalStatus.Superseded | GoalStatus.Abandoned => true
  | _ => false end.
(** The statuses SQL lists as ['claimed', 'active', 'interrupted']. *)
Definition run_is_live (s : ProjectRunStatus) : bool :=
  match s with
  | ProjectRunStatus.Claimed | ProjectRunStatus.Active | ProjectRunStatus.Interrupted => true
  | _ => false end.
Definition work_point_terminal (s : WorkPointStatus) : bool :=
  match s with
  | WorkPointStatus.Completed | WorkPointStatus.Cancelled | WorkPointStatus.Invalidated => true
  | _ => false end.
Definition plan_terminal (s : PlanStatus) : bool :=
  match s with
  | PlanStatus.Completed | PlanStatus.Cancelled | PlanStatus.Invalidated => true
  | _ => false end.
Definition severe (s : Severity) : bool :=
  match s with Severity.High | Severity.Critical => true | _ => false end.

(** ** Project runs *)
Definition evidence_present (e : ProjectRunEvidence) : bool :=
  negb (bool_decide (ev_implementation_run_refs e = []))
  || negb (bool_decide (ev_validation_finding_refs e = []))
  || negb (bool_decide (ev_linked_spec_ids e = []))
  || bool_decide (is_Some (ev_commit_sha e)) || bool_decide (is_Some (ev_pr_url e)).

Definition validate_project_run (id : string) : M (list ValidationFinding) :=
  run ← load_project_run id;
  let ty := EntityType.ProjectRun in
  let sk := pr_scope_key run in
  goal ← load_goal (pr_goal_id run);
  fs ← push_if (goal_not_active (gl_status goal))
         (warning ty id sk "PROJECT-RUN-GOAL-NOT-ACTIVE"
           "project run references a goal that is no longer active") [];
  work_point ← load_work_point (pr_work_point_id run);
  fs ← push_if (match wp_status work_point with
                | WorkPointStatus.Cancelled | WorkPointStatus.Invalidated => true
                | _ => false end)
         (error ty id sk "PROJECT-RUN-WORK-POINT-INVALID"
           "project run references a work point that has been cancelled or invalidated") fs;
  fs ← push_if (run_is_live (pr_status run) && work_point_terminal (wp_status work_point))
         (error ty id sk "PROJECT-RUN-ON-COMPLETED-CANCELLED-WORK"
           "active project run references a work point that has been completed, cancelled, or invalidated")
         fs;
  fs ← push_if (bool_decide (pr_status run = ProjectRunStatus.Completed)
                && negb (evidence_present (pr_evidence run)))
         (warning ty id sk "PROJECT-RUN-COMPLETED-WITHOUT-EVIDENCE"
           "project run is completed but has no evidence refs") fs;
  goal ← try_load (load_goal (pr_goal_id run));
  fs ← match goal with
       | Some goal =>
           push_if (negb (bool_decide (gl_scope_key goal = sk)))
             (cross_scope ty id sk ("references goal `" +:+ pr_goal_id run +:+ "` in scope `"
               +:+ gl_scope_key goal +:+ "` but project run is in scope `" +:+ sk +:+ "`")) fs
       | None => mret fs end;
  fs ← push_if (negb (bool_decide (wp_scope_key work_point = sk)))
         (cross_scope ty id sk ("references work point `" +:+ pr_work_point_id run
           +:+ "` in scope `" +:+ wp_scope_key work_point
           +:+ "` but project run is in scope `" +:+ sk +:+ "`")) fs;
  roadmap ← try_load (load_roadmap (pr_roadmap_id run));
  fs ← match roadmap with
       | Some roadmap =>
           push_if (negb (bool_decide (rm_goal_id roadmap = pr_goal_id run)))
             (error ty id sk "PROJECT-RUN-GOAL-ROADMAP-MISMATCH"
               ("roadmap '" +:+ pr_roadmap_id run +:+ "' belongs to goal '" +:+ rm_goal_id roadmap
                 +:+ "', but project run references goal '" +:+ pr_goal_id run +:+ "'")) fs
       | None => mret fs end;
  wp ← try_load (load_work_point (pr_work_point_id run));
  match wp with
  | Some wp =>
      push_if (negb (bool_decide (wp_roadmap_id wp = pr_roadmap_id run)))
        (error ty id sk "PROJECT-RUN-WORK-POINT-ROADMAP-MISMATCH"
          ("work point '" +:+ pr_work_point_id run +:+ "' belongs to roadmap '"
            +:+ wp_roadmap_id wp +:+ "', but project run references roadmap '"
            +:+ pr_roadmap_id run +:+ "'")) fs
  | None => mret fs
  end.

(** ** Goals *)
Definition validate_goal (id : string) : M (list ValidationFinding) :=
  goal ← load_goal id;
  let ty := EntityType.Goal in
  let sk := gl_scope_key goal in
  fs ← push_if (bool_decide (gl_acceptance_criteria goal = []))
         (error ty id sk "GOAL-ACCEPTANCE-MISSING"
           "goal should define at least one acceptance criterion") [];
  fs ← push_if (bool_decide (gl_rejection_criteria goal = []))
         (error ty id sk "GOAL-REJECTION-MISSING"
           "goal should define at least one rejection criterion") fs;
  roadmaps ← rows db_roadmaps;
  let linked := select_where (fun r => bool_decide (rm_goal_id r = id)) roadmaps in
  fs ← push_if (bool_decide (gl_status goal = GoalStatus.Validated) && bool_decide (linked = []))
         (warning ty id sk "GOAL-VALIDATED-WITHOUT-ROADMAP"
           "validated goal has no linked roadmaps yet") fs;
  work_points ← rows db_work_points;
  plans ← rows db_plans;
  let active_wps := select_where (fun wp =>
        match find_by rm_id (wp_roadmap_id wp) roadmaps with
        | Some r => bool_decide (rm_goal_id r = id) && negb (work_point_terminal (wp_status wp))
        | None => false end) work_points in
  let active_plans := select_where (fun p =>
        bool_decide (pl_goal_id p = id) && negb (plan_terminal (pl_status p))) plans in
  fs ← push_if (match gl_status goal with
                | GoalStatus.Invalidated | GoalStatus.Abandoned => true | _ => false end
                && ((0 <? length active_wps)%nat || (0 <? length active_plans)%nat))
         (error ty id sk "GOAL-INVALIDATED-WITH-ACTIVE-WORK"
           ("goal has been invalidated or abandoned but has " +:+ pretty (length active_wps)
             +:+ " active work point(s) and " +:+ pretty (length active_plans)
             +:+ " active plan(s)")) fs;
  for_acc linked (fun fs r =>
    push_if (negb (bool_decide (rm_scope_key r = sk)))
      (cross_scope ty id sk ("linked roadmap is in scope `" +:+ rm_scope_key r
        +:+ "` but goal is in scope `" +:+ sk +:+ "`")) fs) fs.

(** ** Roadmaps and sections *)
Definition validate_roadmap (id : string) : M (list ValidationFinding) :=
  roadmap ← load_roadmap id;
  goal ← load_goal (rm_goal_id roadmap);
  work_points ← list_work_points_for_roadmap id;
  let ty := EntityType.Roadmap in
  let sk := rm_scope_key roadmap in
  fs ← push_if (bool_decide (length work_points = 0%nat))
         (warning ty id sk "ROADMAP-NO-WORK-POINTS" "roadmap has no work points yet") [];
  fs ← push_if (goal_not_active (gl_status goal))
         (error ty id sk "ROADMAP-GOAL-NOT-ACTIVE"
           "roadmap links to a goal that is invalidated, superseded, or abandoned") fs;
  push_if (bool_decide (rm_status roadmap = RoadmapStatus.Completed)
           && existsb (fun wp => negb (bool_decide (wp_status wp = WorkPointStatus.Completed)))
                work_points)
    (error ty id sk "ROADMAP-COMPLETED-WITH-OPEN-WORK"
      "completed roadmap still has non-completed work points") fs.

Definition validate_roadmap_section (id : string) : M (list ValidationFinding) :=
  section ← load_by db_sections rs_id EntityType.RoadmapSection id;
  work_points ← rows db_work_points;
  fs ← push_if (negb (existsb (fun wp => bool_decide (wp_section_id wp = Some id)) work_points))
         (warning EntityType.RoadmapSection id (rs_scope_key section) "ROADMAP-SECTION-EMPTY"
           ("roadmap section `" +:+ rs_slug section +:+ "` has no work points yet")) [];
  _ ← load_roadmap (rs_roadmap_id section);
  mret fs.

(** ** Work points *)

(** [load_work_point(..)] then [dependency_ids], or none when it is missing. *)
Definition dependencies_of (t : list WorkPointRecord) (id : string) : list string :=
  match find_by wp_id id t with Some r => wp_dependency_ids r | None => [] end.

(** The [while let Some(dep_id) = stack.pop()] loop: the top of the [Vec] is
    its last element, and a step for each stacked id is enough
    ([depends_on_itself_total]). *)
Definition depends_on_itself (t : list WorkPointRecord) (work_point_id : string)
    (dependency_ids : list string) : option bool :=
  stack_walk (dependencies_of t)
    (S (length dependency_ids + weight (dependencies_of t) (map wp_id t) ∅))
    work_point_id (rev dependency_ids) ∅.

(** One of the four [CROSS-SCOPE-REFERENCE] loops over ids of work points. *)
Definition cross_scope_loop (work_point : WorkPointRecord) (what : string) (ids : list string)
    (fs : list ValidationFinding) : M (list ValidationFinding) :=
  for_acc ids (fun fs other_id =>
    other ← try_load (load_work_point other_id);
    match other with
    | Some other =>
        push_if (negb (bool_decide (wp_scope_key other = wp_scope_key work_point)))
          (cross_scope EntityType.WorkPoint (wp_id work_point) (wp_scope_key work_point)
            (what +:+ " `" +:+ other_id +:+ "` is in scope `" +:+ wp_scope_key other
              +:+ "` but work point is in scope `" +:+ wp_scope_key work_point +:+ "`")) fs
    | None => mret fs
    end) fs.

Definition validate_work_point (id : string) : M (list ValidationFinding) :=
  work_point ← load_work_point id;
  _ ← load_roadmap (wp_roadmap_id work_point);
  let ty := EntityType.WorkPoint in
  let sk := wp_scope_key work_point in
  sections ← rows db_sections;
  fs ← match wp_section_id work_point with
       | None => mret []
       | Some section_id =>
           match find_by rs_id section_id sections with
           | Some section =>
               push_if (negb (bool_decide (rs_roadmap_id section = wp_roadmap_id work_point)))
                 (error ty id sk "WORK-POINT-SECTION-MISMATCH"
                   "work point section belongs to a different roadmap") []
           | None =>
               push_if true
                 (error ty id sk "WORK-POINT-SECTION-MISSING"
                   "work point references a missing roadmap section") []
           end
       end;
  fs ← push_if (bool_decide (wp_validation_expectations work_point = []))
         (warning ty id sk "WORK-POINT-NO-VALIDATION"
           "work point has no validation expectations yet") fs;
  fs ← for_acc (wp_dependency_ids work_point) (fun fs dependency_id =>
         dependency ← load_or_missing (load_work_point dependency_id);
         match dependency with
         | Some dependency =>
             fs ← push_if (negb (bool_decide (wp_roadmap_id dependency = wp_roadmap_id work_point)))
                    (error ty id sk "WORK-POINT-DEPENDENCY-CROSS-ROADMAP"
                      ("dependency `" +:+ dependency_id +:+ "` belongs to a different roadmap")) fs;
             push_if (bool_decide (wp_status work_point = WorkPointStatus.Completed)
                      && negb (bool_decide (wp_status dependency = WorkPointStatus.Completed)))
               (error ty id sk "WORK-POINT-COMPLETED-WITH-OPEN-DEPENDENCY"
                 ("completed work point still depends on non-completed work point `"
                   +:+ dependency_id +:+ "`")) fs
         | None =>
             push_if true
               (error ty id sk "WORK-POINT-DEPENDENCY-MISSING"
                 ("dependency `" +:+ dependency_id +:+ "` does not exist")) fs
         end) fs;
  work_points ← rows db_work_points;
  cycle ← ok_or (depends_on_itself work_points id (wp_dependency_ids work_point))
            (Sqlite QueryReturnedNoRows);
  fs ← push_if cycle
         (error ty id sk "WORK-POINT-DEPENDENCY-CYCLE"
           "work point dependency graph contains a cycle") fs;
  fs ← push_if (negb (bool_decide (wp_kind work_point = WorkPointKind.Feature))
                && bool_decide (wp_repairs_work_point_ids work_point = [])
                && bool_decide (wp_supersedes_work_point_ids work_point = [])
                && bool_decide (wp_blocks_work_point_ids work_point = []))
         (warning ty id sk "WORK-POINT-CORRECTIVE-NO-TARGET"
           "corrective work point (non-feature) has no repairs, supersedes, or blocks targets") fs;
  let correctives := select_where (fun wp =>
        bool_decide (wp_scope_key wp = sk)
        && negb (bool_decide (wp_kind wp = WorkPointKind.Feature))
        && negb (work_point_terminal (wp_status wp))) work_points in
  fs ← for_acc correctives (fun fs other =>
         push_if (negb (bool_decide (wp_id other = id))
                  && bool_decide (id ∈ wp_blocks_work_point_ids other))
           (error ty id sk "WORK-POINT-BLOCKED-DOWNSTREAM-ACTIVE"
             ("work point is blocked by active corrective work point `" +:+ wp_title other +:+ "`"))
           fs) fs;
  fs ← cross_scope_loop work_point "dependency" (wp_dependency_ids work_point) fs;
  fs ← cross_scope_loop work_point "repairs target" (wp_repairs_work_point_ids work_point) fs;
  fs ← cross_scope_loop work_point "supersedes target" (wp_supersedes_work_point_ids work_point) fs;
  cross_scope_loop work_point "blocks target" (wp_blocks_work_point_ids work_point) fs.

(** ** Plans *)
Definition issue_open (s : IssueStatus) : bool :=
  match s with
  | IssueStatus.Open | IssueStatus.Blocked | IssueStatus.Reopened => true | _ => false end.
Definition todo_done (s : TodoStatus) : bool :=
  match s with TodoStatus.Completed | TodoStatus.Cancelled => true | _ => false end.
Definition review_settled (s : ReviewPointStatus) : bool :=
  match s with ReviewPointStatus.Resolved | ReviewPointStatus.AcceptedRisk => true | _ => false end.

Definition validate_plan (id : string) : M (list ValidationFinding) :=
  plan ← load_plan id;
  roadmap ← load_roadmap (pl_roadmap_id plan);
  let ty := EntityType.Plan in
  let sk := pl_scope_key plan in
  fs ← push_if (negb (bool_decide (rm_goal_id roadmap = pl_goal_id plan)))
         (error ty id sk "PLAN-GOAL-ROADMAP-MISMATCH" "plan goal does not match roadmap goal") [];
  fs ← push_if (bool_decide (pl_targeted_work_point_ids plan = []))
         (warning ty id sk "PLAN-NO-TARGETED-WORK" "plan does not target any work points yet") fs;
  fs ← push_if (bool_decide (pl_validation_steps plan = []))
         (warning ty id sk "PLAN-NO-VALIDATION-STEPS"
           "plan does not define validation steps yet") fs;
  fs ← for_acc (pl_targeted_work_point_ids plan) (fun fs work_point_id =>
         work_point ← load_or_missing (load_work_point work_point_id);
         match work_point with
         | Some work_point =>
             push_if (negb (bool_decide (wp_roadmap_id work_point = pl_roadmap_id plan)))
               (error ty id sk "PLAN-WORK-POINT-ROADMAP-MISMATCH"
                 ("targeted work point `" +:+ work_point_id
                   +:+ "` belongs to a different roadmap")) fs
         | None =>
             push_if true
               (error ty id sk "PLAN-WORK-POINT-MISSING"
                 ("targeted work point `" +:+ work_point_id +:+ "` does not exist")) fs
         end) fs;
  todos ← list_todos_for_plan id;
  fs ← push_if (bool_decide (length todos = 0%nat))
         (warning ty id sk "PLAN-NO-TODOS" "plan has no todo records yet") fs;
  fs ← push_if (bool_decide (pl_status plan = PlanStatus.Completed)
                && existsb (fun todo => negb (todo_done (td_status todo))) todos)
         (error ty id sk "PLAN-COMPLETED-WITH-OPEN-TODOS"
           "completed plan still has incomplete todos") fs;
  fs ← for_acc (pl_targeted_work_point_ids plan) (fun fs wp_id =>
         wp ← try_load (load_work_point wp_id);
         match wp with
         | Some wp =>
             push_if (negb (bool_decide (wp_scope_key wp = sk)))
               (cross_scope ty id sk ("targeted work point `" +:+ wp_id +:+ "` is in scope `"
                 +:+ wp_scope_key wp +:+ "` but plan is in scope `" +:+ sk +:+ "`")) fs
         | None => mret fs
         end) fs;
  fs ← push_if (negb (bool_decide (rm_scope_key roadmap = sk)))
         (cross_scope ty id sk ("linked roadmap is in scope `" +:+ rm_scope_key roadmap
           +:+ "` but plan is in scope `" +:+ sk +:+ "`")) fs;
  issues ← rows db_issues;
  let blocking := select_where (fun i =>
        bool_decide (is_related_entity_type i = Some EntityType.Plan)
        && bool_decide (is_related_entity_id i = Some id)
        && issue_open (is_status i) && severe (is_severity i)) issues in
  fs ← push_if (0 <? length blocking)%nat
         (error ty id sk "PLAN-BLOCKING-ISSUES"
           "plan has unresolved high-severity or critical issues attached") fs;
  review_points ← list_review_points_for_entity EntityType.Plan id;
  push_if (existsb (fun p => negb (review_settled (rp_status p)) && severe (rp_severity p))
             review_points)
    (error ty id sk "PLAN-OPEN-REVIEW-POINTS"
      "plan has unresolved high-severity or critical review points") fs.

(** ** Todos, issues, review points, insights *)
Definition validate_todo (id : string) : M (list ValidationFinding) :=
  todo ← load_todo id;
  let ty := EntityType.Todo in
  let sk := td_scope_key todo in
  fs ← push_if (bool_decide (td_plan_id todo = None) && bool_decide (td_work_point_id todo = None))
         (warning ty id sk "TODO-STANDALONE"
           "todo is standalone and should be linked to a plan or work point when possible") [];
  fs ← push_if (bool_decide (td_status todo = TodoStatus.Completed)
                && bool_decide (td_evidence_refs todo = []))
         (warning ty id sk "TODO-COMPLETED-WITHOUT-EVIDENCE"
           "completed todo has no evidence references") fs;
  match td_plan_id todo, td_work_point_id todo with
  | Some plan_id, Some work_point_id =>
      plan ← load_plan plan_id;
      push_if (negb (bool_decide (work_point_id ∈ pl_targeted_work_point_ids plan)))
        (warning ty id sk "TODO-PLAN-WORK-POINT-MISMATCH"
          "todo links to both a plan and work point, but the plan does not target that work point")
        fs
  | _, _ => mret fs
  end.

(** [if let Err(NotFound { .. }) = m]. *)
Definition is_not_found {A} (m : M A) : M bool :=
  r ← handle m; mret (match r with inl (NotFound _ _) => true | _ => false end).

Definition validate_issue (id : string) : M (list ValidationFinding) :=
  issue ← load_issue id;
  let ty := EntityType.Issue in
  let sk := is_scope_key issue in
  fs ← match is_related_entity_type issue, is_related_entity_id issue with
       | Some _, None | None, Some _ =>
           push_if true
             (warning ty id sk "ISSUE-PARTIAL-ENTITY-LINK"
               "issue should declare both related entity type and related entity id when linking to another record")
             []
       | Some entity_type, Some entity_id =>
           missing ← is_not_found (attached_entity_correlation_id entity_type entity_id);
           push_if missing
             (error ty id sk "ISSUE-RELATED-ENTITY-MISSING"
               "issue references a missing related entity") []
       | None, None => mret []
       end;
  push_if (bool_decide (is_status issue = IssueStatus.Blocked) && negb (severe (is_severity issue)))
    (warning ty id sk "ISSUE-BLOCKED-LOW-SEVERITY"
      "blocked issue should usually be medium severity or higher") fs.

Definition validate_review_point (id : string) : M (list ValidationFinding) :=
  review_point ← load_by db_review_points rp_id EntityType.ReviewPoint id;
  let ty := EntityType.ReviewPoint in
  let sk := rp_scope_key review_point in
  missing ← is_not_found (attached_entity_correlation_id
                            (rp_attached_entity_type review_point)
                            (rp_attached_entity_id review_point));
  fs ← push_if missing
         (error ty id sk "REVIEW-POINT-ATTACHED-ENTITY-MISSING"
           "review point references a missing attached entity") [];
  push_if (bool_decide (rp_status review_point = ReviewPointStatus.Open)
           && bool_decide (rp_severity review_point = Severity.Critical))
    (warning ty id sk "REVIEW-POINT-CRITICAL-OPEN"
      "critical review point remains open and should be resolved or explicitly accepted") fs.

Definition validate_insight (id : string) : M (list ValidationFinding) :=
  insight ← load_insight id;
  let ty := EntityType.Insight in
  let sk := ins_scope_key insight in
  fs ← push_if (bool_decide (trim (ins_content insight) = ""))
         (error ty id sk "INSIGHT-EMPTY-CONTENT" "insight content must not be empty") [];
  fs ← push_if (bool_decide (ins_tags insight = []))
         (warning ty id sk "INSIGHT-TAG-ORPHAN"
           "insight has no tags; add tags for discoverability") fs;
  missing ← is_not_found (attached_entity_correlation_id
                            (ins_parent_entity_type insight) (ins_parent_entity_id insight));
  push_if missing
    (error ty id sk "INSIGHT-NO-PARENT"
      ("insight references missing parent " +:+ as_str (ins_parent_entity_type insight)
        +:+ " `" +:+ ins_parent_entity_id insight +:+ "`")) fs.

(** ** Graph nodes *)

(** [payload.get(key).and_then(|v| v.as_str()).unwrap_or("")]. *)
Definition payload_str (key : string) (payload : json) : string :=
  default "" (json_str_at key payload).

(** Some active [satisfies] edge comes from another, concrete, acceptance. *)
Definition has_active_coverage (node_id : string) (nodes : list PlanningGraphNode)
    (incoming : list PlanningGraphEdge) : bool :=
  existsb (fun e =>
    bool_decide (pe_kind e = PlanningEdgeKind.Satisfies) && is_active e
    && negb (bool_decide (pe_source_node_id e = node_id))
    && match find_by pn_id (pe_source_node_id e) nodes with
       | Some source => bool_decide (pn_kind source = PlanningNodeKind.Acceptance)
                        && bool_decide (payload_str "acceptanceKind" (pn_payload source) = "concrete")
       | None => false
       end) incoming.

(** Some of the [evidenced-by] edges leads to evidence of the kind. *)
Definition evidence_covered (required_kind : string) (nodes : list PlanningGraphNode)
    (evidence_edges : list PlanningGraphEdge) : bool :=
  existsb (fun e =>
    match find_by pn_id (pe_target_node_id e) nodes with
    | Some evidence => bool_decide (pn_kind evidence = PlanningNodeKind.Evidence)
                       && bool_decide (payload_str "evidenceKind" (pn_payload evidence) = required_kind)
    | None => false
    end) evidence_edges.

Definition required_evidence_kinds (payload : json) : list string :=
  match json_get "requiredEvidenceKinds" payload ≫= json_as_array with
  | Some arr => omap json_as_str arr
  | None => []
  end.

Definition validate_acceptance_node (node : PlanningGraphNode) (fs : list ValidationFinding)
    : M (list ValidationFinding) :=
  let ty := EntityType.GraphNode in
  let id := pn_id node in
  let sk := pn_scope_key node in
  let acceptance_kind_str := payload_str "acceptanceKind" (pn_payload node) in
  nodes ← rows db_nodes;
  fs ← push_if (negb (bool_decide (is_Some (from_str (A:=AcceptanceKind) acceptance_kind_str))))
         (warning ty id sk "ACCEPTANCE-KIND-INVALID"
           ("acceptance node '" +:+ id +:+ "' has invalid or missing acceptanceKind: '"
             +:+ acceptance_kind_str +:+ "' (expected 'abstract' or 'concrete')")) fs;
  fs ← (if bool_decide (acceptance_kind_str = "abstract") then
          incoming ← list_incoming_edges_in_scope id sk None;
          push_if (negb (has_active_coverage id nodes incoming))
            (warning ty id sk "ACCEPTANCE-COVERAGE-MISSING"
              ("abstract acceptance '" +:+ id
                +:+ "' has no active concrete acceptance satisfying it")) fs
        else mret fs);
  if bool_decide (acceptance_kind_str = "concrete") then
    let required_kinds := required_evidence_kinds (pn_payload node) in
    if bool_decide (required_kinds = []) then mret fs else
    outgoing ← list_outgoing_edges_in_scope id sk None;
    let evidence_edges := List.filter (fun e =>
          bool_decide (pe_kind e = PlanningEdgeKind.EvidencedBy) && is_active e) outgoing in
    for_acc required_kinds (fun fs required_kind =>
      push_if (negb (evidence_covered required_kind nodes evidence_edges))
        (warning ty id sk "ACCEPTANCE-EVIDENCE-MISSING"
          ("concrete acceptance '" +:+ id +:+ "' requires evidence of kind '" +:+ required_kind
            +:+ "' but none is attached")) fs) fs
  else mret fs.

Definition validate_graph_node (id : string) : M (list ValidationFinding) :=
  node ← try_load (load_graph_node id);
  match node with
  | None => mret []
  | Some node =>
      let ty := EntityType.GraphNode in
      let sk := pn_scope_key node in
      fs ← push_if (negb (is_kebab (trim (pn_status node))))
             (warning ty id sk "GRAPH-STATUS-INVALID"
               ("graph node status '" +:+ pn_status node
                 +:+ "' is not a valid lowercase kebab-case token")) [];
      fs ← (if bool_decide (pn_kind node = PlanningNodeKind.Acceptance)
            then validate_acceptance_node node fs else mret fs);
      let evidence_kind_str := payload_str "evidenceKind" (pn_payload node) in
      push_if (bool_decide (pn_kind node = PlanningNodeKind.Evidence)
               && negb (bool_decide (is_Some (from_str (A:=EvidenceKind) evidence_kind_str))))
        (warning ty id sk "EVIDENCE-KIND-INVALID"
          ("evidence node '" +:+ id +:+ "' has invalid or missing evidenceKind: '"
            +:+ evidence_kind_str +:+ "'")) fs
  end.

(** ** Graph edges *)

(** [Display] of an error that is an invalid input (others do not reach it). *)
Definition display_invalid_input (e : PlanningStoreError) : string :=
  match e with InvalidInput m => "invalid input: " +:+ m | _ => "" end.

(** The findings that need both endpoints of the edge. *)
Definition validate_edge_endpoints (edge : PlanningGraphEdge)
    (source_node target_node : PlanningGraphNode) (fs : list ValidationFinding)
    : M (list ValidationFinding) :=
  let ty := EntityType.GraphEdge in
  let id := pe_id edge in
  let sk := pe_scope_key edge in
  let src := pe_source_node_id edge in
  let tgt := pe_target_node_id edge in
  fs ← push_if (bool_decide (src = tgt))
         (warning ty id sk "GRAPH-EDGE-SELF-LOOP"
           ("edge '" +:+ id +:+ "' is a self-loop (source == target == '" +:+ src +:+ "')")) fs;
  fs ← push_if (negb (bool_decide (pn_scope_key source_node = sk)))
         (warning ty id sk "GRAPH-EDGE-CROSS-SCOPE"
           ("source node '" +:+ src +:+ "' is in scope '" +:+ pn_scope_key source_node
             +:+ "' but edge '" +:+ id +:+ "' is in scope '" +:+ sk +:+ "'")) fs;
  fs ← push_if (negb (bool_decide (pn_scope_key target_node = sk)))
         (warning ty id sk "GRAPH-EDGE-CROSS-SCOPE"
           ("target node '" +:+ tgt +:+ "' is in scope '" +:+ pn_scope_key target_node
             +:+ "' but edge '" +:+ id +:+ "' is in scope '" +:+ sk +:+ "'")) fs;
  pair ← handle (validate_edge_kind_pair (pe_kind edge) (pn_kind source_node) (pn_kind target_node));
  fs ← match pair with
       | inl err =>
           push_if true
             (warning ty id sk "GRAPH-EDGE-KIND-MISMATCH"
               ("edge '" +:+ id +:+ "' has invalid kind pair: " +:+ display_invalid_input err)) fs
       | inr _ => mret fs
       end;
  fs ← (if is_active edge then
          outgoing ← list_outgoing_edges_for_node src (Some (pe_kind edge));
          push_if (0 <? length (List.filter (fun e =>
                      negb (bool_decide (pe_id e = id))
                      && bool_decide (pe_target_node_id e = tgt)
                      && is_active e && bool_decide (pe_scope_key e = sk)) outgoing))%nat
            (warning ty id sk "GRAPH-EDGE-DUPLICATE-ACTIVE"
              ("duplicate active " +:+ as_str (pe_kind edge) +:+ " edge from '" +:+ src
                +:+ "' to '" +:+ tgt +:+ "' in scope '" +:+ sk +:+ "'")) fs
        else mret fs);
  if is_active edge && is_acyclic_kind (pe_kind edge) then
    r ← handle (would_create_graph_cycle src tgt (pe_kind edge));
    push_if (match r with inr true => true | _ => false end)
      (warning ty id sk "GRAPH-EDGE-CYCLE"
        (as_str (pe_kind edge) +:+ " edge from '" +:+ src +:+ "' to '" +:+ tgt
          +:+ "' creates a cycle")) fs
  else mret fs.

Definition validate_graph_edge (id : string) : M (list ValidationFinding) :=
  edge ← try_load (load_graph_edge id);
  match edge with
  | None => mret []
  | Some edge =>
      let ty := EntityType.GraphEdge in
      let sk := pe_scope_key edge in
      fs ← push_if (negb (is_kebab (trim (pe_status edge))))
             (warning ty id sk "GRAPH-STATUS-INVALID"
               ("graph edge status '" +:+ pe_status edge
                 +:+ "' is not a valid lowercase kebab-case token")) [];
      source ← try_load (load_graph_node (pe_source_node_id edge));
      target ← try_load (load_graph_node (pe_target_node_id edge));
      fs ← push_if (bool_decide (source = None))
             (warning ty id sk "GRAPH-EDGE-MISSING-NODE"
               ("source node '" +:+ pe_source_node_id edge +:+ "' referenced by edge '" +:+ id
                 +:+ "' does not exist")) fs;
      fs ← push_if (bool_decide (target = None))
             (warning ty id sk "GRAPH-EDGE-MISSING-NODE"
               ("target node '" +:+ pe_target_node_id edge +:+ "' referenced by edge '" +:+ id
                 +:+ "' does not exist")) fs;
      fs ← match source, target with
           | Some source_node, Some target_node =>
               validate_edge_endpoints edge source_node target_node fs
           | _, _ => mret fs
           end;
      push_if (bool_decide (pe_kind edge = PlanningEdgeKind.Satisfies) && is_active edge
               && bool_decide (trim (payload_str "rationale" (pe_payload edge)) = ""))
        (warning ty id sk "ACCEPTANCE-RATIONALE-MISSING"
          ("active Satisfies edge '" +:+ id +:+ "' has no non-empty rationale")) fs
  end.

(** ** Dispatch *)
Definition validate_entity (ty : EntityType) (id : string) : M (list ValidationFinding) :=
  match ty with
  | EntityType.Scope => mret []
  | EntityType.Goal => validate_goal id
  | EntityType.Roadmap => validate_roadmap id
  | EntityType.RoadmapSection => validate_roadmap_section id
  | EntityType.WorkPoint => validate_work_point id
  | EntityType.Plan => validate_plan id
  | EntityType.Todo => validate_todo id
  | EntityType.Issue => validate_issue id
  | EntityType.ReviewPoint => validate_review_point id
  | EntityType.Insight => validate_insight id
  | EntityType.ProjectRun => validate_project_run id
  | EntityType.GraphNode => validate_graph_node id
  | EntityType.GraphEdge => validate_graph_edge id
  | EntityType.DiscoveryNode => mret []
  | EntityType.DiscoveryRelationship => mret []
  | EntityType.DiscoveryCheckpoint => mret []
  end.

(** ([storage.rs]) Validates, stores the findings, and reports them. *)
Definition refresh_validation_target (ty : EntityType) (id : string) : M ValidationReport :=
  findings ← validate_entity ty id;
  _ ← persist_validation_findings ty id findings;
  mret (from_findings findings).

Definition validate_and_store (ty : EntityType) (id : string) : M ValidationReport :=
  refresh_validation_target ty id.
End Validation.
