(* ===== verification/Frames.v ===== *)
(** What the store's helpers leave unchanged.

    Loading and listing change nothing; validating changes only the clock and
    the UUID stream; storing findings, appending events and rebuilding tags
    change no record ([records]).  These frames let the theorem about an
    operation follow only the statements that write the table it is about. *)
From S2P Require Import Prelude Text Json Model Tx Table Store Walk EdgeRules Validation.

(** The database without its events, its findings and its tag and text indexes. *)
Definition records (w : World) : Db :=
  let d := w_db w in
  mkDb (db_scopes d) (db_goals d) (db_roadmaps d) (db_sections d) (db_work_points d)
    (db_plans d) (db_todos d) (db_issues d) (db_review_points d) (db_insights d)
    (db_project_runs d) (db_nodes d) (db_edges d) (db_discoveries d)
    (db_discovery_relationships d) (db_discovery_checkpoints d) [] [] (db_file_scopes d) [] [] [].

Section Frames.
Context `{External}.

Lemma load_or_missing_Ok {A} (m : M A) w o w' :
  load_or_missing m w = Ok o w' ->
  match o with Some a => m w = Ok a w' | None => w' = w end.
Proof.
  unfold load_or_missing, handle. intros Hr. tx_inv.
  destruct (m w) as [a0 s0|e] eqn:E; simplify_eq; tx_inv; [done|]. destruct e; by tx_inv.
Qed.

(** ** Reading *)
Section Reading.
Context {X : Type} (f : World -> X).

Lemma keeps_rows {R} (table : Db -> list R) : keeps f (rows table).
Proof. apply keeps_reads. Qed.
#[local] Hint Resolve keeps_rows : frame.
Lemma keeps_load_by {R} (table : Db -> list R) key ty id : keeps f (load_by table key ty id).
Proof. unfold load_by. frame. Qed.
#[local] Hint Resolve keeps_load_by : frame.
Lemma keeps_load_file_scopes ty id : keeps f (load_file_scopes_for_entity ty id).
Proof. unfold load_file_scopes_for_entity. frame. Qed.
#[local] Hint Resolve keeps_load_file_scopes : frame.
Lemma keeps_load_goal id : keeps f (load_goal id).
Proof. apply keeps_load_by. Qed.
Lemma keeps_load_roadmap id : keeps f (load_roadmap id).
Proof. apply keeps_load_by. Qed.
Lemma keeps_load_plan id : keeps f (load_plan id).
Proof. unfold load_plan. frame. Qed.
Lemma keeps_load_work_point id : keeps f (load_work_point id).
Proof. unfold load_work_point. frame. Qed.
Lemma keeps_load_todo id : keeps f (load_todo id).
Proof. unfold load_todo. frame. Qed.
Lemma keeps_load_issue id : keeps f (load_issue id).
Proof. apply keeps_load_by. Qed.
Lemma keeps_load_review_point id : keeps f (load_review_point id).
Proof. apply keeps_load_by. Qed.
Lemma keeps_load_insight id : keeps f (load_insight id).
Proof. apply keeps_load_by. Qed.
Lemma keeps_load_project_run id : keeps f (load_project_run id).
Proof. apply keeps_load_by. Qed.
Lemma keeps_load_discovery id : keeps f (load_discovery id).
Proof. apply keeps_load_by. Qed.
Lemma keeps_load_graph_node id : keeps f (load_graph_node id).
Proof. apply keeps_load_by. Qed.
Lemma keeps_load_graph_edge id : keeps f (load_graph_edge id).
Proof. apply keeps_load_by. Qed.
#[local] Hint Resolve keeps_load_goal keeps_load_roadmap keeps_load_plan keeps_load_work_point
  keeps_load_todo keeps_load_issue keeps_load_review_point keeps_load_insight
  keeps_load_project_run keeps_load_discovery keeps_load_graph_node keeps_load_graph_edge : frame.

Lemma keeps_list_work_points id : keeps f (list_work_points_for_roadmap id).
Proof. unfold list_work_points_for_roadmap. frame. Qed.
Lemma keeps_list_todos id : keeps f (list_todos_for_plan id).
Proof. unfold list_todos_for_plan. frame. Qed.
Lemma keeps_list_review_points ty id : keeps f (list_review_points_for_entity ty id).
Proof. unfold list_review_points_for_entity. frame. Qed.
Lemma keeps_list_incoming id k : keeps f (list_incoming_edges_for_node id k).
Proof. unfold list_incoming_edges_for_node. frame. Qed.
Lemma keeps_list_outgoing id k : keeps f (list_outgoing_edges_for_node id k).
Proof. unfold list_outgoing_edges_for_node. frame. Qed.
#[local] Hint Resolve keeps_list_incoming keeps_list_outgoing : frame.
Lemma keeps_list_incoming_in id sk k : keeps f (list_incoming_edges_in_scope id sk k).
Proof. unfold list_incoming_edges_in_scope. frame. Qed.
Lemma keeps_list_outgoing_in id sk k : keeps f (list_outgoing_edges_in_scope id sk k).
Proof. unfold list_outgoing_edges_in_scope. frame. Qed.

Lemma keeps_scope_key_for_entity ty id : keeps f (scope_key_for_entity ty id).
Proof. destruct ty; unfold scope_key_for_entity, scope_of; frame. Qed.
#[local] Hint Resolve keeps_scope_key_for_entity : frame.
Lemma keeps_ensure_scope_exists sk : keeps f (ensure_scope_exists sk).
Proof. unfold ensure_scope_exists. frame. Qed.
Lemma keeps_ensure_entity_exists ty id field : keeps f (ensure_entity_exists ty id field).
Proof. unfold ensure_entity_exists. frame. Qed.
#[local] Hint Resolve keeps_ensure_entity_exists : frame.
Lemma keeps_ensure_referenced ty id field sk :
  keeps f (ensure_referenced_entity_in_scope ty id field sk).
Proof. unfold ensure_referenced_entity_in_scope. frame. Qed.
Lemma keeps_ensure_in_scope ty id sk : keeps f (ensure_entity_in_scope ty id sk).
Proof. unfold ensure_entity_in_scope. frame. Qed.

Lemma keeps_roadmap_correlation id : keeps f (roadmap_correlation_id id).
Proof. unfold roadmap_correlation_id. frame. Qed.
#[local] Hint Resolve keeps_roadmap_correlation : frame.
Lemma keeps_attached_correlation ty id : keeps f (attached_entity_correlation_id ty id).
Proof.
  unfold attached_entity_correlation_id. apply keeps_bind; [apply keeps_rows|].
  intros t. generalize (length t) as n. intros n. revert ty id.
  induction n as [|n IH]; intros ty id; destruct ty; simpl;
    unfold work_point_correlation_id, plan_correlation_id, todo_correlation_id,
      plan_correlation_id, work_point_correlation_id; frame.
Qed.
Lemma keeps_resolve_event_scope ty id aty aid : keeps f (resolve_event_scope_key ty id aty aid).
Proof. unfold resolve_event_scope_key. frame. Qed.
Lemma keeps_would_create_cycle s t k : keeps f (would_create_graph_cycle s t k).
Proof. unfold would_create_graph_cycle. frame. Qed.
Lemma keeps_edge_kind_pair k s t : keeps f (validate_edge_kind_pair k s t).
Proof. unfold validate_edge_kind_pair. frame. Qed.
Lemma keeps_require_non_empty field v : keeps f (require_non_empty field v).
Proof. unfold require_non_empty. frame. Qed.
Lemma keeps_require_kebab field v : keeps f (require_kebab_token field v).
Proof. unfold require_kebab_token. frame. Qed.
Lemma keeps_normalize_lease v : keeps f (normalize_lease_seconds v).
Proof. unfold normalize_lease_seconds. frame. Qed.
Lemma keeps_lease_deadline now s : keeps f (lease_deadline now s).
Proof. unfold lease_deadline. frame. Qed.
Lemma keeps_require_current_lease r tok now : keeps f (require_current_lease r tok now).
Proof. unfold require_current_lease. frame. Qed.
Lemma keeps_try_load {A} (m : M A) : keeps f m -> keeps f (try_load m).
Proof. intros. unfold try_load. frame. Qed.
Lemma keeps_load_or_missing {A} (m : M A) : keeps f m -> keeps f (load_or_missing m).
Proof. intros. unfold load_or_missing. frame. Qed.
Lemma keeps_is_not_found {A} (m : M A) : keeps f m -> keeps f (is_not_found m).
Proof. intros. unfold is_not_found. frame. Qed.
End Reading.

#[local] Hint Resolve keeps_rows keeps_load_by keeps_load_file_scopes keeps_load_goal
  keeps_load_roadmap keeps_load_plan keeps_load_work_point keeps_load_todo keeps_load_issue
  keeps_load_review_point keeps_load_insight keeps_load_project_run keeps_load_discovery
  keeps_load_graph_node keeps_load_graph_edge keeps_list_work_points keeps_list_todos
  keeps_list_review_points keeps_list_incoming keeps_list_outgoing keeps_list_incoming_in
  keeps_list_outgoing_in keeps_scope_key_for_entity keeps_ensure_scope_exists
  keeps_ensure_entity_exists keeps_ensure_referenced keeps_ensure_in_scope
  keeps_roadmap_correlation keeps_attached_correlation keeps_resolve_event_scope
  keeps_would_create_cycle keeps_edge_kind_pair keeps_require_non_empty keeps_require_kebab
  keeps_normalize_lease keeps_lease_deadline keeps_require_current_lease keeps_try_load
  keeps_load_or_missing keeps_is_not_found : frame.

(** ** Clock, identifiers, session *)
Lemma keeps_now_string : keeps w_db now_string.
Proof. unfold now_string. frame. Qed.
Lemma keeps_new_id : keeps w_db new_id.
Proof. unfold new_id. frame. Qed.
#[local] Hint Resolve keeps_now_string keeps_new_id : frame.
Lemma keeps_id_or_new o : keeps w_db (id_or_new o).
Proof. unfold id_or_new. frame. Qed.
Lemma keeps_set_active st : keeps w_db (set_active_project_run st).
Proof.
  unfold set_active_project_run, read_session, write_session, session_readable_now. frame.
Qed.
Lemma keeps_clear_active o : keeps w_db (clear_active_project_run o).
Proof.
  unfold clear_active_project_run, read_session, write_session, session_readable_now. frame.
Qed.
Lemma keeps_ignore_result {A} (m : M A) : keeps w_db m -> keeps w_db (ignore_result m).
Proof. intros. unfold ignore_result. frame. Qed.

(** ** Validation *)
Lemma keeps_finding ty id sk sev code msg : keeps w_db (finding ty id sk sev code msg).
Proof. unfold finding. frame. Qed.
#[local] Hint Resolve keeps_finding : frame.
Lemma keeps_warning ty id sk code msg : keeps w_db (warning ty id sk code msg).
Proof. apply keeps_finding. Qed.
Lemma keeps_error ty id sk code msg : keeps w_db (error ty id sk code msg).
Proof. apply keeps_finding. Qed.
Lemma keeps_cross_scope ty id sk msg : keeps w_db (cross_scope ty id sk msg).
Proof. apply keeps_finding. Qed.
Lemma keeps_push_if c mk fs : keeps w_db mk -> keeps w_db (push_if c mk fs).
Proof. intros. unfold push_if. frame. Qed.
#[local] Hint Resolve keeps_warning keeps_error keeps_cross_scope keeps_push_if : frame.

Lemma keeps_validate_project_run id : keeps w_db (validate_project_run id).
Proof. unfold validate_project_run. frame. Qed.
Lemma keeps_validate_goal id : keeps w_db (validate_goal id).
Proof. unfold validate_goal. frame. Qed.
Lemma keeps_validate_roadmap id : keeps w_db (validate_roadmap id).
Proof. unfold validate_roadmap. frame. Qed.
Lemma keeps_validate_section id : keeps w_db (validate_roadmap_section id).
Proof. unfold validate_roadmap_section. frame. Qed.
Lemma keeps_validate_work_point id : keeps w_db (validate_work_point id).
Proof. unfold validate_work_point, cross_scope_loop. frame. Qed.
Lemma keeps_validate_plan id : keeps w_db (validate_plan id).
Proof. unfold validate_plan. frame. Qed.
Lemma keeps_validate_todo id : keeps w_db (validate_todo id).
Proof. unfold validate_todo. frame. Qed.
Lemma keeps_validate_issue id : keeps w_db (validate_issue id).
Proof. unfold validate_issue. frame. Qed.
Lemma keeps_validate_review_point id : keeps w_db (validate_review_point id).
Proof. unfold validate_review_point. frame. Qed.
Lemma keeps_validate_insight id : keeps w_db (validate_insight id).
Proof. unfold validate_insight. frame. Qed.
Lemma keeps_validate_graph_node id : keeps w_db (validate_graph_node id).
Proof. unfold validate_graph_node, validate_acceptance_node. frame. Qed.
Lemma keeps_validate_graph_edge id : keeps w_db (validate_graph_edge id).
Proof. unfold validate_graph_edge, validate_edge_endpoints. frame. Qed.
#[local] Hint Resolve keeps_validate_project_run keeps_validate_goal keeps_validate_roadmap
  keeps_validate_section keeps_validate_work_point keeps_validate_plan keeps_validate_todo
  keeps_validate_issue keeps_validate_review_point keeps_validate_insight
  keeps_validate_graph_node keeps_validate_graph_edge : frame.
Lemma keeps_validate_entity ty id : keeps w_db (validate_entity ty id).
Proof. destruct ty; simpl; frame. Qed.
#[local] Hint Resolve keeps_validate_entity : frame.

(** ** Findings, events, tags *)
Lemma keeps_records {A} (m : M A) : keeps w_db m -> keeps records m.
Proof. intros Hm. eapply keeps_proj; [exact Hm|]. unfold records. by intros s s' ->. Qed.
Lemma keeps_events {A} (m : M A) : keeps w_db m -> keeps (fun w => db_events (w_db w)) m.
Proof. intros Hm. eapply keeps_proj; [exact Hm|]. by intros s s' ->. Qed.

Lemma persist_records ty id fs : keeps records (persist_validation_findings ty id fs).
Proof. unfold persist_validation_findings, update_db. frame. Qed.
Lemma persist_events ty id fs :
  keeps (fun w => db_events (w_db w)) (persist_validation_findings ty id fs).
Proof. unfold persist_validation_findings, update_db. frame. Qed.

Lemma refresh_records ty id : keeps records (refresh_validation_target ty id).
Proof.
  unfold refresh_validation_target. apply keeps_bind; [apply keeps_records; frame|].
  intros fs. apply keeps_bind; [apply persist_records|]. frame.
Qed.
Lemma refresh_events ty id :
  keeps (fun w => db_events (w_db w)) (refresh_validation_target ty id).
Proof.
  unfold refresh_validation_target. apply keeps_bind; [apply keeps_events; frame|].
  intros fs. apply keeps_bind; [apply persist_events|]. frame.
Qed.
Lemma validate_and_store_records ty id : keeps records (validate_and_store ty id).
Proof. apply refresh_records. Qed.
Lemma validate_and_store_events ty id :
  keeps (fun w => db_events (w_db w)) (validate_and_store ty id).
Proof. apply refresh_events. Qed.

Lemma build_event_db ty id aty aid c r e p : keeps w_db (build_event ty id aty aid c r e p).
Proof. unfold build_event. frame. Qed.
Lemma append_event_records e : keeps records (append_event e).
Proof. unfold append_event, update_db. frame. Qed.
Lemma record_event_records ty id aty aid c r e p :
  keeps records (record_event ty id aty aid c r e p).
Proof.
  unfold record_event. apply keeps_bind; [apply keeps_records, build_event_db|].
  intros. apply append_event_records.
Qed.
Lemma rebuild_tags_records ty id tags : keeps records (rebuild_tag_index_for_entity ty id tags).
Proof. unfold rebuild_tag_index_for_entity, update_db. frame. Qed.
Lemma rebuild_tags_events ty id tags :
  keeps (fun w => db_events (w_db w)) (rebuild_tag_index_for_entity ty id tags).
Proof. unfold rebuild_tag_index_for_entity, update_db. frame. Qed.
Lemma upsert_fts_records ty sk id t c : keeps records (upsert_fts_entry ty sk id t c).
Proof. unfold upsert_fts_entry, update_db. frame. Qed.
Lemma upsert_fts_events ty sk id t c :
  keeps (fun w => db_events (w_db w)) (upsert_fts_entry ty sk id t c).
Proof. unfold upsert_fts_entry, update_db. frame. Qed.
Lemma upsert_insights_fts_records id t c : keeps records (upsert_insights_fts_entry id t c).
Proof. unfold upsert_insights_fts_entry, update_db. frame. Qed.
Lemma upsert_insights_fts_events id t c :
  keeps (fun w => db_events (w_db w)) (upsert_insights_fts_entry id t c).
Proof. unfold upsert_insights_fts_entry, update_db. frame. Qed.
End Frames.

#[export] Hint Resolve keeps_rows keeps_load_by keeps_load_file_scopes keeps_load_goal
  keeps_load_roadmap keeps_load_plan keeps_load_work_point keeps_load_todo keeps_load_issue
  keeps_load_review_point keeps_load_insight keeps_load_project_run keeps_load_discovery
  keeps_load_graph_node keeps_load_graph_edge keeps_list_work_points keeps_list_todos
  keeps_list_review_points keeps_list_incoming keeps_list_outgoing keeps_list_incoming_in
  keeps_list_outgoing_in keeps_scope_key_for_entity keeps_ensure_scope_exists
  keeps_ensure_entity_exists keeps_ensure_referenced keeps_ensure_in_scope
  keeps_roadmap_correlation keeps_attached_correlation keeps_resolve_event_scope
  keeps_would_create_cycle keeps_edge_kind_pair keeps_require_non_empty keeps_require_kebab
  keeps_normalize_lease keeps_lease_deadline keeps_require_current_lease keeps_try_load
  keeps_load_or_missing keeps_is_not_found
  keeps_now_string keeps_new_id keeps_id_or_new keeps_set_active keeps_clear_active
  keeps_ignore_result keeps_finding keeps_warning keeps_error keeps_cross_scope keeps_push_if
  keeps_validate_entity persist_records refresh_records refresh_events
  validate_and_store_records validate_and_store_events build_event_db append_event_records
  record_event_records rebuild_tags_records rebuild_tags_events upsert_fts_records
  upsert_fts_events upsert_insights_fts_records upsert_insights_fts_events : frame.
#[export] Hint Extern 5 (keeps records _) => apply keeps_records : frame.
#[export] Hint Extern 5 (keeps (fun w => db_events (w_db w)) _) => apply keeps_events : frame.

(** Every run of the context left the database alone. *)
Ltac db_track := repeat match goal with
  | R : ?m ?s = Ok _ ?s' |- _ =>
      let E := fresh "Ed" in
      assert (w_db s' = w_db s) as E
        by (refine ((_ : keeps w_db m) _ _ _ R); solve [frame]);
      clear R
  end.
