(* ===== verification/ValidationFacts.v ===== *)
(** What the validators find.

    A validator appends findings to a list; [push_if_has] says when a step
    appends one with a given code, and [unmarked] that it does not.  From
    these follow what the dependency check and the acceptance checks report. *)
From stdpp Require Import relations.
From S2P Require Import Prelude Text Json Model Tx Table Store Walk EdgeRules Validation Frames.

Section Codes.
Context `{External}.

Definition has_code (code : string) (fs : list ValidationFinding) : Prop :=
  exists f, f ∈ fs /\ vf_code f = code.

Lemma has_code_app code fs fs' : has_code code (fs ++ fs') <-> has_code code fs \/ has_code code fs'.
Proof. unfold has_code. setoid_rewrite elem_of_app. naive_solver. Qed.
Lemma has_code_nil code : ~ has_code code [].
Proof. intros (f & Hf & _). set_solver. Qed.

Lemma finding_code ty id sk sev code msg w f w' :
  finding ty id sk sev code msg w = Ok f w' -> vf_code f = code.
Proof. unfold finding. intros Hr. by tx_inv. Qed.

(** A conditional finding. *)
Definition makes (code : string) (mk : M ValidationFinding) : Prop :=
  forall w f w', mk w = Ok f w' -> vf_code f = code.
Lemma makes_warning ty id sk code msg : makes code (warning ty id sk code msg).
Proof. intros w f w'. apply finding_code. Qed.
Lemma makes_error ty id sk code msg : makes code (error ty id sk code msg).
Proof. intros w f w'. apply finding_code. Qed.
Lemma makes_cross_scope ty id sk msg : makes "CROSS-SCOPE-REFERENCE" (cross_scope ty id sk msg).
Proof. intros w f w'. apply finding_code. Qed.

Lemma push_if_Ok code c mk fs w fs' w' :
  makes code mk -> push_if c mk fs w = Ok fs' w' ->
  exists new, fs' = fs ++ new /\ Forall (fun f => vf_code f = code) new /\ (c = true <-> new <> []).
Proof.
  unfold push_if. intros Hmk Hr. destruct c; tx_inv.
  - exists [a]. split_and!; [done|by apply Forall_singleton, (Hmk _ _ _ R)|done].
  - exists []. split_and!; [by rewrite app_nil_r|done|naive_solver].
Qed.

Lemma push_if_has code c mk fs w fs' w' :
  makes code mk -> push_if c mk fs w = Ok fs' w' ->
  forall code', has_code code' fs' <-> has_code code' fs \/ (c = true /\ code' = code).
Proof.
  intros Hmk Hr code'. destruct (push_if_Ok _ _ _ _ _ _ _ Hmk Hr) as (new & -> & Hn & Hc).
  rewrite has_code_app. rewrite Forall_forall in Hn. split.
  - intros [?|(f & Hf & <-)]; [by left|right]. split; [|by apply Hn].
    apply Hc. intros ->. set_solver.
  - intros [?|[Htrue ->]]; [by left|right]. apply Hc in Htrue.
    destruct new as [|f new]; [done|]. exists f. split; [set_solver|]. apply Hn. set_solver.
Qed.

(** [unmarked code fs m]: what [m] returns has the code exactly when [fs] has. *)
Definition unmarked (code : string) (fs : list ValidationFinding) (m : M (list ValidationFinding))
    : Prop :=
  forall w fs' w', m w = Ok fs' w' -> (has_code code fs' <-> has_code code fs).

Lemma unmarked_push code code' c mk fs :
  makes code' mk -> code' <> code -> unmarked code fs (push_if c mk fs).
Proof.
  intros Hmk Hne w fs' w' Hr. rewrite (push_if_has _ _ _ _ _ _ _ Hmk Hr). naive_solver.
Qed.
Lemma unmarked_ret code fs : unmarked code fs (mret fs).
Proof. intros w fs' w' Hr. by tx_inv. Qed.
Lemma unmarked_step code fs m k :
  unmarked code fs m -> (forall fs', unmarked code fs' (k fs')) -> unmarked code fs (m ≫= k).
Proof. intros Hm Hk w fs' w' Hr. tx_inv. by rewrite (Hk _ _ _ _ Hr), (Hm _ _ _ R). Qed.
Lemma unmarked_bind {A} code fs (m : M A) k :
  (forall a, unmarked code fs (k a)) -> unmarked code fs (m ≫= k).
Proof. intros Hk w fs' w' Hr. tx_inv. by eapply Hk. Qed.
Lemma unmarked_for_acc {A} code (l : list A) g fs :
  (forall fs x, unmarked code fs (g fs x)) -> unmarked code fs (for_acc l g fs).
Proof.
  intros Hg. revert fs. induction l as [|x l IH]; intros fs; simpl; [apply unmarked_ret|].
  apply unmarked_step; [apply Hg|exact IH].
Qed.
End Codes.

#[export] Hint Resolve makes_warning makes_error makes_cross_scope : core.

(** Proves [unmarked] by the shape of the step. *)
Ltac unmarked := repeat first
  [ progress intros
  | apply unmarked_ret
  | eapply unmarked_push; [solve [eauto]|discriminate]
  | apply unmarked_for_acc
  | match goal with
    | |- unmarked _ _ (@mbind _ _ ?A _ _ _) =>
        first [ apply unmarked_step; [solve [unmarked]|]
              | apply unmarked_bind ]
    | |- unmarked _ _ (match ?x with _ => _ end) => destruct x
    | |- unmarked _ _ (let _ := _ in _) => cbv zeta
    end ].

(** ** Dependency cycles of work points *)

(** [x] names a work point of the table that depends on [y]. *)
Definition depends_on (t : list WorkPointRecord) (x y : string) : Prop :=
  exists r, find_by wp_id x t = Some r /\ y ∈ wp_dependency_ids r.

Lemma elem_of_dependencies t x y : y ∈ dependencies_of t x <-> depends_on t x y.
Proof.
  unfold dependencies_of, depends_on. destruct (find_by wp_id x t) as [r|]; [naive_solver|].
  split; [set_solver|]. by intros (? & ? & _).
Qed.

(** The stack search has fuel enough and decides reachability. *)
Lemma depends_on_itself_run t id deps :
  exists b, depends_on_itself t id deps = Some b /\
            (b = true <-> exists x, x ∈ deps /\ rtc (depends_on t) x id).
Proof.
  destruct (stack_walk_total (dependencies_of t) (map wp_id t)
              (S (length deps + weight (dependencies_of t) (map wp_id t) ∅)) id (rev deps) ∅)
    as [b E].
  - intros x Hx. unfold dependencies_of. destruct (find_by wp_id x t) as [r|] eqn:Ef; [|done].
    apply find_by_Some in Ef as [Hr <-]. destruct Hx. by apply list_elem_of_fmap_2.
  - rewrite length_rev. lia.
  - exists b. split; [exact E|]. rewrite (stack_walk_spec _ _ _ _ _ E).
    assert (forall x y, next (dependencies_of t) x y <-> depends_on t x y) as Hn
      by (intros; apply elem_of_dependencies).
    split; intros (x & Hx & Hr); exists x.
    + split; [by rewrite Permutation_rev|].
      eapply (rtc_congruence (fun x => x)); [|exact Hr]. intros y z. apply Hn.
    + split; [by rewrite <- Permutation_rev|].
      eapply (rtc_congruence (fun x => x)); [|exact Hr]. intros y z. apply Hn.
Qed.

Lemma cycle_through t id r :
  find_by wp_id id t = Some r ->
  (exists x, x ∈ wp_dependency_ids r /\ rtc (depends_on t) x id) <-> tc (depends_on t) id id.
Proof.
  intros Hf. split.
  - intros (x & Hx & Hr). eapply tc_rtc_r; [|exact Hr]. apply tc_once. by exists r.
  - intros Hc. inversion Hc as [? ? (r' & Hf' & Hx)|? x ? (r' & Hf' & Hx) Hr]; subst.
    + exists id. split; [congruence|apply rtc_refl].
    + exists x. split; [congruence|by apply tc_rtc].
Qed.

Section WorkPoints.
Context `{External}.

Definition CYCLE : string := "WORK-POINT-DEPENDENCY-CYCLE".

Lemma unmarked_cross_scope_loop wp what ids fs :
  unmarked CYCLE fs (cross_scope_loop wp what ids fs).
Proof. unfold cross_scope_loop. unmarked. Qed.

Lemma load_work_point_row id w r w' :
  load_work_point id w = Ok r w' ->
  w' = w /\ exists r0, find_by wp_id id (db_work_points (w_db w)) = Some r0 /\
                      wp_dependency_ids r0 = wp_dependency_ids r.
Proof.
  unfold load_work_point, load_by. intros Hr. tx_inv.
  match goal with R1 : rows _ _ = Ok _ _, R2 : load_file_scopes_for_entity _ _ _ = Ok _ _ |- _ =>
    pose proof (keeps_load_file_scopes (fun w => w) _ _ _ _ _ R2) as E; simpl in E;
    apply (proj1 (reads_Ok _ _ _ _)) in R1 as [-> ->] end.
  subst. split; [done|]. by eexists.
Qed.

(** Peels the last step of a run of steps that never add the code. *)
Ltac peel := match goal with
  | R : push_if ?c ?mk ?fs _ = Ok ?fs' _ |- has_code ?code ?fs' <-> _ =>
      rewrite ((unmarked_push code _ c mk fs ltac:(eauto) ltac:(discriminate)) _ _ _ R)
  | R : for_acc ?l ?g ?fs _ = Ok ?fs' _ |- has_code ?code ?fs' <-> _ =>
      let U := fresh "U" in
      assert (unmarked code fs (for_acc l g fs)) as U by unmarked;
      rewrite (U _ _ _ R); clear U
  | R : cross_scope_loop ?wp ?what ?ids ?fs _ = Ok ?fs' _ |- has_code ?code ?fs' <-> _ =>
      rewrite (unmarked_cross_scope_loop wp what ids fs _ _ _ R)
  end.

(** C24. Dependency cycles are found: the validation of a work point, when it
    returns, reports [WORK-POINT-DEPENDENCY-CYCLE] exactly when the work
    point reaches itself over the dependency lists of the stored work points. *)
Theorem dependency_cycles_are_reported id w fs w' :
  validate_work_point id w = Ok fs w' ->
  has_code CYCLE fs <-> tc (depends_on (db_work_points (w_db w))) id id.
Proof.
  unfold validate_work_point. intros Hr. tx_inv. repeat peel.
  match goal with R : push_if _ _ _ _ = Ok ?l _ |- has_code _ ?l <-> _ =>
    rewrite (push_if_has _ _ _ _ _ _ _ (makes_error _ _ _ _ _) R) end.
  match goal with R : rows db_work_points _ = Ok _ _ |- _ =>
    apply (proj1 (reads_Ok _ _ _ _)) in R as [-> ->] end.
  match goal with Hd : depends_on_itself ?t _ ?deps = Some ?b |- (?P \/ _) <-> _ =>
    destruct (depends_on_itself_run t id deps) as (b' & Hb & Hspec);
    rewrite Hb in Hd; injection Hd as ->;
    assert (~ P) as Hno end.
  - match goal with |- ~ ?P => cut (P <-> False); [tauto|] end. repeat peel.
    match goal with R : match wp_section_id ?r with _ => _ end _ = Ok _ _ |- _ =>
      destruct (wp_section_id r); [destruct (find_by rs_id _ _)|] end;
      [peel|peel|tx_inv]; split; try done; apply has_code_nil.
  - apply load_work_point_row in R as (-> & r0 & Hf & Hdeps).
    assert (w_db s4 = w_db w) as Ed by (db_track; congruence).
    rewrite Ed in Hspec. rewrite <- Hdeps in Hspec. rewrite (cycle_through _ _ _ Hf) in Hspec.
    rewrite <- Hspec. split; [intros [?|[? _]]; [done|done]|by right].
Qed.
End WorkPoints.
