(* ===== verification/Clock.v ===== *)
(** The clock only moves forward: a successful run of a store operation has
    read the clock zero or more times ([ticks]).  The lease protocol in time
    ([LeaseTime]) places what an operation does between its first and its
    last reading. *)
From S2P Require Import Prelude Text Json Model Tx Table Store Walk EdgeRules Validation Frames.

Definition ticks {A} (m : M A) : Prop :=
  forall w a w', m w = Ok a w' -> (w_clock w <= w_clock w')%nat.

Create HintDb ticks.

Lemma ticks_keeps {A} (m : M A) : keeps w_clock m -> ticks m.
Proof. intros Hm w a w' Hr. by rewrite (Hm _ _ _ Hr). Qed.
Lemma ticks_bind {A B} (m : M A) (k : A -> M B) :
  ticks m -> (forall a, ticks (k a)) -> ticks (m ≫= k).
Proof. intros Hm Hk w b w' Hr. tx_inv. etrans; [by eapply Hm|by eapply Hk]. Qed.
Lemma ticks_ret {A} (a : A) : ticks (mret a).
Proof. apply ticks_keeps, keeps_ret. Qed.
Lemma ticks_handle {A} (m : M A) : ticks m -> ticks (handle m).
Proof. intros Hm w [e|b] w' Hr; tx_inv; [done|by eapply Hm]. Qed.
Lemma ticks_or_else {A} (m m' : M A) : ticks m -> ticks m' -> ticks (or_else m m').
Proof.
  intros Hm Hm' w b w' Hr. unfold or_else in Hr. destruct (m w) eqn:E.
  - injection Hr as <- <-. by eapply Hm.
  - by eapply Hm'.
Qed.
Lemma ticks_for_each {A} (l : list A) f : (forall x, ticks (f x)) -> ticks (for_each l f).
Proof. intros Hf. induction l; simpl; [apply ticks_ret|by apply ticks_bind]. Qed.
Lemma ticks_for_acc {A B} (l : list A) (f : B -> A -> M B) b :
  (forall b x, ticks (f b x)) -> ticks (for_acc l f b).
Proof. intros Hf. revert b. induction l; intros b; simpl; [apply ticks_ret|by apply ticks_bind]. Qed.
Lemma ticks_mapM {A B} (f : A -> M B) (l : list A) : (forall x, ticks (f x)) -> ticks (mapM f l).
Proof.
  intros Hf. induction l as [|x l IH]; simpl; [apply ticks_ret|].
  repeat (apply ticks_bind; [done|intros]). apply ticks_ret.
Qed.

(** [ticks]: splits a program down to its leaves; what does not read the
    clock is framed. *)
Ltac ticks_step := lazymatch goal with
  | |- ticks (_ ≫= _) => apply ticks_bind; [|intros ?]
  | |- ticks (match ?x with _ => _ end) => destruct x
  | |- ticks (let _ := _ in _) => cbv zeta
  | |- ticks (for_each _ _) => apply ticks_for_each; intros ?
  | |- ticks (for_acc _ _ _) => apply ticks_for_acc; intros ? ?
  | |- ticks (mapM _ _) => apply ticks_mapM; intros ?
  | |- ticks _ => first
      [ solve [eauto 1 with ticks nocore]
      | apply ticks_keeps; unfold update_db; solve [frame]
      | apply ticks_handle | apply ticks_or_else ]
  | |- _ => progress intros
  end.
Ltac ticks := repeat ticks_step.

Section Clock.
Context `{External}.

(** A reading of the clock is the time of some position in between. *)
Definition read_between (w w' : World) (now : string) : Prop :=
  exists n, (w_clock w <= n < w_clock w')%nat /\ rfc3339_format (utc_now n) = Some now.

Lemma now_string_read w s w' : now_string w = Ok s w' -> read_between w w' s.
Proof. unfold now_string. intros Hr. tx_inv. exists (w_clock w). split; [simpl; lia|done]. Qed.
Lemma read_between_weaken w0 w1 w2 w3 now :
  read_between w1 w2 now -> (w_clock w0 <= w_clock w1)%nat -> (w_clock w2 <= w_clock w3)%nat ->
  read_between w0 w3 now.
Proof. intros (n & Hn & Hf) ? ?. exists n. split; [lia|done]. Qed.

Lemma ticks_now_string : ticks now_string.
Proof. intros w s w' Hr. apply now_string_read in Hr as (n & ? & _). lia. Qed.
Lemma keeps_clock_new_id : keeps w_clock new_id.
Proof. unfold new_id. frame. Qed.
#[local] Hint Resolve ticks_now_string : ticks.
#[local] Hint Resolve keeps_clock_new_id : frame.
Lemma ticks_finding ty id sk sev code msg : ticks (finding ty id sk sev code msg).
Proof. unfold finding. ticks. Qed.
#[local] Hint Resolve ticks_finding : ticks.
Lemma ticks_warning ty id sk code msg : ticks (warning ty id sk code msg).
Proof. apply ticks_finding. Qed.
Lemma ticks_error ty id sk code msg : ticks (error ty id sk code msg).
Proof. apply ticks_finding. Qed.
Lemma ticks_cross_scope ty id sk msg : ticks (cross_scope ty id sk msg).
Proof. apply ticks_finding. Qed.
Lemma ticks_push_if c mk fs : ticks mk -> ticks (push_if c mk fs).
Proof. intros. unfold push_if. ticks. Qed.
#[local] Hint Resolve ticks_warning ticks_error ticks_cross_scope ticks_push_if : ticks.

Ltac validator := ticks; repeat (apply ticks_push_if; ticks).
Lemma ticks_validate_entity ty id : ticks (validate_entity ty id).
Proof.
  destruct ty; simpl; unfold validate_goal, validate_roadmap, validate_roadmap_section,
    validate_work_point, cross_scope_loop, validate_plan, validate_todo, validate_issue,
    validate_review_point, validate_insight, validate_project_run, validate_graph_node,
    validate_acceptance_node, validate_graph_edge, validate_edge_endpoints; validator.
Qed.
#[local] Hint Resolve ticks_validate_entity : ticks.

Lemma ticks_persist ty id fs : ticks (persist_validation_findings ty id fs).
Proof. apply ticks_keeps. unfold persist_validation_findings, update_db. frame. Qed.
#[local] Hint Resolve ticks_persist : ticks.
Lemma ticks_refresh ty id : ticks (refresh_validation_target ty id).
Proof. unfold refresh_validation_target. ticks. Qed.
Lemma ticks_validate_and_store ty id : ticks (validate_and_store ty id).
Proof. apply ticks_refresh. Qed.
Lemma ticks_record_event ty id aty aid c r e p : ticks (record_event ty id aty aid c r e p).
Proof. unfold record_event, build_event, append_event. ticks. Qed.
Lemma keeps_clock_rebuild_tags ty id tags : keeps w_clock (rebuild_tag_index_for_entity ty id tags).
Proof. unfold rebuild_tag_index_for_entity, update_db. frame. Qed.
Lemma ticks_set_active st : ticks (set_active_project_run st).
Proof.
  apply ticks_keeps. unfold set_active_project_run, read_session, write_session, session_readable_now.
  frame.
Qed.
Lemma ticks_clear_active o : ticks (clear_active_project_run o).
Proof.
  apply ticks_keeps. unfold clear_active_project_run, read_session, write_session, session_readable_now.
  frame.
Qed.
Lemma ticks_ignore_result {A} (m : M A) : ticks m -> ticks (ignore_result m).
Proof. intros. unfold ignore_result. ticks. Qed.
End Clock.

#[export] Hint Resolve ticks_now_string ticks_finding ticks_warning ticks_error ticks_cross_scope
  ticks_push_if ticks_validate_entity ticks_persist ticks_refresh ticks_validate_and_store
  ticks_record_event ticks_set_active ticks_clear_active ticks_ignore_result : ticks.
#[export] Hint Resolve keeps_clock_new_id keeps_clock_rebuild_tags : frame.

(** Every run of the context read the clock at or after where it started. *)
Ltac clock_track := repeat match goal with
  | R : ?m ?s = Ok _ ?s' |- _ =>
      let E := fresh "Hclock" in
      assert (w_clock s <= w_clock s')%nat as E
        by (refine ((_ : ticks m) _ _ _ R); solve [ticks]);
      clear R
  end.
