(* ===== verification/ProjectRuns.v ===== *)
(** Project runs: leases on work points ([plugins/planning/src/storage.rs],
    [claim_project_run] to [add_project_run_evidence]).

    A run is claimed with a lease and a fencing token, then activated, kept
    alive by heartbeats, given evidence and released.  Each operation is one
    immediate transaction followed by a best-effort update of the session
    file. *)
From S2P Require Import Prelude Text Json Model Tx Table Store Walk EdgeRules Validation.

(** ** Inputs *)
Record ClaimProjectRunInput := mkClaimProjectRunInput {
  ci_id : option string; ci_scope_key : option string; ci_goal_id : string;
  ci_roadmap_id : string; ci_work_point_id : string; ci_repo_id : option string;
  ci_branch : option string; ci_worktree_id : option string; ci_session_id : option string;
  ci_run_id : option string; ci_profile_id : option string; ci_correlation_id : option string;
  ci_owner_id : option string; ci_idempotency_key : option string; ci_lease_seconds : option Z }.
Record ActivateProjectRunInput := mkActivateProjectRunInput {
  ai_project_run_id : string; ai_active_scope_key : option string; ai_run_id : option string;
  ai_fencing_token : option Z }.
Record HeartbeatProjectRunInput := mkHeartbeatProjectRunInput {
  hi_project_run_id : string; hi_active_scope_key : option string; hi_run_id : option string;
  hi_fencing_token : option Z; hi_lease_seconds : option Z }.
Record ReleaseProjectRunInput := mkReleaseProjectRunInput {
  ri_project_run_id : string; ri_status : ProjectRunStatus;
  ri_evidence : option ProjectRunEvidence; ri_active_scope_key : option string;
  ri_run_id : option string; ri_fencing_token : option Z }.
Record AddEvidenceInput := mkAddEvidenceInput {
  ei_project_run_id : string; ei_evidence : ProjectRunEvidence;
  ei_active_scope_key : option string; ei_run_id : option string; ei_fencing_token : option Z }.

Section ProjectRuns.
Context `{External}.

(** [julianday(a) <= julianday(b)] and [julianday(a) > julianday(b)] in a
    [WHERE] clause: a [NULL] side makes either false. *)
Definition julian_le (a b : string) : bool :=
  match julianday a, julianday b with Some x, Some y => (x <=? y)%Z | _, _ => false end.
Definition julian_gt (a b : string) : bool :=
  match julianday a, julianday b with Some x, Some y => (y <? x)%Z | _, _ => false end.

Definition on_work_point (work_point_id : string) (r : ProjectRunRecord) : bool :=
  bool_decide (pr_work_point_id r = work_point_id) && run_is_live (pr_status r).
(** The rows the claim transaction expires, and those that stop it. *)
Definition lease_expired (work_point_id now : string) (r : ProjectRunRecord) : bool :=
  on_work_point work_point_id r && julian_le (pr_lease_expires_at r) now.
Definition lease_held (work_point_id now : string) (r : ProjectRunRecord) : bool :=
  on_work_point work_point_id r && julian_gt (pr_lease_expires_at r) now.

Definition same_idempotency (a b : ProjectRunRecord) : bool :=
  bool_decide (pr_scope_key a = pr_scope_key b)
  && match pr_idempotency_key a, pr_idempotency_key b with
     | Some k, Some k' => bool_decide (k = k')
     | _, _ => false
     end.

(** [INSERT INTO project_runs]: the primary key and the partial unique index
    on scope and idempotency key. *)
Definition insert_project_run (record : ProjectRunRecord) : M unit :=
  runs ← rows db_project_runs;
  runs' ← ok_or (insert_row pr_id record runs) (Sqlite (UniqueViolation "project_runs"));
  _ ← guard_or (negb (existsb (same_idempotency record) runs))
        (Sqlite (UniqueViolation "idx_project_runs_idempotency"));
  update_db (fun d => d <| db_project_runs := runs' |>).

(** [UPDATE project_runs SET .. WHERE id = ?]. *)
Definition update_project_run (id : string) (f : ProjectRunRecord -> ProjectRunRecord) : M unit :=
  update_db (fun d => d <| db_project_runs ::=
    update_where (fun r => bool_decide (pr_id r = id)) f |>).

(** [SELECT COALESCE(MAX(fencing_token), 0) + 1 .. WHERE work_point_id = ?1]:
    the sum must still be an [i64]. *)
Definition max_token (work_point_id : string) (runs : list ProjectRunRecord) : Z :=
  max_or_zero pr_fencing_token
    (select_where (fun r => bool_decide (pr_work_point_id r = work_point_id)) runs).
Definition next_fencing_token (work_point_id : string) : M Z :=
  runs ← rows db_project_runs;
  let token := (max_token work_point_id runs + 1)%Z in
  _ ← guard_or (token <=? 9223372036854775807)%Z (Sqlite InvalidColumnType);
  mret token.

Definition run_event (record : ProjectRunRecord) (correlation_id : string)
    (run_id : option string) (event_type : string) (payload : json) : M unit :=
  record_event EntityType.ProjectRun (pr_id record) EntityType.Roadmap (pr_roadmap_id record)
    correlation_id run_id event_type payload.

(** The [ActiveProjectRunState] written to the session file. *)
Definition session_state (record : ProjectRunRecord) (status : string)
    (activated_at : option string) : ActiveProjectRunState :=
  let evidence := pr_evidence record in
  mkActiveProjectRunState (pr_id record) (pr_goal_id record) (pr_roadmap_id record)
    (pr_work_point_id record) status (default "" (pr_claimed_at record)) activated_at
    (ev_implementation_run_refs evidence ++ ev_validation_finding_refs evidence
     ++ ev_linked_spec_ids evidence).

(** ** Claim *)

(** The guards before the clock is read; returns the scope of the goal. *)
Definition claim_checks (input : ClaimProjectRunInput) : M string :=
  _ ← require_non_empty "goalId" (ci_goal_id input);
  _ ← require_non_empty "roadmapId" (ci_roadmap_id input);
  _ ← require_non_empty "workPointId" (ci_work_point_id input);
  let scope_key := normalized_scope_key (ci_scope_key input) in
  inherited_scope_key ←
    ensure_referenced_entity_in_scope EntityType.Goal (ci_goal_id input) "goalId" scope_key;
  _ ← ensure_referenced_entity_in_scope EntityType.Roadmap (ci_roadmap_id input) "roadmapId" scope_key;
  _ ← ensure_referenced_entity_in_scope EntityType.WorkPoint (ci_work_point_id input)
        "workPointId" scope_key;
  roadmap ← load_roadmap (ci_roadmap_id input);
  _ ← guard_or (bool_decide (rm_goal_id roadmap = ci_goal_id input))
        (coded_error
          [("code", JStr "PROJECT-RUN-GOAL-ROADMAP-MISMATCH");
           ("message", JStr ("roadmap '" +:+ ci_roadmap_id input +:+ "' belongs to goal '"
             +:+ rm_goal_id roadmap +:+ "', not goal '" +:+ ci_goal_id input +:+ "'"));
           ("roadmapId", JStr (ci_roadmap_id input));
           ("expectedGoalId", JStr (ci_goal_id input));
           ("actualGoalId", JStr (rm_goal_id roadmap))]);
  work_point ← load_work_point (ci_work_point_id input);
  _ ← guard_or (bool_decide (wp_roadmap_id work_point = ci_roadmap_id input))
        (coded_error
          [("code", JStr "PROJECT-RUN-WORK-POINT-ROADMAP-MISMATCH");
           ("message", JStr ("work point '" +:+ ci_work_point_id input +:+ "' belongs to roadmap '"
             +:+ wp_roadmap_id work_point +:+ "', not roadmap '" +:+ ci_roadmap_id input +:+ "'"));
           ("workPointId", JStr (ci_work_point_id input));
           ("expectedRoadmapId", JStr (ci_roadmap_id input));
           ("actualRoadmapId", JStr (wp_roadmap_id work_point))]);
  mret inherited_scope_key.

Definition claim_owner (input : ClaimProjectRunInput) : M string :=
  ok_or (match ci_owner_id input with
         | Some o => Some o
         | None => match ci_session_id input with Some s => Some s | None => ci_run_id input end
         end)
    (coded_error [("code", JStr "PROJECT-RUN-OWNER-REQUIRED");
                  ("message", JStr "provide ownerId, sessionId, or a run correlation id")]).

(** The run an idempotency key was used for makes the same claim. *)
Definition same_claim (input : ClaimProjectRunInput) (owner_id : string)
    (existing : ProjectRunRecord) : bool :=
  bool_decide (pr_goal_id existing = ci_goal_id input)
  && bool_decide (pr_roadmap_id existing = ci_roadmap_id input)
  && bool_decide (pr_work_point_id existing = ci_work_point_id input)
  && bool_decide (pr_owner_id existing = owner_id)
  && bool_decide (pr_repo_id existing = ci_repo_id input)
  && bool_decide (pr_branch existing = ci_branch input)
  && bool_decide (pr_worktree_id existing = ci_worktree_id input)
  && bool_decide (pr_session_id existing = ci_session_id input)
  && bool_decide (pr_profile_id existing = ci_profile_id input).

(** [SELECT id .. WHERE scope_key = ?1 AND idempotency_key = ?2]. *)
Definition claim_with_key (scope_key key : string) (runs : list ProjectRunRecord)
    : option ProjectRunRecord :=
  head (select_where (fun r => bool_decide (pr_scope_key r = scope_key)
                               && bool_decide (pr_idempotency_key r = Some key)) runs).

(** The idempotency check: the run to replay, if the key is taken. *)
Definition claim_replay (input : ClaimProjectRunInput) (scope_key owner_id : string)
    : M (option ProjectRunRecord) :=
  match ci_idempotency_key input with
  | None => mret None
  | Some key =>
      _ ← require_non_empty "idempotencyKey" key;
      runs ← rows db_project_runs;
      match claim_with_key scope_key key runs with
      | None => mret None
      | Some row =>
          existing ← load_project_run (pr_id row);
          _ ← guard_or (same_claim input owner_id existing)
                (coded_error
                  [("code", JStr "PROJECT-RUN-IDEMPOTENCY-CONFLICT");
                   ("message", JStr "idempotency key was already used with a different claim payload");
                   ("idempotencyKey", JStr key);
                   ("existingProjectRunId", JStr (pr_id existing))]);
          mret (Some existing)
      end
  end.

(** Releases the leases of the work point that have run out, with an event each. *)
Definition expire_leases (input : ClaimProjectRunInput) (now : string) : M unit :=
  let expired := lease_expired (ci_work_point_id input) now in
  runs ← rows db_project_runs;
  let expired_ids := map pr_id (order_by (asc_Z pr_fencing_token) (select_where expired runs)) in
  _ ← update_db (fun d => d <| db_project_runs ::= update_where expired (fun r =>
        r <| pr_status := ProjectRunStatus.Released |> <| pr_revision ::= Z.succ |>
          <| pr_updated_at := now |>) |>);
  for_each expired_ids (fun expired_id =>
    expired ← load_project_run expired_id;
    run_event expired (default "lease-expiration" (ci_correlation_id input)) (ci_run_id input)
      "project-run.expired"
      (json_object [("fencingToken", JInt (pr_fencing_token expired));
                    ("leaseExpiresAt", JStr (pr_lease_expires_at expired));
                    ("status", JStr (as_str (pr_status expired)))])).

Definition refuse_held_lease (work_point_id now : string) : M unit :=
  runs ← rows db_project_runs;
  guard_or (negb (0 <? length (select_where (lease_held work_point_id now) runs))%nat)
    (ActiveLeaseConflict work_point_id).

Definition claimed_record (input : ClaimProjectRunInput) (id scope_key owner_id now : string)
    (fencing_token : Z) (lease_expires_at : string) : ProjectRunRecord :=
  {| pr_id := id; pr_scope_key := scope_key; pr_goal_id := ci_goal_id input;
     pr_roadmap_id := ci_roadmap_id input; pr_work_point_id := ci_work_point_id input;
     pr_repo_id := ci_repo_id input; pr_branch := ci_branch input;
     pr_worktree_id := ci_worktree_id input; pr_session_id := ci_session_id input;
     pr_run_id := ci_run_id input; pr_profile_id := ci_profile_id input;
     pr_owner_id := owner_id; pr_idempotency_key := ci_idempotency_key input;
     pr_fencing_token := fencing_token; pr_lease_expires_at := lease_expires_at;
     pr_heartbeat_at := now; pr_status := ProjectRunStatus.Claimed;
     pr_evidence := ProjectRunEvidence_default; pr_revision := 1; pr_claimed_at := Some now;
     pr_completed_at := None; pr_created_at := now; pr_updated_at := now |}.

(** The claim proper, after the checks and without a replay. *)
Definition claim_new_run (input : ClaimProjectRunInput) (scope_key owner_id now : string)
    (lease_seconds : Z) : M (MutationResult ProjectRunRecord) :=
  _ ← expire_leases input now;
  _ ← refuse_held_lease (ci_work_point_id input) now;
  id ← id_or_new (ci_id input);
  fencing_token ← next_fencing_token (ci_work_point_id input);
  lease_expires_at ← lease_deadline now lease_seconds;
  let record := claimed_record input id scope_key owner_id now fencing_token lease_expires_at in
  _ ← insert_project_run record;
  _ ← run_event record (default ("corr-" +:+ id) (ci_correlation_id input)) (ci_run_id input)
        "project-run.claimed" (ProjectRunRecord_to_value record);
  validation ← validate_and_store EntityType.ProjectRun id;
  _ ← refresh_validation_target EntityType.WorkPoint (pr_work_point_id record);
  _ ← (if bool_decide (is_Some (pr_session_id record)) then
         ignore_result (set_active_project_run
           (session_state record (as_str (pr_status record)) None))
       else mret tt);
  mret (mkMutationResult record validation).

Definition claim_project_run (input : ClaimProjectRunInput) : M (MutationResult ProjectRunRecord) :=
  scope_key ← claim_checks input;
  now ← now_string;
  lease_seconds ← normalize_lease_seconds (ci_lease_seconds input);
  owner_id ← claim_owner input;
  replay ← claim_replay input scope_key owner_id;
  match replay with
  | Some existing =>
      validation ← validate_and_store EntityType.ProjectRun (pr_id existing);
      mret (mkMutationResult existing validation)
  | None => claim_new_run input scope_key owner_id now lease_seconds
  end.

(** ** The owner's operations *)

(** What the four of them start with: the run, in scope, with a current lease. *)
Definition owned_run (id : string) (active_scope_key : option string) (fencing_token : option Z)
    : M (ProjectRunRecord * string) :=
  _ ← require_non_empty "projectRunId" id;
  _ ← ensure_entity_in_scope EntityType.ProjectRun id (normalized_scope_key active_scope_key);
  existing ← load_project_run id;
  now ← now_string;
  _ ← require_current_lease existing fencing_token now;
  mret (existing, now).

Definition status_mismatch (expected : string) (actual : ProjectRunStatus) : PlanningStoreError :=
  ProjectRunStatusMismatch expected (as_str actual).

Definition activate_project_run (input : ActivateProjectRunInput)
    : M (MutationResult ProjectRunRecord) :=
  '(existing, now) ← owned_run (ai_project_run_id input) (ai_active_scope_key input)
                       (ai_fencing_token input);
  _ ← guard_or (bool_decide (pr_status existing = ProjectRunStatus.Claimed))
        (status_mismatch "claimed" (pr_status existing));
  _ ← update_project_run (ai_project_run_id input) (fun r =>
        r <| pr_status := ProjectRunStatus.Active |> <| pr_revision ::= Z.succ |>
          <| pr_updated_at := now |>);
  record ← load_project_run (ai_project_run_id input);
  correlation_id ← roadmap_correlation_id (pr_roadmap_id record);
  _ ← run_event record correlation_id (ai_run_id input) "project-run.activated"
        (ProjectRunRecord_to_value record);
  validation ← validate_and_store EntityType.ProjectRun (pr_id record);
  _ ← refresh_validation_target EntityType.WorkPoint (pr_work_point_id record);
  _ ← (if bool_decide (is_Some (pr_session_id record)) then
         now_str ← handle now_string;
         ignore_result (set_active_project_run (session_state record "active"
           (Some (match now_str with inr s => s | inl _ => "" end))))
       else mret tt);
  mret (mkMutationResult record validation).

Definition heartbeat_project_run (input : HeartbeatProjectRunInput)
    : M (MutationResult ProjectRunRecord) :=
  '(existing, now) ← owned_run (hi_project_run_id input) (hi_active_scope_key input)
                       (hi_fencing_token input);
  _ ← guard_or (bool_decide (pr_status existing = ProjectRunStatus.Claimed)
                || bool_decide (pr_status existing = ProjectRunStatus.Active))
        (status_mismatch "claimed or active" (pr_status existing));
  lease_seconds ← normalize_lease_seconds (hi_lease_seconds input);
  lease_expires_at ← lease_deadline now lease_seconds;
  _ ← update_db (fun d => d <| db_project_runs ::=
        update_where (fun r => bool_decide (pr_id r = hi_project_run_id input)
                               && bool_decide (pr_fencing_token r = pr_fencing_token existing))
          (fun r => r <| pr_heartbeat_at := now |> <| pr_lease_expires_at := lease_expires_at |>
                      <| pr_revision ::= Z.succ |> <| pr_updated_at := now |>) |>);
  record ← load_project_run (hi_project_run_id input);
  correlation_id ← roadmap_correlation_id (pr_roadmap_id record);
  _ ← run_event record correlation_id (hi_run_id input) "project-run.heartbeat"
        (json_object [("fencingToken", JInt (pr_fencing_token record));
                      ("heartbeatAt", JStr (pr_heartbeat_at record));
                      ("leaseExpiresAt", JStr (pr_lease_expires_at record))]);
  validation ← validate_and_store EntityType.ProjectRun (pr_id record);
  mret (mkMutationResult record validation).

Definition run_is_terminal (s : ProjectRunStatus) : bool :=
  match s with
  | ProjectRunStatus.Completed | ProjectRunStatus.Failed
  | ProjectRunStatus.Cancelled | ProjectRunStatus.Released => true
  | _ => false
  end.

Definition release_project_run (input : ReleaseProjectRunInput)
    : M (MutationResult ProjectRunRecord) :=
  let status := ri_status input in
  _ ← require_non_empty "projectRunId" (ri_project_run_id input);
  _ ← guard_or (run_is_terminal status)
        (InvalidInput ("project-run release status must be completed, failed, cancelled, or released; got "
          +:+ as_str status));
  '(existing, now) ← owned_run (ri_project_run_id input) (ri_active_scope_key input)
                       (ri_fencing_token input);
  _ ← guard_or (run_is_live (pr_status existing))
        (status_mismatch "claimed, active, or interrupted" (pr_status existing));
  let evidence := default (pr_evidence existing) (ri_evidence input) in
  let completed_at := if bool_decide (status = ProjectRunStatus.Completed) then Some now else None in
  _ ← update_project_run (ri_project_run_id input) (fun r =>
        r <| pr_status := status |> <| pr_evidence := evidence |>
          <| pr_completed_at := completed_at |> <| pr_revision ::= Z.succ |>
          <| pr_updated_at := now |>);
  record ← load_project_run (ri_project_run_id input);
  correlation_id ← roadmap_correlation_id (pr_roadmap_id record);
  _ ← run_event record correlation_id (ri_run_id input) "project-run.released"
        (ProjectRunRecord_to_value record);
  validation ← validate_and_store EntityType.ProjectRun (pr_id record);
  _ ← refresh_validation_target EntityType.WorkPoint (pr_work_point_id record);
  _ ← ignore_result (clear_active_project_run
        (if bool_decide (status = ProjectRunStatus.Completed)
         then Some (pr_work_point_id record) else None));
  mret (mkMutationResult record validation).

Definition add_project_run_evidence (input : AddEvidenceInput)
    : M (MutationResult ProjectRunRecord) :=
  '(existing, now) ← owned_run (ei_project_run_id input) (ei_active_scope_key input)
                       (ei_fencing_token input);
  _ ← guard_or (negb (run_is_terminal (pr_status existing)))
        (status_mismatch "claimed or active" (pr_status existing));
  _ ← update_project_run (ei_project_run_id input) (fun r =>
        r <| pr_evidence := ei_evidence input |> <| pr_revision ::= Z.succ |>
          <| pr_updated_at := now |>);
  record ← load_project_run (ei_project_run_id input);
  correlation_id ← roadmap_correlation_id (pr_roadmap_id record);
  _ ← run_event record correlation_id (ei_run_id input) "project-run.evidence-added"
        (json_object [("evidence", ProjectRunEvidence_to_value (ei_evidence input))]);
  validation ← validate_and_store EntityType.ProjectRun (pr_id record);
  _ ← ignore_result (set_active_project_run
        (session_state record (as_str (pr_status record)) (pr_completed_at record)));
  mret (mkMutationResult record validation).

(** ** The operations of owners *)
Inductive LeaseOp :=
| Claim (input : ClaimProjectRunInput)
| Activate (input : ActivateProjectRunInput)
| Heartbeat (input : HeartbeatProjectRunInput)
| Release (input : ReleaseProjectRunInput)
| AddEvidence (input : AddEvidenceInput).

Definition lease_op (op : LeaseOp) : M (MutationResult ProjectRunRecord) :=
  match op with
  | Claim i => claim_project_run i
  | Activate i => activate_project_run i
  | Heartbeat i => heartbeat_project_run i
  | Release i => release_project_run i
  | AddEvidence i => add_project_run_evidence i
  end.
End ProjectRuns.
