(* ===== verification/Leases.v ===== *)
(** The lease protocol: what the operations on project runs promise.

    [lease_trans] is the protocol alone: leases with a holder, a fencing token
    and a bit that says whether they are live.  [lease_op_sim] shows that
    every operation of [ProjectRuns] is a step of the protocol; the histories
    of them, and mutual exclusion, token order and finality, are in
    [WorkflowFacts]. *)
From stdpp Require Import relations.
From S2P Require Import Prelude Text Json Model Tx Table Store Walk EdgeRules Validation Frames Clock ProjectRuns.

(** ** The protocol *)
Record Lease := mkLease {
  l_id : string; l_work_point : string; l_token : Z; l_live : bool }.
#[export] Instance eta_Lease : Eta Lease := fun l =>
  mkLease (l_id l) (l_work_point l) (l_token l) (l_live l).

Definition end_leases (p : Lease -> bool) : list Lease -> list Lease :=
  update_where p (fun l => l <| l_live := false |>).
Definition newest_token (work_point_id : string) (a : list Lease) : Z :=
  max_or_zero l_token (select_where (fun l => bool_decide (l_work_point l = work_point_id)) a).

Inductive lease_trans : list Lease -> list Lease -> Prop :=
| lt_stay a : lease_trans a a
| lt_end a id : lease_trans a (end_leases (fun l => bool_decide (l_id l = id)) a)
| lt_claim a id work_point_id :
    (forall l, l ∈ a -> l_id l <> id) ->
    lease_trans a
      (end_leases (fun l => bool_decide (l_work_point l = work_point_id)) a
       ++ [mkLease id work_point_id (newest_token work_point_id a + 1) true]).

(** A live lease has the newest token of its work point. *)
Definition lease_inv (a : list Lease) : Prop :=
  NoDup (map l_id a) /\
  forall l l', l ∈ a -> l' ∈ a -> l_live l = true ->
    l_work_point l' = l_work_point l -> l' <> l -> (l_token l' < l_token l)%Z.

Lemma newest_token_ge work_point_id a l :
  l ∈ a -> l_work_point l = work_point_id -> (l_token l <= newest_token work_point_id a)%Z.
Proof.
  intros Hl E. apply max_or_zero_ge, elem_of_select_where. by rewrite bool_decide_eq_true.
Qed.

Lemma elem_of_end_leases p a l :
  l ∈ end_leases p a <-> exists l0, l0 ∈ a /\ l = if p l0 then l0 <| l_live := false |> else l0.
Proof. apply elem_of_update_where. Qed.

Lemma end_leases_inv p a : lease_inv a -> lease_inv (end_leases p a).
Proof.
  intros [Hn Hl]. split; [by unfold end_leases; rewrite keys_update_where|].
  intros l l' (k & Hk & ->)%elem_of_end_leases (k' & Hk' & ->)%elem_of_end_leases.
  destruct (p k) eqn:Pk; [done|]. intros Hlive E Hne.
  assert (k' <> k) as Hkk by (intros ->; rewrite Pk in Hne; done).
  assert (l_work_point k' = l_work_point k) as Ek by (revert E; by destruct (p k')).
  specialize (Hl k k' Hk Hk' Hlive Ek Hkk). by destruct (p k').
Qed.

Lemma lease_trans_inv a b : lease_trans a b -> lease_inv a -> lease_inv b.
Proof.
  intros [?|? id|a0 id wp Hid] Ha; [done|by apply end_leases_inv|].
  destruct (end_leases_inv (fun l => bool_decide (l_work_point l = wp)) _ Ha) as [Hn Hl].
  split.
  - rewrite map_app. apply NoDup_app. split_and!; [done| |apply NoDup_singleton].
    intros i Hi ->%list_elem_of_singleton. unfold end_leases in Hi.
    rewrite keys_update_where in Hi by done. apply list_elem_of_fmap in Hi as (l & E & Hli).
    by apply (Hid l).
  - intros l l' [Hin| ->%list_elem_of_singleton]%elem_of_app
      [Hin'| ->%list_elem_of_singleton]%elem_of_app; [by apply Hl| | |done].
    + simpl. intros Hlive E _. apply elem_of_end_leases in Hin as (k & Hk & ->).
      case_bool_decide; [done|congruence].
    + simpl. intros _ E _. apply elem_of_end_leases in Hin' as (k & Hk & ->).
      assert (l_token (if bool_decide (l_work_point k = wp) then k <| l_live := false |> else k)
              = l_token k) as -> by by case_bool_decide.
      assert (l_token k <= newest_token wp a0)%Z; [|lia].
      apply newest_token_ge; [done|]. revert E. by case_bool_decide.
Qed.

(** ** Following the table of runs *)
Definition runs (w : World) : list ProjectRunRecord := db_project_runs (w_db w).

Lemma keeps_runs {A} (m : M A) : keeps records m -> keeps runs m.
Proof.
  intros Hm. eapply keeps_proj; [exact Hm|]. intros s s' E.
  exact (f_equal db_project_runs E).
Qed.

(** Notes, for every run of the context, that the clock did not go back. *)
Ltac clocks := repeat match goal with
  | R : ?m ?s = Ok _ ?s' |- _ =>
      assert_fails (assert (w_clock s <= w_clock s')%nat by assumption);
      assert (w_clock s <= w_clock s')%nat
        by (refine ((_ : ticks m) _ _ _ R); solve [ticks])
  end.
(** A reading within a part is one within the whole. *)
Ltac read_within := solve [eapply read_between_weaken; [eassumption|lia..]].

(** What else a run of the context did to the runs: nothing. *)
Ltac track R := let E := fresh "E" in
  match type of R with ?m ?s = Ok ?a ?s' =>
    assert (runs s' = runs s) as E by (refine (keeps_runs m _ _ _ _ R); solve [frame]);
    clear R end.
Ltac track_all := repeat match goal with R : ?m ?s = Ok ?a ?s' |- _ => track R end.

Section Leases.
Context `{External}.

(** ** Effects of the operations *)

(** A timestamp the clock gave. *)
Definition clock_string (s : string) : Prop := exists t, rfc3339_format t = Some s.

Lemma read_clock w w' s : read_between w w' s -> clock_string s.
Proof. intros (n & _ & Hs). by exists (utc_now n). Qed.

Lemma now_string_Ok w s w' : now_string w = Ok s w' -> clock_string s /\ runs w' = runs w.
Proof.
  unfold now_string. intros Hr. tx_inv. split; [by eexists|done].
Qed.

Lemma load_by_Ok {R} (table : Db -> list R) key ty id w r w' :
  load_by table key ty id w = Ok r w' <-> find_by key id (table (w_db w)) = Some r /\ w' = w.
Proof.
  unfold load_by, rows. rewrite bind_Ok. setoid_rewrite reads_Ok.
  setoid_rewrite ok_or_Ok. naive_solver.
Qed.

(** The lease is current: the token is the run's and the lease has not run out. *)
Definition current_lease (r : ProjectRunRecord) (fencing_token : option Z) (now : string) : Prop :=
  fencing_token = Some (pr_fencing_token r) /\
  exists deadline time, rfc3339_parse (pr_lease_expires_at r) = Some deadline /\
    rfc3339_parse now = Some time /\ (time < deadline)%Z.

Lemma require_current_lease_Ok r tok now w w' :
  require_current_lease r tok now w = Ok tt w' <-> current_lease r tok now /\ w' = w.
Proof.
  unfold require_current_lease, current_lease. rewrite bind_Ok. setoid_rewrite ok_or_Ok. split.
  - intros (t & s1 & [-> ->] & Hr). tx_inv. bool_props. subst.
    split; [|done]. split; [done|]. eexists _, _. split_and!; [done..|]. lia.
  - intros [[-> (d & t & Ed & Et & Hlt)] ->]. eexists _, _. split; [done|].
    rewrite bind_Ok. eexists _, _. split; [by rewrite bool_decide_true; [|done]|].
    unfold ok_or. rewrite Ed, Et. unfold mbind, Tx_bind, mret, Tx_ret, guard_or.
    assert ((d <=? t)%Z = false) as -> by lia. done.
Qed.

Lemma owned_run_Ok id sk tok w existing now w' :
  owned_run id sk tok w = Ok (existing, now) w' ->
  runs w' = runs w /\ find_by pr_id id (runs w) = Some existing /\
  current_lease existing tok now /\ read_between w w' now.
Proof.
  unfold owned_run. intros Hr. tx_inv. clocks.
  apply load_by_Ok in R1 as [Hf ->]. pose proof (now_string_read _ _ _ R2) as Hread.
  apply now_string_Ok in R2 as [Hn E].
  destruct a3. apply require_current_lease_Ok in R3 as [Hc ->].
  injection H0 as -> ->.
  assert (runs s0 = runs w) as E0.
  { rewrite (keeps_ensure_in_scope runs _ _ _ _ _ _ R0).
    by rewrite (keeps_require_non_empty runs _ _ _ _ _ R). }
  rewrite E, E0. split_and!; [done| |done|read_within]. unfold runs in E0 |- *. by rewrite <- E0.
Qed.

Lemma update_db_Ok f w u w' : update_db f w = Ok u w' <-> w' = w <| w_db ::= f |>.
Proof. apply modify_Ok. Qed.

Lemma update_runs_Ok g w u w' :
  update_db (fun d => d <| db_project_runs ::= g |>) w = Ok u w' -> runs w' = g (runs w).
Proof. by intros ->%update_db_Ok. Qed.
Lemma update_project_run_Ok id f w u w' :
  update_project_run id f w = Ok u w' ->
  runs w' = update_where (fun r => bool_decide (pr_id r = id)) f (runs w).
Proof. apply update_runs_Ok. Qed.

Lemma load_project_run_Ok id w r w' :
  load_project_run id w = Ok r w' -> find_by pr_id id (runs w) = Some r /\ w' = w.
Proof. by intros [Hf ->]%load_by_Ok. Qed.

(** What an owner's operation does: it was addressed to a run of the table,
    with a current lease, and it rewrote that run with [f]. *)
Definition owner_effect (id : string) (tok : option Z)
    (f : ProjectRunRecord -> string -> ProjectRunRecord -> ProjectRunRecord)
    (ok : ProjectRunRecord -> string -> Prop) (w w' : World) (record : ProjectRunRecord) : Prop :=
  exists existing now,
    find_by pr_id id (runs w) = Some existing /\ current_lease existing tok now /\
    read_between w w' now /\ ok existing now /\
    runs w' = update_where (fun r => bool_decide (pr_id r = id)) (f existing now) (runs w) /\
    find_by pr_id id (runs w') = Some record.

Lemma keeps_run_event r c i e p : keeps records (run_event r c i e p).
Proof. apply record_event_records. Qed.
Lemma ticks_run_event r c i e p : ticks (run_event r c i e p).
Proof. apply ticks_record_event. Qed.
#[local] Hint Resolve keeps_run_event : frame.
#[local] Hint Resolve ticks_run_event : ticks.

Ltac chain := repeat match goal with
  | E : runs ?s = _ |- context [runs ?s] => rewrite E
  | E : runs ?s = _, F : find_by _ _ ?t = _ |- _ =>
      match t with context [runs s] => rewrite E in F end
  end; first [reflexivity|eassumption].

(** Reads an [owner_effect] off the inverted run. *)
Ltac owner_effect R R1 R2 :=
  apply owned_run_Ok in R as (?E & ?Hf & ?Hc & ?Hs);
  apply load_project_run_Ok in R2 as [?Hf' ->];
  track_all; eexists _, _; split_and!; [eassumption|eassumption|read_within|eassumption| |]; chain.

Lemma activate_effect i w res w' :
  activate_project_run i w = Ok res w' ->
  owner_effect (ai_project_run_id i) (ai_fencing_token i)
    (fun _ now r => r <| pr_status := ProjectRunStatus.Active |> <| pr_revision ::= Z.succ |>
                      <| pr_updated_at := now |>)
    (fun existing _ => pr_status existing = ProjectRunStatus.Claimed) w w' (mr_record res).
Proof.
  unfold activate_project_run. intros Hr. tx_inv. clocks. bool_props.
  apply update_project_run_Ok in R1. owner_effect R R1 R2.
Qed.

Lemma normalize_lease_seconds_Ok v w s w' :
  normalize_lease_seconds v w = Ok s w' <->
  s = default DEFAULT_LEASE_SECONDS v /\ (1 <= s <= 86400)%Z /\ w' = w.
Proof.
  unfold normalize_lease_seconds. rewrite bind_Ok. setoid_rewrite guard_or_Ok.
  setoid_rewrite ret_Ok. setoid_rewrite andb_true_iff. setoid_rewrite Z.leb_le.
  generalize (default DEFAULT_LEASE_SECONDS v). naive_solver.
Qed.

Lemma lease_deadline_Ok now secs w d w' :
  lease_deadline now secs w = Ok d w' <->
  exists t, rfc3339_parse now = Some t /\
            rfc3339_format (t + secs * 1000000000)%Z = Some d /\ w' = w.
Proof.
  unfold lease_deadline. rewrite bind_Ok. setoid_rewrite ok_or_Ok. naive_solver.
Qed.

(** A lease of between a second and a day from [now]. *)
Definition lease_from (requested : option Z) (now deadline : string) : Prop :=
  let secs := default DEFAULT_LEASE_SECONDS requested in
  (1 <= secs <= 86400)%Z /\
  exists t, rfc3339_parse now = Some t /\ rfc3339_format (t + secs * 1000000000)%Z = Some deadline.

Lemma update_where_and {R} (p q : R -> bool) f l :
  update_where (fun r => p r && q r) f l = update_where p (fun r => if q r then f r else r) l.
Proof. apply map_ext. intros r. by destruct (p r), (q r). Qed.

Lemma heartbeat_effect i w res w' :
  heartbeat_project_run i w = Ok res w' ->
  exists lease,
  owner_effect (hi_project_run_id i) (hi_fencing_token i)
    (fun existing now r =>
       if bool_decide (pr_fencing_token r = pr_fencing_token existing) then
         r <| pr_heartbeat_at := now |> <| pr_lease_expires_at := lease |>
           <| pr_revision ::= Z.succ |> <| pr_updated_at := now |>
       else r)
    (fun existing now => run_is_live (pr_status existing) = true
                         /\ lease_from (hi_lease_seconds i) now lease)
    w w' (mr_record res).
Proof.
  unfold heartbeat_project_run. intros Hr. tx_inv. clocks.
  apply normalize_lease_seconds_Ok in R1 as (-> & Hs & ->).
  apply lease_deadline_Ok in R2 as (t & Ht & Hd & ->).
  apply update_runs_Ok in R3. rename R4 into R2.
  exists a1. apply owned_run_Ok in R as (E & Hf & Hc & Hcs).
  apply load_project_run_Ok in R2 as [Hf' ->].
  track_all. eexists _, _. split_and!; [eassumption|eassumption|read_within| | | |chain].
  - apply orb_true_iff in H0 as [H0|H0]; bool_props; by rewrite H0.
  - split; [done|]. by eexists.
  - rewrite update_where_and in R3. chain.
Qed.

Lemma release_effect i w res w' :
  release_project_run i w = Ok res w' ->
  run_is_terminal (ri_status i) = true /\
  owner_effect (ri_project_run_id i) (ri_fencing_token i)
    (fun existing now r =>
       r <| pr_status := ri_status i |> <| pr_evidence := default (pr_evidence existing) (ri_evidence i) |>
         <| pr_completed_at := if bool_decide (ri_status i = ProjectRunStatus.Completed)
                               then Some now else None |>
         <| pr_revision ::= Z.succ |> <| pr_updated_at := now |>)
    (fun existing _ => run_is_live (pr_status existing) = true) w w' (mr_record res).
Proof.
  unfold release_project_run. intros Hr. tx_inv. clocks. split; [done|]. bool_props.
  apply update_project_run_Ok in R3. apply owned_run_Ok in R1 as (E & Hf & Hc & Hcs).
  apply load_project_run_Ok in R4 as [Hf' ->]. track_all.
  eexists _, _. split_and!; [chain|eassumption|read_within|eassumption| |]; chain.
Qed.

Lemma add_evidence_effect i w res w' :
  add_project_run_evidence i w = Ok res w' ->
  owner_effect (ei_project_run_id i) (ei_fencing_token i)
    (fun _ now r => r <| pr_evidence := ei_evidence i |> <| pr_revision ::= Z.succ |>
                      <| pr_updated_at := now |>)
    (fun existing _ => run_is_terminal (pr_status existing) = false) w w' (mr_record res).
Proof.
  unfold add_project_run_evidence. intros Hr. tx_inv. clocks. bool_props.
  apply update_project_run_Ok in R1. owner_effect R R1 R2.
Qed.

(** *** Claiming *)
Definition released_at (now : string) (r : ProjectRunRecord) : ProjectRunRecord :=
  r <| pr_status := ProjectRunStatus.Released |> <| pr_revision ::= Z.succ |>
    <| pr_updated_at := now |>.
Definition after_expiry (work_point_id now : string) : list ProjectRunRecord -> list ProjectRunRecord :=
  update_where (lease_expired work_point_id now) (released_at now).

Lemma expire_leases_effect i now w u w' :
  expire_leases i now w = Ok u w' -> runs w' = after_expiry (ci_work_point_id i) now (runs w).
Proof.
  unfold expire_leases. intros Hr. tx_inv. apply update_runs_Ok in R0.
  apply (proj1 (reads_Ok _ _ _ _)) in R as [-> ->]. track_all. by rewrite E.
Qed.

Lemma refuse_held_lease_Ok wp now w u w' :
  refuse_held_lease wp now w = Ok u w' ->
  w' = w /\ forall r, r ∈ runs w -> lease_held wp now r = false.
Proof.
  unfold refuse_held_lease. intros Hr. tx_inv.
  apply (proj1 (reads_Ok _ _ _ _)) in R as [-> ->]. split; [done|]. intros r Hin.
  destruct (lease_held wp now r) eqn:E; [|done].
  assert (r ∈ select_where (lease_held wp now) (runs w)) as Hs by by apply elem_of_select_where.
  change (db_project_runs (w_db w)) with (runs w) in H0.
  destruct (select_where (lease_held wp now) (runs w)); [set_solver|done].
Qed.

Lemma next_fencing_token_Ok wp w t w' :
  next_fencing_token wp w = Ok t w' ->
  t = (max_token wp (runs w) + 1)%Z /\ w' = w /\ (t <= 9223372036854775807)%Z.
Proof.
  unfold next_fencing_token. intros Hr. tx_inv.
  apply (proj1 (reads_Ok _ _ _ _)) in R as [-> ->]. split_and!; [done..|lia].
Qed.

Lemma insert_project_run_Ok r w u w' :
  insert_project_run r w = Ok u w' ->
  runs w' = runs w ++ [r] /\ (forall r', r' ∈ runs w -> pr_id r' <> pr_id r) /\
  forall r', r' ∈ runs w -> same_idempotency r r' = false.
Proof.
  unfold insert_project_run. intros Hr. tx_inv.
  apply (proj1 (reads_Ok _ _ _ _)) in R as [-> ->].
  apply (proj1 (insert_row_Some _ _ _ _)) in H0 as [-> Hid]. bool_props.
  apply update_db_Ok in Hr as ->. split_and!; [done..|].
  intros r' Hin. apply Bool.not_true_iff_false. intros Hs.
  apply Bool.not_true_iff_false in H1. apply H1, existsb_exists. exists r'.
  by rewrite <- list_elem_of_In.
Qed.

(** A claim that inserts a run: the run-out leases of its work point are
    released, none is held, and the new run is claimed with the next token. *)
Definition claims (i : ClaimProjectRunInput) (w w' : World) (record : ProjectRunRecord) : Prop :=
  exists id owner_id now lease,
    let scope_key := normalized_scope_key (ci_scope_key i) in
    let runs0 := after_expiry (ci_work_point_id i) now (runs w) in
    let token := (max_token (ci_work_point_id i) runs0 + 1)%Z in
    read_between w w' now /\ lease_from (ci_lease_seconds i) now lease /\
    (forall r, r ∈ runs0 -> lease_held (ci_work_point_id i) now r = false) /\
    record = claimed_record i id scope_key owner_id now token lease /\
    (token <= 9223372036854775807)%Z /\
    (forall r, r ∈ runs0 -> pr_id r <> id /\ same_idempotency record r = false) /\
    runs w' = runs0 ++ [record].

(** A claim that repeats an earlier one under its idempotency key. *)
Definition replays (i : ClaimProjectRunInput) (w w' : World) (record : ProjectRunRecord) : Prop :=
  exists owner_id key row,
    ci_idempotency_key i = Some key /\
    claim_with_key (normalized_scope_key (ci_scope_key i)) key (runs w) = Some row /\
    find_by pr_id (pr_id row) (runs w) = Some record /\
    same_claim i owner_id record = true /\ runs w' = runs w.

Lemma ticks_claim_new_run i sk owner now secs : ticks (claim_new_run i sk owner now secs).
Proof.
  unfold claim_new_run, expire_leases, refuse_held_lease, id_or_new, next_fencing_token,
    insert_project_run, run_event. ticks.
Qed.

Lemma claim_new_run_effect i owner now w0 w res w' :
  (1 <= default DEFAULT_LEASE_SECONDS (ci_lease_seconds i) <= 86400)%Z ->
  claim_new_run i (normalized_scope_key (ci_scope_key i)) owner now
    (default DEFAULT_LEASE_SECONDS (ci_lease_seconds i)) w = Ok res w' ->
  runs w = runs w0 -> read_between w0 w now -> claims i w0 w' (mr_record res).
Proof.
  intros Hsecs Hr E0 Hread.
  assert (read_between w0 w' now) as Hread'.
  { eapply read_between_weaken; [exact Hread|done|by eapply ticks_claim_new_run]. }
  unfold claim_new_run in Hr. tx_inv.
  apply expire_leases_effect in R. apply refuse_held_lease_Ok in R0 as [-> Hheld].
  assert (runs s1 = runs s) as E1 by (eapply keeps_runs; [|exact R1]; frame).
  apply next_fencing_token_Ok in R2 as (-> & -> & Htok).
  apply lease_deadline_Ok in R3 as (t & Ht & Hd & ->).
  apply insert_project_run_Ok in R4 as (Hins & Hid & Hkey).
  clear R1. track_all. rewrite E1, R, E0 in *.
  eexists _, _, now, _. split_and!; [done|split; [done|by eexists]|done|reflexivity|done| |].
  - intros r Hin. split; [by apply Hid|by apply Hkey].
  - simpl. congruence.
Qed.

Lemma keeps_claim_checks {X} (f : World -> X) i : keeps f (claim_checks i).
Proof. unfold claim_checks. frame. Qed.
Lemma claim_checks_Ok i w sk w' :
  claim_checks i w = Ok sk w' -> sk = normalized_scope_key (ci_scope_key i).
Proof.
  unfold claim_checks, ensure_referenced_entity_in_scope. intros Hr. tx_inv. by bool_props.
Qed.
Lemma keeps_claim_owner {X} (f : World -> X) i : keeps f (claim_owner i).
Proof. unfold claim_owner. frame. Qed.

Lemma claim_replay_Ok i sk owner w o w' :
  claim_replay i sk owner w = Ok o w' ->
  w' = w /\
  match ci_idempotency_key i with
  | None => o = None
  | Some key =>
      match o with
      | None => claim_with_key sk key (runs w) = None
      | Some record => exists row, claim_with_key sk key (runs w) = Some row /\
          find_by pr_id (pr_id row) (runs w) = Some record /\ same_claim i owner record = true
      end
  end.
Proof.
  unfold claim_replay. intros Hr. destruct (ci_idempotency_key i) as [key|]; tx_inv; [|done].
  pose proof (keeps_require_non_empty (fun w => w) _ _ _ _ _ R) as Es. simpl in Es. subst.
  apply (proj1 (reads_Ok _ _ _ _)) in R0 as [-> ->].
  destruct (claim_with_key sk key (db_project_runs (w_db w))) as [row|] eqn:Ek; tx_inv; [|done].
  apply load_project_run_Ok in R0 as [Hf ->]. split; [done|]. by exists row.
Qed.

Lemma claim_effect i w res w' :
  claim_project_run i w = Ok res w' ->
  claims i w w' (mr_record res) \/ replays i w w' (mr_record res).
Proof.
  unfold claim_project_run. intros Hr. tx_inv.
  pose proof (keeps_claim_checks runs _ _ _ _ R) as E.
  pose proof (keeps_claim_checks w_clock _ _ _ _ R) as Ec. apply claim_checks_Ok in R as ->.
  pose proof (now_string_read _ _ _ R0) as Hread. apply now_string_Ok in R0 as [Hc E0].
  apply normalize_lease_seconds_Ok in R1 as (-> & Hs & ->).
  pose proof (keeps_claim_owner runs _ _ _ _ R2) as E2.
  apply claim_replay_Ok in R3 as [-> Hrep].
  assert (runs s2 = runs w) as Ew by congruence.
  destruct a3 as [existing|].
  - right. tx_inv. destruct (ci_idempotency_key i) as [key|] eqn:Ek; [|done].
    destruct Hrep as (row & Hk & Hf & Hsame). rewrite Ew in *. clear R2. track_all.
    eexists _, key, row. split_and!; [done..|]. congruence.
  - left. pose proof (keeps_claim_owner w_clock _ _ _ _ R2) as Ec2.
    eapply claim_new_run_effect; [done|exact Hr|exact Ew|]. read_within.
Qed.

(** ** Refinement of the protocol *)
Definition lease_of (r : ProjectRunRecord) : Lease :=
  mkLease (pr_id r) (pr_work_point_id r) (pr_fencing_token r) (run_is_live (pr_status r)).

(** What the runs of a history satisfy besides: unique ids, statuses the
    operations assign, and deadlines the clock's format gave. *)
Definition wf_run (r : ProjectRunRecord) : Prop :=
  pr_status r <> ProjectRunStatus.Suggested /\ clock_string (pr_lease_expires_at r).
Definition wf_runs (rs : list ProjectRunRecord) : Prop :=
  NoDup (map pr_id rs) /\ Forall wf_run rs.

(** RFC 3339 text parses back, and SQLite understands it. *)
Class ClockLaws := {
  julianday_rfc3339 : forall t s, rfc3339_format t = Some s -> is_Some (julianday s) }.

Definition lease_sim (w : World) (a : list Lease) : Prop :=
  a = map lease_of (runs w) /\ wf_runs (runs w).

Lemma map_update_where {R T} (g : R -> T) (p : R -> bool) (q : T -> bool) (f : R -> R)
    (h : T -> T) (l : list R) :
  (forall r, r ∈ l -> g (if p r then f r else r) = if q (g r) then h (g r) else g r) ->
  map g (update_where p f l) = update_where q h (map g l).
Proof.
  intros Hg. induction l as [|r l IH]; simpl; [done|].
  rewrite Hg by set_solver. f_equal. apply IH. intros. apply Hg. set_solver.
Qed.

Lemma find_by_unique {R} (key : R -> string) id l r r' :
  NoDup (map key l) -> find_by key id l = Some r' -> r ∈ l -> key r = id -> r = r'.
Proof. intros Hn Hf Hr <-. rewrite (find_by_elem key l r Hn Hr) in Hf. by injection Hf. Qed.

(** An operation of the owner keeps the table well-formed, when it does so
    for the run it is addressed to. *)
Lemma owner_wf id tok f ok w w' (record : ProjectRunRecord) :
  owner_effect id tok f ok w w' record ->
  (forall existing now, ok existing now -> clock_string now -> wf_run existing ->
    pr_id (f existing now existing) = pr_id existing /\ wf_run (f existing now existing)) ->
  wf_runs (runs w) -> wf_runs (runs w').
Proof.
  intros (ex & now & Hf & Hc & Hs & Hok & -> & _) Hstep [Hn Hwf].
  assert (forall r, r ∈ runs w ->
            let r' := if bool_decide (pr_id r = id) then f ex now r else r in
            pr_id r' = pr_id r /\ wf_run r') as Hrow.
  { intros r Hr. rewrite Forall_forall in Hwf. pose proof (Hwf r Hr) as Hwr. simpl.
    case_bool_decide as Hid; [|done].
    rewrite (find_by_unique _ _ _ _ _ Hn Hf Hr Hid) in Hwr |- *.
    apply Hstep; [done|by eapply read_clock|done]. }
  split.
  - assert (map pr_id (update_where (fun r => bool_decide (pr_id r = id)) (f ex now) (runs w))
            = map pr_id (runs w)) as ->; [|done].
    unfold update_where. rewrite map_map. apply map_ext_in. intros r Hr%list_elem_of_In.
    by apply Hrow.
  - apply Forall_forall. intros r (r0 & Hr0 & ->)%elem_of_update_where. by apply Hrow.
Qed.

(** It is a stuttering step of the protocol when it keeps the lease of that run. *)
Lemma owner_stays id tok f ok w w' (record : ProjectRunRecord) :
  owner_effect id tok f ok w w' record -> wf_runs (runs w) ->
  (forall existing now, ok existing now -> lease_of (f existing now existing) = lease_of existing) ->
  map lease_of (runs w') = map lease_of (runs w).
Proof.
  intros (ex & now & Hf & _ & _ & Hok & -> & _) [Hn _] Hl.
  unfold update_where. rewrite map_map. apply map_ext_in. intros r Hr%list_elem_of_In.
  case_bool_decide as Hid; [|done].
  rewrite (find_by_unique _ _ _ _ _ Hn Hf Hr Hid). by apply Hl.
Qed.

Lemma live_not_suggested s : run_is_live s = true -> s <> ProjectRunStatus.Suggested.
Proof. by destruct s. Qed.
Lemma terminal_not_suggested s : run_is_terminal s = true -> s <> ProjectRunStatus.Suggested.
Proof. by destruct s. Qed.
Lemma terminal_not_live s : run_is_terminal s = true -> run_is_live s = false.
Proof. by destruct s. Qed.

Context (Laws : ClockLaws).

Lemma lease_from_clock o now lease : lease_from o now lease -> clock_string lease.
Proof. intros (_ & t & _ & Hd). by eexists. Qed.

(** After the claim's expiry and its check for held leases, no run of the
    work point is live. *)
Lemma claim_leaves_none_live wp now rs r :
  clock_string now -> wf_runs rs ->
  (forall r, r ∈ after_expiry wp now rs -> lease_held wp now r = false) ->
  r ∈ rs -> pr_work_point_id r = wp -> run_is_live (pr_status r) = true ->
  lease_expired wp now r = true.
Proof.
  intros [t Hnow] [_ Hwf] Hheld Hr Hwp Hlive.
  destruct (lease_expired wp now r) eqn:E; [done|].
  assert (r ∈ after_expiry wp now rs) as Hin.
  { apply elem_of_update_where. exists r. by rewrite E. }
  specialize (Hheld r Hin). rewrite Forall_forall in Hwf. destruct (Hwf r Hr) as [_ [u Hu]].
  destruct (julianday_rfc3339 u _ Hu) as [d Hd].
  destruct (julianday_rfc3339 t now Hnow) as [n Hn].
  unfold lease_expired, lease_held, on_work_point, julian_le, julian_gt in *.
  rewrite bool_decide_true, Hlive, Hd, Hn in * by done. simpl in *. lia.
Qed.

(** The next token of the claim is that of the protocol. *)
Lemma max_token_expiry wp now rs :
  max_token wp (after_expiry wp now rs) = newest_token wp (map lease_of rs).
Proof.
  unfold max_token, newest_token, max_or_zero.
  assert (map pr_fencing_token (select_where (fun r => bool_decide (pr_work_point_id r = wp))
                                  (after_expiry wp now rs))
          = map l_token (select_where (fun l => bool_decide (l_work_point l = wp))
                           (map lease_of rs))) as ->; [|done].
  unfold after_expiry, select_where. induction rs as [|r rs IH]; simpl; [done|].
  assert (forall b : bool, pr_work_point_id (if b then released_at now r else r) = pr_work_point_id r
          /\ pr_fencing_token (if b then released_at now r else r) = pr_fencing_token r) as Hb
    by by intros [].
  destruct (Hb (lease_expired wp now r)) as [-> Ht].
  case_bool_decide; simpl; [|done]. by rewrite Ht, IH.
Qed.

Lemma claims_wf i w w' record :
  claims i w w' record -> wf_runs (runs w) -> wf_runs (runs w').
Proof.
  intros (id & owner & now & lease & Hc & Hl & _ & -> & _ & Hid & ->) [Hn Hwf].
  split.
  - rewrite map_app. apply NoDup_app. split_and!; [|simpl|apply NoDup_singleton].
    + unfold after_expiry. by rewrite keys_update_where.
    + intros k Hk ->%list_elem_of_singleton. apply list_elem_of_fmap in Hk as (r & E & Hr).
      by destruct (Hid r Hr).
  - apply Forall_app. split.
    + apply Forall_forall. intros r (r0 & Hr0 & ->)%elem_of_update_where.
      rewrite Forall_forall in Hwf. destruct (Hwf r0 Hr0). by destruct (lease_expired _ _ r0).
    + apply Forall_singleton. split; [done|]. by eapply lease_from_clock.
Qed.

Lemma claims_sim i w w' record :
  claims i w w' record -> wf_runs (runs w) ->
  lease_trans (map lease_of (runs w)) (map lease_of (runs w')).
Proof.
  intros (id & owner & now & lease & Hc & Hl & Hheld & -> & _ & Hid & ->) Hwf.
  set (wp := ci_work_point_id i) in *.
  assert (map lease_of (after_expiry wp now (runs w))
          = end_leases (fun l => bool_decide (l_work_point l = wp)) (map lease_of (runs w))) as Hexp.
  { apply map_update_where. intros r Hr. simpl. destruct (lease_expired wp now r) eqn:E.
    - unfold lease_expired, on_work_point in E. bool_props. by rewrite bool_decide_true.
    - case_bool_decide as Hwp; [|done]. unfold lease_of. simpl.
      destruct (run_is_live (pr_status r)) eqn:Hlive; [|done].
      by rewrite (claim_leaves_none_live wp now _ r (read_clock _ _ _ Hc) Hwf Hheld Hr Hwp Hlive) in E. }
  rewrite map_app, Hexp, max_token_expiry. simpl. apply lt_claim.
  intros l (r & -> & Hr)%list_elem_of_fmap. simpl.
  intros <-.
  assert ((if lease_expired wp now r then released_at now r else r) ∈ after_expiry wp now (runs w))
    as Hin by (apply elem_of_update_where; by exists r).
  destruct (Hid _ Hin) as [Hne _]. apply Hne. by destruct (lease_expired wp now r).
Qed.

Lemma lease_op_sim op w res w' :
  lease_op op w = Ok res w' -> wf_runs (runs w) ->
  wf_runs (runs w') /\ lease_trans (map lease_of (runs w)) (map lease_of (runs w')).
Proof.
  intros Hr Hwf. destruct op as [i|i|i|i|i]; simpl in Hr.
  - apply claim_effect in Hr as [Hr|(? & ? & ? & _ & _ & _ & _ & ->)].
    + split; [by eapply claims_wf|by eapply claims_sim].
    + split; [done|apply lt_stay].
  - apply activate_effect in Hr. split.
    + eapply owner_wf; [exact Hr| |done]. intros ex now Hs _ [_ ?]. split; [done|]. by split.
    + rewrite (owner_stays _ _ _ _ w w' _ Hr); [apply lt_stay|done|].
      intros ex now Hs. unfold lease_of. simpl. by rewrite Hs.
  - apply heartbeat_effect in Hr as (lease & Hr). split.
    + eapply owner_wf; [exact Hr| |done]. intros ex now [_ Hl] _ [? ?].
      rewrite bool_decide_true by done. split; [done|]. split; [done|].
      by eapply lease_from_clock.
    + rewrite (owner_stays _ _ _ _ w w' _ Hr); [apply lt_stay|done|].
      intros ex now _. by rewrite bool_decide_true.
  - apply release_effect in Hr as [Ht Hr]. split.
    + eapply owner_wf; [exact Hr| |done]. intros ex now _ _ [_ ?]. split; [done|].
      split; [by apply terminal_not_suggested|done].
    + destruct Hr as (ex & now & _ & _ & _ & _ & -> & _).
      erewrite (map_update_where lease_of _ (fun l => bool_decide (l_id l = ri_project_run_id i)));
        [apply lt_end|].
      intros r _. simpl. case_bool_decide; [|done]. unfold lease_of. simpl.
      by rewrite terminal_not_live.
  - apply add_evidence_effect in Hr. split.
    + by eapply owner_wf; [exact Hr| |done].
    + rewrite (owner_stays _ _ _ _ w w' _ Hr); [apply lt_stay|done|]. done.
Qed.

(** The run an owner's operation is addressed to. *)
Definition addressed_to (op : LeaseOp) : option string :=
  match op with
  | Claim _ => None
  | Activate i => Some (ai_project_run_id i)
  | Heartbeat i => Some (hi_project_run_id i)
  | Release i => Some (ri_project_run_id i)
  | AddEvidence i => Some (ei_project_run_id i)
  end.

(** An owner's operation that succeeds was addressed to a run that has not ended. *)
Lemma addressed_not_terminal op w res w' id :
  lease_op op w = Ok res w' -> addressed_to op = Some id ->
  exists f ok record,
    owner_effect id (match op with
                     | Claim _ => None | Activate i => ai_fencing_token i
                     | Heartbeat i => hi_fencing_token i | Release i => ri_fencing_token i
                     | AddEvidence i => ei_fencing_token i end) f ok w w' record
    /\ forall existing now, ok existing now -> run_is_terminal (pr_status existing) = false.
Proof.
  assert (forall s, run_is_live s = true -> run_is_terminal s = false) as Hlt by by intros [].
  intros Hr Ha. destruct op as [i|i|i|i|i]; simpl in Hr, Ha; [done|injection Ha as <-..].
  - apply activate_effect in Hr. eexists _, _, _. split; [exact Hr|]. by intros ? ? ->.
  - apply heartbeat_effect in Hr as (lease & Hr). eexists _, _, _. split; [exact Hr|].
    intros ? ? [? _]. by apply Hlt.
  - apply release_effect in Hr as [_ Hr]. eexists _, _, _. split; [exact Hr|].
    intros ? ? ?. by apply Hlt.
  - apply add_evidence_effect in Hr. eexists _, _, _. split; [exact Hr|]. done.
Qed.

(** An ended run is not rewritten by any of them. *)
Lemma lease_op_keeps_ended op w r :
  wf_runs (runs w) -> r ∈ runs w -> run_is_terminal (pr_status r) = true ->
  r ∈ runs (committed (lease_op op) w).
Proof.
  intros Hwf Hr Ht. unfold committed. destruct (lease_op op w) as [res s'|e] eqn:Ho; [|done].
  destruct (addressed_to op) as [id|] eqn:Ha.
  - destruct (addressed_not_terminal _ _ _ _ _ Ho Ha)
      as (f & ok & rec & (ex & now & Hf & _ & _ & Hok & -> & _) & Hnt).
    apply elem_of_update_where. exists r. split; [done|]. case_bool_decide as Hid; [|done].
    destruct Hwf as [Hn _]. rewrite (find_by_unique _ _ _ _ _ Hn Hf Hr Hid) in Ht.
    by rewrite (Hnt _ _ Hok) in Ht.
  - destruct op as [i|?|?|?|?]; simpl in Ho; try done.
    apply claim_effect in Ho as [(? & ? & now & ? & _ & _ & _ & _ & _ & _ & ->)
                                |(? & ? & ? & _ & _ & _ & _ & ->)]; [|done].
    apply elem_of_app. left. apply elem_of_update_where. exists r. split; [done|].
    assert (lease_expired (ci_work_point_id i) now r = false) as ->; [|done].
    unfold lease_expired, on_work_point. rewrite (terminal_not_live _ Ht). by rewrite andb_false_r.
Qed.

(** *** Idempotency keys *)

(** What names a run: its id, and its scope with its idempotency key. *)
Definition run_key (r : ProjectRunRecord) : string * string * option string :=
  (pr_id r, pr_scope_key r, pr_idempotency_key r).
Definition keys_unique (rs : list ProjectRunRecord) : Prop :=
  forall r r', r ∈ rs -> r' ∈ rs -> same_idempotency r r' = true -> pr_id r = pr_id r'.
Definition has_run_key (k : string * string * option string) (rs : list ProjectRunRecord) : Prop :=
  k ∈ map run_key rs.

Lemma same_idempotency_true r r' :
  same_idempotency r r' = true <->
  pr_scope_key r = pr_scope_key r' /\
  exists key, pr_idempotency_key r = Some key /\ pr_idempotency_key r' = Some key.
Proof.
  unfold same_idempotency. rewrite andb_true_iff, bool_decide_eq_true.
  destruct (pr_idempotency_key r), (pr_idempotency_key r');
    rewrite ?bool_decide_eq_true; naive_solver.
Qed.

(** [keys_unique] is a property of the run keys. *)
Lemma keys_unique_ext rs rs' : map run_key rs' = map run_key rs -> keys_unique rs -> keys_unique rs'.
Proof.
  intros E Hu r r' Hr Hr' Hs.
  assert (run_key r ∈ map run_key rs) as (q & Eq & Hq)%list_elem_of_fmap
    by (rewrite <- E; by apply list_elem_of_fmap_2).
  assert (run_key r' ∈ map run_key rs) as (q' & Eq' & Hq')%list_elem_of_fmap
    by (rewrite <- E; by apply list_elem_of_fmap_2).
  injection Eq as -> Es Ek. injection Eq' as -> Es' Ek'. apply Hu; [done..|].
  apply same_idempotency_true. apply same_idempotency_true in Hs as (? & k & ? & ?).
  split; [congruence|]. exists k. split; congruence.
Qed.

Lemma owner_keys id tok f ok w w' (record : ProjectRunRecord) :
  owner_effect id tok f ok w w' record ->
  (forall existing now r, run_key (f existing now r) = run_key r) ->
  map run_key (runs w') = map run_key (runs w).
Proof.
  intros (ex & now & _ & _ & _ & _ & -> & _) Hk. unfold update_where. rewrite map_map.
  apply map_ext. intros r. case_bool_decide; [apply Hk|done].
Qed.

Lemma lease_op_keys op w res w' :
  lease_op op w = Ok res w' ->
  map run_key (runs w') = map run_key (runs w) \/
  exists record, map run_key (runs w') = map run_key (runs w) ++ [run_key record] /\
    forall r, r ∈ runs w -> same_idempotency record r = false.
Proof.
  intros Hr. destruct op as [i|i|i|i|i]; simpl in Hr.
  - apply claim_effect in Hr as [(id & owner & now & lease & _ & _ & _ & -> & _ & Hid & E)
                                |(? & ? & ? & _ & _ & _ & _ & ->)]; [right|by left].
    eexists. split.
    + rewrite E, map_app. f_equal. unfold after_expiry, update_where. rewrite map_map.
      apply map_ext. intros r. by destruct (lease_expired _ _ r).
    + intros r Hr.
      assert ((if lease_expired (ci_work_point_id i) now r then released_at now r else r)
              ∈ after_expiry (ci_work_point_id i) now (runs w)) as Hin
        by (apply elem_of_update_where; by exists r).
      destruct (Hid _ Hin) as [_ Hs]. revert Hs. by destruct (lease_expired _ _ r).
  - apply activate_effect in Hr. left. eapply owner_keys; [exact Hr|]. done.
  - apply heartbeat_effect in Hr as (lease & Hr). left. eapply owner_keys; [exact Hr|].
    intros ex now r. cbv beta. by destruct (bool_decide _).
  - apply release_effect in Hr as [_ Hr]. left. eapply owner_keys; [exact Hr|]. done.
  - apply add_evidence_effect in Hr. left. eapply owner_keys; [exact Hr|]. done.
Qed.

Lemma claim_with_key_Some sk key rs row :
  claim_with_key sk key rs = Some row ->
  row ∈ rs /\ pr_scope_key row = sk /\ pr_idempotency_key row = Some key.
Proof.
  unfold claim_with_key. intros Hh. apply head_Some in Hh as [l E].
  assert (row ∈ row :: l) as Hin by set_solver. rewrite <- E in Hin.
  apply elem_of_select_where in Hin as [? ?]. by bool_props.
Qed.

(** A successful claim with a key leaves a run under that key. *)
Lemma claim_key i w res w' key :
  claim_project_run i w = Ok res w' -> ci_idempotency_key i = Some key ->
  has_run_key (pr_id (mr_record res), normalized_scope_key (ci_scope_key i), Some key) (runs w').
Proof.
  intros [Hc|Hc]%claim_effect Hkey; unfold has_run_key.
  - destruct Hc as (id & owner & now & lease & _ & _ & _ & -> & _ & _ & ->).
    rewrite map_app. apply elem_of_app. right. unfold run_key. simpl. rewrite Hkey. by apply list_elem_of_singleton.
  - destruct Hc as (owner & k & row & Hk & Hrow & Hf & _ & ->).
    rewrite Hkey in Hk. injection Hk as <-. apply claim_with_key_Some in Hrow as (Hin & Es & Ek).
    pose proof (find_by_Some _ _ _ _ Hf) as [_ Hid].
    apply list_elem_of_fmap. exists row. split; [|done]. unfold run_key. by rewrite Hid, Es, Ek.
Qed.

(** ** The properties *)

(** Fencing tokens grow: a claim that inserts a run gives it a token
    above that of every run of the work point so far, within the range of an
    [i64], and leaves it claimed with a lease of 1 to 86400 seconds from the
    claim; a claim that does not insert one returns a stored run and leaves
    the table as it was. *)
Theorem claim_takes_a_newer_token i w res w' :
  claim_project_run i w = Ok res w' ->
  let record := mr_record res in
  (runs w' = runs w /\ record ∈ runs w) \/
  (record ∈ runs w' /\ pr_status record = ProjectRunStatus.Claimed /\
   pr_work_point_id record = ci_work_point_id i /\
   (pr_fencing_token record <= 9223372036854775807)%Z /\
   lease_from (ci_lease_seconds i) (pr_heartbeat_at record) (pr_lease_expires_at record) /\
   forall r, r ∈ runs w -> pr_work_point_id r = ci_work_point_id i ->
     (pr_fencing_token r < pr_fencing_token record)%Z).
Proof.
  intros [Hc|Hc]%claim_effect; [right|left].
  - destruct Hc as (id & owner & now & lease & _ & Hl & _ & -> & Ht & _ & ->).
    split_and!; [set_solver|done..|]. intros r Hr Hwp. simpl. rewrite max_token_expiry.
    assert (pr_fencing_token r <= newest_token (ci_work_point_id i) (map lease_of (runs w)))%Z; [|lia].
    apply (newest_token_ge _ _ (lease_of r)); [by apply list_elem_of_fmap_2|done].
  - destruct Hc as (owner & key & row & _ & _ & Hf & _ & ->).
    split; [done|]. by apply find_by_Some in Hf as [? _].
Qed.

(** The lease guard of the owner's operations succeeds exactly for the
    run's own fencing token while the lease has not run out, and never
    changes the world. *)
Theorem lease_guard_decides record fencing_token now w w' :
  require_current_lease record fencing_token now w = Ok tt w' <->
  w' = w /\ fencing_token = Some (pr_fencing_token record) /\
  exists deadline time, rfc3339_parse (pr_lease_expires_at record) = Some deadline /\
    rfc3339_parse now = Some time /\ (time < deadline)%Z.
Proof. rewrite require_current_lease_Ok. unfold current_lease. naive_solver. Qed.

(** A successful release leaves exactly the released run changed: its
    status is the requested terminal one, its completion time is set exactly
    for [completed], its evidence is the supplied one or else what it had,
    and the returned record is the stored one. *)
Theorem release_ends_the_run i w res w' :
  release_project_run i w = Ok res w' ->
  exists existing,
    find_by pr_id (ri_project_run_id i) (runs w) = Some existing /\
    find_by pr_id (ri_project_run_id i) (runs w') = Some (mr_record res) /\
    pr_status (mr_record res) = ri_status i /\ run_is_terminal (ri_status i) = true /\
    (is_Some (pr_completed_at (mr_record res)) <-> ri_status i = ProjectRunStatus.Completed) /\
    pr_evidence (mr_record res) = default (pr_evidence existing) (ri_evidence i) /\
    pr_revision (mr_record res) = Z.succ (pr_revision existing) /\
    forall r, pr_id r <> ri_project_run_id i -> (r ∈ runs w' <-> r ∈ runs w).
Proof.
  intros [Ht (ex & now & Hf & _ & _ & _ & E & Hf')]%release_effect. exists ex.
  rewrite E in Hf'. rewrite find_by_update_where in Hf' by done.
  rewrite E. rewrite find_by_update_where by done. rewrite Hf in Hf' |- *. simpl in Hf'.
  pose proof (find_by_Some _ _ _ _ Hf) as [_ Hid]. rewrite bool_decide_true in Hf' by done.
  injection Hf' as <-. simpl. rewrite bool_decide_true by done.
  split_and!; try done.
  - case_bool_decide; naive_solver.
  - intros r Hne. rewrite elem_of_update_where. split.
    + intros (r0 & Hr0 & ->). case_bool_decide; simpl in Hne; [done|done].
    + intros Hr. exists r. by rewrite bool_decide_false.
Qed.
End Leases.

#[export] Hint Resolve keeps_run_event : frame.
#[export] Hint Resolve ticks_run_event : ticks.
