(* ===== verification/Graph.v ===== *)
(** The planning graph's operations ([plugins/planning/src/storage.rs],
    [create_graph_node] to [find_runnable_graph_work], and the manifest's
    upserts): nodes, edges, acceptance and evidence, finalization. *)
From stdpp Require Import pretty.
From S2P Require Import Prelude Text Json Model Tx Table Store Walk EdgeRules Validation.

(** ** Inputs *)
Record CreateGraphNodeInput := mkCreateGraphNodeInput {
  cn_id : option string; cn_scope_key : option string; cn_correlation_id : string;
  cn_kind : PlanningNodeKind; cn_title : string; cn_summary : string; cn_status : string;
  cn_payload : json; cn_tags : list string; cn_run_id : option string }.
Record CreateGraphEdgeInput := mkCreateGraphEdgeInput {
  ce_id : option string; ce_scope_key : option string; ce_correlation_id : string;
  ce_kind : PlanningEdgeKind; ce_source_node_id : string; ce_target_node_id : string;
  ce_status : string; ce_payload : json; ce_run_id : option string }.
Record UpdateGraphNodeStatusInput := mkUpdateGraphNodeStatusInput {
  un_node_id : string; un_correlation_id : string; un_active_scope_key : option string;
  un_status : string; un_run_id : option string }.
Record UpdateGraphEdgeStatusInput := mkUpdateGraphEdgeStatusInput {
  ue_edge_id : string; ue_correlation_id : string; ue_active_scope_key : option string;
  ue_status : string; ue_run_id : option string }.
Record ReviseGraphNodeInput := mkReviseGraphNodeInput {
  rn_node_id : string; rn_correlation_id : string; rn_active_scope_key : option string;
  rn_title : option string; rn_summary : option string; rn_status : option string;
  rn_payload : option json; rn_tags : option (list string); rn_clear_tags : bool;
  rn_run_id : option string }.
Record ReviseGraphEdgeInput := mkReviseGraphEdgeInput {
  re_edge_id : string; re_correlation_id : string; re_active_scope_key : option string;
  re_status : option string; re_payload : option json; re_run_id : option string }.
Record CreateAcceptanceInput := mkCreateAcceptanceInput {
  ca_id : option string; ca_scope_key : option string; ca_correlation_id : string;
  ca_title : string; ca_summary : string; ca_status : string;
  ca_acceptance_kind : AcceptanceKind; ca_description : string; ca_verification_policy : string;
  ca_required_evidence_kinds : list EvidenceKind; ca_waiver : option string;
  ca_tags : list string; ca_run_id : option string }.
Record CreateEvidenceInput := mkCreateEvidenceInput {
  cv_id : option string; cv_scope_key : option string; cv_correlation_id : string;
  cv_title : string; cv_summary : string; cv_status : string; cv_evidence_kind : EvidenceKind;
  cv_reference : string; cv_content : string; cv_captured_at : string; cv_tags : list string;
  cv_run_id : option string }.
Record SatisfyAcceptanceInput := mkSatisfyAcceptanceInput {
  sa_id : option string; sa_scope_key : option string; sa_correlation_id : string;
  sa_concrete_node_id : string; sa_abstract_node_id : string; sa_rationale : string;
  sa_run_id : option string }.
Record AttachEvidenceInput := mkAttachEvidenceInput {
  ae_id : option string; ae_scope_key : option string; ae_correlation_id : string;
  ae_evidence_node_id : string; ae_target_node_id : string; ae_rationale : string;
  ae_run_id : option string }.
Record FinalizeGraphNodeInput := mkFinalizeGraphNodeInput {
  fi_node_id : string; fi_correlation_id : string; fi_active_scope_key : option string;
  fi_status : string; fi_accepted_risk : option string; fi_run_id : option string }.

(** ** Results *)
Record ParsedManifest := mkParsedManifest {
  pm_scope : string; pm_nodes : list CreateGraphNodeInput; pm_edges : list CreateGraphEdgeInput }.
(** The reason is kept as the error it is printed from. *)
Record ManifestConflict := mkManifestConflict {
  mc_entity_type : string; mc_entity_id : string; mc_reason : PlanningStoreError }.
Record ManifestApplyResult := mkManifestApplyResult {
  ma_created_nodes : list string; ma_revised_nodes : list string;
  ma_unchanged_nodes : list string; ma_created_edges : list string;
  ma_revised_edges : list string; ma_unchanged_edges : list string;
  ma_conflicts : list ManifestConflict; ma_validation : option ValidationReport;
  ma_total_nodes : nat; ma_total_edges : nat }.
#[export] Instance eta_ManifestApplyResult : Eta ManifestApplyResult := fun r =>
  mkManifestApplyResult (ma_created_nodes r) (ma_revised_nodes r) (ma_unchanged_nodes r)
    (ma_created_edges r) (ma_revised_edges r) (ma_unchanged_edges r) (ma_conflicts r)
    (ma_validation r) (ma_total_nodes r) (ma_total_edges r).

Section Graph.
Context `{External}.

(** ** Statements *)
Definition insert_graph_node (record : PlanningGraphNode) : M unit :=
  t ← rows db_nodes;
  t' ← ok_or (insert_row pn_id record t) (Sqlite (UniqueViolation "planning_nodes"));
  update_db (fun d => d <| db_nodes := t' |>).
Definition update_graph_node_row (id : string) (f : PlanningGraphNode -> PlanningGraphNode)
    : M unit :=
  update_db (fun d => d <| db_nodes ::= update_where (fun n => bool_decide (pn_id n = id)) f |>).

(** [idx_planning_edges_unique_active]: same scope, kind and endpoints, both active. *)
Definition same_active_edge (a b : PlanningGraphEdge) : bool :=
  is_active a && is_active b
  && bool_decide (pe_scope_key a = pe_scope_key b) && bool_decide (pe_kind a = pe_kind b)
  && bool_decide (pe_source_node_id a = pe_source_node_id b)
  && bool_decide (pe_target_node_id a = pe_target_node_id b).

Definition insert_graph_edge (record : PlanningGraphEdge) : M unit :=
  t ← rows db_edges;
  t' ← ok_or (insert_row pe_id record t) (Sqlite (UniqueViolation "planning_edges"));
  _ ← guard_or (negb (existsb (same_active_edge record) t))
        (Sqlite (UniqueViolation "idx_planning_edges_unique_active"));
  update_db (fun d => d <| db_edges := t' |>).

(** [UPDATE planning_edges SET .. WHERE id = ?]: the row the update gives must
    not collide with another one in the unique index. *)
Definition update_graph_edge_row (id : string) (f : PlanningGraphEdge -> PlanningGraphEdge)
    : M unit :=
  t ← rows db_edges;
  _ ← guard_or (match find_by pe_id id t with
                | Some e => negb (existsb (fun e' => negb (bool_decide (pe_id e' = id))
                                                     && same_active_edge (f e) e') t)
                | None => true
                end) (Sqlite (UniqueViolation "idx_planning_edges_unique_active"));
  update_db (fun d => d <| db_edges ::= update_where (fun e => bool_decide (pe_id e = id)) f |>).

Definition node_event (node_id correlation_id : string) (run_id : option string)
    (event_type : string) (payload : json) : M unit :=
  record_event EntityType.GraphNode node_id EntityType.GraphNode node_id correlation_id run_id
    event_type payload.
Definition edge_event (edge_id source_node_id correlation_id : string) (run_id : option string)
    (event_type : string) (payload : json) : M unit :=
  record_event EntityType.GraphEdge edge_id EntityType.GraphNode source_node_id correlation_id
    run_id event_type payload.

(** [validate_entity], [persist_validation_findings], [from_findings]. *)
Definition validate_and_report (ty : EntityType) (id : string) : M ValidationReport :=
  findings ← validate_entity ty id;
  _ ← persist_validation_findings ty id findings;
  mret (from_findings findings).

(** ** Nodes *)
Definition new_node (input : CreateGraphNodeInput) (id scope_key now : string) : PlanningGraphNode :=
  {| pn_id := id; pn_scope_key := scope_key; pn_kind := cn_kind input;
     pn_title := trim (cn_title input); pn_summary := trim (cn_summary input);
     pn_status := trim (cn_status input); pn_payload := cn_payload input;
     pn_tags := normalize_string_list (cn_tags input); pn_revision := 1;
     pn_created_at := now; pn_updated_at := now |}.

Definition create_graph_node (input : CreateGraphNodeInput) : M (MutationResult PlanningGraphNode) :=
  _ ← require_non_empty "correlationId" (cn_correlation_id input);
  _ ← require_non_empty "title" (cn_title input);
  _ ← require_non_empty "summary" (cn_summary input);
  _ ← require_non_empty "status" (cn_status input);
  _ ← require_kebab_token "status" (cn_status input);
  _ ← match cn_id input with Some id => require_non_empty "id" id | None => mret tt end;
  let scope_key := normalized_scope_key (cn_scope_key input) in
  _ ← ensure_scope_exists scope_key;
  now ← now_string;
  id ← id_or_new (cn_id input);
  let record := new_node input id scope_key now in
  _ ← insert_graph_node record;
  _ ← node_event id (cn_correlation_id input) (cn_run_id input) "graph-node.created"
        (PlanningGraphNode_to_value record);
  _ ← rebuild_tag_index_for_entity EntityType.GraphNode id (pn_tags record);
  mret (mkMutationResult record (from_findings [])).

Definition status_payload (status old_status : string) (revision : Z) : list (string * json) :=
  [("status", JStr status); ("previousStatus", JStr old_status); ("revision", JInt revision)].

Definition update_graph_node_status (input : UpdateGraphNodeStatusInput)
    : M (MutationResult PlanningGraphNode) :=
  let id := un_node_id input in
  _ ← require_non_empty "nodeId" id;
  _ ← require_non_empty "correlationId" (un_correlation_id input);
  _ ← require_non_empty "status" (un_status input);
  _ ← require_kebab_token "status" (un_status input);
  _ ← ensure_entity_in_scope EntityType.GraphNode id
        (normalized_scope_key (un_active_scope_key input));
  old_record ← load_graph_node id;
  now ← now_string;
  _ ← update_graph_node_row id (fun n =>
        n <| pn_status := trim (un_status input) |> <| pn_revision ::= Z.succ |>
          <| pn_updated_at := now |>);
  record ← load_graph_node id;
  _ ← node_event (pn_id record) (un_correlation_id input) (un_run_id input)
        "graph-node.status-updated"
        (json_object (status_payload (pn_status record) (pn_status old_record) (pn_revision record)));
  validation ← validate_and_report EntityType.GraphNode (pn_id record);
  mret (mkMutationResult record validation).

(** [input.map(trim).filter(non-empty).unwrap_or(existing)]. *)
Definition revised_text (input : option string) (existing : string) : string :=
  match input with
  | Some t => if bool_decide (trim t = "") then existing else trim t
  | None => existing
  end.
Definition revised_status (input : option string) (existing : string) : M string :=
  match input with
  | Some s => _ ← require_kebab_token "status" s; mret (trim s)
  | None => mret existing
  end.

Definition revise_graph_node (input : ReviseGraphNodeInput) : M (MutationResult PlanningGraphNode) :=
  let id := rn_node_id input in
  _ ← require_non_empty "nodeId" id;
  _ ← require_non_empty "correlationId" (rn_correlation_id input);
  _ ← ensure_entity_in_scope EntityType.GraphNode id
        (normalized_scope_key (rn_active_scope_key input));
  existing ← load_graph_node id;
  now ← now_string;
  let title := revised_text (rn_title input) (pn_title existing) in
  let summary := revised_text (rn_summary input) (pn_summary existing) in
  status ← revised_status (rn_status input) (pn_status existing);
  let payload := default (pn_payload existing) (rn_payload input) in
  let tags := if rn_clear_tags input then []
              else match rn_tags input with
                   | Some tags => normalize_string_list tags
                   | None => pn_tags existing end in
  _ ← update_graph_node_row id (fun n =>
        n <| pn_title := title |> <| pn_summary := summary |> <| pn_status := status |>
          <| pn_payload := payload |> <| pn_tags := tags |> <| pn_revision ::= Z.succ |>
          <| pn_updated_at := now |>);
  record ← load_graph_node id;
  _ ← node_event (pn_id record) (rn_correlation_id input) (rn_run_id input) "graph-node.revised"
        (json_object [("title", JStr (pn_title record)); ("summary", JStr (pn_summary record));
                      ("status", JStr (pn_status record)); ("tags", json_strings (pn_tags record));
                      ("revision", JInt (pn_revision record))]);
  validation ← validate_and_report EntityType.GraphNode (pn_id record);
  _ ← rebuild_tag_index_for_entity EntityType.GraphNode (pn_id record) (pn_tags record);
  mret (mkMutationResult record validation).

(** ** Edges *)
Definition load_endpoint (field id : string) : M PlanningGraphNode :=
  map_err (fun _ => InvalidInput (field +:+ " references missing node `" +:+ id +:+ "`"))
    (load_graph_node id).

(** [SELECT COUNT( * ) .. AND status = 'active'], without the edge [except]. *)
Definition active_duplicates (scope_key : string) (kind : PlanningEdgeKind) (source target : string)
    (except : option string) (t : list PlanningGraphEdge) : list PlanningGraphEdge :=
  select_where (fun e =>
    bool_decide (pe_scope_key e = scope_key) && bool_decide (pe_kind e = kind)
    && bool_decide (pe_source_node_id e = source) && bool_decide (pe_target_node_id e = target)
    && is_active e && negb (bool_decide (Some (pe_id e) = except))) t.

(** What is required of an edge that becomes active: no duplicate, and no
    cycle for the acyclic kinds.  [doing] starts the message of each refusal. *)
Definition check_activation (duplicate_text cycle_text : string) (scope_key : string)
    (kind : PlanningEdgeKind) (source target : string) (except : option string) : M unit :=
  t ← rows db_edges;
  _ ← guard_or (negb (0 <? length (active_duplicates scope_key kind source target except t))%nat)
        (InvalidInput (duplicate_text +:+ "duplicate active " +:+ as_str kind +:+ " edge from `"
          +:+ source +:+ "` to `" +:+ target +:+ "` in scope `" +:+ scope_key +:+ "`"));
  if is_acyclic_kind kind then
    cycle ← would_create_graph_cycle source target kind;
    guard_or (negb cycle)
      (InvalidInput (cycle_text +:+ as_str kind +:+ " edge from `" +:+ source +:+ "` to `"
        +:+ target +:+ "` would create a cycle"))
  else mret tt.

(** The preflight on the endpoints of an edge. *)
Definition check_endpoints (kind : PlanningEdgeKind) (source_node_id target_node_id scope_key : string)
    : M unit :=
  source ← load_endpoint "sourceNodeId" source_node_id;
  target ← load_endpoint "targetNodeId" target_node_id;
  _ ← guard_or (bool_decide (pn_scope_key source = scope_key)
                && bool_decide (pn_scope_key target = scope_key))
        (InvalidInput "source and target nodes must belong to the same scope as the edge");
  _ ← guard_or (negb (bool_decide (source_node_id = target_node_id)))
        (InvalidInput ("self-referential " +:+ as_str kind
          +:+ " edge is not allowed: source and target must be different nodes"));
  validate_edge_kind_pair kind (pn_kind source) (pn_kind target).

Definition new_edge (input : CreateGraphEdgeInput) (id scope_key now : string) : PlanningGraphEdge :=
  {| pe_id := id; pe_scope_key := scope_key; pe_kind := ce_kind input;
     pe_source_node_id := ce_source_node_id input; pe_target_node_id := ce_target_node_id input;
     pe_status := trim (ce_status input); pe_payload := ce_payload input; pe_revision := 1;
     pe_created_at := now; pe_updated_at := now |}.

Definition create_graph_edge (input : CreateGraphEdgeInput) : M (MutationResult PlanningGraphEdge) :=
  _ ← require_non_empty "correlationId" (ce_correlation_id input);
  _ ← require_non_empty "source_node_id" (ce_source_node_id input);
  _ ← require_non_empty "target_node_id" (ce_target_node_id input);
  _ ← require_non_empty "status" (ce_status input);
  _ ← require_kebab_token "status" (ce_status input);
  _ ← match ce_id input with Some id => require_non_empty "id" id | None => mret tt end;
  let scope_key := normalized_scope_key (ce_scope_key input) in
  _ ← ensure_scope_exists scope_key;
  _ ← check_endpoints (ce_kind input) (ce_source_node_id input) (ce_target_node_id input) scope_key;
  let final_status := trim (ce_status input) in
  _ ← (if bool_decide (final_status = "active") then
         check_activation "" "adding this " scope_key (ce_kind input) (ce_source_node_id input)
           (ce_target_node_id input) None
       else mret tt);
  now ← now_string;
  id ← id_or_new (ce_id input);
  let record := new_edge input id scope_key now in
  _ ← insert_graph_edge record;
  _ ← edge_event id (ce_source_node_id input) (ce_correlation_id input) (ce_run_id input)
        "graph-edge.created" (PlanningGraphEdge_to_value record);
  mret (mkMutationResult record (from_findings [])).

Definition update_graph_edge_status (input : UpdateGraphEdgeStatusInput)
    : M (MutationResult PlanningGraphEdge) :=
  let id := ue_edge_id input in
  _ ← require_non_empty "edgeId" id;
  _ ← require_non_empty "correlationId" (ue_correlation_id input);
  _ ← require_non_empty "status" (ue_status input);
  _ ← require_kebab_token "status" (ue_status input);
  _ ← ensure_entity_in_scope EntityType.GraphEdge id
        (normalized_scope_key (ue_active_scope_key input));
  old_record ← load_graph_edge id;
  let new_status := trim (ue_status input) in
  _ ← (if bool_decide (new_status = "active") then
         check_activation "cannot set edge status to active: " "cannot set edge status to active: "
           (pe_scope_key old_record) (pe_kind old_record) (pe_source_node_id old_record)
           (pe_target_node_id old_record) (Some id)
       else mret tt);
  now ← now_string;
  _ ← update_graph_edge_row id (fun e =>
        e <| pe_status := new_status |> <| pe_revision ::= Z.succ |> <| pe_updated_at := now |>);
  record ← load_graph_edge id;
  _ ← edge_event (pe_id record) (pe_source_node_id record) (ue_correlation_id input)
        (ue_run_id input) "graph-edge.status-updated"
        (json_object (status_payload (pe_status record) (pe_status old_record) (pe_revision record)));
  validation ← validate_and_report EntityType.GraphEdge (pe_id record);
  mret (mkMutationResult record validation).

Definition revise_graph_edge (input : ReviseGraphEdgeInput) : M (MutationResult PlanningGraphEdge) :=
  let id := re_edge_id input in
  _ ← require_non_empty "edgeId" id;
  _ ← require_non_empty "correlationId" (re_correlation_id input);
  _ ← ensure_entity_in_scope EntityType.GraphEdge id
        (normalized_scope_key (re_active_scope_key input));
  existing ← load_graph_edge id;
  now ← now_string;
  status ← revised_status (re_status input) (pe_status existing);
  let payload := default (pe_payload existing) (re_payload input) in
  _ ← (if bool_decide (status = "active") then
         check_activation "cannot revise edge status to active: "
           "cannot revise edge status to active: "
           (pe_scope_key existing) (pe_kind existing) (pe_source_node_id existing)
           (pe_target_node_id existing) (Some id)
       else mret tt);
  _ ← update_graph_edge_row id (fun e =>
        e <| pe_status := status |> <| pe_payload := payload |> <| pe_revision ::= Z.succ |>
          <| pe_updated_at := now |>);
  record ← load_graph_edge id;
  _ ← edge_event (pe_id record) (pe_source_node_id record) (re_correlation_id input)
        (re_run_id input) "graph-edge.revised"
        (json_object (status_payload (pe_status record) (pe_status existing) (pe_revision record)));
  validation ← validate_and_report EntityType.GraphEdge (pe_id record);
  mret (mkMutationResult record validation).

(** ** Acceptance and evidence *)
Definition acceptance_payload (input : CreateAcceptanceInput) : json :=
  let payload := json_object
    [("acceptanceKind", JStr (as_str (ca_acceptance_kind input)));
     ("description", JStr (ca_description input));
     ("verificationPolicy", JStr (ca_verification_policy input));
     ("requiredEvidenceKinds", json_strings (map as_str (ca_required_evidence_kinds input)))] in
  match ca_waiver input with
  | Some waiver => json_set "waiver" (JStr waiver) payload
  | None => payload
  end.

Definition create_acceptance (input : CreateAcceptanceInput) : M (MutationResult PlanningGraphNode) :=
  _ ← require_non_empty "correlationId" (ca_correlation_id input);
  _ ← require_non_empty "title" (ca_title input);
  _ ← require_non_empty "status" (ca_status input);
  _ ← require_kebab_token "status" (ca_status input);
  create_graph_node
    {| cn_id := ca_id input; cn_scope_key := ca_scope_key input;
       cn_correlation_id := ca_correlation_id input; cn_kind := PlanningNodeKind.Acceptance;
       cn_title := ca_title input; cn_summary := ca_summary input; cn_status := ca_status input;
       cn_payload := acceptance_payload input; cn_tags := ca_tags input;
       cn_run_id := ca_run_id input |}.

Definition create_evidence (input : CreateEvidenceInput) : M (MutationResult PlanningGraphNode) :=
  _ ← require_non_empty "correlationId" (cv_correlation_id input);
  _ ← require_non_empty "title" (cv_title input);
  _ ← require_non_empty "status" (cv_status input);
  _ ← require_kebab_token "status" (cv_status input);
  create_graph_node
    {| cn_id := cv_id input; cn_scope_key := cv_scope_key input;
       cn_correlation_id := cv_correlation_id input; cn_kind := PlanningNodeKind.Evidence;
       cn_title := cv_title input; cn_summary := cv_summary input; cn_status := cv_status input;
       cn_payload := json_object
         [("evidenceKind", JStr (as_str (cv_evidence_kind input)));
          ("summary", JStr (cv_summary input)); ("reference", JStr (cv_reference input));
          ("content", JStr (cv_content input)); ("capturedAt", JStr (cv_captured_at input))];
       cn_tags := cv_tags input; cn_run_id := cv_run_id input |}.

(** The node must be an acceptance of the expected kind. *)
Definition require_acceptance (field id expected : string) : M unit :=
  node ← map_err (fun _ => InvalidInput (field +:+ " `" +:+ id +:+ "` references a missing node"))
           (load_graph_node id);
  _ ← guard_or (bool_decide (pn_kind node = PlanningNodeKind.Acceptance))
        (InvalidInput (field +:+ " `" +:+ id +:+ "` is a `" +:+ as_str (pn_kind node)
          +:+ "` node, not an acceptance node"));
  let kind := payload_str "acceptanceKind" (pn_payload node) in
  guard_or (bool_decide (kind = expected))
    (InvalidInput (field +:+ " `" +:+ id +:+ "` has acceptanceKind `" +:+ kind
      +:+ "`, expected `" +:+ expected +:+ "`")).

Definition satisfy_acceptance (input : SatisfyAcceptanceInput) : M (MutationResult PlanningGraphEdge) :=
  _ ← require_non_empty "correlationId" (sa_correlation_id input);
  _ ← require_non_empty "concrete_node_id" (sa_concrete_node_id input);
  _ ← require_non_empty "abstract_node_id" (sa_abstract_node_id input);
  _ ← require_non_empty "rationale" (sa_rationale input);
  _ ← require_acceptance "concrete_node_id" (sa_concrete_node_id input) "concrete";
  _ ← require_acceptance "abstract_node_id" (sa_abstract_node_id input) "abstract";
  create_graph_edge
    {| ce_id := sa_id input; ce_scope_key := sa_scope_key input;
       ce_correlation_id := sa_correlation_id input; ce_kind := PlanningEdgeKind.Satisfies;
       ce_source_node_id := sa_concrete_node_id input;
       ce_target_node_id := sa_abstract_node_id input; ce_status := "active";
       ce_payload := json_object [("rationale", JStr (sa_rationale input))];
       ce_run_id := sa_run_id input |}.

Definition attach_evidence (input : AttachEvidenceInput) : M (MutationResult PlanningGraphEdge) :=
  _ ← require_non_empty "correlationId" (ae_correlation_id input);
  _ ← require_non_empty "evidence_node_id" (ae_evidence_node_id input);
  _ ← require_non_empty "target_node_id" (ae_target_node_id input);
  let payload := if bool_decide (ae_rationale input = "") then json_object []
                 else json_object [("rationale", JStr (ae_rationale input))] in
  create_graph_edge
    {| ce_id := ae_id input; ce_scope_key := ae_scope_key input;
       ce_correlation_id := ae_correlation_id input; ce_kind := PlanningEdgeKind.EvidencedBy;
       ce_source_node_id := ae_target_node_id input;
       ce_target_node_id := ae_evidence_node_id input; ce_status := "active";
       ce_payload := payload; ce_run_id := ae_run_id input |}.

(** ** Finalization *)
Definition structural_codes : list string :=
  ["GRAPH-EDGE-CYCLE"; "GRAPH-EDGE-DUPLICATE-ACTIVE"; "GRAPH-EDGE-MISSING-NODE";
   "GRAPH-EDGE-CROSS-SCOPE"; "GRAPH-EDGE-KIND-MISMATCH"].
Definition type_integrity_codes : list string :=
  ["ACCEPTANCE-KIND-INVALID"; "EVIDENCE-KIND-INVALID"].
Definition waivable_gap_codes : list string :=
  ["ACCEPTANCE-COVERAGE-MISSING"; "ACCEPTANCE-EVIDENCE-MISSING"].

(** The codes of the findings that are in a group. *)
Definition codes_in (group : list string) (findings : list ValidationFinding) : list string :=
  List.filter (fun c => bool_decide (c ∈ group)) (map vf_code findings).

Definition risk_accepted (risk : option string) : bool :=
  match risk with Some r => negb (bool_decide (trim r = "")) | None => false end.

(** The findings on the node and on its edges in scope; an edge whose
    validation fails contributes none. *)
Definition finalization_findings (node : PlanningGraphNode) : M (list ValidationFinding) :=
  node_findings ← validate_entity EntityType.GraphNode (pn_id node);
  incoming ← list_incoming_edges_in_scope (pn_id node) (pn_scope_key node) None;
  outgoing ← list_outgoing_edges_in_scope (pn_id node) (pn_scope_key node) None;
  edge_findings ← for_acc (incoming ++ outgoing) (fun acc edge =>
    ef ← try_load (validate_entity EntityType.GraphEdge (pe_id edge));
    mret (acc ++ default [] ef)) [];
  mret (node_findings ++ edge_findings).

(** The three refusals. *)
Definition check_finalization (node_id : string) (risk : option string)
    (findings : list ValidationFinding) : M unit :=
  let refusal group (text after : string) :=
    InvalidInput ("cannot finalize graph node `" +:+ node_id +:+ "`: " +:+ text
      +:+ debug_strings (codes_in group findings) +:+ after) in
  _ ← guard_or (bool_decide (codes_in structural_codes findings = []))
        (refusal structural_codes "blocking structural findings: " "");
  _ ← guard_or (bool_decide (codes_in type_integrity_codes findings = []))
        (refusal type_integrity_codes "invalid typed payloads: "
          ". Fix the payload before finalizing");
  guard_or (bool_decide (codes_in waivable_gap_codes findings = []) || risk_accepted risk)
    (refusal waivable_gap_codes "acceptance/evidence gaps: " ". Use --accepted-risk to waive").

Definition finalize_graph_node (input : FinalizeGraphNodeInput)
    : M (MutationResult PlanningGraphNode) :=
  let id := fi_node_id input in
  _ ← require_non_empty "nodeId" id;
  _ ← require_non_empty "correlationId" (fi_correlation_id input);
  _ ← require_non_empty "status" (fi_status input);
  _ ← require_kebab_token "status" (fi_status input);
  _ ← ensure_entity_in_scope EntityType.GraphNode id
        (normalized_scope_key (fi_active_scope_key input));
  node ← load_graph_node id;
  findings ← finalization_findings node;
  _ ← check_finalization id (fi_accepted_risk input) findings;
  now ← now_string;
  _ ← update_graph_node_row id (fun n =>
        n <| pn_status := trim (fi_status input) |> <| pn_revision ::= Z.succ |>
          <| pn_updated_at := now |>);
  record ← load_graph_node id;
  let payload :=
    json_object (status_payload (pn_status record) (pn_status node) (pn_revision record)) in
  let '(event_type, payload) :=
    if risk_accepted (fi_accepted_risk input)
    then ("graph-node.finalized-with-accepted-risk",
          json_set "acceptedRisk" (JStr (default "" (fi_accepted_risk input))) payload)
    else ("graph-node.finalized", payload) in
  _ ← node_event (pn_id record) (fi_correlation_id input) (fi_run_id input) event_type payload;
  validation ← validate_and_report EntityType.GraphNode (pn_id record);
  mret (mkMutationResult record validation).

(** ** Upserts and manifests *)
Definition cross_scope_conflict (what id actual scope_key : string) : PlanningStoreError :=
  InvalidInput ("CROSS_SCOPE_CONFLICT: " +:+ what +:+ " `" +:+ id +:+ "` exists in scope `"
    +:+ actual +:+ "`, not `" +:+ scope_key +:+ "`").

(** The update branch of the node upserts. *)
Definition overwrite_node (input : CreateGraphNodeInput) (id now : string) (revision : Z) : M unit :=
  update_graph_node_row id (fun n =>
    n <| pn_title := trim (cn_title input) |> <| pn_summary := trim (cn_summary input) |>
      <| pn_status := trim (cn_status input) |> <| pn_payload := cn_payload input |>
      <| pn_tags := normalize_string_list (cn_tags input) |> <| pn_revision := revision |>
      <| pn_updated_at := now |>).

(** The update branch of the edge upserts. *)
Definition overwrite_edge (input : CreateGraphEdgeInput) (id now : string) (revision : Z) : M unit :=
  update_graph_edge_row id (fun e =>
    e <| pe_kind := ce_kind input |> <| pe_source_node_id := ce_source_node_id input |>
      <| pe_target_node_id := ce_target_node_id input |> <| pe_status := trim (ce_status input) |>
      <| pe_payload := ce_payload input |> <| pe_revision := revision |> <| pe_updated_at := now |>).

Definition upsert_graph_node (input : CreateGraphNodeInput) : M (string * bool) :=
  _ ← require_non_empty "correlationId" (cn_correlation_id input);
  _ ← require_non_empty "title" (cn_title input);
  _ ← require_non_empty "summary" (cn_summary input);
  _ ← require_non_empty "status" (cn_status input);
  _ ← require_kebab_token "status" (cn_status input);
  let scope_key := normalized_scope_key (cn_scope_key input) in
  _ ← ensure_scope_exists scope_key;
  now ← now_string;
  let create id :=
    let record := new_node input id scope_key now in
    _ ← insert_graph_node record;
    _ ← node_event id (cn_correlation_id input) (cn_run_id input) "graph-node.created"
          (PlanningGraphNode_to_value record);
    mret (id, true) in
  '(id, created) ←
    match cn_id input with
    | Some explicit_id =>
        _ ← require_non_empty "id" explicit_id;
        t ← rows db_nodes;
        match find_by pn_id explicit_id t with
        | Some node =>
            _ ← guard_or (bool_decide (pn_scope_key node = scope_key))
                  (cross_scope_conflict "node" explicit_id (pn_scope_key node) scope_key);
            _ ← overwrite_node input explicit_id now (pn_revision node + 1);
            mret (explicit_id, false)
        | None => create explicit_id
        end
    | None => id ← new_id; create id
    end;
  t ← rows db_nodes;
  let tags := match find_by pn_id id t with Some n => pn_tags n | None => [] end in
  _ ← rebuild_tag_index_for_entity EntityType.GraphNode id tags;
  mret (id, created).

(** [SELECT id .. AND status = 'active'] of the edge upserts. *)
Definition existing_active_edge (scope_key : string) (input : CreateGraphEdgeInput)
    (t : list PlanningGraphEdge) : option PlanningGraphEdge :=
  head (active_duplicates scope_key (ce_kind input) (ce_source_node_id input)
          (ce_target_node_id input) None t).

Definition upsert_graph_edge (input : CreateGraphEdgeInput) : M (string * bool) :=
  _ ← require_non_empty "correlationId" (ce_correlation_id input);
  _ ← require_non_empty "source_node_id" (ce_source_node_id input);
  _ ← require_non_empty "target_node_id" (ce_target_node_id input);
  _ ← require_non_empty "status" (ce_status input);
  _ ← require_kebab_token "status" (ce_status input);
  let scope_key := normalized_scope_key (ce_scope_key input) in
  _ ← ensure_scope_exists scope_key;
  _ ← load_endpoint "sourceNodeId" (ce_source_node_id input);
  _ ← load_endpoint "targetNodeId" (ce_target_node_id input);
  now ← now_string;
  t ← rows db_edges;
  match ce_id input with
  | Some explicit_id =>
      _ ← require_non_empty "id" explicit_id;
      match find_by pe_id explicit_id t with
      | Some edge =>
          _ ← guard_or (bool_decide (pe_scope_key edge = scope_key))
                (cross_scope_conflict "edge" explicit_id (pe_scope_key edge) scope_key);
          _ ← overwrite_edge input explicit_id now (pe_revision edge + 1);
          mret (explicit_id, false)
      | None =>
          _ ← insert_graph_edge (new_edge input explicit_id scope_key now);
          mret (explicit_id, true)
      end
  | None =>
      match existing_active_edge scope_key input t with
      | Some edge => mret (pe_id edge, false)
      | None =>
          id ← new_id;
          _ ← insert_graph_edge (new_edge input id scope_key now);
          mret (id, true)
      end
  end.

Definition upsert_graph_node_in_tx (input : CreateGraphNodeInput) (scope_key : string)
    : M (string * bool) :=
  now ← now_string;
  t ← rows db_nodes;
  let create :=
    id ← id_or_new (cn_id input);
    _ ← insert_graph_node (new_node input id scope_key now);
    mret (id, true) in
  match cn_id input with
  | Some explicit_id =>
      match find_by pn_id explicit_id t with
      | Some node =>
          _ ← guard_or (bool_decide (pn_scope_key node = scope_key))
                (cross_scope_conflict "node" explicit_id (pn_scope_key node) scope_key);
          _ ← overwrite_node input explicit_id now (pn_revision node + 1);
          mret (explicit_id, false)
      | None => create
      end
  | None => create
  end.

Definition upsert_graph_edge_in_tx (input : CreateGraphEdgeInput) (scope_key : string)
    : M (string * bool) :=
  let kind := ce_kind input in
  let src := ce_source_node_id input in
  let tgt := ce_target_node_id input in
  _ ← require_non_empty "source_node_id" src;
  _ ← require_non_empty "target_node_id" tgt;
  _ ← require_kebab_token "status" (ce_status input);
  _ ← guard_or (negb (bool_decide (src = tgt)))
        (InvalidInput ("self-referential " +:+ as_str kind
          +:+ " edge is not allowed: source and target must be different nodes"));
  _ ← check_endpoints kind src tgt scope_key;
  t ← rows db_edges;
  let create :=
    _ ← (if bool_decide (trim (ce_status input) = "active") then
           check_activation "" "adding this " scope_key kind src tgt None
         else mret tt);
    id ← id_or_new (ce_id input);
    now ← now_string;
    _ ← insert_graph_edge (new_edge input id scope_key now);
    mret (id, true) in
  let reuse_or_create :=
    match existing_active_edge scope_key input t with
    | Some edge => mret (pe_id edge, false)
    | None => create
    end in
  match ce_id input with
  | Some explicit_id =>
      match find_by pe_id explicit_id t with
      | Some edge =>
          _ ← guard_or (bool_decide (pe_scope_key edge = scope_key))
                (cross_scope_conflict "edge" explicit_id (pe_scope_key edge) scope_key);
          now ← now_string;
          _ ← overwrite_edge input explicit_id now (pe_revision edge + 1);
          mret (explicit_id, false)
      | None => reuse_or_create
      end
  | None => reuse_or_create
  end.

(** Phase 1 of [apply_manifest]: one node. *)
Definition apply_manifest_node (scope_key : string) (acc : ManifestApplyResult)
    (input : CreateGraphNodeInput) : M ManifestApplyResult :=
  r ← handle (upsert_graph_node_in_tx input scope_key);
  match r with
  | inr (id, true) => mret (acc <| ma_created_nodes ::= fun l => l ++ [id] |>)
  | inr (id, false) =>
      existing ← load_graph_node id;
      if bool_decide (pn_title existing = trim (cn_title input))
         && bool_decide (pn_summary existing = trim (cn_summary input))
         && bool_decide (pn_status existing = trim (cn_status input))
      then mret (acc <| ma_unchanged_nodes ::= fun l => l ++ [id] |>)
      else mret (acc <| ma_revised_nodes ::= fun l => l ++ [id] |>)
  | inl e =>
      mret (acc <| ma_conflicts ::= fun l =>
        l ++ [mkManifestConflict "node" (default "auto" (cn_id input)) e] |>)
  end.

(** Phase 2: one edge. *)
Definition apply_manifest_edge (scope_key : string) (acc : ManifestApplyResult)
    (input : CreateGraphEdgeInput) : M ManifestApplyResult :=
  r ← handle (upsert_graph_edge_in_tx input scope_key);
  match r with
  | inr (id, true) => mret (acc <| ma_created_edges ::= fun l => l ++ [id] |>)
  | inr (id, false) => mret (acc <| ma_unchanged_edges ::= fun l => l ++ [id] |>)
  | inl e =>
      mret (acc <| ma_conflicts ::= fun l =>
        l ++ [mkManifestConflict "edge" (default "auto" (ce_id input)) e] |>)
  end.

(** [transaction.rollback()] with a result: the database is as before. *)
Definition rolled_back {A} (m : M A) : M A := fun w =>
  match m w with Ok a w' => Ok a (w' <| w_db := w_db w |>) | Fail e => Fail e end.

Definition apply_manifest (parsed : ParsedManifest) (dry_run : bool) : M ManifestApplyResult :=
  let transaction :=
    let scope_key := normalize_scope_key_value (pm_scope parsed) in
    _ ← ensure_scope_exists scope_key;
    let start := mkManifestApplyResult [] [] [] [] [] [] [] None
                   (length (pm_nodes parsed)) (length (pm_edges parsed)) in
    acc ← for_acc (pm_nodes parsed) (apply_manifest_node scope_key) start;
    for_acc (pm_edges parsed) (apply_manifest_edge scope_key) acc in
  if dry_run then rolled_back transaction else transaction.

(** ** Runnable work *)
Definition runnable_status (s : string) : bool :=
  bool_decide (s = "proposed") || bool_decide (s = "active") || bool_decide (s = "draft").
Definition dependency_done (s : string) : bool :=
  bool_decide (s = "completed") || bool_decide (s = "validated").
Definition blocker_done (s : string) : bool :=
  bool_decide (s = "completed") || bool_decide (s = "cancelled")
  || bool_decide (s = "invalidated") || bool_decide (s = "archived").

(** The far ends, over the active [edges], whose status is not [done]. *)
Definition pending_ends (far : PlanningGraphEdge -> string) (done : string -> bool)
    (edges : list PlanningGraphEdge) : M (list string) :=
  for_acc edges (fun acc e =>
    if is_active e then
      node ← load_graph_node (far e);
      mret (if done (pn_status node) then acc else acc ++ [pn_id node])
    else mret acc) [].

Definition runnable_of_node (scope_key : string) (acc : GraphRunnableResult)
    (node : PlanningGraphNode) : M GraphRunnableResult :=
  outgoing_deps ← list_outgoing_edges_in_scope (pn_id node) scope_key
                    (Some PlanningEdgeKind.DependsOn);
  incomplete_deps ← pending_ends pe_target_node_id dependency_done outgoing_deps;
  incoming_blocks ← list_incoming_edges_in_scope (pn_id node) scope_key
                      (Some PlanningEdgeKind.Blocks);
  active_blockers ← pending_ends pe_source_node_id blocker_done incoming_blocks;
  if negb (bool_decide (active_blockers = [])) then
    mret (acc <| grr_blocked ::= fun l => l ++
      [mkBlockedGraphCandidate (pn_id node) (pn_title node)
         ("blocked_by:" +:+ String.concat "," active_blockers) active_blockers] |>)
  else if bool_decide (incomplete_deps = []) then
    mret (acc <| grr_candidates ::= fun l => l ++
      [mkGraphRunnableCandidate (pn_id node) (pn_title node) (pn_status node) "ready" [] []] |>)
  else
    mret (acc <| grr_blocked ::= fun l => l ++
      [mkBlockedGraphCandidate (pn_id node) (pn_title node)
         ("waiting_on:" +:+ String.concat "," incomplete_deps) []] |>).

Definition status_rank (s : string) : Z :=
  if bool_decide (s = "active") then 0 else if bool_decide (s = "proposed") then 1 else 2.

Definition find_runnable_graph_work (scope_key : string) : M GraphRunnableResult :=
  let normalized := normalize_scope_key_value scope_key in
  t ← rows db_nodes;
  let work_nodes := order_by (asc_str pn_title) (select_where (fun n =>
        bool_decide (pn_scope_key n = normalized)
        && bool_decide (pn_kind n = PlanningNodeKind.Work) && runnable_status (pn_status n)) t) in
  result ← for_acc work_nodes (runnable_of_node normalized) (mkGraphRunnableResult [] []);
  mret (result <| grr_candidates ::=
    order_by (then_by (asc_Z (fun c => status_rank (grc_status c))) (asc_str grc_title)) |>).
End Graph.
