(* ===== verification/Entities.v ===== *)
(** The planning entities' mutations ([plugins/planning/src/storage.rs],
    [create_goal] to [create_insight], [create_scope], [revise_work_point]
    and [revise_plan]).

    Each handler checks its input, inserts or updates the row, records an
    event, validates the entity and what refers to it, and rebuilds the
    indexes.  The foreign keys of the tables are not modelled: every handler
    has looked up what the row refers to before it writes. *)
From S2P Require Import Prelude Text Json Model Tx Table Store Walk EdgeRules Validation ProjectRuns.

(** ** Inputs *)
Record CreateScopeInput := mkCreateScopeInput {
  sci_scope_key : string; sci_scope_type : option string; sci_parent_scope_key : option string;
  sci_metadata : option json; sci_tags : list string; sci_run_id : option string }.
Record CreateGoalInput := mkCreateGoalInput {
  cg_id : option string; cg_scope_key : option string; cg_correlation_id : string;
  cg_title : string; cg_description : string; cg_acceptance_criteria : list string;
  cg_rejection_criteria : list string; cg_status : GoalStatus; cg_tags : list string;
  cg_run_id : option string }.
Record CreateRoadmapInput := mkCreateRoadmapInput {
  cr_id : option string; cr_scope_key : option string; cr_goal_id : string;
  cr_correlation_id : string; cr_title : string; cr_summary : string; cr_status : RoadmapStatus;
  cr_tags : list string; cr_run_id : option string }.
Record AddRoadmapSectionInput := mkAddRoadmapSectionInput {
  ars_id : option string; ars_scope_key : option string; ars_roadmap_id : string;
  ars_slug : string; ars_title : string; ars_summary : string; ars_ordering : option Z;
  ars_run_id : option string }.
Record AddWorkPointInput := mkAddWorkPointInput {
  aw_id : option string; aw_scope_key : option string; aw_roadmap_id : string;
  aw_section_id : option string; aw_title : string; aw_summary : string;
  aw_status : WorkPointStatus; aw_ordering : option Z; aw_dependency_ids : list string;
  aw_validation_expectations : list string; aw_effort_tier : EffortTier;
  aw_kind : option WorkPointKind; aw_priority : option Priority;
  aw_repairs_work_point_ids : list string; aw_supersedes_work_point_ids : list string;
  aw_blocks_work_point_ids : list string; aw_file_scopes : list FileScopeRecord;
  aw_tags : list string; aw_run_id : option string }.
Record ReviseWorkPointInput := mkReviseWorkPointInput {
  rw_work_point_id : string; rw_active_scope_key : option string;
  rw_dependency_ids : option (list string); rw_clear_dependencies : bool;
  rw_blocks_work_point_ids : option (list string); rw_clear_blocks : bool;
  rw_run_id : option string }.
Record CreatePlanInput := mkCreatePlanInput {
  cp_id : option string; cp_scope_key : option string; cp_goal_id : string;
  cp_roadmap_id : string; cp_correlation_id : string; cp_title : string; cp_summary : string;
  cp_scope : string; cp_assumptions : list string; cp_stop_conditions : list string;
  cp_validation_steps : list string; cp_targeted_work_point_ids : list string;
  cp_effort_tier : EffortTier; cp_routing_hint : option string; cp_allow_parallel_overlap : bool;
  cp_file_scopes : list FileScopeRecord; cp_status : PlanStatus; cp_tags : list string;
  cp_run_id : option string }.
Record RevisePlanInput := mkRevisePlanInput {
  rvp_plan_id : string; rvp_active_scope_key : option string; rvp_new_scope_key : option string;
  rvp_assumptions : option (list string); rvp_stop_conditions : option (list string);
  rvp_validation_steps : option (list string);
  rvp_targeted_work_point_ids : option (list string); rvp_effort_tier : option EffortTier;
  rvp_routing_hint : option string; rvp_clear_routing_hint : bool;
  rvp_allow_parallel_overlap : option bool; rvp_file_scopes : option (list FileScopeRecord);
  rvp_clear_file_scopes : bool; rvp_tags : option (list string); rvp_run_id : option string }.
Record CreateTodoInput := mkCreateTodoInput {
  ct_id : option string; ct_scope_key : option string; ct_plan_id : option string;
  ct_work_point_id : option string; ct_title : string; ct_summary : string;
  ct_status : TodoStatus; ct_priority : Priority; ct_effort_tier : EffortTier;
  ct_file_scopes : list FileScopeRecord; ct_evidence_refs : list string; ct_tags : list string;
  ct_ordering : option Z; ct_run_id : option string }.
Record CreateIssueInput := mkCreateIssueInput {
  cis_id : option string; cis_scope_key : option string; cis_correlation_id : string;
  cis_title : string; cis_summary : string; cis_status : IssueStatus; cis_severity : Severity;
  cis_related_entity_type : option EntityType; cis_related_entity_id : option string;
  cis_tags : list string; cis_run_id : option string }.
Record CreateReviewPointInput := mkCreateReviewPointInput {
  crp_id : option string; crp_scope_key : option string; crp_attached_entity_type : EntityType;
  crp_attached_entity_id : string; crp_title : string; crp_summary : string;
  crp_status : ReviewPointStatus; crp_severity : Severity; crp_run_id : option string }.
Record CreateInsightInput := mkCreateInsightInput {
  cin_id : option string; cin_scope_key : option string; cin_correlation_id : string;
  cin_title : string; cin_content : string; cin_insight_type : InsightType;
  cin_parent_entity_type : EntityType; cin_parent_entity_id : string; cin_tags : list string;
  cin_status : InsightStatus; cin_run_id : option string }.

Section Entities.
Context `{External}.

(** ** Statements *)

(** [INSERT INTO table], failing when the primary key is taken. *)
Definition insert_into {R} (name : string) (table : Db -> list R) (key : R -> string)
    (store : list R -> Db -> Db) (record : R) : M unit :=
  t ← rows table;
  t' ← ok_or (insert_row key record t) (Sqlite (UniqueViolation name));
  update_db (store t').

(** [SELECT COALESCE(MAX(ordering_index), 0) + 1 .. WHERE ..], which must be
    an [i64]. *)
Definition next_ordering {R} (table : Db -> list R) (group : R -> bool) (ordering : R -> Z) : M Z :=
  t ← rows table;
  let next := (max_or_zero ordering (select_where group t) + 1)%Z in
  _ ← guard_or (next <=? 9223372036854775807)%Z (Sqlite InvalidColumnType);
  mret next.

Definition file_scope_leb (l r : FileScopeRecord) : bool :=
  leb_by (then_by (asc_str (fun s => as_str (fs_selector_type s)))
           (then_by (asc_str (fun s => as_str (fs_intent s))) (asc_str fs_selector))) l r.
Definition same_file_scope (l r : FileScopeRecord) : bool :=
  bool_decide (fs_selector_type l = fs_selector_type r) && bool_decide (fs_intent l = fs_intent r)
  && bool_decide (fs_selector l = fs_selector r).
Definition normalize_file_scopes (file_scopes : list FileScopeRecord) : list FileScopeRecord :=
  let trimmed := map (fun s => mkFileScopeRecord (fs_selector_type s) (trim (fs_selector s))
                                 (fs_intent s)) file_scopes in
  dedup_by same_file_scope
    (sort_by file_scope_leb
       (List.filter (fun s => negb (bool_decide (fs_selector s = ""))) trimmed)).

(** [INSERT INTO entity_file_scopes]: the primary key, and the unique index on
    owner, selector and intent. *)
Definition insert_file_scope (row : FileScopeRow) : M unit :=
  t ← rows db_file_scopes;
  t' ← ok_or (insert_row fsr_id row t) (Sqlite (UniqueViolation "entity_file_scopes"));
  _ ← guard_or (negb (existsb (fun r => bool_decide (fsr_owner_type r = fsr_owner_type row)
                        && bool_decide (fsr_owner_id r = fsr_owner_id row)
                        && same_file_scope (fsr_scope r) (fsr_scope row)) t))
        (Sqlite (UniqueViolation "entity_file_scopes"));
  update_db (fun d => d <| db_file_scopes := t' |>).

Definition replace_entity_file_scopes (scope_key : string) (owner_type : EntityType)
    (owner_id : string) (file_scopes : list FileScopeRecord) : M unit :=
  _ ← update_db (fun d => d <| db_file_scopes ::=
        delete_where (fun r => bool_decide (fsr_owner_type r = owner_type)
                               && bool_decide (fsr_owner_id r = owner_id)) |>);
  for_each (zip (seq 0 (length file_scopes)) file_scopes) (fun '(index, file_scope) =>
    id ← new_id;
    insert_file_scope (mkFileScopeRow id scope_key owner_type owner_id file_scope (Z.of_nat index))).

Definition refresh_all (ty : EntityType) (ids : list string) : M unit :=
  for_each ids (fun id => _ ← refresh_validation_target ty id; mret tt).
Definition refresh (ty : EntityType) (id : string) : M unit :=
  _ ← refresh_validation_target ty id; mret tt.

(** A trimmed option whose empty value is none. *)
Definition trimmed_option (value : option string) : option string :=
  match value with
  | Some v => if bool_decide (trim v = "") then None else Some (trim v)
  | None => None
  end.

(** ** Scopes and goals *)
Definition create_scope (input : CreateScopeInput) : M (MutationResult ScopeRecord) :=
  _ ← require_non_empty "scopeKey" (sci_scope_key input);
  let scope_key := normalize_scope_key_value (sci_scope_key input) in
  let parent := normalize_scope_key_value <$> sci_parent_scope_key input in
  _ ← guard_or (negb (bool_decide (parent = Some scope_key)))
        (InvalidInput "parentScopeKey cannot be the same as scopeKey");
  _ ← match parent with Some p => ensure_scope_exists p | None => mret tt end;
  now ← now_string;
  let record :=
    {| sc_scope_key := scope_key; sc_scope_type := trim <$> sci_scope_type input;
       sc_parent_scope_key := parent; sc_metadata := default (json_object []) (sci_metadata input);
       sc_tags := normalize_string_list (sci_tags input); sc_revision := 1;
       sc_created_at := now; sc_updated_at := now |} in
  _ ← insert_into "scopes" db_scopes sc_scope_key (fun t d => d <| db_scopes := t |>) record;
  _ ← record_event EntityType.Scope scope_key EntityType.Scope scope_key
        ("corr-scope-" +:+ scope_key) (sci_run_id input) "scope.created" (ScopeRecord_to_value record);
  mret (mkMutationResult record (from_findings [])).

Definition create_goal (input : CreateGoalInput) : M (MutationResult GoalRecord) :=
  _ ← require_non_empty "correlationId" (cg_correlation_id input);
  _ ← require_non_empty "title" (cg_title input);
  _ ← require_non_empty "description" (cg_description input);
  let scope_key := normalized_scope_key (cg_scope_key input) in
  _ ← ensure_scope_exists scope_key;
  now ← now_string;
  id ← id_or_new (cg_id input);
  let record :=
    {| gl_id := id; gl_scope_key := scope_key; gl_correlation_id := cg_correlation_id input;
       gl_title := trim (cg_title input); gl_description := trim (cg_description input);
       gl_acceptance_criteria := normalize_string_list (cg_acceptance_criteria input);
       gl_rejection_criteria := normalize_string_list (cg_rejection_criteria input);
       gl_status := cg_status input; gl_tags := normalize_string_list (cg_tags input);
       gl_revision := 1; gl_created_at := now; gl_updated_at := now |} in
  _ ← insert_into "goals" db_goals gl_id (fun t d => d <| db_goals := t |>) record;
  _ ← record_event EntityType.Goal id EntityType.Goal id (gl_correlation_id record)
        (cg_run_id input) "goal.created" (GoalRecord_to_value record);
  validation ← validate_and_store EntityType.Goal id;
  _ ← rebuild_tag_index_for_entity EntityType.Goal id (gl_tags record);
  _ ← upsert_fts_entry EntityType.Goal scope_key id (gl_title record) (gl_description record);
  mret (mkMutationResult record validation).

(** ** Roadmaps and their sections *)
Definition create_roadmap (input : CreateRoadmapInput) : M (MutationResult RoadmapRecord) :=
  _ ← require_non_empty "goalId" (cr_goal_id input);
  _ ← require_non_empty "correlationId" (cr_correlation_id input);
  _ ← require_non_empty "title" (cr_title input);
  _ ← require_non_empty "summary" (cr_summary input);
  scope_key ← ensure_referenced_entity_in_scope EntityType.Goal (cr_goal_id input) "goalId"
                (normalized_scope_key (cr_scope_key input));
  goal ← load_goal (cr_goal_id input);
  _ ← guard_or (negb (goal_not_active (gl_status goal)))
        (coded_error [("code", JStr "GOAL_NOT_ACTIVE");
                      ("message", JStr ("goal `" +:+ cr_goal_id input +:+ "` is not active (status: "
                         +:+ as_str (gl_status goal) +:+ ")"));
                      ("goalId", JStr (cr_goal_id input)); ("status", JStr "invalid")]);
  now ← now_string;
  id ← id_or_new (cr_id input);
  let record :=
    {| rm_id := id; rm_scope_key := scope_key; rm_goal_id := cr_goal_id input;
       rm_correlation_id := cr_correlation_id input; rm_title := trim (cr_title input);
       rm_summary := trim (cr_summary input); rm_status := cr_status input;
       rm_tags := normalize_string_list (cr_tags input); rm_revision := 1;
       rm_created_at := now; rm_updated_at := now |} in
  _ ← insert_into "roadmaps" db_roadmaps rm_id (fun t d => d <| db_roadmaps := t |>) record;
  _ ← record_event EntityType.Roadmap id EntityType.Roadmap id (rm_correlation_id record)
        (cr_run_id input) "roadmap.created" (RoadmapRecord_to_value record);
  validation ← refresh_validation_target EntityType.Roadmap id;
  _ ← refresh EntityType.Goal (rm_goal_id record);
  _ ← rebuild_tag_index_for_entity EntityType.Roadmap id (rm_tags record);
  _ ← upsert_fts_entry EntityType.Roadmap scope_key id (rm_title record) (rm_summary record);
  mret (mkMutationResult record validation).

(** [UNIQUE(roadmap_id, slug)]. *)
Definition same_slug (a b : RoadmapSectionRecord) : bool :=
  bool_decide (rs_roadmap_id a = rs_roadmap_id b) && bool_decide (rs_slug a = rs_slug b).

Definition add_roadmap_section (input : AddRoadmapSectionInput)
    : M (MutationResult RoadmapSectionRecord) :=
  _ ← require_non_empty "roadmapId" (ars_roadmap_id input);
  _ ← require_non_empty "slug" (ars_slug input);
  _ ← require_non_empty "title" (ars_title input);
  scope_key ← ensure_referenced_entity_in_scope EntityType.Roadmap (ars_roadmap_id input)
                "roadmapId" (normalized_scope_key (ars_scope_key input));
  now ← now_string;
  id ← id_or_new (ars_id input);
  next ← next_ordering db_sections (fun s => bool_decide (rs_roadmap_id s = ars_roadmap_id input))
           rs_ordering;
  let record :=
    {| rs_id := id; rs_scope_key := scope_key; rs_roadmap_id := ars_roadmap_id input;
       rs_slug := trim (ars_slug input); rs_title := trim (ars_title input);
       rs_summary := trim (ars_summary input); rs_ordering := default next (ars_ordering input);
       rs_revision := 1; rs_created_at := now; rs_updated_at := now |} in
  sections ← rows db_sections;
  _ ← guard_or (negb (existsb (same_slug record) sections))
        (Sqlite (UniqueViolation "roadmap_sections"));
  _ ← insert_into "roadmap_sections" db_sections rs_id (fun t d => d <| db_sections := t |>) record;
  correlation_id ← roadmap_correlation_id (rs_roadmap_id record);
  _ ← record_event EntityType.RoadmapSection id EntityType.Roadmap (rs_roadmap_id record)
        correlation_id (ars_run_id input) "roadmap.section-added" (RoadmapSectionRecord_to_value record);
  _ ← refresh EntityType.RoadmapSection id;
  validation ← refresh_validation_target EntityType.Roadmap (rs_roadmap_id record);
  mret (mkMutationResult record validation).

(** ** Work points *)
Definition ensure_section_belongs_to_roadmap (section_id roadmap_id : string) : M unit :=
  section ← load_by db_sections rs_id EntityType.RoadmapSection section_id;
  guard_or (bool_decide (rs_roadmap_id section = roadmap_id))
    (InvalidInput ("sectionId `" +:+ section_id +:+ "` belongs to roadmap `"
       +:+ rs_roadmap_id section +:+ "`, not `" +:+ roadmap_id +:+ "`")).

(** The refusal of a link to a work point of another roadmap. *)
Definition same_roadmap (what links : string) (id : string) (linked : WorkPointRecord)
    (roadmap_id : string) : M unit :=
  guard_or (bool_decide (wp_roadmap_id linked = roadmap_id))
    (InvalidInput (what +:+ " work point `" +:+ id +:+ "` belongs to roadmap `"
       +:+ wp_roadmap_id linked +:+ "`, not `" +:+ roadmap_id +:+ "`. Cross-roadmap " +:+ links
       +:+ " are not supported.")).
Definition missing_work_point (what id : string) : PlanningStoreError :=
  InvalidInput (what +:+ " work point `" +:+ id +:+ "` does not exist").

(** The two loops over the links of a new work point: a missing dependency is
    left to the validation, a missing block target is refused. *)
Definition check_new_dependencies (roadmap_id : string) (ids : list string) : M unit :=
  for_each ids (fun id =>
    let trimmed := trim id in
    if bool_decide (trimmed = "") then mret tt else
    dep ← load_or_missing (load_work_point trimmed);
    match dep with
    | Some dep => same_roadmap "dependency" "work-point dependencies" trimmed dep roadmap_id
    | None => mret tt
    end).
Definition check_new_blocks (roadmap_id : string) (ids : list string) : M unit :=
  for_each ids (fun id =>
    let trimmed := trim id in
    if bool_decide (trimmed = "") then mret tt else
    blocked ← load_or_missing (load_work_point trimmed);
    match blocked with
    | Some blocked => same_roadmap "blocked" "block relationships" trimmed blocked roadmap_id
    | None => fail (missing_work_point "blocked" trimmed)
    end).

(** The map [all_blocks]: the block lists of the scope's work points, with
    the one of [id] set to [blocks]. *)
Definition all_blocks (scope_key id : string) (blocks : list string)
    (t : list WorkPointRecord) (x : string) : list string :=
  if bool_decide (x = id) then blocks else
  match find_by wp_id x (select_where (fun r => bool_decide (wp_scope_key r = scope_key)) t) with
  | Some r => wp_blocks_work_point_ids r
  | None => []
  end.

(** [would_create_cycle] on that map: only [id] and stored work points have
    successors, so [length t + 3] levels are enough ([would_create_cycle_run]). *)
Definition would_create_cycle (current target : string) (graph : string -> list string)
    (t : list WorkPointRecord) : option (bool * gset string) :=
  walk graph (length t + 3) target current ∅.

Definition check_block_cycles (scope_key id : string) (blocks : list string) : M unit :=
  t ← rows db_work_points;
  for_each blocks (fun blocked_id =>
    match would_create_cycle blocked_id id (all_blocks scope_key id blocks t) t with
    | Some (false, _) => mret tt
    | _ => fail (coded_error
             [("code", JStr "INVALID_BLOCK_CYCLE");
              ("message", JStr ("blocking work point '" +:+ id +:+ "' would create a cycle via '"
                 +:+ blocked_id +:+ "'"));
              ("workPointId", JStr id); ("blockedId", JStr blocked_id)])
    end).

(** The work points that depend on one, and the plans that target it. *)
Definition list_work_point_dependents (id : string) : M (list string) :=
  t ← rows db_work_points;
  mret (map wp_id (select_where (fun r => bool_decide (id ∈ wp_dependency_ids r)) t)).
Definition list_plans_targeting_work_point (id : string) : M (list string) :=
  t ← rows db_plans;
  mret (map pl_id (select_where (fun r => bool_decide (id ∈ pl_targeted_work_point_ids r)) t)).

(** Validates what refers to the work point; the roadmap's report is the result. *)
Definition refresh_work_point_users (id roadmap_id : string) : M ValidationReport :=
  dependents ← list_work_point_dependents id;
  _ ← refresh_all EntityType.WorkPoint dependents;
  plans ← list_plans_targeting_work_point id;
  _ ← refresh_all EntityType.Plan plans;
  refresh_validation_target EntityType.Roadmap roadmap_id.

Definition new_work_point (input : AddWorkPointInput) (id scope_key now : string) (next : Z)
    : WorkPointRecord :=
  {| wp_id := id; wp_scope_key := scope_key; wp_roadmap_id := aw_roadmap_id input;
     wp_section_id := aw_section_id input; wp_title := trim (aw_title input);
     wp_summary := trim (aw_summary input); wp_status := aw_status input;
     wp_ordering := default next (aw_ordering input);
     wp_dependency_ids := normalize_string_list (aw_dependency_ids input);
     wp_validation_expectations := normalize_string_list (aw_validation_expectations input);
     wp_effort_tier := aw_effort_tier input;
     wp_kind := default WorkPointKind.Feature (aw_kind input);
     wp_priority := default Priority.Medium (aw_priority input);
     wp_repairs_work_point_ids := normalize_string_list (aw_repairs_work_point_ids input);
     wp_supersedes_work_point_ids := normalize_string_list (aw_supersedes_work_point_ids input);
     wp_blocks_work_point_ids := normalize_string_list (aw_blocks_work_point_ids input);
     wp_file_scopes := normalize_file_scopes (aw_file_scopes input);
     wp_tags := normalize_string_list (aw_tags input); wp_revision := 1;
     wp_created_at := now; wp_updated_at := now |}.

Definition add_work_point (input : AddWorkPointInput) : M (MutationResult WorkPointRecord) :=
  let active_scope_key := normalized_scope_key (aw_scope_key input) in
  let roadmap_id := aw_roadmap_id input in
  _ ← require_non_empty "roadmapId" roadmap_id;
  _ ← require_non_empty "title" (aw_title input);
  _ ← require_non_empty "summary" (aw_summary input);
  scope_key ← ensure_referenced_entity_in_scope EntityType.Roadmap roadmap_id "roadmapId"
                active_scope_key;
  _ ← match aw_section_id input with
      | Some section_id =>
          _ ← ensure_referenced_entity_in_scope EntityType.RoadmapSection section_id "sectionId"
                active_scope_key;
          ensure_section_belongs_to_roadmap section_id roadmap_id
      | None => mret tt
      end;
  _ ← check_new_dependencies roadmap_id (aw_dependency_ids input);
  _ ← check_new_blocks roadmap_id (aw_blocks_work_point_ids input);
  now ← now_string;
  id ← id_or_new (aw_id input);
  next ← next_ordering db_work_points (fun r => bool_decide (wp_roadmap_id r = roadmap_id)) wp_ordering;
  let record := new_work_point input id scope_key now next in
  _ ← check_block_cycles scope_key id (wp_blocks_work_point_ids record);
  _ ← insert_into "work_points" db_work_points wp_id (fun t d => d <| db_work_points := t |>) record;
  _ ← replace_entity_file_scopes scope_key EntityType.WorkPoint id (wp_file_scopes record);
  correlation_id ← roadmap_correlation_id roadmap_id;
  _ ← record_event EntityType.WorkPoint id EntityType.Roadmap roadmap_id correlation_id
        (aw_run_id input) "roadmap.work-point-added" (WorkPointRecord_to_value record);
  _ ← refresh EntityType.WorkPoint id;
  _ ← match wp_section_id record with
      | Some section_id => refresh EntityType.RoadmapSection section_id
      | None => mret tt
      end;
  validation ← refresh_work_point_users id roadmap_id;
  _ ← rebuild_tag_index_for_entity EntityType.WorkPoint id (wp_tags record);
  _ ← upsert_fts_entry EntityType.WorkPoint scope_key id (wp_title record) (wp_summary record);
  mret (mkMutationResult record validation).

(** [ids.map(trim).filter(non-empty)]. *)
Definition trimmed_ids (ids : list string) : list string :=
  List.filter (fun id => negb (bool_decide (id = ""))) (map trim ids).

(** The new links of a revised work point; a missing target is refused. *)
Definition revised_dependencies (input : ReviseWorkPointInput) (record : WorkPointRecord)
    : M (list string) :=
  if rw_clear_dependencies input then mret [] else
  match rw_dependency_ids input with
  | Some ids =>
      let trimmed := trimmed_ids ids in
      _ ← for_each trimmed (fun id =>
            dep ← load_or_missing (load_work_point id);
            match dep with
            | Some _ => mret tt
            | None => fail (missing_work_point "dependency" id)
            end);
      _ ← for_each trimmed (fun id =>
            dep ← load_work_point id;
            same_roadmap "dependency" "work-point dependencies" id dep (wp_roadmap_id record));
      mret trimmed
  | None => mret (wp_dependency_ids record)
  end.
Definition revised_blocks (input : ReviseWorkPointInput) (record : WorkPointRecord)
    : M (list string) :=
  if rw_clear_blocks input then mret [] else
  match rw_blocks_work_point_ids input with
  | Some ids =>
      let trimmed := trimmed_ids ids in
      _ ← for_each trimmed (fun id =>
            blocked ← load_or_missing (load_work_point id);
            match blocked with
            | Some blocked =>
                same_roadmap "blocked" "block relationships" id blocked (wp_roadmap_id record)
            | None => fail (missing_work_point "blocked" id)
            end);
      mret trimmed
  | None => mret (wp_blocks_work_point_ids record)
  end.

Definition revise_work_point (input : ReviseWorkPointInput) : M (MutationResult WorkPointRecord) :=
  let id := rw_work_point_id input in
  record ← load_work_point id;
  _ ← match rw_active_scope_key input with
      | Some active =>
          let active := normalized_scope_key (Some active) in
          guard_or (bool_decide (wp_scope_key record = active))
            (InvalidInput ("work point `" +:+ id +:+ "` is in scope `" +:+ wp_scope_key record
               +:+ "`, not `" +:+ active +:+ "`"))
      | None => mret tt
      end;
  _ ← guard_or (negb (rw_clear_dependencies input && bool_decide (is_Some (rw_dependency_ids input))))
        (InvalidInput "--clear-dependencies cannot be combined with providing new dependency IDs");
  _ ← guard_or (negb (rw_clear_blocks input && bool_decide (is_Some (rw_blocks_work_point_ids input))))
        (InvalidInput "--clear-blocks cannot be combined with providing new blocked work point IDs");
  new_deps ← revised_dependencies input record;
  new_blocks ← revised_blocks input record;
  _ ← (if negb (bool_decide (new_blocks = wp_blocks_work_point_ids record))
          && negb (bool_decide (new_blocks = []))
       then check_block_cycles (wp_scope_key record) (wp_id record) new_blocks
       else mret tt);
  now ← now_string;
  let revise := fun r : WorkPointRecord =>
    r <| wp_dependency_ids := new_deps |> <| wp_blocks_work_point_ids := new_blocks |>
      <| wp_revision ::= Z.succ |> <| wp_updated_at := now |> in
  _ ← update_db (fun d => d <| db_work_points ::=
        update_where (fun r => bool_decide (wp_id r = wp_id record)) revise |>);
  let record := revise record in
  correlation_id ← roadmap_correlation_id (wp_roadmap_id record);
  _ ← record_event EntityType.WorkPoint (wp_id record) EntityType.Roadmap (wp_roadmap_id record)
        correlation_id (rw_run_id input) "work-point.revised" (WorkPointRecord_to_value record);
  _ ← refresh EntityType.WorkPoint (wp_id record);
  validation ← refresh_work_point_users (wp_id record) (wp_roadmap_id record);
  mret (mkMutationResult record validation).

(** ** Plans *)

(** The targeted work points must exist in the plan's roadmap. *)
Definition check_targets (roadmap_id : string) (ids : list string) : M unit :=
  for_each ids (fun id =>
    let trimmed := trim id in
    if bool_decide (trimmed = "") then mret tt else
    wp ← load_or_missing (load_work_point trimmed);
    match wp with
    | Some wp =>
        guard_or (bool_decide (wp_roadmap_id wp = roadmap_id))
          (coded_error
            [("code", JStr "WORK_POINT_ROADMAP_MISMATCH");
             ("message", JStr ("targeted work point `" +:+ trimmed +:+ "` belongs to roadmap `"
                +:+ wp_roadmap_id wp +:+ "`, not `" +:+ roadmap_id +:+ "`"));
             ("workPointId", JStr trimmed); ("status", JStr "invalid")])
    | None =>
        fail (coded_error
          [("code", JStr "WORK_POINT_MISSING");
           ("message", JStr ("targeted work point `" +:+ trimmed +:+ "` does not exist"));
           ("workPointId", JStr trimmed); ("status", JStr "invalid")])
    end).

Definition new_plan (input : CreatePlanInput) (id scope_key now : string) : PlanRecord :=
  {| pl_id := id; pl_scope_key := scope_key; pl_goal_id := cp_goal_id input;
     pl_roadmap_id := cp_roadmap_id input; pl_correlation_id := cp_correlation_id input;
     pl_title := trim (cp_title input); pl_summary := trim (cp_summary input);
     pl_scope := trim (cp_scope input);
     pl_assumptions := normalize_string_list (cp_assumptions input);
     pl_stop_conditions := normalize_string_list (cp_stop_conditions input);
     pl_validation_steps := normalize_string_list (cp_validation_steps input);
     pl_targeted_work_point_ids := normalize_string_list (cp_targeted_work_point_ids input);
     pl_effort_tier := cp_effort_tier input; pl_routing_hint := trimmed_option (cp_routing_hint input);
     pl_allow_parallel_overlap := cp_allow_parallel_overlap input;
     pl_file_scopes := normalize_file_scopes (cp_file_scopes input); pl_status := cp_status input;
     pl_tags := normalize_string_list (cp_tags input); pl_revision := 1;
     pl_created_at := now; pl_updated_at := now |}.

Definition create_plan (input : CreatePlanInput) : M (MutationResult PlanRecord) :=
  let active_scope_key := normalized_scope_key (cp_scope_key input) in
  _ ← require_non_empty "goalId" (cp_goal_id input);
  _ ← require_non_empty "roadmapId" (cp_roadmap_id input);
  _ ← require_non_empty "correlationId" (cp_correlation_id input);
  _ ← require_non_empty "title" (cp_title input);
  _ ← require_non_empty "summary" (cp_summary input);
  _ ← require_non_empty "scope" (cp_scope input);
  _ ← ensure_referenced_entity_in_scope EntityType.Goal (cp_goal_id input) "goalId" active_scope_key;
  scope_key ← ensure_referenced_entity_in_scope EntityType.Roadmap (cp_roadmap_id input) "roadmapId"
                active_scope_key;
  roadmap ← load_roadmap (cp_roadmap_id input);
  _ ← guard_or (bool_decide (rm_goal_id roadmap = cp_goal_id input))
        (coded_error [("code", JStr "GOAL_ROADMAP_MISMATCH");
                      ("message", JStr ("plan goal `" +:+ cp_goal_id input
                         +:+ "` does not match roadmap goal `" +:+ rm_goal_id roadmap +:+ "`"));
                      ("status", JStr "invalid")]);
  _ ← check_targets (cp_roadmap_id input) (cp_targeted_work_point_ids input);
  now ← now_string;
  id ← id_or_new (cp_id input);
  let record := new_plan input id scope_key now in
  _ ← insert_into "plans" db_plans pl_id (fun t d => d <| db_plans := t |>) record;
  _ ← replace_entity_file_scopes scope_key EntityType.Plan id (pl_file_scopes record);
  _ ← record_event EntityType.Plan id EntityType.Plan id (pl_correlation_id record)
        (cp_run_id input) "plan.created" (PlanRecord_to_value record);
  validation ← refresh_validation_target EntityType.Plan id;
  _ ← rebuild_tag_index_for_entity EntityType.Plan id (pl_tags record);
  _ ← upsert_fts_entry EntityType.Plan scope_key id (pl_title record) (pl_summary record);
  mret (mkMutationResult record validation).

Definition list_issues_for_related_entity (ty : EntityType) (id : string) : M (list IssueRecord) :=
  t ← rows db_issues;
  mret (order_by (then_by (asc_str is_created_at) (asc_str is_id))
    (select_where (fun r => bool_decide (is_related_entity_type r = Some ty)
                            && bool_decide (is_related_entity_id r = Some id)) t)).

(** What is linked to a plan must already be in the scope it moves to. *)
Definition ensure_plan_transfer_record_in_scope (plan_id : string) (ty : EntityType)
    (id actual target : string) : M unit :=
  guard_or (bool_decide (actual = target))
    (InvalidInput ("plan `" +:+ plan_id +:+ "` cannot transfer to scope `" +:+ target
       +:+ "` because linked " +:+ as_str ty +:+ " `" +:+ id +:+ "` remains in scope `"
       +:+ actual +:+ "`")).
Definition ensure_plan_transfer_entity_in_scope (plan_id : string) (ty : EntityType)
    (id target : string) : M unit :=
  actual ← scope_key_for_entity ty id;
  ensure_plan_transfer_record_in_scope plan_id ty id actual target.
Definition ensure_plan_transfer_compatible (plan : PlanRecord) (target : string)
    (targeted_work_point_ids : list string) : M unit :=
  if bool_decide (target = pl_scope_key plan) then mret tt else
  let id := pl_id plan in
  _ ← ensure_plan_transfer_entity_in_scope id EntityType.Goal (pl_goal_id plan) target;
  _ ← ensure_plan_transfer_entity_in_scope id EntityType.Roadmap (pl_roadmap_id plan) target;
  _ ← for_each targeted_work_point_ids (fun wp =>
        ensure_plan_transfer_entity_in_scope id EntityType.WorkPoint wp target);
  todos ← list_todos_for_plan id;
  _ ← for_each todos (fun r =>
        ensure_plan_transfer_record_in_scope id EntityType.Todo (td_id r) (td_scope_key r) target);
  review_points ← list_review_points_for_entity EntityType.Plan id;
  _ ← for_each review_points (fun r =>
        ensure_plan_transfer_record_in_scope id EntityType.ReviewPoint (rp_id r) (rp_scope_key r) target);
  issues ← list_issues_for_related_entity EntityType.Plan id;
  for_each issues (fun r =>
    ensure_plan_transfer_record_in_scope id EntityType.Issue (is_id r) (is_scope_key r) target).

(** The row a revision writes over [existing]. *)
Definition revised_plan (input : RevisePlanInput) (existing : PlanRecord) (scope_key now : string)
    (targets : list string) (r : PlanRecord) : PlanRecord :=
  let list_or new old := match new with Some l => normalize_string_list l | None => old end in
  r <| pl_scope_key := scope_key |>
    <| pl_assumptions := list_or (rvp_assumptions input) (pl_assumptions existing) |>
    <| pl_stop_conditions := list_or (rvp_stop_conditions input) (pl_stop_conditions existing) |>
    <| pl_validation_steps := list_or (rvp_validation_steps input) (pl_validation_steps existing) |>
    <| pl_targeted_work_point_ids := targets |>
    <| pl_effort_tier := default (pl_effort_tier existing) (rvp_effort_tier input) |>
    <| pl_routing_hint :=
         if rvp_clear_routing_hint input then None else
         match trimmed_option (rvp_routing_hint input) with
         | Some h => Some h | None => pl_routing_hint existing end |>
    <| pl_allow_parallel_overlap :=
         default (pl_allow_parallel_overlap existing) (rvp_allow_parallel_overlap input) |>
    <| pl_tags := list_or (rvp_tags input) (pl_tags existing) |>
    <| pl_revision ::= Z.succ |> <| pl_updated_at := now |>.

Definition revise_plan (input : RevisePlanInput) : M (MutationResult PlanRecord) :=
  let id := rvp_plan_id input in
  _ ← require_non_empty "planId" id;
  _ ← ensure_entity_in_scope EntityType.Plan id (normalized_scope_key (rvp_active_scope_key input));
  existing ← load_plan id;
  let scope_key := default (pl_scope_key existing)
                     (normalize_scope_key_value <$> rvp_new_scope_key input) in
  _ ← ensure_scope_exists scope_key;
  let targets := default (pl_targeted_work_point_ids existing)
                   (normalize_string_list <$> rvp_targeted_work_point_ids input) in
  _ ← ensure_plan_transfer_compatible existing scope_key targets;
  let file_scopes := if rvp_clear_file_scopes input then [] else
                     default (pl_file_scopes existing) (normalize_file_scopes <$> rvp_file_scopes input) in
  now ← now_string;
  _ ← update_db (fun d => d <| db_plans ::=
        update_where (fun r => bool_decide (pl_id r = id))
          (revised_plan input existing scope_key now targets) |>);
  _ ← replace_entity_file_scopes scope_key EntityType.Plan id file_scopes;
  record ← load_plan id;
  _ ← record_event EntityType.Plan (pl_id record) EntityType.Plan (pl_id record)
        (pl_correlation_id record) (rvp_run_id input) "plan.revised"
        (json_object
          [("assumptions", json_strings (pl_assumptions record));
           ("stopConditions", json_strings (pl_stop_conditions record));
           ("validationSteps", json_strings (pl_validation_steps record));
           ("targetedWorkPointIds", json_strings (pl_targeted_work_point_ids record));
           ("effortTier", JStr (as_str (pl_effort_tier record)));
           ("routingHint", json_opt (pl_routing_hint record));
           ("allowParallelOverlap", JBool (pl_allow_parallel_overlap record));
           ("fileScopes", JArr (map FileScopeRecord_to_value (pl_file_scopes record)));
           ("tags", json_strings (pl_tags record)); ("revision", JInt (pl_revision record))]);
  validation ← refresh_validation_target EntityType.Plan (pl_id record);
  _ ← rebuild_tag_index_for_entity EntityType.Plan (pl_id record) (pl_tags record);
  mret (mkMutationResult record validation).

(** ** Todos *)

(** [COALESCE(plan_id, work_point_id, '__global__')]. *)
Definition todo_group (plan_id work_point_id : option string) : string :=
  default (default "__global__" work_point_id) plan_id.

(** The aggregate a todo's events belong to, and its correlation id. *)
Definition todo_aggregate (record : TodoRecord) : M (EntityType * string * string) :=
  match td_plan_id record, td_work_point_id record with
  | Some plan_id, _ =>
      correlation_id ← plan_correlation_id plan_id; mret (EntityType.Plan, plan_id, correlation_id)
  | None, Some work_point_id =>
      correlation_id ← work_point_correlation_id work_point_id;
      mret (EntityType.WorkPoint, work_point_id, correlation_id)
  | None, None => mret (EntityType.Todo, td_id record, "corr-" +:+ td_id record)
  end.

Definition create_todo (input : CreateTodoInput) : M (MutationResult TodoRecord) :=
  let active_scope_key := normalized_scope_key (ct_scope_key input) in
  _ ← require_non_empty "title" (ct_title input);
  plan_scope_key ← match ct_plan_id input with
    | Some id => s ← ensure_referenced_entity_in_scope EntityType.Plan id "planId" active_scope_key;
                 mret (Some s)
    | None => mret None
    end;
  work_point_scope_key ← match ct_work_point_id input with
    | Some id => s ← ensure_referenced_entity_in_scope EntityType.WorkPoint id "workPointId"
                       active_scope_key; mret (Some s)
    | None => mret None
    end;
  scope_key ← match plan_scope_key, work_point_scope_key with
    | Some s, _ => mret s
    | None, Some s => mret s
    | None, None => _ ← ensure_scope_exists active_scope_key; mret active_scope_key
    end;
  now ← now_string;
  id ← id_or_new (ct_id input);
  next ← next_ordering db_todos (fun r =>
           bool_decide (todo_group (td_plan_id r) (td_work_point_id r)
                        = todo_group (ct_plan_id input) (ct_work_point_id input))) td_ordering;
  let record :=
    {| td_id := id; td_scope_key := scope_key; td_plan_id := ct_plan_id input;
       td_work_point_id := ct_work_point_id input; td_title := trim (ct_title input);
       td_summary := trim (ct_summary input); td_status := ct_status input;
       td_priority := ct_priority input; td_effort_tier := ct_effort_tier input;
       td_file_scopes := normalize_file_scopes (ct_file_scopes input);
       td_evidence_refs := normalize_string_list (ct_evidence_refs input);
       td_tags := normalize_string_list (ct_tags input);
       td_ordering := default next (ct_ordering input); td_revision := 1;
       td_created_at := now; td_updated_at := now |} in
  _ ← insert_into "todos" db_todos td_id (fun t d => d <| db_todos := t |>) record;
  _ ← replace_entity_file_scopes scope_key EntityType.Todo id (td_file_scopes record);
  '(aggregate_type, aggregate_id, correlation_id) ← todo_aggregate record;
  _ ← record_event EntityType.Todo id aggregate_type aggregate_id correlation_id
        (ct_run_id input) "todo.created" (TodoRecord_to_value record);
  validation ← refresh_validation_target EntityType.Todo id;
  _ ← rebuild_tag_index_for_entity EntityType.Todo id (td_tags record);
  _ ← upsert_fts_entry EntityType.Todo scope_key id (td_title record) (td_summary record);
  _ ← match td_plan_id record with
      | Some plan_id => refresh EntityType.Plan plan_id
      | None => mret tt
      end;
  mret (mkMutationResult record validation).

(** ** Issues, review points, insights *)
Definition create_issue (input : CreateIssueInput) : M (MutationResult IssueRecord) :=
  let active_scope_key := normalized_scope_key (cis_scope_key input) in
  _ ← require_non_empty "correlationId" (cis_correlation_id input);
  _ ← require_non_empty "title" (cis_title input);
  _ ← require_non_empty "summary" (cis_summary input);
  scope_key ← match cis_related_entity_type input, cis_related_entity_id input with
    | Some ty, Some id => ensure_referenced_entity_in_scope ty id "relatedEntityId" active_scope_key
    | _, _ => _ ← ensure_scope_exists active_scope_key; mret active_scope_key
    end;
  now ← now_string;
  id ← id_or_new (cis_id input);
  let record :=
    {| is_id := id; is_scope_key := scope_key; is_correlation_id := cis_correlation_id input;
       is_title := trim (cis_title input); is_summary := trim (cis_summary input);
       is_status := cis_status input; is_severity := cis_severity input;
       is_related_entity_type := cis_related_entity_type input;
       is_related_entity_id := trim <$> cis_related_entity_id input;
       is_tags := normalize_string_list (cis_tags input); is_revision := 1;
       is_created_at := now; is_updated_at := now |} in
  _ ← insert_into "issues" db_issues is_id (fun t d => d <| db_issues := t |>) record;
  _ ← record_event EntityType.Issue id EntityType.Issue id (is_correlation_id record)
        (cis_run_id input) "issue.recorded" (IssueRecord_to_value record);
  validation ← refresh_validation_target EntityType.Issue id;
  _ ← rebuild_tag_index_for_entity EntityType.Issue id (is_tags record);
  _ ← upsert_fts_entry EntityType.Issue scope_key id (is_title record) (is_summary record);
  _ ← match is_related_entity_type record, is_related_entity_id record with
      | Some EntityType.Plan, Some related => refresh EntityType.Plan related
      | _, _ => mret tt
      end;
  mret (mkMutationResult record validation).

Definition create_review_point (input : CreateReviewPointInput)
    : M (MutationResult ReviewPointRecord) :=
  _ ← require_non_empty "attachedEntityId" (crp_attached_entity_id input);
  _ ← require_non_empty "title" (crp_title input);
  _ ← require_non_empty "summary" (crp_summary input);
  let ty := crp_attached_entity_type input in
  let attached := crp_attached_entity_id input in
  scope_key ← ensure_referenced_entity_in_scope ty attached "attachedEntityId"
                (normalized_scope_key (crp_scope_key input));
  now ← now_string;
  id ← id_or_new (crp_id input);
  let record :=
    {| rp_id := id; rp_scope_key := scope_key; rp_attached_entity_type := ty;
       rp_attached_entity_id := attached; rp_title := trim (crp_title input);
       rp_summary := trim (crp_summary input); rp_status := crp_status input;
       rp_severity := crp_severity input; rp_revision := 1;
       rp_created_at := now; rp_updated_at := now |} in
  _ ← insert_into "review_points" db_review_points rp_id (fun t d => d <| db_review_points := t |>)
        record;
  correlation_id ← attached_entity_correlation_id ty attached;
  _ ← record_event EntityType.ReviewPoint id ty attached correlation_id (crp_run_id input)
        "review-point.recorded" (ReviewPointRecord_to_value record);
  _ ← refresh EntityType.ReviewPoint id;
  validation ← refresh_validation_target ty attached;
  mret (mkMutationResult record validation).

Definition create_insight (input : CreateInsightInput) : M (MutationResult InsightRecord) :=
  _ ← require_non_empty "correlationId" (cin_correlation_id input);
  _ ← require_non_empty "title" (cin_title input);
  _ ← require_non_empty "content" (cin_content input);
  _ ← guard_or (negb (bool_decide (trim (cin_content input) = "")))
        (coded_error [("code", JStr "EMPTY_CONTENT");
                      ("message", JStr "insight content must not be empty or whitespace-only");
                      ("status", JStr "invalid")]);
  let ty := cin_parent_entity_type input in
  let parent := cin_parent_entity_id input in
  scope_key ← ensure_referenced_entity_in_scope ty parent "parentEntityId"
                (normalized_scope_key (cin_scope_key input));
  now ← now_string;
  id ← id_or_new (cin_id input);
  let record :=
    {| ins_id := id; ins_scope_key := scope_key; ins_correlation_id := cin_correlation_id input;
       ins_title := trim (cin_title input); ins_content := trim (cin_content input);
       ins_insight_type := cin_insight_type input; ins_parent_entity_type := ty;
       ins_parent_entity_id := parent; ins_tags := normalize_string_list (cin_tags input);
       ins_status := cin_status input; ins_revision := 1;
       ins_created_at := now; ins_updated_at := now |} in
  _ ← insert_into "insights" db_insights ins_id (fun t d => d <| db_insights := t |>) record;
  _ ← rebuild_tag_index_for_entity EntityType.Insight id (ins_tags record);
  _ ← upsert_insights_fts_entry id (ins_title record) (ins_content record);
  correlation_id ← attached_entity_correlation_id ty parent;
  _ ← record_event EntityType.Insight id ty parent correlation_id (cin_run_id input)
        "insight.recorded" (InsightRecord_to_value record);
  _ ← refresh EntityType.Insight id;
  validation ← refresh_validation_target ty parent;
  mret (mkMutationResult record validation).
End Entities.
