(* ===== verification/Discovery.v ===== *)
(** The discovery inbox ([plugins/planning/src/storage.rs],
    [create_discovery] to [list_discovery_checkpoints]).

    A discovery is captured as a candidate, triaged, resolved, reopened and
    promoted to an entity; relationships and checkpoints are only added.
    None of these operations runs in a transaction of several statements,
    appends an event or checks that the scope exists. *)
From stdpp Require Import relations.
From S2P Require Import Prelude Text Json Model Tx Table Store Frames Entities.

(** ** Inputs *)
Record CreateDiscoveryInput := mkCreateDiscoveryInput {
  cdi_id : option string; cdi_scope_key : option string; cdi_correlation_id : string;
  cdi_classification : DiscoveryClassification; cdi_verification_state : VerificationState;
  cdi_severity : Severity; cdi_claim : string; cdi_impact : option string;
  cdi_next_action : option string; cdi_verification_step : option string;
  cdi_recurrence_key : option string; cdi_fingerprint : option string;
  cdi_observed_at : list string; cdi_occurrence_count : option Z;
  cdi_source_lineage : list DiscoverySourceEntry; cdi_review_date : option string;
  cdi_tags : list string }.
Record CreateDiscoveryRelationshipInput := mkCreateDiscoveryRelationshipInput {
  cdr_id : option string; cdr_scope_key : option string; cdr_source_id : string;
  cdr_target_id : string; cdr_relationship_kind : DiscoveryRelationshipKind;
  cdr_metadata : option json }.
Record CreateDiscoveryCheckpointInput := mkCreateDiscoveryCheckpointInput {
  cdc_id : option string; cdc_scope_key : option string; cdc_run_id : string;
  cdc_event : string; cdc_snapshot : option json }.
Record DiscoveryView := mkDiscoveryView {
  dv_discovery : DiscoveryRecord; dv_relationships : list DiscoveryRelationshipRecord;
  dv_validation : ValidationReport }.

Section Discovery.
Context `{External}.

(** ** Discoveries *)
Definition discovery_row (input : CreateDiscoveryInput) (id now : string) : DiscoveryRecord :=
  {| dn_id := id; dn_scope_key := normalized_scope_key (cdi_scope_key input);
     dn_correlation_id := cdi_correlation_id input;
     dn_classification := cdi_classification input;
     dn_verification_state := cdi_verification_state input; dn_severity := cdi_severity input;
     dn_status := DiscoveryStatus.Candidate; dn_claim := cdi_claim input;
     dn_impact := cdi_impact input; dn_next_action := cdi_next_action input;
     dn_verification_step := cdi_verification_step input;
     dn_recurrence_key := cdi_recurrence_key input; dn_fingerprint := cdi_fingerprint input;
     dn_observed_at := cdi_observed_at input;
     dn_occurrence_count := default 1%Z (cdi_occurrence_count input);
     dn_source_lineage := cdi_source_lineage input; dn_review_date := cdi_review_date input;
     dn_resolved_at := None; dn_resolution_rationale := None; dn_promoted_entity_type := None;
     dn_promoted_entity_id := None; dn_tags := cdi_tags input; dn_revision := 1;
     dn_created_at := now; dn_updated_at := now |}.

Definition create_discovery (input : CreateDiscoveryInput) : M DiscoveryRecord :=
  _ ← require_non_empty "correlationId" (cdi_correlation_id input);
  _ ← require_non_empty "claim" (cdi_claim input);
  now ← now_string;
  id ← id_or_new (cdi_id input);
  _ ← insert_into "discovery_nodes" db_discoveries dn_id (fun t d => d <| db_discoveries := t |>)
        (discovery_row input id now);
  load_discovery id.

Definition discovery_filter {A} `{EqDecision A} (wanted : option A) (a : A) : bool :=
  match wanted with Some x => bool_decide (a = x) | None => true end.

Definition list_discoveries (scope_key : string) (status_filter : option DiscoveryStatus)
    (classification_filter : option DiscoveryClassification) : M (list DiscoveryRecord) :=
  let normalized := normalize_scope_key_value scope_key in
  t ← rows db_discoveries;
  mret (order_by (then_by (desc_str dn_created_at) (asc_str dn_id))
    (select_where (fun r => bool_decide (dn_scope_key r = normalized)
       && discovery_filter status_filter (dn_status r)
       && discovery_filter classification_filter (dn_classification r)) t)).

(** [UPDATE discovery_nodes SET .. WHERE id = ?1 AND scope_key = ?2], the test
    of the rows affected, and the record read back. *)
Definition update_discovery (discovery_id normalized : string)
    (f : DiscoveryRecord -> DiscoveryRecord) : M DiscoveryRecord :=
  let addressed r := bool_decide (dn_id r = discovery_id)
                     && bool_decide (dn_scope_key r = normalized) in
  t ← rows db_discoveries;
  let affected := length (select_where addressed t) in
  _ ← update_db (fun d => d <| db_discoveries ::= update_where addressed f |>);
  _ ← guard_or (negb (affected =? 0)%nat)
        (InvalidInput ("discovery node `" +:+ discovery_id +:+ "` not found in scope `"
           +:+ normalized +:+ "`"));
  load_discovery discovery_id.

Definition touched (status : DiscoveryStatus) (now : string) (r : DiscoveryRecord)
    : DiscoveryRecord :=
  r <| dn_status := status |> <| dn_revision ::= Z.succ |> <| dn_updated_at := now |>.

Definition update_discovery_status (discovery_id : string) (status : DiscoveryStatus)
    (scope_key : string) : M DiscoveryRecord :=
  let normalized := normalize_scope_key_value scope_key in
  now ← now_string;
  update_discovery discovery_id normalized (touched status now).

Definition resolve_discovery (discovery_id rationale : string) (evidence_refs : list string)
    (scope_key : string) : M DiscoveryRecord :=
  let normalized := normalize_scope_key_value scope_key in
  now ← now_string;
  update_discovery discovery_id normalized (fun r =>
    touched DiscoveryStatus.Resolved now r <| dn_resolution_rationale := Some rationale |>
      <| dn_resolved_at := Some now |> <| dn_tags := evidence_refs |>).

Definition reopen_discovery (discovery_id scope_key : string) : M DiscoveryRecord :=
  let normalized := normalize_scope_key_value scope_key in
  now ← now_string;
  update_discovery discovery_id normalized (fun r =>
    touched DiscoveryStatus.Reopened now r <| dn_resolved_at := None |>
      <| dn_resolution_rationale := None |>).

Definition promote_discovery (discovery_id : string) (entity_type : EntityType)
    (entity_id scope_key : string) : M DiscoveryRecord :=
  let normalized := normalize_scope_key_value scope_key in
  now ← now_string;
  update_discovery discovery_id normalized (fun r =>
    touched DiscoveryStatus.Promoted now r <| dn_promoted_entity_type := Some entity_type |>
      <| dn_promoted_entity_id := Some entity_id |>).

(** ** Relationships, checkpoints and the view *)
Definition list_discovery_relationships (source_id : string)
    : M (list DiscoveryRelationshipRecord) :=
  t ← rows db_discovery_relationships;
  mret (order_by (then_by (asc_str dr_created_at) (asc_str dr_id))
    (select_where (fun r => bool_decide (dr_source_id r = source_id)) t)).

Definition load_validation_report (entity_type : EntityType) (entity_id : string)
    : M ValidationReport :=
  t ← rows db_findings;
  mret (from_findings
    (order_by (then_by (asc_str (fun f => as_str (vf_severity f)))
                (then_by (asc_str vf_code) (asc_str vf_created_at)))
      (select_where (fun f => bool_decide (vf_entity_type f = entity_type)
                              && bool_decide (vf_entity_id f = entity_id)) t))).

Definition discovery_view (discovery_id : string) : M DiscoveryView :=
  discovery ← load_discovery discovery_id;
  relationships ← list_discovery_relationships discovery_id;
  validation ← load_validation_report EntityType.DiscoveryNode discovery_id;
  mret (mkDiscoveryView discovery relationships validation).

Definition add_discovery_relationship (input : CreateDiscoveryRelationshipInput)
    : M DiscoveryRelationshipRecord :=
  let scope_key := normalized_scope_key (cdr_scope_key input) in
  now ← now_string;
  id ← id_or_new (cdr_id input);
  _ ← insert_into "discovery_relationships" db_discovery_relationships dr_id
        (fun t d => d <| db_discovery_relationships := t |>)
        (mkDiscoveryRelationshipRecord id scope_key (cdr_source_id input) (cdr_target_id input)
           (cdr_relationship_kind input) (cdr_metadata input) now);
  load_by db_discovery_relationships dr_id EntityType.DiscoveryRelationship id.

Definition create_discovery_checkpoint (input : CreateDiscoveryCheckpointInput)
    : M DiscoveryCheckpointRecord :=
  _ ← require_non_empty "runId" (cdc_run_id input);
  _ ← require_non_empty "event" (cdc_event input);
  let scope_key := normalized_scope_key (cdc_scope_key input) in
  now ← now_string;
  id ← id_or_new (cdc_id input);
  _ ← insert_into "discovery_checkpoints" db_discovery_checkpoints dc_id
        (fun t d => d <| db_discovery_checkpoints := t |>)
        (mkDiscoveryCheckpointRecord id scope_key (cdc_run_id input) (cdc_event input)
           (cdc_snapshot input) now);
  load_by db_discovery_checkpoints dc_id EntityType.DiscoveryCheckpoint id.

Definition list_discovery_checkpoints (scope_key : string) : M (list DiscoveryCheckpointRecord) :=
  let normalized := normalize_scope_key_value scope_key in
  t ← rows db_discovery_checkpoints;
  mret (order_by (then_by (desc_str dc_created_at) (asc_str dc_id))
    (select_where (fun r => bool_decide (dc_scope_key r = normalized)) t)).

(** ** Histories of the inbox *)
Inductive DiscoveryOp :=
| CreateDiscovery (i : CreateDiscoveryInput)
| UpdateDiscoveryStatus (id : string) (status : DiscoveryStatus) (scope : string)
| ResolveDiscovery (id rationale : string) (evidence_refs : list string) (scope : string)
| ReopenDiscovery (id scope : string)
| PromoteDiscovery (id : string) (entity_type : EntityType) (entity_id scope : string)
| AddDiscoveryRelationship (i : CreateDiscoveryRelationshipInput)
| CreateDiscoveryCheckpoint (i : CreateDiscoveryCheckpointInput).

Definition discovery_op (op : DiscoveryOp) : M unit :=
  match op with
  | CreateDiscovery i => _ ← create_discovery i; mret tt
  | UpdateDiscoveryStatus id status scope => _ ← update_discovery_status id status scope; mret tt
  | ResolveDiscovery id why refs scope => _ ← resolve_discovery id why refs scope; mret tt
  | ReopenDiscovery id scope => _ ← reopen_discovery id scope; mret tt
  | PromoteDiscovery id ty eid scope => _ ← promote_discovery id ty eid scope; mret tt
  | AddDiscoveryRelationship i => _ ← add_discovery_relationship i; mret tt
  | CreateDiscoveryCheckpoint i => _ ← create_discovery_checkpoint i; mret tt
  end.
Definition discovery_step (w w' : World) : Prop := exists op, w' = committed (discovery_op op) w.

(** What is in the inbox: claims that say something, resolutions with a
    rationale, promotions to an entity, and untouched candidates. *)
Definition discovery_sound (r : DiscoveryRecord) : Prop :=
  (1 <= dn_revision r)%Z /\ (dn_revision r = 1%Z -> dn_status r = DiscoveryStatus.Candidate) /\
  trim (dn_claim r) <> "" /\ trim (dn_correlation_id r) <> "" /\
  (is_Some (dn_resolved_at r) <-> is_Some (dn_resolution_rationale r)) /\
  (is_Some (dn_promoted_entity_type r) <-> is_Some (dn_promoted_entity_id r)).

Definition inbox_sound (d : Db) : Prop :=
  NoDup (map dn_id (db_discoveries d)) /\ NoDup (map dr_id (db_discovery_relationships d)) /\
  NoDup (map dc_id (db_discovery_checkpoints d)) /\
  forall r, r ∈ db_discoveries d -> discovery_sound r.

(** What was observed of a discovery, which no operation changes. *)
Definition observation (r : DiscoveryRecord) :=
  (dn_id r, dn_scope_key r, dn_correlation_id r,
   (dn_classification r, dn_verification_state r, dn_severity r),
   (dn_claim r, dn_impact r, dn_next_action r, dn_verification_step r),
   (dn_recurrence_key r, dn_fingerprint r, dn_observed_at r, dn_occurrence_count r),
   (dn_source_lineage r, dn_review_date r, dn_created_at r)).
Definition later_version (r r' : DiscoveryRecord) : Prop :=
  observation r' = observation r /\ (r' = r \/ dn_revision r < dn_revision r')%Z.

Definition outside_inbox (d : Db) : Db :=
  d <| db_discoveries := [] |> <| db_discovery_relationships := [] |>
    <| db_discovery_checkpoints := [] |>.
Definition inbox_grows (d d' : Db) : Prop :=
  (forall r, r ∈ db_discoveries d -> exists r', r' ∈ db_discoveries d' /\ later_version r r') /\
  (forall r, r ∈ db_discovery_relationships d -> r ∈ db_discovery_relationships d') /\
  (forall r, r ∈ db_discovery_checkpoints d -> r ∈ db_discovery_checkpoints d') /\
  outside_inbox d' = outside_inbox d.

(** What the statements of an operation do to the tables. *)
Inductive inbox_change (d : Db) : Db -> Prop :=
| captured r t : discovery_sound r -> insert_row dn_id r (db_discoveries d) = Some t ->
    inbox_change d (d <| db_discoveries := t |>)
| revised p f :
    (forall r, observation (f r) = observation r /\ dn_revision (f r) = Z.succ (dn_revision r)) ->
    (forall r, discovery_sound r -> discovery_sound (f r)) ->
    inbox_change d (d <| db_discoveries ::= update_where p f |>)
| related r t : insert_row dr_id r (db_discovery_relationships d) = Some t ->
    inbox_change d (d <| db_discovery_relationships := t |>)
| checkpointed r t : insert_row dc_id r (db_discovery_checkpoints d) = Some t ->
    inbox_change d (d <| db_discovery_checkpoints := t |>).

Lemma insert_into_row {R} name (table : Db -> list R) key store r w u w' :
  insert_into name table key store r w = Ok u w' ->
  exists t, insert_row key r (table (w_db w)) = Some t /\ w' = w <| w_db ::= store t |>.
Proof. unfold insert_into, rows, update_db. intros Hr. tx_inv. by eexists. Qed.

Lemma require_non_empty_Ok field value w u w' :
  require_non_empty field value w = Ok u w' -> w' = w /\ trim value <> "".
Proof.
  unfold require_non_empty. intros [Hb ->]%guard_or_Ok. split; [done|].
  by apply negb_true_iff, bool_decide_eq_false in Hb.
Qed.

Lemma update_discovery_Ok id scope f w r w' :
  update_discovery id scope f w = Ok r w' ->
  exists p, w' = w <| w_db ::= fun d => d <| db_discoveries ::= update_where p f |> |>.
Proof.
  unfold update_discovery, rows, update_db, load_discovery, load_by, rows. intros Hr. tx_inv.
  by eexists.
Qed.

Lemma update_discovery_change id scope f w r w' :
  update_discovery id scope f w = Ok r w' ->
  (forall r, observation (f r) = observation r /\ dn_revision (f r) = Z.succ (dn_revision r)) ->
  (forall r, discovery_sound r -> discovery_sound (f r)) ->
  inbox_change (w_db w) (w_db w').
Proof. intros [p ->]%update_discovery_Ok ??. by apply (revised (w_db w) p f). Qed.

Lemma now_string_db w now w' : now_string w = Ok now w' -> w_db w' = w_db w.
Proof. apply keeps_now_string. Qed.
Lemma id_or_new_db o w id w' : id_or_new o w = Ok id w' -> w_db w' = w_db w.
Proof. apply keeps_id_or_new. Qed.

(** A new row of one of the three tables, read back. *)
Lemma insert_change {R} name (table : Db -> list R) key store (r : R) ty k w x w' :
  (_ ← insert_into name table key store r; load_by table key ty k) w = Ok x w' ->
  exists t, insert_row key r (table (w_db w)) = Some t /\ w_db w' = store t (w_db w).
Proof.
  intros Hr. apply bind_Ok in Hr as (u & s & (t & Ht & ->)%insert_into_row & Hr).
  exists t. split; [done|]. by rewrite (keeps_load_by w_db _ _ _ _ _ _ _ Hr).
Qed.

Lemma update_op_change id scope (g : string -> DiscoveryRecord -> DiscoveryRecord) w r w' :
  (now ← now_string; update_discovery id scope (g now)) w = Ok r w' ->
  (forall now r, observation (g now r) = observation r /\
                 dn_revision (g now r) = Z.succ (dn_revision r)) ->
  (forall now r, discovery_sound r -> discovery_sound (g now r)) ->
  inbox_change (w_db w) (w_db w').
Proof.
  intros Hr Hf Hg. apply bind_Ok in Hr as (now & s & <-%now_string_db & Hr).
  apply (update_discovery_change _ _ _ _ _ _ Hr (Hf now) (Hg now)).
Qed.

#[local] Ltac revised_row :=
  intros ? r (? & _ & ? & ? & ? & ?); unfold discovery_sound; cbn; split_and!;
    first [done|lia|by rewrite !is_Some_alt].

Lemma discovery_op_change op w u w' :
  discovery_op op w = Ok u w' -> inbox_change (w_db w) (w_db w').
Proof.
  destruct op; simpl; intros Hr; apply bind_Ok in Hr as (x & s & Hr & [_ ->]%ret_Ok).
  - apply bind_Ok in Hr as (? & ? & [-> Hc]%require_non_empty_Ok & Hr).
    apply bind_Ok in Hr as (? & ? & [-> Hd]%require_non_empty_Ok & Hr).
    apply bind_Ok in Hr as (now & ? & <-%now_string_db & Hr).
    apply bind_Ok in Hr as (id & ? & <-%id_or_new_db & Hr).
    apply insert_change in Hr as (t & Ht & ->). eapply captured; [|exact Ht].
    unfold discovery_sound. cbn. by rewrite !is_Some_alt.
  - eapply update_op_change; [exact Hr|done|revised_row].
  - eapply update_op_change; [exact Hr|done|revised_row].
  - eapply update_op_change; [exact Hr|done|revised_row].
  - eapply update_op_change; [exact Hr|done|revised_row].
  - apply bind_Ok in Hr as (now & ? & <-%now_string_db & Hr).
    apply bind_Ok in Hr as (id & ? & <-%id_or_new_db & Hr).
    apply insert_change in Hr as (t & Ht & ->). eapply related, Ht.
  - apply bind_Ok in Hr as (? & ? & [-> Hc]%require_non_empty_Ok & Hr).
    apply bind_Ok in Hr as (? & ? & [-> Hd]%require_non_empty_Ok & Hr).
    apply bind_Ok in Hr as (now & ? & <-%now_string_db & Hr).
    apply bind_Ok in Hr as (id & ? & <-%id_or_new_db & Hr).
    apply insert_change in Hr as (t & Ht & ->). eapply checkpointed, Ht.
Qed.

#[local] Instance later_version_preorder : PreOrder later_version.
Proof.
  unfold later_version. split; [intros r; by split; [|left]|].
  intros a b c [E1 H1] [E2 H2]. split; [congruence|].
  destruct H1 as [->|], H2 as [->|]; auto. right. lia.
Qed.
#[local] Instance inbox_grows_preorder : PreOrder inbox_grows.
Proof.
  unfold inbox_grows. split.
  - intros d. split_and!; [|done..]. intros r Hr. by exists r.
  - intros a b c (D1 & R1 & C1 & O1) (D2 & R2 & C2 & O2).
    split_and!; [|by auto..|congruence].
    intros r (r1 & H1 & L1)%D1. destruct (D2 _ H1) as (r2 & H2 & L2).
    exists r2. split; [done|]. by trans r1.
Qed.

Lemma inbox_change_sound d d' : inbox_change d d' -> inbox_sound d -> inbox_sound d'.
Proof.
  intros [r t Hr Ht|p f Ho Hf|r t Ht|r t Ht] (Nd & Nr & Nc & Hs); unfold inbox_sound; cbn;
    split_and!; eauto using insert_row_NoDup.
  - intros x. apply insert_row_Some in Ht as [-> _]. set_solver.
  - rewrite keys_update_where; [done|]. intros r. destruct (Ho r) as [E _]. by injection E.
  - intros x (r & Hr & ->)%elem_of_update_where. destruct (p r); auto.
Qed.

Lemma inbox_change_grows d d' : inbox_change d d' -> inbox_grows d d'.
Proof.
  intros [r t _ [-> _]%insert_row_Some|p f Ho _|r t [-> _]%insert_row_Some|r t [-> _]%insert_row_Some];
    unfold inbox_grows; cbn; split_and!; try done; try set_solver.
  - intros x Hx. exists x. split; [set_solver|done].
  - intros x Hx. exists (if p x then f x else x). split.
    + apply elem_of_update_where. by exists x.
    + destruct (p x); [|done]. destruct (Ho x) as [E R]. split; [done|right; lia].
Qed.

(** Whatever happens in the inbox, it stays sound and nothing that was
    observed is lost: every discovery keeps its observation and a revision that
    grows with every change, relationships and checkpoints stay as they were
    recorded, and no other table is touched. *)
Theorem inbox_loses_nothing w w' :
  rtc discovery_step w w' -> inbox_sound (w_db w) ->
  inbox_sound (w_db w') /\ inbox_grows (w_db w) (w_db w').
Proof.
  induction 1 as [w|w1 w2 w3 [op ->] _ IH]; intros Hs; [done|].
  unfold committed in IH. destruct (discovery_op op w1) as [u s|e] eqn:E; [|by apply IH].
  apply discovery_op_change in E. destruct IH as [Hs' Hg]; [by eapply inbox_change_sound|].
  split; [done|]. etrans; [by apply inbox_change_grows|done].
Qed.

(** An update finds its discovery in the scope it names and gives it back
    changed, or fails. *)
Theorem update_discovery_exact id scope f w :
  (forall r, dn_id (f r) = dn_id r) -> NoDup (map dn_id (db_discoveries (w_db w))) ->
  match find_by dn_id id (db_discoveries (w_db w)) with
  | Some r =>
      if decide (dn_scope_key r = scope)
      then exists w', update_discovery id scope f w = Ok (f r) w' /\
        forall x, x ∈ db_discoveries (w_db w') <->
          x = f r \/ x ∈ db_discoveries (w_db w) /\ dn_id x <> id
      else exists e, update_discovery id scope f w = Fail (InvalidInput e)
  | None => exists e, update_discovery id scope f w = Fail (InvalidInput e)
  end.
Proof.
  intros Hf Hn. set (l := db_discoveries (w_db w)) in *.
  assert (forall r, r ∈ l -> dn_id r = id -> find_by dn_id id l = Some r) as Hu
    by (intros r Hr <-; by apply find_by_elem).
  assert ((forall r, find_by dn_id id l = Some r -> dn_scope_key r <> scope) ->
          exists e, update_discovery id scope f w = Fail (InvalidInput e)) as Hfail.
  { intros Hno. eexists. unfold update_discovery, rows, mbind, Tx_bind, reads, update_db, modify.
    fold l. destruct (select_where _ l) as [|r l'] eqn:E; [reflexivity|exfalso].
    assert (r ∈ select_where (fun r => bool_decide (dn_id r = id)
              && bool_decide (dn_scope_key r = scope)) l) as Hr by (rewrite E; set_solver).
    rewrite elem_of_select_where, andb_true_iff, !bool_decide_eq_true in Hr.
    destruct Hr as (Hr & Hid & Hsc). by apply (Hno r); [apply Hu|]. }
  destruct (find_by dn_id id l) as [r|] eqn:Ef; [|by apply Hfail].
  case_decide as Hsc; [|by apply Hfail; intros ? [= <-]].
  apply find_by_Some in Ef as Hr. destruct Hr as [Hr Hid].
  set (p := fun r => bool_decide (dn_id r = id) && bool_decide (dn_scope_key r = scope)).
  assert (p r = true) as Hp by (unfold p; by rewrite !bool_decide_eq_true_2).
  eexists. split.
  - unfold update_discovery, rows, mbind, Tx_bind, reads, update_db, modify. fold l p.
    assert (select_where p l <> []) as Hne.
    { intros E. assert (r ∈ select_where p l) by by apply elem_of_select_where. rewrite E in *. set_solver. }
    destruct (select_where p l); [done|]. cbn. unfold load_discovery, load_by, rows, mbind, Tx_bind, reads.
    cbn. fold l. rewrite find_by_update_where, Ef by (intros; apply Hf). cbn. by rewrite Hp.
  - intros x. cbn. rewrite elem_of_update_where. split.
    + intros (y & Hy & ->). destruct (p y) eqn:Epy.
      * unfold p in Epy. apply andb_true_iff in Epy as [Ei%bool_decide_eq_true _].
        left. specialize (Hu y Hy Ei). congruence.
      * right. split; [done|]. intros Ei. specialize (Hu y Hy Ei). congruence.
    + intros [->|[Hx Hne]]; [exists r; by rewrite Hp|exists x; split; [done|]].
      unfold p. by rewrite bool_decide_eq_false_2.
Qed.

(** Resolving stores the evidence where the tags of the discovery were. *)
Theorem resolving_replaces_the_tags id rationale refs scope w r w' :
  resolve_discovery id rationale refs scope w = Ok r w' ->
  NoDup (map dn_id (db_discoveries (w_db w))) ->
  dn_status r = DiscoveryStatus.Resolved /\ dn_tags r = refs.
Proof.
  intros Hr Hn. apply bind_Ok in Hr as (now & s & Hs%now_string_db & Hr). rewrite <- Hs in Hn.
  match type of Hr with update_discovery _ ?sc ?f _ = _ =>
    pose proof (update_discovery_exact id sc f s (fun _ => eq_refl) Hn) as Hx end.
  destruct (find_by _ _ _); [case_decide; [destruct Hx as (? & Hx & _)|destruct Hx as [? Hx]]
    |destruct Hx as [? Hx]]; rewrite Hx in Hr; by simplify_eq.
Qed.
End Discovery.
