(* ===== verification/WorkflowPlan.v ===== *)
(** Workflow planning ([plugins/planning/src/workflow.rs] and the workflow
    types of [model.rs]): from the graph nodes of a source to delegation
    hints, an execution plan and the dispatches handed to workers.

    All of it is pure; the transactions that use it are in [Workflow].
    Counts of rows are [nat]; budgets and estimates are [Z]. *)
From Stdlib Require Import Ascii.
From stdpp Require Import pretty.
From S2P Require Import Prelude Text Substring Json Model Entities.

(** ** Data *)
Record WorkflowViewSource := mkWorkflowViewSource {
  wvs_entity_type : EntityType; wvs_entity_id : string }.
Record WorkflowViewNode := mkWorkflowViewNode {
  wvn_id : string; wvn_kind : PlanningNodeKind; wvn_title : string; wvn_status : string;
  wvn_tags : list string }.
Record WorkflowViewEdge := mkWorkflowViewEdge {
  wve_id : string; wve_kind : PlanningEdgeKind; wve_source_node_id : string;
  wve_target_node_id : string; wve_status : string }.
Record WorkflowRetryPolicy := mkWorkflowRetryPolicy {
  wrp_max_attempts : Z; wrp_retryable_stop_conditions : list string; wrp_escalation : string }.
Record WorkflowDelegationHint := mkWorkflowDelegationHint {
  wdh_node_id : string; wdh_role : string; wdh_worker_profile : string;
  wdh_recommended_subagent : string; wdh_model_tier : string; wdh_effort_tier : EffortTier;
  wdh_file_scopes : list FileScopeRecord; wdh_allowed_actions : list string;
  wdh_max_concurrency : Z; wdh_max_context_tokens_estimate : Z;
  wdh_wall_time_minutes_estimate : Z; wdh_retry_policy : WorkflowRetryPolicy;
  wdh_rationale : string }.
Record WorkflowEvidencePolicy := mkWorkflowEvidencePolicy {
  wep_required_evidence_kinds : list EvidenceKind; wep_validation_gates : list string;
  wep_stop_conditions : list string }.
Record WorkflowBudgets := mkWorkflowBudgets {
  wbg_max_workers : Z; wbg_max_retries_per_node : Z; wbg_max_context_tokens_estimate : Z }.
Record WorkflowAdapterPolicy := mkWorkflowAdapterPolicy {
  wap_orchestration_owner : string; wap_execution_owner : string; wap_max_delegate_depth : Z;
  wap_default_orchestrator_model_tier : string; wap_worker_model_tiers : list string;
  wap_degradation_rules : list string; wap_required_writebacks : list string }.
Record WorkflowExecutionPhase := mkWorkflowExecutionPhase {
  wxp_id : string; wxp_index : Z; wxp_mode : string; wxp_node_ids : list string;
  wxp_max_concurrency : nat; wxp_worker_profiles : list string; wxp_rationale : string }.
Record WorkflowExecutionPlan := mkWorkflowExecutionPlan {
  wxl_strategy : string; wxl_phases : list WorkflowExecutionPhase;
  wxl_blocked_node_ids : list string; wxl_rationale : string }.
Record ProjectRunStatusCounts := mkProjectRunStatusCounts {
  psc_suggested : nat; psc_claimed : nat; psc_active : nat; psc_interrupted : nat;
  psc_completed : nat; psc_failed : nat; psc_cancelled : nat; psc_released : nat }.
#[export] Instance eta_ProjectRunStatusCounts : Eta ProjectRunStatusCounts := fun r =>
  mkProjectRunStatusCounts (psc_suggested r) (psc_claimed r) (psc_active r) (psc_interrupted r)
    (psc_completed r) (psc_failed r) (psc_cancelled r) (psc_released r).
Record WorkflowMetrics := mkWorkflowMetrics {
  wmx_total_nodes : nat; wmx_total_edges : nat; wmx_runnable_count : nat;
  wmx_blocked_count : nat; wmx_delegation_hint_count : nat;
  wmx_parallel_safe_candidate_count : nat; wmx_estimated_context_tokens : Z;
  wmx_project_run_status_counts : ProjectRunStatusCounts }.
Record WorkflowView := mkWorkflowView {
  wv_schema_version : string; wv_scope_key : string; wv_source : WorkflowViewSource;
  wv_nodes : list WorkflowViewNode; wv_edges : list WorkflowViewEdge;
  wv_runnable : GraphRunnableResult; wv_adapter_policy : WorkflowAdapterPolicy;
  wv_execution_plan : WorkflowExecutionPlan; wv_delegation_hints : list WorkflowDelegationHint;
  wv_evidence_policy : WorkflowEvidencePolicy; wv_budgets : WorkflowBudgets;
  wv_metrics : WorkflowMetrics }.
Record WorkflowHandoff := mkWorkflowHandoff {
  who_title : string; who_summary : string; who_acceptance : list string;
  who_stop_conditions : list string }.
Record WorkflowWorkerBudget := mkWorkflowWorkerBudget {
  wwb_max_context_tokens_estimate : Z; wwb_max_output_bytes : Z;
  wwb_wall_time_minutes_estimate : Z; wwb_max_attempts : Z }.
Record WorkflowDispatch := mkWorkflowDispatch {
  wd_schema_version : string; wd_dispatch_id : string; wd_scope_key : string;
  wd_adapter_id : string; wd_required_capabilities : list string; wd_source : WorkflowViewSource;
  wd_node_id : string; wd_source_revision : Z; wd_project_run : ProjectRunRecord;
  wd_fencing_token : Z; wd_idempotency_key : string; wd_phase_id : string; wd_role : string;
  wd_worker_profile : string; wd_recommended_subagent : string; wd_complexity : string;
  wd_reasoning_class : string; wd_file_scopes : list FileScopeRecord;
  wd_allowed_actions : list string; wd_required_evidence_kinds : list EvidenceKind;
  wd_handoff : WorkflowHandoff; wd_budget : WorkflowWorkerBudget }.

(** ** Hints *)
Definition has_tag (node : PlanningGraphNode) (tag : string) : bool :=
  bool_decide (tag ∈ pn_tags node).

(** [.map(str::trim).filter(non-empty)] of a string entry. *)
Definition trimmed_str_at (key : string) (j : json) : option string :=
  trimmed_option (json_str_at key j).

Definition workflow_effort_tier_for_node (node : PlanningGraphNode) : EffortTier :=
  match json_str_at "effortTier" (pn_payload node) ≫= from_str with
  | Some value => value
  | None => if has_tag node "deep" then EffortTier.Deep
            else if has_tag node "fast" then EffortTier.Fast else EffortTier.Balanced
  end.

Definition workflow_model_tier_for_node (node : PlanningGraphNode) (role : string)
    (effort_tier : EffortTier) : string :=
  match trimmed_str_at "modelTier" (pn_payload node) with
  | Some value =>
      let value := to_ascii_lowercase value in
      if bool_decide (value = "xhigh")
         && negb (bool_decide ((json_get "allowXhighWorker" (pn_payload node) ≫= json_as_bool)
                               = Some true))
      then "high" else value
  | None =>
      if bool_decide (role = "reviewer") || bool_decide (effort_tier = EffortTier.Deep) then "high"
      else if bool_decide (role = "test-runner") || bool_decide (effort_tier = EffortTier.Balanced)
      then "medium" else "low"
  end.

Definition workflow_worker_profile (role : string) (effort_tier : EffortTier) : string :=
  if bool_decide (role = "reviewer") then "reviewer"
  else if bool_decide (role = "test-runner") then "test-runner"
  else if bool_decide (role = "implementation") then
    match effort_tier with
    | EffortTier.Fast => "implementation-light" | EffortTier.Deep => "implementation-heavy"
    | EffortTier.Balanced => "implementation" end
  else "implementation".

Definition workflow_recommended_subagent (worker_profile : string) : string :=
  if bool_decide (worker_profile = "reviewer") then "reviewer"
  else if bool_decide (worker_profile = "test-runner") then "test-runner"
  else if bool_decide (worker_profile = "implementation-light") then "impl-light"
  else if bool_decide (worker_profile = "implementation-heavy") then "impl-heavy" else "impl".

Definition workflow_allowed_actions (role : string) : list string :=
  if bool_decide (role = "reviewer") then ["read"; "review"; "validate"]
  else if bool_decide (role = "test-runner") then ["read"; "execute-validation"; "record-evidence"]
  else ["read"; "edit"; "execute-validation"; "record-evidence"].

Definition workflow_context_token_estimate (effort_tier : EffortTier) : Z :=
  match effort_tier with EffortTier.Fast => 6000 | EffortTier.Balanced => 12000
                       | EffortTier.Deep => 24000 end.
Definition workflow_wall_time_minutes_estimate (effort_tier : EffortTier) : Z :=
  match effort_tier with EffortTier.Fast => 15 | EffortTier.Balanced => 45
                       | EffortTier.Deep => 90 end.

(** One entry of [payload.fileScopes]. *)
Definition file_scope_of_value (scope : json) : option FileScopeRecord :=
  selector ← trimmed_str_at "selector" scope;
  Some (mkFileScopeRecord
    (default FileScopeSelectorType.Glob (json_str_at "selectorType" scope ≫= from_str)) selector
    (default FileScopeIntent.Primary (json_str_at "intent" scope ≫= from_str))).
Definition workflow_file_scopes_for_node (node : PlanningGraphNode) : list FileScopeRecord :=
  match json_get "fileScopes" (pn_payload node) ≫= json_as_array with
  | None => []
  | Some scopes => normalize_file_scopes (omap file_scope_of_value scopes)
  end.

Definition workflow_role (node : PlanningGraphNode) : string :=
  if has_tag node "review" || has_tag node "review-fix" then "reviewer"
  else if has_tag node "validation" || has_tag node "test" then "test-runner"
  else "implementation".

Definition workflow_delegation_hint_for_node (node : PlanningGraphNode) : WorkflowDelegationHint :=
  let role := workflow_role node in
  let effort_tier := workflow_effort_tier_for_node node in
  let worker_profile := workflow_worker_profile role effort_tier in
  {| wdh_node_id := pn_id node; wdh_role := role; wdh_worker_profile := worker_profile;
     wdh_recommended_subagent := workflow_recommended_subagent worker_profile;
     wdh_model_tier := workflow_model_tier_for_node node role effort_tier;
     wdh_effort_tier := effort_tier; wdh_file_scopes := workflow_file_scopes_for_node node;
     wdh_allowed_actions := workflow_allowed_actions role; wdh_max_concurrency := 1;
     wdh_max_context_tokens_estimate := workflow_context_token_estimate effort_tier;
     wdh_wall_time_minutes_estimate := workflow_wall_time_minutes_estimate effort_tier;
     wdh_retry_policy := mkWorkflowRetryPolicy 2
       ["transient validation failure"; "tool/runtime interruption"]
       "return to orchestrator for review or corrective work";
     wdh_rationale :=
       "derived from graph work node tags and conservative default policy" |}.

(** ** The planning entity a node stands for *)
Definition planning_ref (node : PlanningGraphNode) : option json :=
  json_get "planningRef" (pn_payload node) ≫= json_as_object.

Definition workflow_work_point_id_for_node (node : PlanningGraphNode) : option string :=
  match trimmed_str_at "workPointId" (pn_payload node) with
  | Some id => Some id
  | None =>
      reference ← planning_ref node;
      if bool_decide (json_str_at "entityType" reference = Some "work-point")
      then trimmed_str_at "entityId" reference else None
  end.

Definition workflow_node_has_planning_ref (node : PlanningGraphNode) : bool :=
  bool_decide (is_Some (planning_ref node ≫= json_str_at "entityType")).

Definition workflow_node_matches_source (node : PlanningGraphNode) (entity_type : EntityType)
    (entity_id : string) : bool :=
  match planning_ref node with
  | None => false
  | Some reference =>
      bool_decide (json_str_at "entityType" reference = Some (as_str entity_type))
      && bool_decide (json_str_at "entityId" reference = Some entity_id)
  end.

Definition workflow_nodes_for_source (nodes : list PlanningGraphNode) (entity_type : EntityType)
    (entity_id : string) : list PlanningGraphNode :=
  if existsb workflow_node_has_planning_ref nodes
  then List.filter (fun n => workflow_node_matches_source n entity_type entity_id) nodes
  else nodes.

Definition workflow_project_run_matches_source (run : ProjectRunRecord) (entity_type : EntityType)
    (entity_id : string) : bool :=
  match entity_type with
  | EntityType.Goal => bool_decide (pr_goal_id run = entity_id)
  | EntityType.Roadmap => bool_decide (pr_roadmap_id run = entity_id)
  | EntityType.WorkPoint => bool_decide (pr_work_point_id run = entity_id)
  | _ => true
  end.

Definition workflow_idempotency_key (entity_type : EntityType) (entity_id node_id : string)
    (node_revision : Z) (correlation_id : string) : string :=
  "workflow:" +:+ as_str entity_type +:+ ":" +:+ entity_id +:+ ":" +:+ node_id +:+ ":"
    +:+ pretty node_revision +:+ ":" +:+ correlation_id.

(** ** Parallel safety *)
Definition is_wildcard (c : ascii) : bool :=
  bool_decide (nat_of_ascii c ∈ [42; 63; 91]).   (* '*', '?', '[' *)
Fixpoint workflow_literal_prefix (selector : string) : string :=
  match selector with
  | EmptyString => EmptyString
  | String c s => if is_wildcard c then EmptyString else String c (workflow_literal_prefix s)
  end.

Definition file_scopes_overlap (left right : FileScopeRecord) : bool :=
  let left_selector := forward_slashes (fs_selector left) in
  let right_selector := forward_slashes (fs_selector right) in
  if bool_decide (fs_selector_type left = FileScopeSelectorType.Exact)
     && bool_decide (fs_selector_type right = FileScopeSelectorType.Exact)
  then bool_decide (left_selector = right_selector)
  else
    let left_prefix := workflow_literal_prefix left_selector in
    let right_prefix := workflow_literal_prefix right_selector in
    bool_decide (left_prefix = "") || bool_decide (right_prefix = "")
    || String.prefix right_prefix left_prefix || String.prefix left_prefix right_prefix.

Definition find_hint (hints : list WorkflowDelegationHint) (node_id : string)
    : option WorkflowDelegationHint :=
  List.find (fun h => bool_decide (wdh_node_id h = node_id)) hints.

(** The candidate with its hint, if the hint names files. *)
Definition scoped_candidate (hints : list WorkflowDelegationHint) (c : GraphRunnableCandidate)
    : option (string * WorkflowDelegationHint) :=
  hint ← find_hint hints (grc_node_id c);
  if bool_decide (wdh_file_scopes hint = []) then None else Some (grc_node_id c, hint).

Definition has_parallel_edge (edges : list PlanningGraphEdge) (left right : string) : bool :=
  existsb (fun e =>
    bool_decide (pe_kind e = PlanningEdgeKind.ParallelSafeWith)
    && bool_decide (pe_status e = "active")
    && (bool_decide (pe_source_node_id e = left) && bool_decide (pe_target_node_id e = right)
        || bool_decide (pe_source_node_id e = right) && bool_decide (pe_target_node_id e = left)))
    edges.

Definition pair_conflicts (edges : list PlanningGraphEdge)
    (left right : string * WorkflowDelegationHint) : bool :=
  negb (has_parallel_edge edges (fst left) (fst right))
  || existsb (fun l => existsb (file_scopes_overlap l) (wdh_file_scopes (snd right)))
       (wdh_file_scopes (snd left)).

(** The two nested loops: some candidate conflicts with a later one. *)
Fixpoint some_pair_conflicts (edges : list PlanningGraphEdge)
    (candidates : list (string * WorkflowDelegationHint)) : bool :=
  match candidates with
  | [] => false
  | one :: rest => existsb (pair_conflicts edges one) rest || some_pair_conflicts edges rest
  end.

Definition workflow_parallel_safe_candidate_count (runnable : GraphRunnableResult)
    (hints : list WorkflowDelegationHint) (edges : list PlanningGraphEdge) : nat :=
  let n := length (grr_candidates runnable) in
  if (n <? 2)%nat then n else
  let candidates := omap (scoped_candidate hints) (grr_candidates runnable) in
  if negb (bool_decide (length candidates = n)) then 0
  else if some_pair_conflicts edges candidates then 0 else length candidates.

(** ** The plan *)

Definition workflow_execution_plan (runnable : GraphRunnableResult)
    (hints : list WorkflowDelegationHint) (edges : list PlanningGraphEdge)
    : WorkflowExecutionPlan :=
  let node_ids := map grc_node_id (grr_candidates runnable) in
  let blocked_node_ids := map bgc_node_id (grr_blocked runnable) in
  if bool_decide (node_ids = []) then
    mkWorkflowExecutionPlan "blocked-or-empty" [] blocked_node_ids
      "no runnable graph work is currently available"
  else
    let max_concurrency :=
      Nat.min 3 (Nat.max 1 (workflow_parallel_safe_candidate_count runnable hints edges)) in
    let mode := if (1 <? max_concurrency)%nat then "bounded-parallel" else "sequential" in
    let worker_profiles := sorted_dedup (map wdh_worker_profile
          (List.filter (fun h => bool_decide (wdh_node_id h ∈ node_ids)) hints)) in
    mkWorkflowExecutionPlan "next-runnable-batch"
      [mkWorkflowExecutionPhase "phase-1" 1 mode node_ids max_concurrency worker_profiles
         ("phase contains currently runnable graph work; later phases require refreshed "
          +:+ "planning state")]
      blocked_node_ids
      ("derive one executable batch from current runnable graph state and require refresh "
       +:+ "after writeback").

(** The kinds of [payload.requiredEvidenceKinds] of the acceptance nodes,
    after the two every workflow requires, each once. *)
Definition workflow_required_evidence_kinds (nodes : list PlanningGraphNode)
    : list EvidenceKind :=
  let declared := fun node =>
    if bool_decide (pn_kind node = PlanningNodeKind.Acceptance) then
      match json_get "requiredEvidenceKinds" (pn_payload node) ≫= json_as_array with
      | Some required => omap (fun v => json_as_str v ≫= from_str) required
      | None => []
      end
    else [] in
  fold_left (fun kinds kind => if bool_decide (kind ∈ kinds) then kinds else kinds ++ [kind])
    (concat (map declared nodes)) [EvidenceKind.CommandResult; EvidenceKind.TestResult].

Definition count_run (counts : ProjectRunStatusCounts) (run : ProjectRunRecord)
    : ProjectRunStatusCounts :=
  match pr_status run with
  | ProjectRunStatus.Suggested => counts <| psc_suggested ::= S |>
  | ProjectRunStatus.Claimed => counts <| psc_claimed ::= S |>
  | ProjectRunStatus.Active => counts <| psc_active ::= S |>
  | ProjectRunStatus.Interrupted => counts <| psc_interrupted ::= S |>
  | ProjectRunStatus.Completed => counts <| psc_completed ::= S |>
  | ProjectRunStatus.Failed => counts <| psc_failed ::= S |>
  | ProjectRunStatus.Cancelled => counts <| psc_cancelled ::= S |>
  | ProjectRunStatus.Released => counts <| psc_released ::= S |>
  end.
Definition project_run_status_counts (runs : list ProjectRunRecord) : ProjectRunStatusCounts :=
  fold_left count_run runs (mkProjectRunStatusCounts 0 0 0 0 0 0 0 0).

(** ** Dispatches *)
Definition workflow_required_capabilities (node : PlanningGraphNode)
    (hint : WorkflowDelegationHint) (requested_capabilities : list string) : list string :=
  let declared := match json_get "requiredCapabilities" (pn_payload node) ≫= json_as_array with
                  | Some l => omap json_as_str l | None => [] end in
  let capabilities :=
    map to_ascii_lowercase
      (List.filter (fun v => negb (bool_decide (v = ""))) (map trim (requested_capabilities ++ declared))) in
  let capabilities :=
    capabilities ++ (if bool_decide (wdh_role hint = "test-runner") then ["validation"] else []) in
  sorted_dedup (capabilities ++ List.filter (has_tag node) ["browser"; "container"; "e2e"]).

Record WorkflowDispatchInput := mkWorkflowDispatchInput {
  wdi_scope_key : string; wdi_source : WorkflowViewSource; wdi_phase_id : string;
  wdi_node : PlanningGraphNode; wdi_hint : WorkflowDelegationHint; wdi_adapter_id : string;
  wdi_requested_capabilities : list string; wdi_project_run : ProjectRunRecord;
  wdi_evidence_policy : WorkflowEvidencePolicy }.

Definition workflow_dispatch_from_parts (input : WorkflowDispatchInput) : WorkflowDispatch :=
  let node := wdi_node input in
  let hint := wdi_hint input in
  let project_run := wdi_project_run input in
  let kinds := wep_required_evidence_kinds (wdi_evidence_policy input) in
  {| wd_schema_version := "orchestrator-dispatch/v1";
     wd_dispatch_id := "dispatch-" +:+ pr_id project_run; wd_scope_key := wdi_scope_key input;
     wd_adapter_id := wdi_adapter_id input;
     wd_required_capabilities :=
       workflow_required_capabilities node hint (wdi_requested_capabilities input);
     wd_source := wdi_source input; wd_node_id := pn_id node;
     wd_source_revision := pn_revision node; wd_project_run := project_run;
     wd_fencing_token := pr_fencing_token project_run;
     wd_idempotency_key := default "" (pr_idempotency_key project_run);
     wd_phase_id := wdi_phase_id input; wd_role := wdh_role hint;
     wd_worker_profile := wdh_worker_profile hint;
     wd_recommended_subagent := wdh_recommended_subagent hint;
     wd_complexity := match wdh_effort_tier hint with
       | EffortTier.Fast => "light" | EffortTier.Balanced => "standard"
       | EffortTier.Deep => "heavy" end;
     wd_reasoning_class := match wdh_effort_tier hint with
       | EffortTier.Fast => "low" | EffortTier.Balanced => "medium" | EffortTier.Deep => "high" end;
     wd_file_scopes := wdh_file_scopes hint; wd_allowed_actions := wdh_allowed_actions hint;
     wd_required_evidence_kinds := kinds;
     wd_handoff := mkWorkflowHandoff (pn_title node) (pn_summary node) (map as_str kinds)
       ["planning source or file scope becomes stale"; "required validation cannot run";
        "new work exceeds the dispatch scope"];
     wd_budget := mkWorkflowWorkerBudget (Z.min (wdh_max_context_tokens_estimate hint) 12000)
       (32 * 1024) (wdh_wall_time_minutes_estimate hint)
       (wrp_max_attempts (wdh_retry_policy hint)) |}.

(** ** Outcomes of a worker *)
Definition workflow_result_graph_status (status : WorkflowResultStatus) : string :=
  match status with
  | WorkflowResultStatus.Completed => "completed"
  | WorkflowResultStatus.Failed | WorkflowResultStatus.TimedOut
  | WorkflowResultStatus.Malformed => "blocked"
  | WorkflowResultStatus.Cancelled => "cancelled"
  end.
Definition workflow_result_project_run_status (status : WorkflowResultStatus)
    : ProjectRunStatus :=
  match status with
  | WorkflowResultStatus.Completed => ProjectRunStatus.Completed
  | WorkflowResultStatus.Cancelled => ProjectRunStatus.Cancelled
  | WorkflowResultStatus.Failed | WorkflowResultStatus.TimedOut
  | WorkflowResultStatus.Malformed => ProjectRunStatus.Failed
  end.
