(* ===== verification/WorkflowPlanFacts.v ===== *)
(** What an execution plan promises: a phase that runs several workers at
    once gives them disjoint files. *)
From Stdlib Require Import Ascii.
From S2P Require Import Prelude Text Substring Json Model Entities WorkflowPlan.

(** ** Prefixes *)
Lemma prefix_comparable x y p :
  String.prefix x p = true -> String.prefix y p = true ->
  String.prefix x y = true \/ String.prefix y x = true.
Proof.
  revert y p. induction x as [|a x IH]; intros [|b y] [|c p]; simpl; auto; try done.
  destruct (ascii_dec a c) as [->|]; [|done]. destruct (ascii_dec b c) as [->|]; [|done].
  intros Hx Hy. destruct (ascii_dec c c) as [_|]; [|done]. by apply (IH y p).
Qed.

(** ** Scopes that do not overlap *)

(** What a file scope may match, as far as the plan relies on it: an exact
    selector only its own path, and any selector only paths that start with
    its text before the first of the characters [*], [?] and [\[]. *)
Class ScopeMatcher (matches : FileScopeRecord -> string -> Prop) := {
  matches_exact : forall s p, fs_selector_type s = FileScopeSelectorType.Exact -> matches s p ->
    p = forward_slashes (fs_selector s);
  matches_prefix : forall s p, matches s p ->
    String.prefix (workflow_literal_prefix (forward_slashes (fs_selector s))) p = true }.

Section Scopes.
Context (matches : FileScopeRecord -> string -> Prop) `{!ScopeMatcher matches}.

Definition disjoint_scopes (l l' : list FileScopeRecord) : Prop :=
  forall s s' p, s ∈ l -> s' ∈ l' -> matches s p -> matches s' p -> False.

Lemma no_overlap_disjoint s s' p :
  file_scopes_overlap s s' = false -> matches s p -> matches s' p -> False.
Proof.
  unfold file_scopes_overlap. intros Ho Hm Hm'. case_bool_decide as Ht; simpl in Ho.
  - case_bool_decide as Ht'; simpl in Ho.
    + apply bool_decide_eq_false in Ho. apply Ho.
      by rewrite <- (matches_exact _ _ Ht Hm), <- (matches_exact _ _ Ht' Hm').
    + apply orb_false_elim in Ho as [Ho Hp']. apply orb_false_elim in Ho as [_ Hp].
      destruct (prefix_comparable _ _ _ (matches_prefix _ _ Hm) (matches_prefix _ _ Hm')); congruence.
  - apply orb_false_elim in Ho as [Ho Hp']. apply orb_false_elim in Ho as [_ Hp].
    destruct (prefix_comparable _ _ _ (matches_prefix _ _ Hm) (matches_prefix _ _ Hm')); congruence.
Qed.

(** ** Pairs of candidates *)
Definition parallel_edge (edges : list PlanningGraphEdge) (a b : string) : Prop :=
  exists e, e ∈ edges /\ pe_kind e = PlanningEdgeKind.ParallelSafeWith /\ pe_status e = "active" /\
    (pe_source_node_id e = a /\ pe_target_node_id e = b \/
     pe_source_node_id e = b /\ pe_target_node_id e = a).

Lemma has_parallel_edge_spec edges a b :
  has_parallel_edge edges a b = true <-> parallel_edge edges a b.
Proof.
  unfold has_parallel_edge, parallel_edge. rewrite existsb_exists.
  setoid_rewrite <- list_elem_of_In. repeat setoid_rewrite andb_true_iff.
  setoid_rewrite orb_true_iff. repeat setoid_rewrite andb_true_iff.
  repeat setoid_rewrite bool_decide_eq_true. naive_solver.
Qed.
Lemma parallel_edge_sym edges a b : parallel_edge edges a b -> parallel_edge edges b a.
Proof. unfold parallel_edge. naive_solver. Qed.

Lemma no_conflict_disjoint edges one two :
  pair_conflicts edges one two = false ->
  parallel_edge edges (fst one) (fst two) /\
  disjoint_scopes (wdh_file_scopes (snd one)) (wdh_file_scopes (snd two)).
Proof.
  unfold pair_conflicts. intros [Hp Ho]%orb_false_elim. apply negb_false_iff in Hp.
  split; [by apply has_parallel_edge_spec|]. intros s s' p Hs Hs' Hm Hm'.
  eapply (no_overlap_disjoint s s'); [|done..].
  rewrite existsb_false_iff in Ho. specialize (Ho s Hs).
  rewrite existsb_false_iff in Ho. by apply Ho.
Qed.

Lemma no_conflicts_pairs edges l i j one two :
  some_pair_conflicts edges l = false -> (i < j)%nat -> l !! i = Some one -> l !! j = Some two ->
  pair_conflicts edges one two = false.
Proof.
  revert i j. induction l as [|x l IH]; intros i j; [done|]. simpl. intros [Hx Hl]%orb_false_elim.
  destruct i as [|i], j as [|j]; intros Hlt Hi Hj; simpl in *; try lia.
  - injection Hi as <-. rewrite existsb_false_iff in Hx. apply Hx. by eapply list_elem_of_lookup_2.
  - apply (IH i j); [done|lia|done..].
Qed.


(** ** The plan *)
Lemma parallel_candidates runnable hints edges i j a b :
  (1 < workflow_parallel_safe_candidate_count runnable hints edges)%nat -> i <> j ->
  map grc_node_id (grr_candidates runnable) !! i = Some a ->
  map grc_node_id (grr_candidates runnable) !! j = Some b ->
  parallel_edge edges a b /\
  exists h h', find_hint hints a = Some h /\ find_hint hints b = Some h' /\
    wdh_file_scopes h <> [] /\ wdh_file_scopes h' <> [] /\
    disjoint_scopes (wdh_file_scopes h) (wdh_file_scopes h').
Proof.
  unfold workflow_parallel_safe_candidate_count. set (cs := grr_candidates runnable).
  destruct (length cs <? 2)%nat eqn:E2; [apply Nat.ltb_lt in E2; intros ?; lia|].
  case_bool_decide as Hlen; [simpl|simpl; lia].
  destruct (some_pair_conflicts _ _) eqn:Hno; [lia|]. intros _ Hij.
  change (map grc_node_id cs) with (grc_node_id <$> cs).
  rewrite !list_lookup_fmap. intros Ha Hb.
  destruct (cs !! i) as [c|] eqn:Ec; [|done]. destruct (cs !! j) as [c'|] eqn:Ec'; [|done].
  simpl in Ha, Hb. injection Ha as <-. injection Hb as <-.
  destruct (omap_full _ _ _ _ Hlen Ec) as (one & E1 & Hi).
  destruct (omap_full _ _ _ _ Hlen Ec') as (two & E1' & Hj).
  assert (forall c p, scoped_candidate hints c = Some p ->
            fst p = grc_node_id c /\ find_hint hints (grc_node_id c) = Some (snd p) /\
            wdh_file_scopes (snd p) <> []) as Hsc.
  { intros x p. unfold scoped_candidate. destruct (find_hint hints _) as [h|] eqn:Eh; simpl; [|done].
    case_bool_decide; [done|]. by intros [= <-]. }
  destruct (Hsc _ _ E1) as (<- & Hh & Hne), (Hsc _ _ E1') as (<- & Hh' & Hne').
  destruct (decide (i < j)%nat) as [Hlt|Hge].
  - pose proof (no_conflicts_pairs _ _ _ _ _ _ Hno Hlt Hi Hj) as Hp.
    apply no_conflict_disjoint in Hp as [He Hd]. split; [done|].
    by exists (snd one), (snd two).
  - pose proof (no_conflicts_pairs _ _ _ _ _ _ Hno (ltac:(lia) : (j < i)%nat) Hj Hi) as Hp.
    apply no_conflict_disjoint in Hp as [He Hd]. split; [by apply parallel_edge_sym|].
    exists (snd one), (snd two). split_and!; [done..|]. intros s s' p Hs Hs' Hm Hm'. by eapply Hd.
Qed.

(** C18. Workers that run at once have disjoint files: when a phase of an
    execution plan allows more than one of its nodes at a time, it allows at
    most three, and every two of them are joined by an active
    [parallel-safe-with] edge and have files of their own: no path is matched
    by a file scope of both. *)
Theorem parallel_workers_are_disjoint runnable hints edges phase :
  phase ∈ wxl_phases (workflow_execution_plan runnable hints edges) ->
  (1 <= wxp_max_concurrency phase <= 3)%nat /\
  (wxp_max_concurrency phase <= length (wxp_node_ids phase))%nat /\
  ((1 < wxp_max_concurrency phase)%nat ->
   forall i j a b, i <> j -> wxp_node_ids phase !! i = Some a -> wxp_node_ids phase !! j = Some b ->
     parallel_edge edges a b /\
     exists h h', find_hint hints a = Some h /\ find_hint hints b = Some h' /\
       wdh_file_scopes h <> [] /\ wdh_file_scopes h' <> [] /\
       disjoint_scopes (wdh_file_scopes h) (wdh_file_scopes h')).
Proof.
  unfold workflow_execution_plan. case_bool_decide as Hne; cbn [wxl_phases];
    [by intros ?%not_elem_of_nil|].
  intros ->%list_elem_of_singleton. cbn [wxp_max_concurrency wxp_node_ids].
  set (n := workflow_parallel_safe_candidate_count runnable hints edges).
  assert (n <= length (grr_candidates runnable))%nat as Hn.
  { unfold n, workflow_parallel_safe_candidate_count. destruct (_ <? 2)%nat; [done|].
    case_bool_decide as Hlen; simpl; [|lia]. destruct (some_pair_conflicts _ _); [lia|]. by rewrite Hlen. }
  assert (0 < length (grr_candidates runnable))%nat by (destruct (grr_candidates runnable); [done|simpl; lia]).
  rewrite length_map. split; [lia|]. split; [lia|].
  intros Hgt i j a b Hij Ha Hb. apply (parallel_candidates runnable hints edges i j); [|done..].
  fold n. lia.
Qed.
End Scopes.
