(* ===== verification/Workflow.v ===== *)
(** Workflow transactions ([plugins/planning/src/storage.rs]): the view of a
    source, [prepare_workflow], which leases its runnable work to workers,
    and [record_workflow_result], which writes a worker's result back.

    [prepare_workflow] reads the view outside of its transaction;
    [prepare_in_transaction] is the transaction, for any view, so what is
    proved about it holds whatever happened since the view was read. *)
From stdpp Require Import pretty.
From S2P Require Import Prelude Text Substring Json Model Tx Table Store Validation ProjectRuns Graph WorkflowPlan.

(** ** Inputs and results *)
Record PrepareWorkflowInput := mkPrepareWorkflowInput {
  pw_scope_key : string; pw_entity_type : EntityType; pw_entity_id : string;
  pw_correlation_id : string; pw_adapter_id : string; pw_capabilities : list string;
  pw_owner_id : option string; pw_session_id : option string; pw_repo_id : option string;
  pw_branch : option string; pw_worktree_id : option string; pw_run_id : option string;
  pw_max_workers : nat; pw_lease_seconds : Z }.
Record WorkflowWorkerResult := mkWorkflowWorkerResult {
  wwr_schema_version : string; wwr_dispatch_id : string; wwr_project_run_id : string;
  wwr_node_id : string; wwr_source_revision : Z; wwr_fencing_token : Z;
  wwr_idempotency_key : string; wwr_status : WorkflowResultStatus; wwr_summary : string;
  wwr_reference : option string; wwr_content : option string; wwr_evidence_kind : EvidenceKind;
  wwr_captured_at : option string; wwr_status_update : option string }.
Record RecordWorkflowResultInput := mkRecordWorkflowResultInput {
  rwi_result : WorkflowWorkerResult; rwi_active_scope_key : option string;
  rwi_correlation_id : string; rwi_run_id : option string }.
Record WorkflowPrepareSkip := mkWorkflowPrepareSkip { wsk_node_id : string; wsk_reason : string }.
Record WorkflowPrepareResult := mkWorkflowPrepareResult {
  wpr_schema_version : string; wpr_source : WorkflowViewSource; wpr_strategy : string;
  wpr_max_workers : nat; wpr_dispatches : list WorkflowDispatch;
  wpr_skipped : list WorkflowPrepareSkip; wpr_blocked_node_ids : list string }.
Record WorkflowResultWriteback := mkWorkflowResultWriteback {
  wrw_project_run : ProjectRunRecord; wrw_evidence : option PlanningGraphNode;
  wrw_attachment : option PlanningGraphEdge; wrw_status_update : option PlanningGraphNode;
  wrw_replayed : bool }.

(** What the loop of [prepare_workflow] has so far. *)
Record Prepared := mkPrepared {
  pp_prepared : list (PlanningGraphNode * WorkflowDelegationHint * ProjectRunRecord);
  pp_skipped : list WorkflowPrepareSkip }.
#[export] Instance eta_Prepared : Eta Prepared := fun r =>
  mkPrepared (pp_prepared r) (pp_skipped r).

Section Workflow.
Context `{External}.

(** ** The view *)
Definition load_all_graph_nodes (scope_key : string) : M (list PlanningGraphNode) :=
  t ← rows db_nodes;
  mret (order_by (asc_str pn_id)
    (select_where (fun n => bool_decide (pn_scope_key n = normalize_scope_key_value scope_key)) t)).
Definition load_all_graph_edges (scope_key : string) : M (list PlanningGraphEdge) :=
  t ← rows db_edges;
  mret (order_by (asc_str pe_id)
    (select_where (fun e => bool_decide (pe_scope_key e = normalize_scope_key_value scope_key)) t)).
Definition list_project_runs_in_scope (scope_key : string) : M (list ProjectRunRecord) :=
  t ← rows db_project_runs;
  mret (order_by (then_by (desc_str pr_updated_at) (asc_str pr_id))
    (select_where (fun r => bool_decide (pr_scope_key r = normalize_scope_key_value scope_key)) t)).

Definition adapter_policy : WorkflowAdapterPolicy :=
  {| wap_orchestration_owner := "host-main-thread"; wap_execution_owner := "host-adapter";
     wap_max_delegate_depth := 1; wap_default_orchestrator_model_tier := "xhigh";
     wap_worker_model_tiers := ["low"; "medium"; "high"];
     wap_degradation_rules :=
       ["use fewer workers before dropping evidence requirements";
        "prefer read-only exploration when file scopes are unknown";
        "record host capability gaps as evidence"];
     wap_required_writebacks :=
       ["project-run claim/activate/release"; "project-run evidence for worker outputs";
        "graph evidence or discovery records for durable findings"] |}.

Definition workflow_view_in_scope (scope_key : string) (entity_type : EntityType)
    (entity_id : string) : M WorkflowView :=
  let normalized := normalize_scope_key_value scope_key in
  _ ← ensure_entity_in_scope entity_type entity_id normalized;
  all_nodes ← load_all_graph_nodes normalized;
  let nodes := workflow_nodes_for_source all_nodes entity_type entity_id in
  let node_ids := map pn_id nodes in
  let known id := bool_decide (id ∈ node_ids) in
  all_edges ← load_all_graph_edges normalized;
  let edges := List.filter (fun e => known (pe_source_node_id e) && known (pe_target_node_id e))
                 all_edges in
  all_runnable ← find_runnable_graph_work normalized;
  let runnable := mkGraphRunnableResult
    (List.filter (fun c => known (grc_node_id c)) (grr_candidates all_runnable))
    (List.filter (fun c => known (bgc_node_id c)) (grr_blocked all_runnable)) in
  all_runs ← list_project_runs_in_scope normalized;
  let project_runs := List.filter (fun r =>
        workflow_project_run_matches_source r entity_type entity_id) all_runs in
  let hints := map workflow_delegation_hint_for_node
    (List.filter (fun n => bool_decide (pn_kind n = PlanningNodeKind.Work)) nodes) in
  mret
    {| wv_schema_version := "workflow-view/v1"; wv_scope_key := normalized;
       wv_source := mkWorkflowViewSource entity_type entity_id;
       wv_nodes := map (fun n => mkWorkflowViewNode (pn_id n) (pn_kind n) (pn_title n)
                                   (pn_status n) (pn_tags n)) nodes;
       wv_edges := map (fun e => mkWorkflowViewEdge (pe_id e) (pe_kind e) (pe_source_node_id e)
                                   (pe_target_node_id e) (pe_status e)) edges;
       wv_runnable := runnable; wv_adapter_policy := adapter_policy;
       wv_execution_plan := workflow_execution_plan runnable hints edges;
       wv_delegation_hints := hints;
       wv_evidence_policy :=
         mkWorkflowEvidencePolicy (workflow_required_evidence_kinds nodes)
           ["record worker claims as evidence"; "run narrowest relevant validation before completion";
            "record failed, cancelled, and refuted work as evidence"]
           ["missing source entity"; "cross-scope dependency"; "active lease conflict";
            "validation gate failed"];
       wv_budgets := mkWorkflowBudgets 3 1 24000;
       wv_metrics :=
         {| wmx_total_nodes := length nodes; wmx_total_edges := length edges;
            wmx_runnable_count := length (grr_candidates runnable);
            wmx_blocked_count := length (grr_blocked runnable);
            wmx_delegation_hint_count := length hints;
            wmx_parallel_safe_candidate_count :=
              workflow_parallel_safe_candidate_count runnable hints edges;
            wmx_estimated_context_tokens :=
              fold_right Z.add 0%Z (map wdh_max_context_tokens_estimate hints);
            wmx_project_run_status_counts := project_run_status_counts project_runs |} |}.

(** ** Preparing *)
Definition skip_node (node_id reason : string) (acc : Prepared) : M Prepared :=
  mret (acc <| pp_skipped ::= fun l => l ++ [mkWorkflowPrepareSkip node_id reason] |>).
Definition prepare_node (node : PlanningGraphNode) (hint : WorkflowDelegationHint)
    (run : ProjectRunRecord) (acc : Prepared) : M Prepared :=
  mret (acc <| pp_prepared ::= fun l => l ++ [(node, hint, run)] |>).

(** [UPDATE project_runs SET status = 'active' .. WHERE id AND fencing_token],
    the row again, and its event. *)
Definition activate_run (run : ProjectRunRecord) (now correlation_id : string)
    (run_id : option string) : M ProjectRunRecord :=
  _ ← update_db (fun d => d <| db_project_runs ::=
        update_where (fun r => bool_decide (pr_id r = pr_id run)
                               && bool_decide (pr_fencing_token r = pr_fencing_token run))
          (fun r => r <| pr_status := ProjectRunStatus.Active |> <| pr_revision ::= Z.succ |>
                      <| pr_updated_at := now |>) |>);
  record ← load_project_run (pr_id run);
  _ ← run_event record correlation_id run_id "project-run.activated" (ProjectRunRecord_to_value record);
  mret record.

Definition prepared_record (input : PrepareWorkflowInput) (scope_key owner_id now id : string)
    (goal_id roadmap_id work_point_id worker_profile idempotency_key : string)
    (fencing_token : Z) (lease_expires_at : string) : ProjectRunRecord :=
  {| pr_id := id; pr_scope_key := scope_key; pr_goal_id := goal_id; pr_roadmap_id := roadmap_id;
     pr_work_point_id := work_point_id; pr_repo_id := pw_repo_id input;
     pr_branch := pw_branch input; pr_worktree_id := pw_worktree_id input;
     pr_session_id := pw_session_id input; pr_run_id := pw_run_id input;
     pr_profile_id := Some worker_profile; pr_owner_id := owner_id;
     pr_idempotency_key := Some idempotency_key; pr_fencing_token := fencing_token;
     pr_lease_expires_at := lease_expires_at; pr_heartbeat_at := now;
     pr_status := ProjectRunStatus.Claimed; pr_evidence := ProjectRunEvidence_default;
     pr_revision := 1; pr_claimed_at := Some now; pr_completed_at := None;
     pr_created_at := now; pr_updated_at := now |}.

(** The node's run under the idempotency key, found taken. *)
Definition resume_run (input : PrepareWorkflowInput) (now : string) (node : PlanningGraphNode)
    (hint : WorkflowDelegationHint) (work_point : WorkPointRecord) (roadmap : RoadmapRecord)
    (idempotency_key existing_id : string) (acc : Prepared) : M Prepared :=
  existing ← load_project_run existing_id;
  _ ← guard_or (bool_decide (pr_work_point_id existing = wp_id work_point)
                && bool_decide (pr_roadmap_id existing = rm_id roadmap)
                && bool_decide (pr_goal_id existing = rm_goal_id roadmap))
        (coded_error
          [("code", JStr "WORKFLOW-IDEMPOTENCY-CONFLICT");
           ("message", JStr "workflow idempotency key resolves to a different planning target");
           ("idempotencyKey", JStr idempotency_key); ("projectRunId", JStr (pr_id existing))]);
  if run_is_terminal (pr_status existing) then
    skip_node (pn_id node) ("project run `" +:+ pr_id existing +:+ "` is already terminal") acc
  else
    lease ← handle (require_current_lease existing (Some (pr_fencing_token existing)) now);
    match lease with
    | inl _ =>
        skip_node (pn_id node) ("project run `" +:+ pr_id existing +:+ "` lease is expired") acc
    | inr _ =>
        record ← (if bool_decide (pr_status existing = ProjectRunStatus.Claimed)
                  then activate_run existing now (pw_correlation_id input) (pw_run_id input)
                  else mret existing);
        prepare_node node hint record acc
    end.

(** A new run for the node: claimed and activated at once. *)
Definition lease_run (input : PrepareWorkflowInput) (scope_key owner_id now : string)
    (lease_seconds : Z) (node : PlanningGraphNode) (hint : WorkflowDelegationHint)
    (work_point : WorkPointRecord) (roadmap : RoadmapRecord) (idempotency_key : string)
    (acc : Prepared) : M Prepared :=
  runs ← rows db_project_runs;
  if (0 <? length (select_where (lease_held (wp_id work_point) now) runs))%nat then
    skip_node (pn_id node)
      ("work point `" +:+ wp_id work_point +:+ "` already has an active lease") acc
  else
    id ← new_id;
    fencing_token ← next_fencing_token (wp_id work_point);
    lease_expires_at ← lease_deadline now lease_seconds;
    let record := prepared_record input scope_key owner_id now id (rm_goal_id roadmap)
          (rm_id roadmap) (wp_id work_point) (wdh_worker_profile hint) idempotency_key
          fencing_token lease_expires_at in
    _ ← insert_project_run record;
    _ ← run_event record (pw_correlation_id input) (pw_run_id input) "project-run.claimed"
          (ProjectRunRecord_to_value record);
    active_record ← activate_run record now (pw_correlation_id input) (pw_run_id input);
    _ ← validate_and_store EntityType.ProjectRun (pr_id active_record);
    _ ← refresh_validation_target EntityType.WorkPoint (pr_work_point_id active_record);
    prepare_node node hint active_record acc.

(** The run of a work point that is still to do. *)
Definition prepare_work_point (input : PrepareWorkflowInput) (scope_key owner_id now : string)
    (lease_seconds : Z) (node : PlanningGraphNode) (hint : WorkflowDelegationHint)
    (work_point : WorkPointRecord) (acc : Prepared) : M Prepared :=
  _ ← ensure_referenced_entity_in_scope EntityType.WorkPoint (wp_id work_point) "workPointId"
        scope_key;
  roadmap ← load_roadmap (wp_roadmap_id work_point);
  _ ← ensure_referenced_entity_in_scope EntityType.Roadmap (rm_id roadmap) "roadmapId" scope_key;
  _ ← ensure_referenced_entity_in_scope EntityType.Goal (rm_goal_id roadmap) "goalId" scope_key;
  let idempotency_key := workflow_idempotency_key (pw_entity_type input) (pw_entity_id input)
        (pn_id node) (pn_revision node) (pw_correlation_id input) in
  runs ← rows db_project_runs;
  match claim_with_key scope_key idempotency_key runs with
  | Some row => resume_run input now node hint work_point roadmap idempotency_key (pr_id row) acc
  | None => lease_run input scope_key owner_id now lease_seconds node hint work_point roadmap
              idempotency_key acc
  end.

Definition runnable_node (status : string) : bool :=
  bool_decide (status ∈ ["draft"; "proposed"; "active"]).

(** One candidate of the first phase; when enough is prepared the loop is over. *)
Definition prepare_candidate (input : PrepareWorkflowInput) (view : WorkflowView)
    (scope_key owner_id now : string) (lease_seconds : Z) (max_workers : nat) (acc : Prepared)
    (node_id : string) : M Prepared :=
  if (max_workers <=? length (pp_prepared acc))%nat then mret acc else
  node ← load_or_missing (load_graph_node node_id);
  match node with
  | None => skip_node node_id "graph node disappeared while preparing workflow" acc
  | Some node =>
    if negb (runnable_node (pn_status node)) then
      skip_node (pn_id node) "graph node is no longer runnable" acc
    else match find_hint (wv_delegation_hints view) (pn_id node) with
    | None => skip_node (pn_id node) "runnable node has no delegation policy" acc
    | Some hint =>
      match workflow_work_point_id_for_node node with
      | None => skip_node (pn_id node) "graph work node is missing payload.workPointId" acc
      | Some work_point_id =>
        work_point ← load_or_missing (load_work_point work_point_id);
        match work_point with
        | None => skip_node (pn_id node)
                    ("work point `" +:+ work_point_id +:+ "` was not found") acc
        | Some work_point =>
          if work_point_terminal (wp_status work_point) then
            skip_node (pn_id node) "work point is terminal" acc
          else prepare_work_point input scope_key owner_id now lease_seconds node hint
                 work_point acc
        end
      end
    end
  end.

Definition workflow_owner (input : PrepareWorkflowInput) : string :=
  match pw_owner_id input with
  | Some o => o
  | None => match pw_session_id input with
            | Some s => s
            | None => default (pw_correlation_id input) (pw_run_id input) end
  end.

(** The first phase: its id, its mode and its nodes. *)
Definition first_phase (plan : WorkflowExecutionPlan) : string * string * list string :=
  match wxl_phases plan with
  | phase :: _ => (wxp_id phase, wxp_mode phase, wxp_node_ids phase)
  | [] => ("phase-1", "sequential", [])
  end.
Definition effective_max_workers (input : PrepareWorkflowInput) (view : WorkflowView) : nat :=
  if bool_decide (snd (fst (first_phase (wv_execution_plan view))) = "bounded-parallel")
  then pw_max_workers input else 1.

Definition prepare_in_transaction (input : PrepareWorkflowInput) (view : WorkflowView)
    (lease_seconds : Z) : M WorkflowPrepareResult :=
  let scope_key := normalize_scope_key_value (pw_scope_key input) in
  let '(phase_id, _, candidate_ids) := first_phase (wv_execution_plan view) in
  let max_workers := effective_max_workers input view in
  now ← now_string;
  acc ← for_acc candidate_ids
          (prepare_candidate input view scope_key (workflow_owner input) now lease_seconds max_workers)
          (mkPrepared [] []);
  mret
    {| wpr_schema_version := "workflow-prepare/v1"; wpr_source := wv_source view;
       wpr_strategy := wxl_strategy (wv_execution_plan view); wpr_max_workers := max_workers;
       wpr_dispatches := map (fun '(node, hint, project_run) =>
         workflow_dispatch_from_parts
           (mkWorkflowDispatchInput scope_key (wv_source view) phase_id node hint
              (pw_adapter_id input) (pw_capabilities input) project_run (wv_evidence_policy view)))
         (pp_prepared acc);
       wpr_skipped := pp_skipped acc;
       wpr_blocked_node_ids := wxl_blocked_node_ids (wv_execution_plan view) |}.

Definition prepare_workflow (input : PrepareWorkflowInput) : M WorkflowPrepareResult :=
  _ ← require_non_empty "entityId" (pw_entity_id input);
  _ ← require_non_empty "correlationId" (pw_correlation_id input);
  _ ← require_non_empty "adapterId" (pw_adapter_id input);
  _ ← guard_or ((1 <=? pw_max_workers input)%nat && (pw_max_workers input <=? 3)%nat)
        (InvalidInput "maxWorkers must be between 1 and 3");
  lease_seconds ← normalize_lease_seconds (Some (pw_lease_seconds input));
  view ← workflow_view_in_scope (normalize_scope_key_value (pw_scope_key input))
           (pw_entity_type input) (pw_entity_id input);
  prepare_in_transaction input view lease_seconds.

(** ** Recording *)
Definition workflow_evidence (scope_key id now : string) (node : PlanningGraphNode)
    (result : WorkflowWorkerResult) : PlanningGraphNode :=
  {| pn_id := id; pn_scope_key := scope_key; pn_kind := PlanningNodeKind.Evidence;
     pn_title := "Workflow result for " +:+ pn_id node; pn_summary := wwr_summary result;
     pn_status := "active";
     pn_payload := json_object
       [("evidenceKind", JStr (as_str (wwr_evidence_kind result)));
        ("summary", JStr (wwr_summary result));
        ("reference", JStr (default (wwr_dispatch_id result) (wwr_reference result)));
        ("content", json_opt (wwr_content result));
        ("capturedAt", JStr (default now (wwr_captured_at result)));
        ("workflow", json_object
          [("dispatchId", JStr (wwr_dispatch_id result));
           ("projectRunId", JStr (wwr_project_run_id result));
           ("status", JStr (as_str (wwr_status result)));
           ("sourceRevision", JInt (wwr_source_revision result))])];
     pn_tags := ["workflow-result"; "workflow-status:" +:+ as_str (wwr_status result)];
     pn_revision := 1; pn_created_at := now; pn_updated_at := now |}.

Definition insert_workflow_result_evidence (scope_key : string) (node : PlanningGraphNode)
    (result : WorkflowWorkerResult) (correlation_id : string) (run_id : option string)
    (now : string) : M PlanningGraphNode :=
  id ← new_id;
  let record := workflow_evidence scope_key id now node result in
  _ ← insert_graph_node record;
  _ ← record_event EntityType.GraphNode id EntityType.GraphNode (pn_id node) correlation_id run_id
        "graph-node.created" (PlanningGraphNode_to_value record);
  _ ← rebuild_tag_index_for_entity EntityType.GraphNode id (pn_tags record);
  mret record.

Definition workflow_attachment (id now : string) (node evidence : PlanningGraphNode)
    (result : WorkflowWorkerResult) : PlanningGraphEdge :=
  {| pe_id := id; pe_scope_key := pn_scope_key node; pe_kind := PlanningEdgeKind.EvidencedBy;
     pe_source_node_id := pn_id node; pe_target_node_id := pn_id evidence; pe_status := "active";
     pe_payload := json_object [("rationale", JStr "native workflow worker result");
                                ("dispatchId", JStr (wwr_dispatch_id result))];
     pe_revision := 1; pe_created_at := now; pe_updated_at := now |}.

Definition insert_workflow_result_attachment (node evidence : PlanningGraphNode)
    (result : WorkflowWorkerResult) (correlation_id : string) (run_id : option string)
    (now : string) : M PlanningGraphEdge :=
  id ← new_id;
  let record := workflow_attachment id now node evidence result in
  _ ← insert_graph_edge record;
  _ ← edge_event id (pn_id node) correlation_id run_id "graph-edge.created"
        (PlanningGraphEdge_to_value record);
  mret record.

Definition update_workflow_node_status_in_transaction (node : PlanningGraphNode) (status : string)
    (correlation_id : string) (run_id : option string) (now : string) : M PlanningGraphNode :=
  _ ← update_graph_node_row (pn_id node) (fun n =>
        n <| pn_status := status |> <| pn_revision ::= Z.succ |> <| pn_updated_at := now |>);
  record ← load_graph_node (pn_id node);
  _ ← node_event (pn_id record) correlation_id run_id "graph-node.status-updated"
        (json_object (status_payload (pn_status record) (pn_status node) (pn_revision record)));
  findings ← validate_entity EntityType.GraphNode (pn_id record);
  _ ← persist_validation_findings EntityType.GraphNode (pn_id record) findings;
  mret record.

(** The checks on the result alone. *)
Definition check_worker_result (result : WorkflowWorkerResult) : M unit :=
  _ ← require_non_empty "dispatchId" (wwr_dispatch_id result);
  _ ← require_non_empty "projectRunId" (wwr_project_run_id result);
  _ ← require_non_empty "nodeId" (wwr_node_id result);
  _ ← require_non_empty "idempotencyKey" (wwr_idempotency_key result);
  _ ← require_non_empty "summary" (wwr_summary result);
  _ ← guard_or (bool_decide (wwr_schema_version result = "orchestrator-worker-result/v1"))
        (InvalidInput ("unsupported workflow worker result schema `"
          +:+ wwr_schema_version result +:+ "`"));
  _ ← guard_or (Z.of_nat (String.length (wwr_summary result)) <=? 16384)%Z
        (InvalidInput "workflow result summary exceeds 16384 bytes");
  guard_or (match wwr_content result with
            | Some c => Z.of_nat (String.length c) <=? 1048576 | None => true end)%Z
    (InvalidInput "workflow result content exceeds 1048576 bytes").

(** The result is the one this run was dispatched for. *)
Definition check_result_binding (existing : ProjectRunRecord) (result : WorkflowWorkerResult)
    : M unit :=
  let expected_dispatch_id := "dispatch-" +:+ pr_id existing in
  _ ← guard_or (bool_decide (wwr_dispatch_id result = expected_dispatch_id))
        (coded_error
          [("code", JStr "WORKFLOW-RESULT-DISPATCH-MISMATCH");
           ("message", JStr "worker result dispatch ID does not match the prepared project run");
           ("projectRunId", JStr (pr_id existing));
           ("expectedDispatchId", JStr expected_dispatch_id);
           ("actualDispatchId", JStr (wwr_dispatch_id result))]);
  _ ← guard_or (bool_decide (pr_idempotency_key existing = Some (wwr_idempotency_key result)))
        (coded_error
          [("code", JStr "WORKFLOW-RESULT-IDEMPOTENCY-MISMATCH");
           ("message", JStr "worker result idempotency key does not match the prepared project run");
           ("projectRunId", JStr (pr_id existing))]);
  guard_or (bool_decide (wwr_fencing_token result = pr_fencing_token existing))
    (coded_error
      [("code", JStr "PROJECT-RUN-STALE-FENCING-TOKEN");
       ("message", JStr "the project run fencing token is stale");
       ("projectRunId", JStr (pr_id existing));
       ("expectedFencingToken", JInt (pr_fencing_token existing));
       ("actualFencingToken", JInt (wwr_fencing_token result))]).

(** The node the result is about is the run's and has not changed since. *)
Definition check_result_node (existing : ProjectRunRecord) (node : PlanningGraphNode)
    (result : WorkflowWorkerResult) : M unit :=
  _ ← guard_or (bool_decide (pn_kind node = PlanningNodeKind.Work))
        (InvalidInput "workflow result node must be a work graph node");
  _ ← guard_or (bool_decide (workflow_work_point_id_for_node node
                             = Some (pr_work_point_id existing)))
        (InvalidInput "workflow result node is not bound to the project run work point");
  guard_or (bool_decide (pn_revision node = wwr_source_revision result))
    (coded_error
      [("code", JStr "WORKFLOW-RESULT-SOURCE-REVISION-STALE");
       ("message", JStr "the graph node changed after the worker was dispatched");
       ("nodeId", JStr (pn_id node)); ("expectedRevision", JInt (wwr_source_revision result));
       ("actualRevision", JInt (pn_revision node))]).

Definition evidence_with_result (e : ProjectRunEvidence) (evidence_id key : string)
    : ProjectRunEvidence :=
  mkProjectRunEvidence (ev_implementation_run_refs e ++ [evidence_id]) (ev_warning_records e)
    (ev_validation_finding_refs e) (ev_commit_sha e) (ev_pr_url e) (ev_linked_spec_ids e)
    (ev_workflow_result_keys e ++ [key]).

(** The writes of a result that is new. *)
Definition write_back (input : RecordWorkflowResultInput) (scope_key now : string)
    (existing : ProjectRunRecord) (node : PlanningGraphNode) : M WorkflowResultWriteback :=
  let result := rwi_result input in
  evidence ← insert_workflow_result_evidence scope_key node result (rwi_correlation_id input)
               (rwi_run_id input) now;
  attachment ← insert_workflow_result_attachment node evidence result (rwi_correlation_id input)
                 (rwi_run_id input) now;
  let status_value := default (workflow_result_graph_status (wwr_status result))
                        (wwr_status_update result) in
  _ ← guard_or (bool_decide (status_value = workflow_result_graph_status (wwr_status result)))
        (InvalidInput "statusUpdate must match the worker result status");
  _ ← require_kebab_token "statusUpdate" status_value;
  status_update ← update_workflow_node_status_in_transaction node status_value
                    (rwi_correlation_id input) (rwi_run_id input) now;
  let status := workflow_result_project_run_status (wwr_status result) in
  let completed_at := if bool_decide (status = ProjectRunStatus.Completed) then Some now else None in
  let updated := fun r => bool_decide (pr_id r = pr_id existing)
                          && bool_decide (pr_fencing_token r = wwr_fencing_token result) in
  runs ← rows db_project_runs;
  _ ← guard_or (bool_decide (length (select_where updated runs) = 1))
        (InvalidInput "project run changed while recording workflow result");
  _ ← update_db (fun d => d <| db_project_runs ::= update_where updated (fun r =>
        r <| pr_status := status |>
          <| pr_evidence := evidence_with_result (pr_evidence existing) (pn_id evidence)
                              (wwr_idempotency_key result) |>
          <| pr_completed_at := completed_at |> <| pr_revision ::= Z.succ |>
          <| pr_updated_at := now |>) |>);
  project_run ← load_project_run (wwr_project_run_id result);
  _ ← run_event project_run (rwi_correlation_id input) (rwi_run_id input) "project-run.released"
        (ProjectRunRecord_to_value project_run);
  _ ← validate_and_store EntityType.ProjectRun (pr_id project_run);
  _ ← refresh_validation_target EntityType.WorkPoint (pr_work_point_id project_run);
  _ ← ignore_result (clear_active_project_run (Some (pr_work_point_id project_run)));
  mret (mkWorkflowResultWriteback project_run (Some evidence) (Some attachment)
          (Some status_update) false).

Definition record_workflow_result (input : RecordWorkflowResultInput)
    : M WorkflowResultWriteback :=
  let result := rwi_result input in
  _ ← check_worker_result result;
  let scope_key := normalized_scope_key (rwi_active_scope_key input) in
  _ ← ensure_entity_in_scope EntityType.ProjectRun (wwr_project_run_id result) scope_key;
  _ ← ensure_entity_in_scope EntityType.GraphNode (wwr_node_id result) scope_key;
  existing ← load_project_run (wwr_project_run_id result);
  _ ← check_result_binding existing result;
  if bool_decide (wwr_idempotency_key result ∈ ev_workflow_result_keys (pr_evidence existing)) then
    mret (mkWorkflowResultWriteback existing None None None true)
  else
    now ← now_string;
    _ ← require_current_lease existing (Some (wwr_fencing_token result)) now;
    _ ← guard_or (negb (run_is_terminal (pr_status existing)))
          (status_mismatch "claimed or active" (pr_status existing));
    node ← load_graph_node (wwr_node_id result);
    _ ← check_result_node existing node result;
    write_back input scope_key now existing node.

(** ** Histories *)

(** One step of a history without workflow preparation: an operation of an
    owner or the recording of a result, committed or rolled back, or anything
    else that does not write the table of runs and does not take readings of
    the clock back: time passing, other tables changing, the session file being
    edited.  These operations and [prepare_workflow] are all that writes
    project runs. *)
Inductive lease_step : World -> World -> Prop :=
| step_op op w : lease_step w (committed (lease_op op) w)
| step_record i w : lease_step w (committed (record_workflow_result i) w)
| step_other w w' :
    db_project_runs (w_db w') = db_project_runs (w_db w) -> (w_clock w <= w_clock w')%nat ->
    lease_step w w'.
(** One step of any history. *)
Inductive run_step : World -> World -> Prop :=
| step_lease w w' : lease_step w w' -> run_step w w'
| step_prepare i w : run_step w (committed (prepare_workflow i) w).
End Workflow.
