(* ===== verification/LeaseTime.v ===== *)
(** Leases in time: what the store promises about project runs when workflow
    preparation leases them too.

    [prepare_workflow] leaves the run-out leases of a work point as they are,
    so the protocol of [Leases], in which a claim ends them, is not refined by
    it: a work point may have several live runs.  What remains is a protocol
    with deadlines ([timed_trans]), over a clock that is only read: nothing is
    assumed of how its readings are ordered, so the system clock may be set
    back.  A lease is granted, under the next fencing token, only when every
    live lease of the work point has lapsed: its deadline is before the time
    of the grant, or less than [grace] after it, which is how closely SQLite's
    [julianday] compares the two. *)
From stdpp Require Import relations.
From S2P Require Import Prelude Text Json Model Tx Table Store Walk EdgeRules Validation Frames Clock ProjectRuns Leases Graph Entities WorkflowPlan Workflow.

(** ** The protocol *)
Record TimedLease := mkTimedLease {
  tl_id : string; tl_work_point : string; tl_token : Z; tl_live : bool; tl_deadline : Z }.
#[export] Instance eta_TimedLease : Eta TimedLease := fun l =>
  mkTimedLease (tl_id l) (tl_work_point l) (tl_token l) (tl_live l) (tl_deadline l).

Definition newest_timed (work_point_id : string) (a : list TimedLease) : Z :=
  max_or_zero tl_token (select_where (fun l => bool_decide (tl_work_point l = work_point_id)) a).

(** The lease is live and runs beyond [t]. *)
Definition current_at (t : Z) (l : TimedLease) : Prop := tl_live l = true /\ (t < tl_deadline l)%Z.

(** SQLite keeps times in whole milliseconds: times two of them apart differ
    in [julianday], whichever way it rounds. *)
Definition grace : Z := 2000000.
(** If the lease is live, its deadline is not [grace] beyond [t]. *)
Definition lapsed (t : Z) (l : TimedLease) : Prop :=
  tl_live l = true -> (tl_deadline l < t + grace)%Z.

(** Grants at one time: each to a work point whose live leases have lapsed,
    for between a second and a day. *)
Definition granted_lease (t : Z) (a : list TimedLease) (l : TimedLease) : Prop :=
  (forall l0, l0 ∈ a -> tl_id l0 <> tl_id l) /\
  (forall l0, l0 ∈ a -> tl_work_point l0 = tl_work_point l -> lapsed t l0) /\
  tl_token l = (newest_timed (tl_work_point l) a + 1)%Z /\ tl_live l = true /\
  (t + 1000000000 <= tl_deadline l <= t + 86400000000000)%Z.

Inductive granted (t : Z) (a : list TimedLease) : list TimedLease -> Prop :=
| granted_none : granted t a a
| granted_one b l : granted t a b -> granted_lease t b l -> granted t a (b ++ [l]).

Lemma granted_trans t a b c : granted t a b -> granted t b c -> granted t a c.
Proof. intros Ha. induction 1; [done|]. by apply granted_one. Qed.

Lemma granted_sub t a b l : granted t a b -> l ∈ a -> l ∈ b.
Proof. induction 1; [done|set_solver]. Qed.

Lemma newest_timed_ge work_point_id a l :
  l ∈ a -> tl_work_point l = work_point_id -> (tl_token l <= newest_timed work_point_id a)%Z.
Proof.
  intros Hl E. apply max_or_zero_ge, elem_of_select_where. by rewrite bool_decide_eq_true.
Qed.

Lemma granted_elem t a b l : granted t a b -> l ∈ b -> l ∈ a \/ ~ lapsed t l.
Proof.
  induction 1 as [|b g _ IH (_ & _ & _ & Hlive & Hd)]; [by left|].
  intros [Hl| ->%list_elem_of_singleton]%elem_of_app; [by apply IH|right].
  intros Hlapsed. specialize (Hlapsed Hlive). unfold grace in Hlapsed. lia.
Qed.

(** A granted lease is the newest of its work point, the only one granted for
    it, and found the leases of the work point lapsed. *)
Lemma granted_newest t a b l :
  granted t a b -> l ∈ b -> (forall l0, l0 ∈ a -> tl_id l0 <> tl_id l) ->
  tl_live l = true /\ (t + 1000000000 <= tl_deadline l <= t + 86400000000000)%Z /\
  forall l0, l0 ∈ b -> l0 <> l -> tl_work_point l0 = tl_work_point l ->
    l0 ∈ a /\ lapsed t l0 /\ (tl_token l0 < tl_token l)%Z.
Proof.
  intros Hg. revert l. induction Hg as [|b g Hg IH (_ & Hlapsed & Htok & Hlive & Hd)];
    intros l Hl Hnew; [by destruct (Hnew l Hl)|].
  apply elem_of_app in Hl as [Hl|Hl%list_elem_of_singleton].
  - destruct (IH l Hl Hnew) as (Hlive' & Hd' & Hall). split_and!; [done|lia|lia|].
    intros l0 [Hl0|Hl0%list_elem_of_singleton]%elem_of_app Hne Hwp; [by apply Hall|]. subst l0.
    specialize (Hlapsed l Hl (eq_sym Hwp) Hlive'). unfold grace in Hlapsed. lia.
  - subst l. split_and!; [done|lia|lia|].
    intros l0 [Hl0|Hl0%list_elem_of_singleton]%elem_of_app Hne Hwp; [|done].
    pose proof (newest_timed_ge _ _ _ Hl0 Hwp). split_and!; [|by apply Hlapsed|lia].
    destruct (granted_elem _ _ _ _ Hg Hl0) as [?|Hn]; [done|]. by destruct Hn; apply Hlapsed.
Qed.

(** ** The protocol, over the readings of a clock *)
Section Protocol.
Context (clock : nat -> Z).

Inductive timed_trans : nat * list TimedLease -> nat * list TimedLease -> Prop :=
| tt_tick n n' a : (n <= n')%nat -> timed_trans (n, a) (n', a)
| tt_end n a p : timed_trans (n, a) (n, update_where p (fun l => l <| tl_live := false |>) a)
| tt_grant n a l : granted_lease (clock n) a l -> timed_trans (n, a) (n, a ++ [l])
| tt_renew n a id deadline :
    (forall l, l ∈ a -> tl_id l = id -> current_at (clock n) l) ->
    timed_trans (n, a)
      (n, update_where (fun l => bool_decide (tl_id l = id)) (fun l => l <| tl_deadline := deadline |>) a).

Lemma granted_timed n a b : granted (clock n) a b -> rtc timed_trans (n, a) (n, b).
Proof.
  induction 1 as [|b l _ IH Hl]; [done|]. eapply rtc_r; [exact IH|]. by apply tt_grant.
Qed.

Lemma timed_ticks s s' : rtc timed_trans s s' -> (fst s <= fst s')%nat.
Proof. induction 1 as [|? ? ? Hs _ IH]; [done|]. etrans; [|exact IH]. by destruct Hs. Qed.

(** A lease whose deadline the clock has passed, and will not come back to, is
    not renewed. *)
Definition out_of_time (deadline : Z) (id : string) (a : list TimedLease) : Prop :=
  exists l, l ∈ a /\ tl_id l = id /\ (tl_live l = true -> (tl_deadline l <= deadline)%Z).

Lemma timed_out_of_time deadline id s s' :
  rtc timed_trans s s' -> (forall n, (fst s <= n)%nat -> (deadline <= clock n)%Z) ->
  out_of_time deadline id (snd s) -> out_of_time deadline id (snd s').
Proof.
  induction 1 as [s|s1 s2 s3 Hs _ IH]; [done|]. intros Hclock (l & Hl & Hid & Hd).
  destruct Hs as [n n' a Hle|n a p|n a g Hg|n a id' d Hcur]; simpl in *.
  - apply IH; [intros; apply Hclock; lia|by exists l].
  - apply IH; [done|]. exists (if p l then l <| tl_live := false |> else l).
    split; [apply elem_of_update_where; by exists l|]. by destruct (p l).
  - apply IH; [done|]. exists l. split; [set_solver|done].
  - apply IH; [done|]. exists (if bool_decide (tl_id l = id') then l <| tl_deadline := d |> else l).
    split; [apply elem_of_update_where; by exists l|]. case_bool_decide as E; [|done].
    destruct (Hcur l Hl E) as [Hlive Hlt]. specialize (Hd Hlive). specialize (Hclock n ltac:(lia)). lia.
Qed.
End Protocol.

Section LeaseTime.
Context `{External}.

(** What the texts of times are relied on for: the time of a text that was
    formatted is the time it was formatted from, and SQLite's [julianday] reads
    it to the millisecond.  Nothing is assumed of the clock itself. *)
Class TimeTexts := {
  parse_format : forall t s, rfc3339_format t = Some s -> rfc3339_parse s = Some t;
  julianday_resolves : forall t s t' s', rfc3339_format t = Some s -> rfc3339_format t' = Some s' ->
    exists j j', julianday s = Some j /\ julianday s' = Some j' /\
      ((t + grace <= t')%Z -> (j < j')%Z) }.

Context (Texts : TimeTexts).

Lemma text_laws : ClockLaws.
Proof.
  split. intros t s Hs. destruct (julianday_resolves t s t s Hs Hs) as (j & _ & -> & _). by eexists.
Qed.

Definition tlease_of (r : ProjectRunRecord) : TimedLease :=
  mkTimedLease (pr_id r) (pr_work_point_id r) (pr_fencing_token r) (run_is_live (pr_status r))
    (default 0%Z (rfc3339_parse (pr_lease_expires_at r))).

(** The change of the table, at reading [n], is one the protocol allows. *)
Definition timed (n : nat) (rs rs' : list ProjectRunRecord) : Prop :=
  rtc (timed_trans utc_now) (n, map tlease_of rs) (n, map tlease_of rs').

Lemma timed_refl n rs : timed n rs rs.
Proof. apply rtc_refl. Qed.
Lemma timed_step n rs rs' :
  timed_trans utc_now (n, map tlease_of rs) (n, map tlease_of rs') -> timed n rs rs'.
Proof. apply rtc_once. Qed.
Lemma timed_comp n rs rs' rs'' : timed n rs rs' -> timed n rs' rs'' -> timed n rs rs''.
Proof. unfold timed. intros H1 H2. by transitivity (n, map tlease_of rs'). Qed.

Lemma current_lease_at t r tok now :
  rfc3339_format t = Some now -> current_lease r tok now -> run_is_live (pr_status r) = true ->
  current_at t (tlease_of r).
Proof.
  intros Ht (_ & d & n & Hd & Hn & Hlt) Hlive. rewrite (parse_format _ _ Ht) in Hn.
  injection Hn as <-. split; [done|]. simpl. by rewrite Hd.
Qed.

(** One run was rewritten. *)
Definition lease_kept (t : Z) (l l' : TimedLease) : Prop :=
  l' = l \/ l' = l <| tl_live := false |> \/
  (current_at t l /\ exists d, l' = l <| tl_deadline := d |>).

Lemma tlease_update id g h rs existing :
  NoDup (map pr_id rs) -> find_by pr_id id rs = Some existing ->
  tlease_of (g existing) = h (tlease_of existing) ->
  map tlease_of (update_where (fun r => bool_decide (pr_id r = id)) g rs)
  = update_where (fun l => bool_decide (tl_id l = id)) h (map tlease_of rs).
Proof.
  intros Hn Hf Hg. apply map_update_where. intros r Hr. simpl. case_bool_decide as E; [|done].
  by rewrite (find_by_unique _ _ _ _ _ Hn Hf Hr E).
Qed.
Lemma tlease_same id g rs existing :
  NoDup (map pr_id rs) -> find_by pr_id id rs = Some existing ->
  tlease_of (g existing) = tlease_of existing ->
  map tlease_of (update_where (fun r => bool_decide (pr_id r = id)) g rs) = map tlease_of rs.
Proof.
  intros Hn Hf Hg. rewrite (tlease_update _ _ (fun l => l) _ _ Hn Hf Hg).
  unfold update_where. rewrite map_map. apply map_ext. intros r. simpl. by case_bool_decide.
Qed.

Lemma timed_update n id g rs existing :
  NoDup (map pr_id rs) -> find_by pr_id id rs = Some existing ->
  lease_kept (utc_now n) (tlease_of existing) (tlease_of (g existing)) ->
  timed n rs (update_where (fun r => bool_decide (pr_id r = id)) g rs).
Proof.
  intros Hn Hf [E|[E|[Hc [d E]]]].
  - unfold timed. rewrite (tlease_same _ _ _ _ Hn Hf E). apply rtc_refl.
  - apply timed_step. rewrite (tlease_update _ _ _ _ _ Hn Hf E). apply tt_end.
  - apply timed_step. rewrite (tlease_update _ _ (fun l => l <| tl_deadline := d |>) _ _ Hn Hf E).
    apply tt_renew. intros l (r & -> & Hr)%list_elem_of_fmap E'.
    by rewrite (find_by_unique _ _ _ _ _ Hn Hf Hr E').
Qed.

(** A new run for a work point whose live leases have lapsed. *)
Lemma inserted_granted t rs r :
  (forall r', r' ∈ rs -> pr_id r' <> pr_id r) ->
  (forall r', r' ∈ rs -> pr_work_point_id r' = pr_work_point_id r -> lapsed t (tlease_of r')) ->
  pr_fencing_token r = (max_token (pr_work_point_id r) rs + 1)%Z ->
  run_is_live (pr_status r) = true ->
  (t + 1000000000 <= tl_deadline (tlease_of r) <= t + 86400000000000)%Z ->
  granted t (map tlease_of rs) (map tlease_of (rs ++ [r])).
Proof.
  intros Hid Hlapsed Htok Hlive Hd. rewrite map_app. apply granted_one; [apply granted_none|].
  assert (max_token (pr_work_point_id r) rs
          = newest_timed (pr_work_point_id r) (map tlease_of rs)) as E.
  { unfold max_token, newest_timed, max_or_zero, select_where.
    generalize (pr_work_point_id r) as wp. intros wp.
    assert (map pr_fencing_token (List.filter (fun r => bool_decide (pr_work_point_id r = wp)) rs)
            = map tl_token (List.filter (fun l => bool_decide (tl_work_point l = wp))
                              (map tlease_of rs))) as ->; [|done].
    clear. induction rs as [|x rs IH]; simpl; [done|].
    case_bool_decide; simpl; by rewrite IH. }
  split_and!; [| |simpl; by rewrite Htok, E|done|lia|lia].
  - intros l (r' & -> & Hr')%list_elem_of_fmap. by apply Hid.
  - intros l (r' & -> & Hr')%list_elem_of_fmap. by apply Hlapsed.
Qed.

Lemma lease_from_deadline o t now r :
  rfc3339_format t = Some now -> lease_from o now (pr_lease_expires_at r) ->
  (t + 1000000000 <= tl_deadline (tlease_of r) <= t + 86400000000000)%Z.
Proof.
  intros Ht (Hsecs & t' & Ht' & Hd). rewrite (parse_format _ _ Ht) in Ht'. injection Ht' as <-.
  simpl. rewrite (parse_format _ _ Hd). simpl. lia.
Qed.

(** What SQLite compared with the clock and did not find beyond it has lapsed. *)
Lemma not_later_lapsed t now r :
  rfc3339_format t = Some now -> wf_run r -> julian_gt (pr_lease_expires_at r) now = false ->
  lapsed t (tlease_of r).
Proof.
  intros Ht [_ [d Hd]] Hgt _. simpl. rewrite (parse_format _ _ Hd). simpl.
  destruct (julianday_resolves t now d _ Ht Hd) as (j & j' & Hj & Hj' & Hlt).
  unfold julian_gt in Hgt. rewrite Hj, Hj' in Hgt.
  destruct (decide (t + grace <= d)%Z) as [Hle|]; [|lia]. specialize (Hlt Hle). simpl in Hgt. lia.
Qed.
Lemma not_held_lapsed t now wp r :
  rfc3339_format t = Some now -> wf_run r -> pr_work_point_id r = wp ->
  lease_held wp now r = false -> lapsed t (tlease_of r).
Proof.
  intros Ht Hwf Hwp Hh Hlive. eapply not_later_lapsed; [done..| |done].
  simpl in Hlive. unfold lease_held, on_work_point in Hh.
  by rewrite Hlive, bool_decide_true in Hh by done.
Qed.
(** ... and so has one that it found run out. *)
Lemma expired_lapsed t now wp r :
  rfc3339_format t = Some now -> wf_run r -> lease_expired wp now r = true ->
  lapsed t (tlease_of r).
Proof.
  intros Ht Hwf He. apply (not_later_lapsed t now); [done..|].
  unfold lease_expired, julian_le, julian_gt in *. bool_props.
  destruct (julianday (pr_lease_expires_at r)), (julianday now); simpl in *; try done. lia.
Qed.

(** ** The operations on project runs *)
Lemma owner_timed id tok f ok w w' (record : ProjectRunRecord) :
  owner_effect id tok f ok w w' record -> wf_runs (runs w) ->
  (forall existing now t, ok existing now -> current_lease existing tok now ->
     rfc3339_format t = Some now -> wf_run existing ->
     lease_kept t (tlease_of existing) (tlease_of (f existing now existing))) ->
  exists n, (w_clock w <= n < w_clock w')%nat /\ timed n (runs w) (runs w').
Proof.
  intros (ex & now & Hf & Hc & (n & Hn & Hnow) & Hok & -> & _) [Hnd Hwf] Hk. exists n. split; [done|].
  eapply timed_update; [done|exact Hf|]. apply Hk; [done..|].
  rewrite Forall_forall in Hwf. apply Hwf. by apply find_by_Some in Hf as [? _].
Qed.

(** A claim ends leases that have lapsed, then grants one. *)
Definition ended_where (wp now : string) (rs : list ProjectRunRecord) (l : TimedLease) : bool :=
  bool_decide (tl_id l ∈ map pr_id (select_where (lease_expired wp now) rs)).
Lemma after_expiry_leases wp now rs :
  NoDup (map pr_id rs) ->
  map tlease_of (after_expiry wp now rs)
  = update_where (ended_where wp now rs) (fun l => l <| tl_live := false |>) (map tlease_of rs).
Proof.
  intros Hnd. apply map_update_where. intros r Hr. unfold ended_where. simpl.
  destruct (lease_expired wp now r) eqn:E.
  - rewrite bool_decide_true; [done|]. apply list_elem_of_fmap. exists r. split; [done|].
    by apply elem_of_select_where.
  - rewrite bool_decide_false; [done|].
    intros (r' & E' & [Hr' Hx]%elem_of_select_where)%list_elem_of_fmap.
    assert (r = r') as ->; [|congruence].
    apply (find_by_unique pr_id (pr_id r') rs); [done|by apply find_by_elem|done..].
Qed.
Lemma after_expiry_wf wp now rs : wf_runs rs -> wf_runs (after_expiry wp now rs).
Proof.
  intros [Hn Hwf]. split; [unfold after_expiry; by rewrite keys_update_where|].
  apply Forall_forall. intros r (r0 & Hr0 & ->)%elem_of_update_where.
  rewrite Forall_forall in Hwf. destruct (Hwf r0 Hr0). by destruct (lease_expired _ _ r0).
Qed.

Lemma claims_granted i w w' record :
  claims i w w' record -> wf_runs (runs w) ->
  exists n now, (w_clock w <= n < w_clock w')%nat /\ rfc3339_format (utc_now n) = Some now /\
    let rs := after_expiry (ci_work_point_id i) now (runs w) in
    (forall r, r ∈ rs -> lease_held (ci_work_point_id i) now r = false) /\
    pr_work_point_id record = ci_work_point_id i /\ runs w' = rs ++ [record] /\
    granted (utc_now n) (map tlease_of rs) (map tlease_of (runs w')).
Proof.
  intros (id & owner & now & lease & (n & Hn & Hnow) & Hl & Hheld & -> & _ & Hid & ->) Hwf.
  exists n, now. cbv zeta. split_and!; [lia|lia|done|done|done|done|].
  apply inserted_granted; [intros r' Hr'; by apply Hid| |done|done|].
  - intros r' Hr' Hwp. eapply not_held_lapsed; [done| |exact Hwp|by apply Hheld].
    destruct (after_expiry_wf (ci_work_point_id i) now _ Hwf) as [_ Hwf'].
    rewrite Forall_forall in Hwf'. by apply Hwf'.
  - by eapply lease_from_deadline.
Qed.

Lemma claims_timed i w w' record :
  claims i w w' record -> wf_runs (runs w) ->
  exists n, (w_clock w <= n < w_clock w')%nat /\ timed n (runs w) (runs w').
Proof.
  intros Hc Hwf. destruct (claims_granted _ _ _ _ Hc Hwf) as (n & now & Hn & _ & _ & _ & _ & Hg).
  exists n. split; [done|]. eapply timed_comp; [|by apply granted_timed].
  apply timed_step. rewrite after_expiry_leases by apply Hwf. apply tt_end.
Qed.

Lemma lease_op_timed op w res w' :
  lease_op op w = Ok res w' -> wf_runs (runs w) ->
  runs w' = runs w \/
  exists n, (w_clock w <= n < w_clock w')%nat /\ timed n (runs w) (runs w').
Proof.
  intros Hr Hwf. destruct op as [i|i|i|i|i]; simpl in Hr.
  - apply claim_effect in Hr as [Hr|(? & ? & ? & _ & _ & _ & _ & ->)]; [right|by left].
    by eapply claims_timed.
  - apply activate_effect in Hr. right. eapply owner_timed; [exact Hr|done|].
    intros ex now t Hs _ _ _. left. unfold tlease_of. simpl. by rewrite Hs.
  - apply heartbeat_effect in Hr as (lease & Hr). right. eapply owner_timed; [exact Hr|done|].
    intros ex now t [Hlive Hl] Hc Ht _. rewrite bool_decide_true by done. right. right.
    split; [by eapply current_lease_at|]. by eexists.
  - apply release_effect in Hr as [Ht Hr]. right. eapply owner_timed; [exact Hr|done|].
    intros ex now t _ _ _ _. right. left. unfold tlease_of. simpl. by rewrite terminal_not_live.
  - apply add_evidence_effect in Hr. right. eapply owner_timed; [exact Hr|done|].
    intros ex now t _ _ _ _. by left.
Qed.

(** ** Preparing a workflow *)
Definition activated (now : string) (r : ProjectRunRecord) : ProjectRunRecord :=
  r <| pr_status := ProjectRunStatus.Active |> <| pr_revision ::= Z.succ |> <| pr_updated_at := now |>.
Definition the_run (run : ProjectRunRecord) (r : ProjectRunRecord) : bool :=
  bool_decide (pr_id r = pr_id run) && bool_decide (pr_fencing_token r = pr_fencing_token run).

Lemma activate_run_Ok run now c i w r w' :
  activate_run run now c i w = Ok r w' ->
  runs w' = update_where (the_run run) (activated now) (runs w) /\
  find_by pr_id (pr_id run) (runs w') = Some r.
Proof.
  unfold activate_run. intros Hr. tx_inv. apply update_runs_Ok in R.
  apply load_project_run_Ok in R0 as [Hf ->]. track_all. by rewrite E, R in *.
Qed.

(** How a prepared run came to be: it was found as it is, or claimed and then
    activated, or it is new. *)
Inductive leased (secs : Z) (now : string) (rs : list ProjectRunRecord)
    : list ProjectRunRecord -> ProjectRunRecord -> Prop :=
| leased_running run :
    run ∈ rs -> pr_status run <> ProjectRunStatus.Claimed ->
    run_is_terminal (pr_status run) = false ->
    current_lease run (Some (pr_fencing_token run)) now -> leased secs now rs rs run
| leased_resumed run :
    find_by pr_id (pr_id run) rs = Some run -> pr_status run = ProjectRunStatus.Claimed ->
    current_lease run (Some (pr_fencing_token run)) now ->
    leased secs now rs (update_where (the_run run) (activated now) rs) (activated now run)
| leased_new run :
    pr_status run = ProjectRunStatus.Claimed ->
    (forall r, r ∈ rs -> pr_id r <> pr_id run) ->
    (forall r, r ∈ rs -> lease_held (pr_work_point_id run) now r = false) ->
    pr_fencing_token run = (max_token (pr_work_point_id run) rs + 1)%Z ->
    (pr_fencing_token run <= 9223372036854775807)%Z ->
    lease_from (Some secs) now (pr_lease_expires_at run) ->
    leased secs now rs (rs ++ [activated now run]) (activated now run).

Lemma update_where_snoc {R} (key : R -> string) (p : R -> bool) f t r :
  (forall x, p x = true -> key x = key r) -> (forall x, x ∈ t -> key x <> key r) -> p r = true ->
  update_where p f (t ++ [r]) = t ++ [f r].
Proof.
  intros Hp Ht Hr. unfold update_where. rewrite map_app. simpl. rewrite Hr. f_equal.
  induction t as [|x t IH]; simpl; [done|]. rewrite IH by (intros; apply Ht; by right).
  destruct (p x) eqn:E; [|done]. apply Hp in E. by destruct (Ht x); [left|].
Qed.

Lemma find_by_snoc_fresh {R} (key : R -> string) t r :
  (forall x, x ∈ t -> key x <> key r) -> find_by key (key r) (t ++ [r]) = Some r.
Proof.
  intros Ht. induction t as [|x t IH]; simpl; [by rewrite decide_True|].
  rewrite decide_False by (apply Ht; by left). apply IH. intros. apply Ht. by right.
Qed.

Lemma skip_node_Ok id reason acc w acc' w' :
  skip_node id reason acc w = Ok acc' w' -> w' = w /\ pp_prepared acc' = pp_prepared acc.
Proof. unfold skip_node. intros Hr. by tx_inv. Qed.
Lemma prepare_node_Ok node hint run acc w acc' w' :
  prepare_node node hint run acc w = Ok acc' w' ->
  w' = w /\ pp_prepared acc' = pp_prepared acc ++ [(node, hint, run)].
Proof. unfold prepare_node. intros Hr. by tx_inv. Qed.

(** One candidate: skipped, or prepared with a leased run. *)
Definition candidate_effect (secs : Z) (now : string) (w w' : World) (acc acc' : Prepared)
    (P : PlanningGraphNode * WorkflowDelegationHint * ProjectRunRecord -> Prop) : Prop :=
  (runs w' = runs w /\ pp_prepared acc' = pp_prepared acc) \/
  exists node hint run, pp_prepared acc' = pp_prepared acc ++ [(node, hint, run)] /\
    leased secs now (runs w) (runs w') run /\ P (node, hint, run).

Lemma lease_run_effect i sk owner now secs node hint wp rm key acc w acc' w' :
  lease_run i sk owner now secs node hint wp rm key acc w = Ok acc' w' -> (1 <= secs <= 86400)%Z ->
  candidate_effect secs now w w' acc acc' (fun '(n, h, run) =>
    n = node /\ h = hint /\ pr_work_point_id run = wp_id wp /\ pr_idempotency_key run = Some key).
Proof.
  unfold lease_run. intros Hr Hsecs. tx_inv.
  apply (proj1 (reads_Ok _ _ _ _)) in R as [-> ->].
  destruct (0 <? _)%nat eqn:Eheld.
  { apply skip_node_Ok in Hr as [-> Hacc]. by left. }
  tx_inv.
  assert (runs s = runs w) as E by (clear -R; track_all; done).
  apply next_fencing_token_Ok in R0 as (-> & -> & Htok).
  apply lease_deadline_Ok in R1 as (t & Ht & Hd & ->).
  apply insert_project_run_Ok in R2 as (Hins & Hid & _).
  apply activate_run_Ok in R4 as [Hact Hf]. apply prepare_node_Ok in Hr as [-> Hacc].
  clear R. track_all. right. rewrite E0, E1, Hact. rewrite Hact in Hf. rewrite E2, Hins in Hf |- *.
  rewrite E in *. clear E E0 E1 E2 Hins Hact.
  match type of Hf with find_by _ _ (update_where (the_run ?r) _ _) = _ => set (record := r) in * end.
  assert (update_where (the_run record) (activated now) (runs w ++ [record])
          = runs w ++ [activated now record]) as Eu.
  { apply (update_where_snoc pr_id); [|done|].
    - intros x. unfold the_run. intros. by bool_props.
    - unfold the_run. by rewrite !bool_decide_true. }
  rewrite Eu in *. pose proof (find_by_snoc_fresh pr_id (runs w) (activated now record) Hid) as Hf'.
  change (pr_id (activated now record)) with (pr_id record) in Hf'. rewrite Hf in Hf'.
  injection Hf' as ->. eexists _, _, _. split; [exact Hacc|]. split; [|done].
  apply leased_new; [done|done| |done|done|].
  - intros r Hr. destruct (lease_held _ now r) eqn:Eh; [|done].
    assert (r ∈ select_where (lease_held (wp_id wp) now) (runs w)) as Hs
      by by apply elem_of_select_where.
    change (db_project_runs (w_db w)) with (runs w) in Eheld.
    destruct (select_where (lease_held (wp_id wp) now) (runs w)); [set_solver|done].
  - split; [done|]. by exists t.
Qed.

Lemma resume_run_effect i now secs node hint wp rm key id acc w acc' w' :
  resume_run i now node hint wp rm key id acc w = Ok acc' w' ->
  candidate_effect secs now w w' acc acc' (fun '(n, h, run) =>
    n = node /\ h = hint /\ pr_work_point_id run = wp_id wp /\
    exists existing, find_by pr_id id (runs w) = Some existing /\
      pr_idempotency_key run = pr_idempotency_key existing).
Proof.
  unfold resume_run. intros Hr. tx_inv. bool_props. apply load_project_run_Ok in R as [Hf ->].
  pose proof (find_by_Some _ _ _ _ Hf) as [Hin Hid].
  destruct (run_is_terminal (pr_status a)) eqn:Ht.
  { apply skip_node_Ok in Hr as [-> Hacc]. by left. }
  tx_inv. destruct a1 as [e|[]]; tx_inv.
  { apply skip_node_Ok in Hr as [-> Hacc]. by left. }
  match goal with R : require_current_lease _ _ _ _ = Ok _ _ |- _ =>
    apply require_current_lease_Ok in R as [Hc ->] end.
  apply prepare_node_Ok in Hr as [-> Hacc]. case_bool_decide as Hs; tx_inv.
  - match goal with R : activate_run _ _ _ _ _ = Ok _ _ |- _ =>
      apply activate_run_Ok in R as [Hact Hf'] end. right. rewrite Hact in Hf' |- *.
    rewrite find_by_update_where in Hf' by done. rewrite Hid, Hf in Hf'. simpl in Hf'.
    unfold the_run in Hf'. rewrite !bool_decide_true in Hf' by done. injection Hf' as <-.
    eexists _, _, _. split; [exact Hacc|].
    split; [apply leased_resumed; [by rewrite Hid|done..]|]. split_and!; [done..|]. by exists a.
  - right. eexists _, _, _. split; [exact Hacc|].
    split; [by apply leased_running|]. split_and!; [done..|]. by exists a.
Qed.

(** What ties the run of a prepared node to it. *)
Definition bound (i : PrepareWorkflowInput) (w : World)
    (p : PlanningGraphNode * WorkflowDelegationHint * ProjectRunRecord) : Prop :=
  let '(node, hint, run) := p in
  find_by pn_id (pn_id node) (db_nodes (w_db w)) = Some node /\
  runnable_node (pn_status node) = true /\ wdh_node_id hint = pn_id node /\
  workflow_work_point_id_for_node node = Some (pr_work_point_id run) /\
  pr_idempotency_key run = Some (workflow_idempotency_key (pw_entity_type i) (pw_entity_id i)
    (pn_id node) (pn_revision node) (pw_correlation_id i)).

Lemma prepare_work_point_effect i sk owner now secs node hint wp acc w acc' w' :
  prepare_work_point i sk owner now secs node hint wp acc w = Ok acc' w' ->
  wf_runs (runs w) -> (1 <= secs <= 86400)%Z ->
  candidate_effect secs now w w' acc acc' (fun '(n, h, run) =>
    n = node /\ h = hint /\ pr_work_point_id run = wp_id wp /\
    pr_idempotency_key run = Some (workflow_idempotency_key (pw_entity_type i) (pw_entity_id i)
      (pn_id node) (pn_revision node) (pw_correlation_id i))).
Proof.
  unfold prepare_work_point. intros Hr Hwf Hsecs. tx_inv.
  apply (proj1 (reads_Ok _ _ _ _)) in R3 as [-> ->].
  change (db_project_runs (w_db s2)) with (runs s2) in Hr.
  assert (runs s2 = runs w) as E by (clear Hr; track_all; congruence).
  destruct (claim_with_key sk _ (runs s2)) as [row|] eqn:Ek.
  - apply (resume_run_effect _ _ secs) in Hr.
    destruct Hr as [[Hr Hacc]|(n & h & run & Hacc & Hl & -> & -> & Hwp & ex & Hf & Hkey)];
      [left; by rewrite <- E|right].
    rewrite E in *. exists node, hint, run. split_and!; [done..|].
    apply (claim_with_key_Some text_laws) in Ek as (Hin & _ & Ek). destruct Hwf as [Hn _].
    rewrite (find_by_elem _ _ _ Hn Hin) in Hf. injection Hf as <-. congruence.
  - apply lease_run_effect in Hr; [|done]. unfold candidate_effect in *. by rewrite <- E.
Qed.

Lemma find_hint_id hints id h : find_hint hints id = Some h -> wdh_node_id h = id.
Proof. unfold find_hint. intros [_ E]%find_some. by bool_props. Qed.

Lemma prepare_candidate_effect i view sk owner now secs max acc id w acc' w' :
  prepare_candidate i view sk owner now secs max acc id w = Ok acc' w' ->
  wf_runs (runs w) -> (1 <= secs <= 86400)%Z ->
  candidate_effect secs now w w' acc acc' (fun p => bound i w p /\
    (length (pp_prepared acc) < max)%nat).
Proof.
  unfold prepare_candidate. intros Hr Hwf Hsecs.
  destruct (max <=? length (pp_prepared acc))%nat eqn:Emax; [tx_inv; by left|].
  apply Nat.leb_gt in Emax. tx_inv. apply load_or_missing_Ok in R.
  destruct a as [node|]; [|subst; apply skip_node_Ok in Hr as [-> ?]; by left].
  apply load_by_Ok in R as [Hf ->]. pose proof (find_by_Some _ _ _ _ Hf) as [_ Hid].
  destruct (runnable_node _) eqn:Erun; [|apply skip_node_Ok in Hr as [-> ?]; by left].
  simpl in Hr.
  destruct (find_hint _ _) as [hint|] eqn:Eh; [|apply skip_node_Ok in Hr as [-> ?]; by left].
  destruct (workflow_work_point_id_for_node node) as [wpid|] eqn:Ewp;
    [|apply skip_node_Ok in Hr as [-> ?]; by left].
  tx_inv. apply load_or_missing_Ok in R.
  destruct a as [wp|]; [|subst; apply skip_node_Ok in Hr as [-> ?]; by left].
  assert (s = w /\ wp_id wp = wpid) as [-> Hwpid].
  { pose proof (keeps_load_work_point (fun w => w) _ _ _ _ R) as Es. split; [exact Es|].
    unfold load_work_point in R. tx_inv. simpl.
    match goal with R : load_by _ _ _ _ _ = Ok _ _ |- _ => apply load_by_Ok in R as [Hw _] end.
    by apply find_by_Some in Hw as [_ ?]. }
  destruct (work_point_terminal _); [apply skip_node_Ok in Hr as [-> ?]; by left|].
  apply prepare_work_point_effect in Hr as [?|(n & h & run & Hacc & Hl & -> & -> & Hwp & Hkey)];
    [by left|right|done..].
  exists node, hint, run. split_and!; [done..| |done].
  unfold bound. rewrite Hid. split_and!; [done|done|by rewrite (find_hint_id _ _ _ Eh)| |by rewrite <- Hid].
  congruence.
Qed.

(** *** What a leased run is *)
Definition handed_out (now : string) (rs : list ProjectRunRecord) (run : ProjectRunRecord) : Prop :=
  run ∈ rs /\ pr_status run <> ProjectRunStatus.Claimed /\
  run_is_terminal (pr_status run) = false /\
  current_lease run (Some (pr_fencing_token run)) now.

Lemma leased_the_run rs run r :
  NoDup (map pr_id rs) -> find_by pr_id (pr_id run) rs = Some run -> r ∈ rs ->
  the_run run r = bool_decide (pr_id r = pr_id run).
Proof.
  intros Hn Hf Hr. unfold the_run. case_bool_decide as E; [simpl|done].
  rewrite (find_by_unique _ _ _ _ _ Hn Hf Hr E). by apply bool_decide_eq_true.
Qed.

Lemma leased_handed_out secs now rs rs' run :
  leased secs now rs rs' run -> (1 <= secs)%Z -> handed_out now rs' run.
Proof.
  intros [r Hin Hs Ht Hc|r Hf Hs Hc|r Hs Hid Hheld Htok Hmax Hl] Hsecs; [done| |].
  - split_and!; [|done|done|exact Hc]. apply elem_of_update_where. exists r.
    split; [by apply find_by_Some in Hf as [? _]|]. unfold the_run. by rewrite !bool_decide_true.
  - split_and!; [set_solver|done|done|]. destruct Hl as (_ & t & Ht & Hd). split; [done|].
    simpl in *. exists (t + secs * 1000000000)%Z, t.
    split_and!; [by apply parse_format|done|lia].
Qed.

Lemma leased_keeps secs now rs rs' run r :
  leased secs now rs rs' run -> NoDup (map pr_id rs) -> r ∈ rs ->
  pr_status r <> ProjectRunStatus.Claimed -> r ∈ rs'.
Proof.
  intros Hl Hn Hin Hs.
  destruct Hl as [? _ _ _ _|r0 Hf Hs0 _|? _ _ _ _ _ _]; [done| |set_solver].
  apply elem_of_update_where. exists r. split; [done|].
  rewrite (leased_the_run rs) by done. case_bool_decide as E; [|done].
  by rewrite (find_by_unique _ _ _ _ _ Hn Hf Hin E) in Hs.
Qed.

Lemma leased_wf secs now rs rs' run :
  leased secs now rs rs' run -> wf_runs rs -> wf_runs rs'.
Proof.
  intros [r _ _ _ _|r Hf _ _|r _ Hid _ _ _ Hl] [Hn Hwf]; [done| |].
  - split; [by rewrite keys_update_where|]. apply Forall_forall.
    intros x (x0 & Hx0 & ->)%elem_of_update_where. rewrite Forall_forall in Hwf.
    destruct (Hwf x0 Hx0). by destruct (the_run r x0).
  - split.
    + rewrite map_app. apply NoDup_app. split_and!; [done| |apply NoDup_singleton].
      intros k Hk ->%list_elem_of_singleton. apply list_elem_of_fmap in Hk as (x & E & Hx).
      by apply (Hid x).
    + apply Forall_app. split; [done|]. apply Forall_singleton. split; [done|].
      by eapply lease_from_clock.
Qed.

Lemma leased_granted secs now rs rs' run t :
  leased secs now rs rs' run -> wf_runs rs -> rfc3339_format t = Some now ->
  granted t (map tlease_of rs) (map tlease_of rs').
Proof.
  intros [r _ _ _ _|r Hf Hs _|r Hs Hid Hheld Htok _ Hl] [Hn Hwf] Ht; [apply granted_none| |].
  - assert (update_where (the_run r) (activated now) rs
            = update_where (fun x => bool_decide (pr_id x = pr_id r)) (activated now) rs) as ->.
    { apply map_ext_in. intros x Hx%list_elem_of_In. by rewrite (leased_the_run rs). }
    rewrite (tlease_same _ _ _ _ Hn Hf); [apply granted_none|]. unfold tlease_of. simpl. by rewrite Hs.
  - apply inserted_granted; [done| |done|done|by eapply lease_from_deadline]. intros x Hx Hwp.
    eapply not_held_lapsed; [done| |exact Hwp|by apply Hheld].
    rewrite Forall_forall in Hwf. by apply Hwf.
Qed.

(** *** The loop *)
Definition sound (i : PrepareWorkflowInput) (now : string) (w : World)
    (p : PlanningGraphNode * WorkflowDelegationHint * ProjectRunRecord) : Prop :=
  bound i w p /\ handed_out now (runs w) (snd p).

Lemma bound_nodes i w w' p : db_nodes (w_db w') = db_nodes (w_db w) -> bound i w p -> bound i w' p.
Proof. unfold bound. intros ->. done. Qed.

Lemma keeps_nodes {A} (m : M A) : keeps records m -> keeps (fun w => db_nodes (w_db w)) m.
Proof.
  intros Hm. eapply keeps_proj; [exact Hm|]. intros s s' E. exact (f_equal db_nodes E).
Qed.
#[local] Hint Extern 6 (keeps (fun w => db_nodes (w_db w)) _) =>
  apply keeps_nodes; solve [frame] : frame.

(** Frames of the steps of a preparation. *)
Section Steps.
Context {X : Type} (f : World -> X).
Hypothesis f_runs : forall w rs, f (w <| w_db ::= fun d => d <| db_project_runs := rs |> |>) = f w.
Hypothesis f_records : forall {A} (m : M A), keeps records m -> keeps f m.

Lemma activate_run_frame run now c i : keeps f (activate_run run now c i).
Proof.
  unfold activate_run, update_db. apply keeps_bind; [|intros; apply f_records; frame].
  apply keeps_modify. intros w. apply (f_runs w).
Qed.
Lemma insert_project_run_frame r : keeps f (insert_project_run r).
Proof.
  unfold insert_project_run, update_db. repeat (apply keeps_bind; [frame|intros]).
  apply keeps_modify. intros w. apply (f_runs w).
Qed.
Lemma prepared_frame node hint run acc : keeps f (prepare_node node hint run acc).
Proof. apply keeps_ret. Qed.
Lemma skipped_frame id reason acc : keeps f (skip_node id reason acc).
Proof. apply keeps_ret. Qed.
#[local] Hint Resolve activate_run_frame insert_project_run_frame prepared_frame skipped_frame : frame.
#[local] Hint Extern 6 (keeps f _) => apply f_records; solve [frame] : frame.
Lemma lease_run_frame i sk owner now secs node hint wp rm key acc :
  keeps f (lease_run i sk owner now secs node hint wp rm key acc).
Proof. unfold lease_run, next_fencing_token. frame. Qed.
Lemma resume_run_frame i now node hint wp rm key id acc :
  keeps f (resume_run i now node hint wp rm key id acc).
Proof. unfold resume_run. frame. Qed.
#[local] Hint Resolve lease_run_frame resume_run_frame : frame.
Lemma prepare_work_point_frame i sk owner now secs node hint wp acc :
  keeps f (prepare_work_point i sk owner now secs node hint wp acc).
Proof. unfold prepare_work_point. frame. Qed.
#[local] Hint Resolve prepare_work_point_frame : frame.
Lemma prepare_candidate_frame i view sk owner now secs max acc id :
  keeps f (prepare_candidate i view sk owner now secs max acc id).
Proof. unfold prepare_candidate. frame. Qed.
End Steps.

Lemma prepare_candidate_nodes i view sk owner now secs max acc id :
  keeps (fun w => db_nodes (w_db w)) (prepare_candidate i view sk owner now secs max acc id).
Proof. apply prepare_candidate_frame; [done|]. intros. by apply keeps_nodes. Qed.

Lemma prepare_loop i view sk owner now secs max ids n acc w acc' w' :
  for_acc ids (prepare_candidate i view sk owner now secs max) acc w = Ok acc' w' ->
  rfc3339_format (utc_now n) = Some now -> (1 <= secs <= 86400)%Z ->
  wf_runs (runs w) -> Forall (sound i now w) (pp_prepared acc) ->
  (length (pp_prepared acc) <= max)%nat ->
  wf_runs (runs w') /\ granted (utc_now n) (map tlease_of (runs w)) (map tlease_of (runs w')) /\
  Forall (sound i now w') (pp_prepared acc') /\ (length (pp_prepared acc') <= max)%nat /\
  forall r, r ∈ runs w -> pr_status r <> ProjectRunStatus.Claimed -> r ∈ runs w'.
Proof.
  intros Hr Hnow Hsecs. revert acc w Hr. induction ids as [|id ids IH]; intros acc w Hr Hwf Hs Hmax;
    simpl in Hr; tx_inv; [by split_and!; [|apply granted_none|..]|].
  pose proof (prepare_candidate_nodes _ _ _ _ _ _ _ _ _ _ _ _ R) as En. simpl in En.
  apply prepare_candidate_effect in R as [[E Hacc]|(node & hint & run & Hacc & Hl & Hb & Hlt)];
    [| |done..].
  - destruct (IH _ _ Hr) as (Hwf' & Ht & Hs' & Hmax' & Hkeep); [by rewrite E| |by rewrite Hacc|].
    + rewrite Hacc. eapply Forall_impl; [exact Hs|]. intros p [Hb Hh].
      split; [by eapply bound_nodes|by rewrite E].
    + rewrite E in Ht, Hkeep. done.
  - assert (forall r, r ∈ runs w -> pr_status r <> ProjectRunStatus.Claimed -> r ∈ runs s) as Hkeep.
    { intros r. eapply leased_keeps; [exact Hl|apply Hwf]. }
    destruct (IH _ _ Hr) as (Hwf' & Ht & Hs' & Hmax' & Hkeep').
    + by eapply leased_wf.
    + rewrite Hacc. apply Forall_app. split.
      * eapply Forall_impl; [exact Hs|]. intros p [Hb' Hh].
        split; [by eapply bound_nodes|]. destruct Hh as (? & ? & ?). split; auto.
      * apply Forall_singleton. split; [by eapply bound_nodes|].
        eapply leased_handed_out; [exact Hl|lia].
    + rewrite Hacc, length_app. simpl. lia.
    + split_and!; [done| |done..|auto]. eapply granted_trans; [|exact Ht]. by eapply leased_granted.
Qed.

Lemma ticks_activate_run run now c i : ticks (activate_run run now c i).
Proof. unfold activate_run. ticks. Qed.
Lemma ticks_insert_project_run r : ticks (insert_project_run r).
Proof. unfold insert_project_run. ticks. Qed.
#[local] Hint Resolve ticks_activate_run ticks_insert_project_run : ticks.
Lemma ticks_lease_run i sk owner now secs node hint wp rm key acc :
  ticks (lease_run i sk owner now secs node hint wp rm key acc).
Proof. unfold lease_run, next_fencing_token, skip_node, prepare_node. ticks. Qed.
Lemma ticks_resume_run i now node hint wp rm key id acc :
  ticks (resume_run i now node hint wp rm key id acc).
Proof. unfold resume_run, skip_node, prepare_node. ticks. Qed.
#[local] Hint Resolve ticks_lease_run ticks_resume_run : ticks.
Lemma ticks_prepare_work_point i sk owner now secs node hint wp acc :
  ticks (prepare_work_point i sk owner now secs node hint wp acc).
Proof. unfold prepare_work_point. ticks. Qed.
#[local] Hint Resolve ticks_prepare_work_point : ticks.
Lemma ticks_prepare_candidate i view sk owner now secs max acc id :
  ticks (prepare_candidate i view sk owner now secs max acc id).
Proof. unfold prepare_candidate, skip_node. ticks. Qed.

(** The candidates of a preparation, and what was prepared for them. *)
Lemma prepare_in_transaction_effect i view secs w res w' :
  prepare_in_transaction i view secs w = Ok res w' -> wf_runs (runs w) -> (1 <= secs <= 86400)%Z ->
  exists n now acc,
    (w_clock w <= n < w_clock w')%nat /\ rfc3339_format (utc_now n) = Some now /\
    wf_runs (runs w') /\
    granted (utc_now n) (map tlease_of (runs w)) (map tlease_of (runs w')) /\
    Forall (sound i now w') (pp_prepared acc) /\
    (length (pp_prepared acc) <= effective_max_workers i view)%nat /\
    wpr_dispatches res = map (fun '(node, hint, project_run) =>
      workflow_dispatch_from_parts
        (mkWorkflowDispatchInput (normalize_scope_key_value (pw_scope_key i)) (wv_source view)
           (fst (fst (first_phase (wv_execution_plan view)))) node hint
           (pw_adapter_id i) (pw_capabilities i) project_run (wv_evidence_policy view)))
      (pp_prepared acc) /\
    forall r, r ∈ runs w -> pr_status r <> ProjectRunStatus.Claimed -> r ∈ runs w'.
Proof.
  unfold prepare_in_transaction. intros Hr Hwf Hsecs.
  destruct (first_phase (wv_execution_plan view)) as [[phase mode] ids] eqn:Ep. tx_inv.
  pose proof (now_string_read _ _ _ R) as (n & Hn & Hnow). apply now_string_Ok in R as [_ E].
  assert (w_clock s <= w_clock s0)%nat as Hticks.
  { eapply (ticks_for_acc ids _ _); [|exact R0]. intros. apply ticks_prepare_candidate. }
  apply (prepare_loop _ _ _ _ _ _ _ _ n) in R0 as (Hwf' & Ht & Hs & Hmax & Hkeep);
    [|done|done|by rewrite E|apply Forall_nil; done|simpl; lia].
  exists n, a, a0. rewrite E in Ht, Hkeep. split_and!; [lia|lia|done..].
Qed.

Lemma workflow_view_reads {X} (f : World -> X) sk ty id : keeps f (workflow_view_in_scope sk ty id).
Proof.
  unfold workflow_view_in_scope, load_all_graph_nodes, load_all_graph_edges,
    find_runnable_graph_work, runnable_of_node, pending_ends, list_project_runs_in_scope. frame.
Qed.

Lemma prepare_workflow_effect i w res w' :
  prepare_workflow i w = Ok res w' ->
  exists view, prepare_in_transaction i view (pw_lease_seconds i) w = Ok res w' /\
    (1 <= pw_lease_seconds i <= 86400)%Z /\ (1 <= pw_max_workers i <= 3)%nat.
Proof.
  unfold prepare_workflow. intros Hr. tx_inv. apply andb_prop in H0 as [?%Nat.leb_le ?%Nat.leb_le].
  apply normalize_lease_seconds_Ok in R3 as (-> & Hs & ->).
  apply (workflow_view_reads (fun w => w)) in R4.
  apply (keeps_require_non_empty (fun w => w)) in R, R0, R1. simpl in *. subst.
  eexists. split; [exact Hr|]. split; [done|lia].
Qed.

(** ** Recording a result *)

(** The result names the run it is for, with its token and its key. *)
Definition addressed (existing : ProjectRunRecord) (result : WorkflowWorkerResult) : Prop :=
  wwr_dispatch_id result = "dispatch-" +:+ pr_id existing /\
  pr_idempotency_key existing = Some (wwr_idempotency_key result) /\
  wwr_fencing_token result = pr_fencing_token existing.

Lemma check_result_binding_Ok existing result w u w' :
  check_result_binding existing result w = Ok u w' <-> w' = w /\ addressed existing result.
Proof.
  unfold check_result_binding, addressed. rewrite bind_Ok. setoid_rewrite guard_or_Ok.
  setoid_rewrite bind_Ok. setoid_rewrite guard_or_Ok. setoid_rewrite bool_decide_eq_true.
  destruct u. naive_solver.
Qed.

Lemma check_worker_result_reads {X} (f : World -> X) r : keeps f (check_worker_result r).
Proof. unfold check_worker_result. frame. Qed.
Lemma check_result_node_reads {X} (f : World -> X) e n r : keeps f (check_result_node e n r).
Proof. unfold check_result_node. frame. Qed.
#[local] Hint Resolve check_worker_result_reads check_result_node_reads : frame.

Definition recorded (result : WorkflowWorkerResult) (evidence_id : string)
    (existing : ProjectRunRecord) (now : string) (r : ProjectRunRecord) : ProjectRunRecord :=
  if bool_decide (pr_fencing_token r = wwr_fencing_token result) then
    let status := workflow_result_project_run_status (wwr_status result) in
    r <| pr_status := status |>
      <| pr_evidence := evidence_with_result (pr_evidence existing) evidence_id
                          (wwr_idempotency_key result) |>
      <| pr_completed_at := if bool_decide (status = ProjectRunStatus.Completed)
                            then Some now else None |>
      <| pr_revision ::= Z.succ |> <| pr_updated_at := now |>
  else r.

(** What a new result does to the runs: it ends its run. *)
Definition records_run (i : RecordWorkflowResultInput) (w w' : World)
    (res : WorkflowResultWriteback) : Prop :=
  exists evidence_id,
  owner_effect (wwr_project_run_id (rwi_result i)) (Some (wwr_fencing_token (rwi_result i)))
    (recorded (rwi_result i) evidence_id)
    (fun existing _ => run_is_terminal (pr_status existing) = false /\
       addressed existing (rwi_result i) /\
       wwr_idempotency_key (rwi_result i) ∉ ev_workflow_result_keys (pr_evidence existing))
    w w' (wrw_project_run res).

(** A result recorded before: answered with the run as it is. *)
Definition replays_result (i : RecordWorkflowResultInput) (w w' : World)
    (res : WorkflowResultWriteback) : Prop :=
  w' = w /\
  find_by pr_id (wwr_project_run_id (rwi_result i)) (runs w) = Some (wrw_project_run res) /\
  addressed (wrw_project_run res) (rwi_result i) /\
  wwr_idempotency_key (rwi_result i) ∈ ev_workflow_result_keys (pr_evidence (wrw_project_run res)) /\
  res = mkWorkflowResultWriteback (wrw_project_run res) None None None true.

#[local] Hint Extern 6 (keeps runs _) => apply keeps_runs; solve [frame] : frame.
Lemma insert_evidence_records sk node result c r now :
  keeps runs (insert_workflow_result_evidence sk node result c r now).
Proof.
  unfold insert_workflow_result_evidence, insert_graph_node, update_db. frame.
Qed.
Lemma insert_attachment_records node ev result c r now :
  keeps runs (insert_workflow_result_attachment node ev result c r now).
Proof.
  unfold insert_workflow_result_attachment, insert_graph_edge, edge_event, update_db.
  frame.
Qed.
Lemma update_node_records node st c r now :
  keeps runs (update_workflow_node_status_in_transaction node st c r now).
Proof.
  unfold update_workflow_node_status_in_transaction, update_graph_node_row, node_event, update_db.
  frame.
Qed.
Lemma insert_evidence_ticks sk node result c r now :
  ticks (insert_workflow_result_evidence sk node result c r now).
Proof. unfold insert_workflow_result_evidence, insert_graph_node. ticks. Qed.
Lemma insert_attachment_ticks node ev result c r now :
  ticks (insert_workflow_result_attachment node ev result c r now).
Proof. unfold insert_workflow_result_attachment, insert_graph_edge, edge_event. ticks. Qed.
Lemma update_node_ticks node st c r now :
  ticks (update_workflow_node_status_in_transaction node st c r now).
Proof.
  unfold update_workflow_node_status_in_transaction, update_graph_node_row, node_event. ticks.
Qed.
#[local] Hint Resolve insert_evidence_ticks insert_attachment_ticks update_node_ticks : ticks.

Lemma write_back_runs i sk now existing node w res w' :
  write_back i sk now existing node w = Ok res w' ->
  exists evidence,
    wrw_evidence res = Some evidence /\ is_Some (wrw_attachment res) /\
    is_Some (wrw_status_update res) /\ wrw_replayed res = false /\
    runs w' = update_where (fun r => bool_decide (pr_id r = pr_id existing))
      (recorded (rwi_result i) (pn_id evidence) existing now) (runs w) /\
    find_by pr_id (wwr_project_run_id (rwi_result i)) (runs w') = Some (wrw_project_run res).
Proof.
  unfold write_back. intros Hr. tx_inv.
  match goal with
  | Re : insert_workflow_result_evidence _ _ _ _ _ _ _ = Ok ?ev _,
    Ra : insert_workflow_result_attachment _ _ _ _ _ _ _ = Ok ?at_ _,
    Rn : update_workflow_node_status_in_transaction _ _ _ _ _ _ = Ok ?st _,
    Ru : update_db _ _ = Ok _ _, Rl : load_project_run _ _ = Ok _ _, Rr : rows _ _ = Ok _ _ |- _ =>
      apply insert_evidence_records in Re; apply insert_attachment_records in Ra;
      apply update_node_records in Rn; apply update_runs_Ok in Ru;
      apply load_project_run_Ok in Rl as [Hf ->]; apply (proj1 (reads_Ok _ _ _ _)) in Rr as [-> ->];
      exists ev end.
  track_all. simpl.
  rewrite update_where_and in *.
  repeat match goal with E : runs ?s = _ |- _ => is_var s; rewrite E in *; clear E end.
  by split_and!.
Qed.

Lemma write_back_ticks i sk now existing node : ticks (write_back i sk now existing node).
Proof. unfold write_back. ticks. Qed.

Lemma record_effect i w res w' :
  record_workflow_result i w = Ok res w' -> records_run i w w' res \/ replays_result i w w' res.
Proof.
  unfold record_workflow_result. intros Hr. tx_inv.
  apply (check_worker_result_reads (fun w => w)) in R.
  apply (keeps_ensure_in_scope (fun w => w)) in R0, R1. simpl in *. subst.
  apply load_project_run_Ok in R2 as [Hf ->]. apply check_result_binding_Ok in R3 as [-> Hb].
  case_bool_decide as Hk; tx_inv; [right|left].
  { split_and!; [done|exact Hf|done..]. }
  pose proof (now_string_read _ _ _ R) as Hread. apply now_string_Ok in R as [_ E].
  match goal with
  | Rc : require_current_lease _ _ _ _ = Ok ?u _, Rg : load_graph_node _ _ = Ok _ _,
    Rn : check_result_node _ _ _ _ = Ok _ _ |- _ =>
      destruct u; apply require_current_lease_Ok in Rc as [Hc ->];
      apply load_by_Ok in Rg as [_ ->]; apply (check_result_node_reads (fun w => w)) in Rn end.
  simpl in *. subst.
  pose proof (write_back_ticks _ _ _ _ _ _ _ _ Hr).
  apply write_back_runs in Hr as (evidence & _ & _ & _ & _ & Hruns & Hf').
  pose proof (find_by_Some _ _ _ _ Hf) as [_ Hid]. rewrite Hid, E in Hruns.
  exists (pn_id evidence), a2, a4. split_and!; [done|done|read_within| |done|done|done..].
  by apply negb_true_iff.
Qed.

Lemma records_run_timed i w w' res :
  records_run i w w' res -> wf_runs (runs w) ->
  exists n, (w_clock w <= n < w_clock w')%nat /\ timed n (runs w) (runs w').
Proof.
  intros [eid Hr] Hwf. eapply owner_timed; [exact Hr|done|].
  intros ex now t (Hnt & (_ & _ & Htok) & _) _ _ _. unfold recorded.
  rewrite bool_decide_true by done. right. left. unfold tlease_of. simpl.
  by destruct (wwr_status (rwi_result i)).
Qed.
Lemma records_run_wf i w w' res :
  records_run i w w' res -> wf_runs (runs w) -> wf_runs (runs w').
Proof.
  intros [eid Hr] Hwf. eapply owner_wf; [exact Hr| |done].
  intros ex now (Hnt & (_ & _ & Htok) & _) _ [_ ?]. unfold recorded.
  rewrite bool_decide_true by done. split; [done|].
  split; [by destruct (wwr_status (rwi_result i))|done].
Qed.

(** ** Histories of every operation that writes project runs *)

(** A step that did something did it at a time between its first and its last
    reading of the clock. *)
Definition timed_between (w w' : World) : Prop :=
  (w_clock w <= w_clock w')%nat /\ (runs w' = runs w \/
   exists n, (w_clock w <= n < w_clock w')%nat /\ timed n (runs w) (runs w')).

Lemma ticks_lease_op op : ticks (lease_op op).
Proof.
  destruct op; simpl.
  - unfold claim_project_run, claim_checks, claim_owner, claim_replay.
    repeat (apply ticks_claim_new_run || ticks_step).
  - unfold activate_project_run, owned_run, update_project_run. ticks.
  - unfold heartbeat_project_run, owned_run. ticks.
  - unfold release_project_run, owned_run, update_project_run. ticks.
  - unfold add_project_run_evidence, owned_run, update_project_run. ticks.
Qed.

Lemma timed_between_refl w : timed_between w w.
Proof. by split; [|left]. Qed.

Lemma lease_step_timed w w' :
  lease_step w w' -> wf_runs (runs w) -> wf_runs (runs w') /\ timed_between w w'.
Proof.
  intros Hs Hwf. destruct Hs as [op w|i w|w w' E Hle].
  - unfold committed. destruct (lease_op op w) as [res w'|e] eqn:Hr; [|by split; [|apply timed_between_refl]].
    split; [by eapply (lease_op_sim text_laws)|]. split; [by eapply ticks_lease_op|].
    by eapply lease_op_timed.
  - unfold committed. destruct (record_workflow_result i w) as [res w'|e] eqn:Hr;
      [|by split; [|apply timed_between_refl]].
    apply record_effect in Hr as [Hr|(-> & _)]; [|by split; [|apply timed_between_refl]].
    split; [by eapply records_run_wf|].
    pose proof (records_run_timed _ _ _ _ Hr Hwf) as (n & Hn & Ht).
    split; [lia|]. right. by exists n.
  - change (runs w' = runs w) in E. rewrite E. split; [done|]. by split; [|left].
Qed.

Lemma run_step_timed w w' :
  run_step w w' -> wf_runs (runs w) -> wf_runs (runs w') /\ timed_between w w'.
Proof.
  intros Hs Hwf. destruct Hs as [w w' Hs|i w]; [by apply lease_step_timed|].
  unfold committed. destruct (prepare_workflow i w) as [res w'|e] eqn:Hr;
    [|by split; [|apply timed_between_refl]].
  apply prepare_workflow_effect in Hr as (view & Hr & Hsecs & _).
  apply prepare_in_transaction_effect in Hr as (n & now & acc & Hn & _ & Hwf' & Ht & _); [|done..].
  split; [done|]. split; [lia|]. right. exists n. split; [done|]. by apply granted_timed.
Qed.

(** The abstraction: the next reading and the leases. *)
Definition timed_sim (w : World) (s : nat * list TimedLease) : Prop :=
  s = (w_clock w, map tlease_of (runs w)) /\ wf_runs (runs w).

Lemma timed_between_sim w w' :
  timed_between w w' ->
  rtc (timed_trans utc_now) (w_clock w, map tlease_of (runs w)) (w_clock w', map tlease_of (runs w')).
Proof.
  intros [Hle [->|(n & Hn & Ht)]].
  - by apply rtc_once, tt_tick.
  - eapply rtc_l; [apply (tt_tick _ _ n); lia|].
    eapply rtc_r; [exact Ht|]. apply tt_tick. lia.
Qed.

Lemma run_history_timed w w' :
  rtc run_step w w' -> wf_runs (runs w) ->
  wf_runs (runs w') /\
  rtc (timed_trans utc_now) (w_clock w, map tlease_of (runs w)) (w_clock w', map tlease_of (runs w')).
Proof.
  induction 1 as [|w1 w2 w3 Hs _ IH]; intros Hwf; [done|].
  destruct (run_step_timed _ _ Hs Hwf) as [Hwf' Ht]. destruct (IH Hwf') as [? IH'].
  split; [done|]. etrans; [by apply timed_between_sim|exact IH'].
Qed.

(** A world reached from one without project runs. *)
Definition leased_world (w : World) : Prop := exists w0, runs w0 = [] /\ rtc run_step w0 w.

Lemma leased_world_wf w : leased_world w -> wf_runs (runs w).
Proof.
  intros (w0 & E & Hs). eapply run_history_timed; [exact Hs|]. rewrite E. split; constructor.
Qed.
End LeaseTime.
