(* ===== verification/GraphFacts.v ===== *)
(** What the operations of the planning graph promise.

    [graph_inv] is the well-formedness of a graph: endpoints exist, lie in
    the edge's scope, differ and have kinds the edge may connect; active
    edges are unique; and the [decomposes-to] and [depends-on] edges in force
    form no cycle.  [graph_trans] is the specification of a change to the
    graph, and keeps the invariant; [graph_op_sim] shows that the detailed
    operations of [Graph] only make such changes. *)
From stdpp Require Import relations.
From S2P Require Import Prelude Text Json Model Tx Table Store Walk EdgeRules Validation Frames ProjectRuns Graph WorkflowPlan Workflow.

(** ** The invariant *)

(** What no operation changes in a node: its id, its scope and its kind. *)
Definition NodeShape : Type := string * string * PlanningNodeKind.
Definition node_shape (n : PlanningGraphNode) : NodeShape := (pn_id n, pn_scope_key n, pn_kind n).
Definition shape_id (s : NodeShape) : string := fst (fst s).

Definition edge_wf (shapes : list NodeShape) (e : PlanningGraphEdge) : Prop :=
  pe_source_node_id e <> pe_target_node_id e /\
  exists source_kind target_kind,
    find_by shape_id (pe_source_node_id e) shapes
      = Some (pe_source_node_id e, pe_scope_key e, source_kind) /\
    find_by shape_id (pe_target_node_id e) shapes
      = Some (pe_target_node_id e, pe_scope_key e, target_kind) /\
    edge_kind_pair_ok (pe_kind e) source_kind target_kind = true.

Definition active_unique (edges : list PlanningGraphEdge) : Prop :=
  forall e e', e ∈ edges -> e' ∈ edges -> same_active_edge e e' = true -> pe_id e = pe_id e'.
Definition no_cycles (edges : list PlanningGraphEdge) : Prop :=
  forall k, is_acyclic_kind k = true -> acyclic (edge_rel k edges).

Record graph_inv (shapes : list NodeShape) (edges : list PlanningGraphEdge) : Prop := {
  gi_nodes : NoDup (map shape_id shapes);
  gi_edges : NoDup (map pe_id edges);
  gi_wf : forall e, e ∈ edges -> edge_wf shapes e;
  gi_unique : active_unique edges;
  gi_acyclic : no_cycles edges }.

(** ** The specification *)

(** What becoming (or staying) active requires of an edge. *)
Definition activation_ok (edges : list PlanningGraphEdge) (e : PlanningGraphEdge) : Prop :=
  is_active e = true ->
  (forall e', e' ∈ edges -> pe_id e' <> pe_id e -> same_active_edge e e' = false) /\
  (is_acyclic_kind (pe_kind e) = true ->
   ~ rtc (edge_rel (pe_kind e) edges) (pe_target_node_id e) (pe_source_node_id e)).

Definition same_ends (e e' : PlanningGraphEdge) : Prop :=
  pe_id e' = pe_id e /\ pe_scope_key e' = pe_scope_key e /\ pe_kind e' = pe_kind e /\
  pe_source_node_id e' = pe_source_node_id e /\ pe_target_node_id e' = pe_target_node_id e.

Inductive graph_trans (shapes : list NodeShape) (edges : list PlanningGraphEdge)
    : list NodeShape -> list PlanningGraphEdge -> Prop :=
| gt_stay : graph_trans shapes edges shapes edges
| gt_node s : shape_id s ∉ map shape_id shapes -> graph_trans shapes edges (shapes ++ [s]) edges
| gt_edge e :
    pe_id e ∉ map pe_id edges -> edge_wf shapes e -> activation_ok edges e ->
    graph_trans shapes edges shapes (edges ++ [e])
| gt_update id f old :
    find_by pe_id id edges = Some old -> (forall e, same_ends e (f e)) ->
    activation_ok edges (f old) ->
    graph_trans shapes edges shapes (update_where (fun e => bool_decide (pe_id e = id)) f edges).

(** ** The specification keeps the invariant *)
Lemma edge_wf_ends shapes e e' : same_ends e e' -> edge_wf shapes e -> edge_wf shapes e'.
Proof. unfold edge_wf. by intros (_ & -> & -> & -> & ->). Qed.

Lemma is_active_true e : is_active e = true <-> pe_status e = "active".
Proof. unfold is_active. by rewrite bool_decide_eq_true. Qed.

Lemma same_active_edge_true e e' :
  same_active_edge e e' = true <->
  is_active e = true /\ is_active e' = true /\ pe_scope_key e = pe_scope_key e' /\
  pe_kind e = pe_kind e' /\ pe_source_node_id e = pe_source_node_id e' /\
  pe_target_node_id e = pe_target_node_id e'.
Proof.
  unfold same_active_edge. rewrite !andb_true_iff, !bool_decide_eq_true. tauto.
Qed.
Lemma same_active_edge_sym e e' : same_active_edge e e' = same_active_edge e' e.
Proof. apply eq_true_iff_eq. rewrite !same_active_edge_true. naive_solver. Qed.

(** An edge that is not active, or whose target does not reach its source,
    may join the edges. *)
Lemma no_cycles_extend edges edges' e :
  no_cycles edges -> activation_ok edges e ->
  (forall k x y, edge_rel k edges' x y -> edge_rel k edges x y \/
     (is_active e = true /\ pe_kind e = k /\ pe_source_node_id e = x /\ pe_target_node_id e = y)) ->
  no_cycles edges'.
Proof.
  intros Ha Hact Hsub k Hk. destruct (is_active e) eqn:Ea.
  - destruct (decide (pe_kind e = k)) as [<-|Hne].
    + eapply acyclic_sub.
      2: { apply (add_edge_acyclic _ (pe_source_node_id e) (pe_target_node_id e) (Ha _ Hk)).
           by apply (Hact Ea). }
      intros x y Hxy. destruct (Hsub _ _ _ Hxy) as [?|(_ & _ & <- & <-)]; [by left|by right].
    + eapply acyclic_sub; [|by apply Ha]. intros x y Hxy.
      destruct (Hsub _ _ _ Hxy) as [?|(_ & ? & _)]; [done|congruence].
  - eapply acyclic_sub; [|by apply Ha]. intros x y Hxy.
    destruct (Hsub _ _ _ Hxy) as [?|(? & _)]; [done|congruence].
Qed.

Lemma insert_edge_inv shapes edges e :
  graph_inv shapes edges -> pe_id e ∉ map pe_id edges -> edge_wf shapes e ->
  activation_ok edges e -> graph_inv shapes (edges ++ [e]).
Proof.
  intros [Hn He Hwf Hu Ha] Hid Hw Hact. split; [done| | | |].
  - rewrite map_app. apply NoDup_app. split_and!; [done| |apply NoDup_singleton].
    by intros i Hi ->%list_elem_of_singleton.
  - intros x [Hx|Hx%list_elem_of_singleton]%elem_of_app; [by apply Hwf|by subst].
  - assert (forall x, x ∈ edges -> same_active_edge e x = true -> False) as Hno.
    { intros x Hx Hs. pose proof (proj1 (same_active_edge_true _ _) Hs) as [Hae _].
      destruct (Hact Hae) as [Hdup _]. rewrite Hdup in Hs; [done|done|].
      intros E. apply Hid. rewrite <- E. by apply list_elem_of_fmap_2. }
    intros x y [Hx|Hx%list_elem_of_singleton]%elem_of_app
      [Hy|Hy%list_elem_of_singleton]%elem_of_app Hs; [by apply Hu| | |by subst].
    + subst. rewrite same_active_edge_sym in Hs. by destruct (Hno x).
    + subst. by destruct (Hno y).
  - eapply no_cycles_extend; [done|exact Hact|].
    intros k x y (z & [Hz|Hz%list_elem_of_singleton]%elem_of_app & Hk & Hs & Hx & Hy).
    + left. by exists z.
    + right. subst. by rewrite is_active_true.
Qed.

Lemma find_by_only {R} (key : R -> string) id l old r :
  NoDup (map key l) -> find_by key id l = Some old -> r ∈ l -> key r = id -> r = old.
Proof. intros Hn Hf Hr <-. rewrite (find_by_elem key l r Hn Hr) in Hf. by injection Hf. Qed.

Lemma update_edge_inv shapes edges id f old :
  graph_inv shapes edges -> find_by pe_id id edges = Some old ->
  (forall e, same_ends e (f e)) -> activation_ok edges (f old) ->
  graph_inv shapes (update_where (fun e => bool_decide (pe_id e = id)) f edges).
Proof.
  intros [Hn He Hwf Hu Ha] Hf Hends Hact.
  destruct (Hends old) as (Hold & _). destruct (find_by_Some _ _ _ _ Hf) as [Hin Hid].
  assert (forall e, e ∈ update_where (fun e => bool_decide (pe_id e = id)) f edges ->
            e = f old \/ (e ∈ edges /\ pe_id e <> id)) as Hcase.
  { intros e (e0 & He0 & ->)%elem_of_update_where. case_bool_decide as Heq; [left|by right].
    by rewrite (find_by_only _ _ _ _ _ He Hf He0 Heq). }
  assert (forall x, x ∈ edges -> pe_id x <> id -> same_active_edge (f old) x = true -> False) as Hno.
  { intros x Hx Hne Hs. pose proof (proj1 (same_active_edge_true _ _) Hs) as [Hae _].
    destruct (Hact Hae) as [Hdup _]. rewrite Hdup in Hs; [done|done|]. congruence. }
  split; [done| | | |].
  - rewrite keys_update_where; [done|]. intros e. by destruct (Hends e).
  - intros e [->|[? _]]%Hcase; [|by apply Hwf]. by eapply edge_wf_ends, Hwf.
  - intros x y [->|[Hx Hxi]]%Hcase [->|[Hy Hyi]]%Hcase Hs; [done| | |by apply Hu].
    + by destruct (Hno y).
    + rewrite same_active_edge_sym in Hs. by destruct (Hno x).
  - eapply no_cycles_extend; [done|exact Hact|].
    intros k x y (z & [->|[Hz _]]%Hcase & Hk & Hs & Hx & Hy).
    + right. by rewrite is_active_true.
    + left. by exists z.
Qed.

Lemma graph_trans_inv shapes edges shapes' edges' :
  graph_trans shapes edges shapes' edges' -> graph_inv shapes edges -> graph_inv shapes' edges'.
Proof.
  intros [|s Hs|e Hid Hw Hact|id f old Hf Hends Hact] Hi; [done| |by apply insert_edge_inv|
    by eapply update_edge_inv].
  destruct Hi as [Hn He Hwf Hu Ha]. split; [|done| |done|done].
  - rewrite map_app. apply NoDup_app. split_and!; [done| |apply NoDup_singleton].
    by intros i Hi ->%list_elem_of_singleton.
  - intros e Hin. destruct (Hwf e Hin) as (Hne & sk & tk & Hs1 & Ht1 & Hk).
    split; [done|]. exists sk, tk. split_and!; [by apply find_by_app_l..|done].
Qed.

Section GraphFacts.
Context `{External}.

Definition shapes (w : World) : list NodeShape := map node_shape (db_nodes (w_db w)).
Definition edges (w : World) : list PlanningGraphEdge := db_edges (w_db w).

Lemma keeps_shapes {A} (m : M A) : keeps records m -> keeps shapes m.
Proof.
  intros Hm. eapply keeps_proj; [exact Hm|]. intros s s' E. unfold shapes. f_equal.
  exact (f_equal db_nodes E).
Qed.
Lemma keeps_edges {A} (m : M A) : keeps records m -> keeps edges m.
Proof.
  intros Hm. eapply keeps_proj; [exact Hm|]. intros s s' E. exact (f_equal db_edges E).
Qed.

(** ** The statements *)
Lemma find_by_shape id nodes :
  find_by shape_id id (map node_shape nodes) = node_shape <$> find_by pn_id id nodes.
Proof.
  induction nodes as [|n nodes IH]; simpl; [done|].
  change (shape_id (node_shape n)) with (pn_id n). by case_decide.
Qed.

Lemma load_graph_node_Ok id w n w' :
  load_graph_node id w = Ok n w' ->
  w' = w /\ pn_id n = id /\ find_by shape_id id (shapes w) = Some (node_shape n).
Proof.
  unfold load_graph_node, load_by, rows. intros Hr. tx_inv. split; [done|].
  match goal with Hf : find_by pn_id id _ = Some n |- _ => rename Hf into Hf' end.
  unfold shapes. rewrite find_by_shape, Hf'. by destruct (find_by_Some _ _ _ _ Hf').
Qed.

Lemma load_graph_edge_Ok id w e w' :
  load_graph_edge id w = Ok e w' -> w' = w /\ find_by pe_id id (edges w) = Some e.
Proof. unfold load_graph_edge, load_by, rows. intros Hr. by tx_inv. Qed.

Lemma load_endpoint_Ok field id w n w' :
  load_endpoint field id w = Ok n w' ->
  w' = w /\ pn_id n = id /\ find_by shape_id id (shapes w) = Some (node_shape n).
Proof. unfold load_endpoint. intros Hr. tx_inv. by apply load_graph_node_Ok in Hr. Qed.

Lemma insert_graph_node_Ok r w u w' :
  insert_graph_node r w = Ok u w' ->
  shapes w' = shapes w ++ [node_shape r] /\ edges w' = edges w /\ pn_id r ∉ map shape_id (shapes w).
Proof.
  unfold insert_graph_node. intros Hr. tx_inv.
  apply (proj1 (reads_Ok _ _ _ _)) in R as [-> ->].
  apply (proj1 (insert_row_Some _ _ _ _)) in H0 as [-> Hid].
  unfold update_db in Hr. tx_inv. unfold shapes. simpl. rewrite map_app. split_and!; [done..|].
  rewrite map_map. intros (n & E & Hn)%list_elem_of_fmap. by apply (Hid n).
Qed.

Lemma update_graph_node_row_Ok id f w u w' :
  update_graph_node_row id f w = Ok u w' -> (forall n, node_shape (f n) = node_shape n) ->
  shapes w' = shapes w /\ edges w' = edges w.
Proof.
  unfold update_graph_node_row, update_db. intros Hr Hf. tx_inv. split; [|done].
  unfold shapes, update_where. simpl. rewrite map_map. apply map_ext. intros n.
  by destruct (bool_decide _).
Qed.

Lemma insert_graph_edge_Ok r w u w' :
  insert_graph_edge r w = Ok u w' ->
  shapes w' = shapes w /\ edges w' = edges w ++ [r] /\ pe_id r ∉ map pe_id (edges w).
Proof.
  unfold insert_graph_edge, update_db. intros Hr. tx_inv.
  apply (proj1 (reads_Ok _ _ _ _)) in R as [-> ->].
  apply (proj1 (insert_row_Some _ _ _ _)) in H0 as [-> Hid].
  split_and!; [done..|]. intros (e & E & He)%list_elem_of_fmap. by apply (Hid e).
Qed.

Lemma update_graph_edge_row_Ok id f w u w' :
  update_graph_edge_row id f w = Ok u w' ->
  shapes w' = shapes w /\
  edges w' = update_where (fun e => bool_decide (pe_id e = id)) f (edges w).
Proof.
  unfold update_graph_edge_row, update_db. intros Hr. tx_inv.
  by apply (proj1 (reads_Ok _ _ _ _)) in R as [-> ->].
Qed.

Lemma check_activation_Ok dt ct sk kind src tgt except w u w' :
  check_activation dt ct sk kind src tgt except w = Ok u w' ->
  w' = w /\ active_duplicates sk kind src tgt except (edges w) = [] /\
  (is_acyclic_kind kind = true -> ~ rtc (edge_rel kind (edges w)) tgt src).
Proof.
  unfold check_activation. intros Hr. tx_inv.
  apply (proj1 (reads_Ok _ _ _ _)) in R as [-> ->].
  assert (active_duplicates sk kind src tgt except (edges w) = []) as Hd.
  { change (db_edges (w_db w)) with (edges w) in H0.
    by destruct (active_duplicates sk kind src tgt except (edges w)). }
  destruct (is_acyclic_kind kind); tx_inv; [|done].
  destruct (would_create_graph_cycle_run src tgt kind w) as (b & E & Hb).
  rewrite E in R. injection R as <- <-. split_and!; [done..|]. intros _ Hp.
  apply Hb in Hp. subst. done.
Qed.

(** No duplicate to be found is no duplicate to collide with. *)
Lemma no_duplicates e edges except :
  active_duplicates (pe_scope_key e) (pe_kind e) (pe_source_node_id e) (pe_target_node_id e)
    except edges = [] ->
  forall e', e' ∈ edges -> Some (pe_id e') <> except -> same_active_edge e e' = false.
Proof.
  intros Hd e' He' Hne. destruct (same_active_edge e e') eqn:Es; [exfalso|done].
  apply same_active_edge_true in Es as (_ & Ha' & Es & Ek & Esrc & Et).
  assert (e' ∈ active_duplicates (pe_scope_key e) (pe_kind e) (pe_source_node_id e)
                 (pe_target_node_id e) except edges) as Hin; [|rewrite Hd in Hin; set_solver].
  apply elem_of_select_where. split; [done|].
  by rewrite Ha', !bool_decide_true, bool_decide_false by done.
Qed.

Lemma check_endpoints_Ok kind src tgt sk w u w' e :
  check_endpoints kind src tgt sk w = Ok u w' ->
  pe_kind e = kind -> pe_source_node_id e = src -> pe_target_node_id e = tgt ->
  pe_scope_key e = sk ->
  w' = w /\ edge_wf (shapes w) e.
Proof.
  unfold check_endpoints, validate_edge_kind_pair. intros Hr Ek Es Et Esk. tx_inv. bool_props.
  apply load_endpoint_Ok in R as (-> & Hi & Hs). apply load_endpoint_Ok in R0 as (-> & Hi' & Ht).
  split; [done|]. unfold edge_wf. split; [congruence|].
  exists (pn_kind a), (pn_kind a0). unfold node_shape in *. subst. 
  rewrite Hs, Ht. split_and!; [by repeat f_equal..|done].
Qed.

(** ** The operations *)
Lemma keeps_node_event i c r e p : keeps records (node_event i c r e p).
Proof. apply record_event_records. Qed.
Lemma keeps_edge_event i n c r e p : keeps records (edge_event i n c r e p).
Proof. apply record_event_records. Qed.
Lemma keeps_validate_and_report ty id : keeps records (validate_and_report ty id).
Proof. apply refresh_records. Qed.
Lemma keeps_revised_status {X} (f : World -> X) i e : keeps f (revised_status i e).
Proof. unfold revised_status. frame. Qed.
Lemma keeps_finalization_findings n : keeps w_db (finalization_findings n).
Proof. unfold finalization_findings. frame. Qed.
Lemma keeps_check_finalization {X} (f : World -> X) i r fs : keeps f (check_finalization i r fs).
Proof. unfold check_finalization. frame. Qed.
Lemma keeps_require_acceptance {X} (f : World -> X) fi i e : keeps f (require_acceptance fi i e).
Proof. unfold require_acceptance. frame. Qed.
#[local] Hint Resolve keeps_node_event keeps_edge_event keeps_validate_and_report
  keeps_revised_status keeps_finalization_findings keeps_check_finalization
  keeps_require_acceptance : frame.

(** Turns every run of an inverted operation into what it does to the graph. *)
Ltac graph_fact R :=
  match type of R with
  | load_graph_node _ _ = Ok _ _ => apply load_graph_node_Ok in R as (-> & ?Hid & ?Hf)
  | load_graph_edge _ _ = Ok _ _ => apply load_graph_edge_Ok in R as [-> ?Hf]
  | insert_graph_node _ _ = Ok _ _ => apply insert_graph_node_Ok in R as (?Es & ?Ee & ?Hfresh)
  | update_graph_node_row _ _ _ = Ok _ _ =>
      apply update_graph_node_row_Ok in R as [?Es ?Ee]; [|done]
  | insert_graph_edge _ _ = Ok _ _ => apply insert_graph_edge_Ok in R as (?Es & ?Ee & ?Hfresh)
  | update_graph_edge_row _ _ _ = Ok _ _ => apply update_graph_edge_row_Ok in R as [?Es ?Ee]
  | ?m ?s = Ok ?a ?s' =>
      let E := fresh "Es" in let F := fresh "Ee" in
      assert (shapes s' = shapes s) as E
        by (refine (keeps_shapes m _ _ _ _ R); solve [frame]);
      assert (edges s' = edges s) as F
        by (refine (keeps_edges m _ _ _ _ R); solve [frame]);
      clear R
  end.
Ltac graph_facts := repeat match goal with R : ?m ?s = Ok ?a ?s' |- _ => graph_fact R end.
Ltac graph_chain := repeat match goal with
  | E : shapes ?s = _ |- context [shapes ?s] => rewrite E
  | E : edges ?s = _ |- context [edges ?s] => rewrite E
  end.

Lemma create_graph_node_sim i w res w' :
  create_graph_node i w = Ok res w' -> graph_trans (shapes w) (edges w) (shapes w') (edges w').
Proof.
  unfold create_graph_node. intros Hr. tx_inv. graph_facts.
  assert (pn_id (new_node i a7 (normalized_scope_key (cn_scope_key i)) a6) ∉ map shape_id (shapes w)).
  { congruence. }
  graph_chain. by apply gt_node.
Qed.

(** A run of the preflight of an edge that becomes active, or nothing. *)
Lemma activation_check_Ok dt ct e except w u w' :
  (if bool_decide (pe_status e = "active") then
     check_activation dt ct (pe_scope_key e) (pe_kind e) (pe_source_node_id e)
       (pe_target_node_id e) except
   else mret tt) w = Ok u w' ->
  w' = w /\
  forall edges', edges' = edges w ->
    (forall e', e' ∈ edges' -> Some (pe_id e') = except -> pe_id e' = pe_id e) ->
    activation_ok edges' e.
Proof.
  unfold activation_ok. intros Hr. case_bool_decide as Ha.
  - apply check_activation_Ok in Hr as (-> & Hd & Hc). split; [done|]. intros es -> Hex _.
    split; [|done]. intros e' He' Hne. eapply no_duplicates; [exact Hd|done|].
    intros Heq. by apply Hne, Hex.
  - tx_inv. split; [done|]. intros es -> _ Hact%is_active_true. done.
Qed.

Lemma create_graph_edge_sim i w res w' :
  create_graph_edge i w = Ok res w' -> graph_trans (shapes w) (edges w) (shapes w') (edges w').
Proof.
  unfold create_graph_edge. intros Hr. tx_inv.
  match goal with R : now_string _ = Ok ?now _, R' : id_or_new _ _ = Ok ?id _ |- _ =>
    set (e := new_edge i id (normalized_scope_key (ce_scope_key i)) now) in * end.
  match goal with R : check_endpoints _ _ _ _ _ = Ok _ _ |- _ =>
    apply (check_endpoints_Ok _ _ _ _ _ _ _ e) in R as [-> Hwf]; [|done..] end.
  match goal with R : (if _ then check_activation _ _ _ _ _ _ _ else _) _ = Ok _ _ |- _ =>
    apply (activation_check_Ok "" "adding this " e None) in R as [-> Hact] end.
  graph_facts.
  assert (pe_id e ∉ map pe_id (edges w)) by congruence.
  assert (edge_wf (shapes w) e) by congruence.
  assert (activation_ok (edges w) e) by (apply Hact; [congruence|done]).
  graph_chain. by apply gt_edge.
Qed.

(** An inverted edge update: the check of the new row, then the facts. *)
Ltac edge_update :=
  lazymatch goal with
  | Ru : update_graph_edge_row ?id ?f _ = Ok _ _,
    Rc : (if _ then check_activation ?dt ?ct (pe_scope_key ?old) _ _ _ _ else _) _ = Ok _ _
    |- graph_trans _ (edges ?w) _ _ =>
      let Hold := fresh "Hold" in let Hids := fresh "Hids" in let Hok := fresh "Hok" in
      let Hact := fresh "Hact" in
      let Heq := fresh "Heq" in
      pose proof (activation_check_Ok dt ct (f old) (Some id) _ _ _ Rc) as [Heq Hact];
      clear Rc; subst;
      graph_facts;
      assert (find_by pe_id id (edges w) = Some old) as Hold by congruence;
      assert (activation_ok (edges w) (f old)) as Hok
        by (apply Hact; [congruence|]; intros ? _ [= ->]; destruct (find_by_Some _ _ _ _ Hold) as [_ Hids]; exact (eq_sym Hids));
      graph_chain; exact (gt_update _ _ id f old Hold ltac:(done) Hok)
  end.

Lemma update_graph_edge_status_sim i w res w' :
  update_graph_edge_status i w = Ok res w' ->
  graph_trans (shapes w) (edges w) (shapes w') (edges w').
Proof. unfold update_graph_edge_status. intros Hr. tx_inv. edge_update. Qed.

Lemma revise_graph_edge_sim i w res w' :
  revise_graph_edge i w = Ok res w' -> graph_trans (shapes w) (edges w) (shapes w') (edges w').
Proof. unfold revise_graph_edge. intros Hr. tx_inv. edge_update. Qed.

(** The operations on nodes that rewrite a row keep every shape. *)
Ltac nodes_stay := graph_facts; graph_chain; apply gt_stay.

Lemma update_graph_node_status_sim i w res w' :
  update_graph_node_status i w = Ok res w' ->
  graph_trans (shapes w) (edges w) (shapes w') (edges w').
Proof. unfold update_graph_node_status. intros Hr. tx_inv. nodes_stay. Qed.
Lemma revise_graph_node_sim i w res w' :
  revise_graph_node i w = Ok res w' -> graph_trans (shapes w) (edges w) (shapes w') (edges w').
Proof. unfold revise_graph_node. intros Hr. tx_inv. nodes_stay. Qed.
Lemma finalize_graph_node_sim i w res w' :
  finalize_graph_node i w = Ok res w' -> graph_trans (shapes w) (edges w) (shapes w') (edges w').
Proof.
  unfold finalize_graph_node. intros Hr. tx_inv. nodes_stay.
Qed.

(** A node insertion among steps that leave the graph alone. *)
Ltac node_insert :=
  graph_facts; match goal with
  | Hfresh : pn_id (new_node ?i ?id ?sk ?now) ∉ _ |- graph_trans (shapes ?w) _ _ _ =>
      assert (pn_id (new_node i id sk now) ∉ map shape_id (shapes w)) by congruence;
      graph_chain; by apply gt_node
  end.

Lemma upsert_graph_node_sim i w res w' :
  upsert_graph_node i w = Ok res w' -> graph_trans (shapes w) (edges w) (shapes w') (edges w').
Proof.
  unfold upsert_graph_node, overwrite_node. intros Hr. tx_inv.
  destruct (cn_id i) as [eid|]; tx_inv; [|node_insert].
  match goal with R : rows db_nodes _ = Ok ?t _, R' : context [find_by pn_id eid ?t] |- _ =>
    destruct (find_by pn_id eid t) end; tx_inv; [nodes_stay|node_insert].
Qed.

(** *** One type for the guarded operations *)
Inductive GraphOp :=
| CreateNode (i : CreateGraphNodeInput) | UpsertNode (i : CreateGraphNodeInput)
| CreateAcceptance (i : CreateAcceptanceInput) | CreateEvidence (i : CreateEvidenceInput)
| UpdateNodeStatus (i : UpdateGraphNodeStatusInput) | ReviseNode (i : ReviseGraphNodeInput)
| FinalizeNode (i : FinalizeGraphNodeInput)
| CreateEdge (i : CreateGraphEdgeInput) | SatisfyAcceptance (i : SatisfyAcceptanceInput)
| AttachEvidence (i : AttachEvidenceInput)
| UpdateEdgeStatus (i : UpdateGraphEdgeStatusInput) | ReviseEdge (i : ReviseGraphEdgeInput).

Definition drop_result {A} (m : M A) : M unit := _ ← m; mret tt.
Definition graph_op (op : GraphOp) : M unit :=
  match op with
  | CreateNode i => drop_result (create_graph_node i)
  | UpsertNode i => drop_result (upsert_graph_node i)
  | CreateAcceptance i => drop_result (create_acceptance i)
  | CreateEvidence i => drop_result (create_evidence i)
  | UpdateNodeStatus i => drop_result (update_graph_node_status i)
  | ReviseNode i => drop_result (revise_graph_node i)
  | FinalizeNode i => drop_result (finalize_graph_node i)
  | CreateEdge i => drop_result (create_graph_edge i)
  | SatisfyAcceptance i => drop_result (satisfy_acceptance i)
  | AttachEvidence i => drop_result (attach_evidence i)
  | UpdateEdgeStatus i => drop_result (update_graph_edge_status i)
  | ReviseEdge i => drop_result (revise_graph_edge i)
  end.

Lemma drop_result_Ok {A} (m : M A) w u w' : drop_result m w = Ok u w' -> exists a, m w = Ok a w'.
Proof. unfold drop_result. intros Hr. tx_inv. by eexists. Qed.

(** The wrappers reach [create_graph_node] and [create_graph_edge] with the graph as it was. *)
Lemma wrapped_sim {A} (m : M A) s a s' w :
  m s = Ok a s' ->
  (forall s a s', m s = Ok a s' -> graph_trans (shapes s) (edges s) (shapes s') (edges s')) ->
  shapes s = shapes w -> edges s = edges w ->
  graph_trans (shapes w) (edges w) (shapes s') (edges s').
Proof. intros Hr Hm <- <-. by eapply Hm. Qed.

Ltac wrapped R sim :=
  eapply (wrapped_sim _ _ _ _ _ R); [exact (sim _)|clear R; graph_facts; congruence..].

Lemma graph_op_sim op w u w' :
  graph_op op w = Ok u w' -> graph_trans (shapes w) (edges w) (shapes w') (edges w').
Proof.
  destruct op as [i|i|i|i|i|i|i|i|i|i|i|i]; simpl; intros [res Hr]%drop_result_Ok.
  - by eapply create_graph_node_sim.
  - by eapply upsert_graph_node_sim.
  - unfold create_acceptance in Hr. tx_inv. wrapped Hr create_graph_node_sim.
  - unfold create_evidence in Hr. tx_inv. wrapped Hr create_graph_node_sim.
  - by eapply update_graph_node_status_sim.
  - by eapply revise_graph_node_sim.
  - by eapply finalize_graph_node_sim.
  - by eapply create_graph_edge_sim.
  - unfold satisfy_acceptance in Hr. tx_inv. wrapped Hr create_graph_edge_sim.
  - unfold attach_evidence in Hr. tx_inv. wrapped Hr create_graph_edge_sim.
  - by eapply update_graph_edge_status_sim.
  - by eapply revise_graph_edge_sim.
Qed.

(** ** Recording a worker's result *)
Lemma update_runs_graph g w u w' :
  update_db (fun d => d <| db_project_runs ::= g |>) w = Ok u w' ->
  shapes w' = shapes w /\ edges w' = edges w.
Proof. unfold update_db. intros Hr. by tx_inv. Qed.

(** An evidence node and the edge to it: what a result adds to the graph. *)
Definition adds_evidence (result : WorkflowWorkerResult) (sk now : string)
    (node : PlanningGraphNode) (w w' : World) (evidence : PlanningGraphNode)
    (attachment : PlanningGraphEdge) : Prop :=
  evidence = workflow_evidence sk (pn_id evidence) now node result /\
  attachment = workflow_attachment (pe_id attachment) now node evidence result /\
  shapes w' = shapes w ++ [node_shape evidence] /\ edges w' = edges w ++ [attachment] /\
  pn_id evidence ∉ map shape_id (shapes w) /\ pe_id attachment ∉ map pe_id (edges w).

Lemma write_back_graph i sk now existing node w res w' :
  write_back i sk now existing node w = Ok res w' ->
  exists evidence attachment,
    wrw_evidence res = Some evidence /\ wrw_attachment res = Some attachment /\
    adds_evidence (rwi_result i) sk now node w w' evidence attachment.
Proof.
  unfold write_back, insert_workflow_result_evidence, insert_workflow_result_attachment,
    update_workflow_node_status_in_transaction. intros Hr. tx_inv.
  match goal with R : update_db _ _ = Ok _ _ |- _ => apply update_runs_graph in R as [?Es ?Ee] end.
  graph_facts. eexists _, _. split_and!; [done|done|]. unfold adds_evidence. simpl in *.
  split_and!; [done|done|by graph_chain|by graph_chain|congruence|congruence].
Qed.

(** The node of a result, found in the run's scope with the kind of work. *)
Lemma adds_evidence_inv result sk now node w w' evidence attachment :
  adds_evidence result sk now node w w' evidence attachment ->
  find_by shape_id (pn_id node) (shapes w) = Some (node_shape node) ->
  pn_scope_key node = sk -> pn_kind node = PlanningNodeKind.Work ->
  graph_inv (shapes w) (edges w) -> graph_inv (shapes w') (edges w').
Proof.
  intros (Eev & Eat & -> & -> & Hfresh & Hid) Hf Hsk Hk Hi.
  set (shapes' := shapes w ++ [node_shape evidence]) in *.
  assert (graph_inv shapes' (edges w)) as Hi'.
  { apply (graph_trans_inv (shapes w) (edges w)); [by apply gt_node|done]. }
  assert (find_by shape_id (pn_id evidence) shapes' = Some (node_shape evidence)) as Hev.
  { apply (find_by_elem shape_id shapes' (node_shape evidence)); [apply Hi'|set_solver]. }
  assert (find_by shape_id (pn_id node) shapes' = Some (node_shape node)) as Hnode
    by by apply find_by_app_l.
  assert (pn_id node ∈ map shape_id (shapes w)) as Hin.
  { pose proof (find_by_Some _ _ _ _ Hf) as [? _]. by apply (list_elem_of_fmap_2 shape_id) in H0. }
  apply (graph_trans_inv shapes' (edges w)); [|done]. apply gt_edge; [done| |].
  - rewrite Eat. unfold edge_wf. simpl. split; [intros E; by rewrite E in Hin|].
    exists (pn_kind node), (pn_kind evidence). rewrite Hev, Hnode. unfold node_shape.
    rewrite Hk. split_and!; [done| |by rewrite Eev].
    do 3 f_equal. rewrite Eev. simpl. by rewrite Hsk.
  - intros _. split; [|by rewrite Eat].
    intros e He _. destruct (same_active_edge attachment e) eqn:Es; [exfalso|done].
    apply same_active_edge_true in Es as (_ & _ & _ & _ & _ & Et).
    destruct (gi_wf _ _ Hi e He) as (_ & sk' & tk & _ & Ht & _).
    apply find_by_Some in Ht as [Ht _]. apply (list_elem_of_fmap_2 shape_id) in Ht.
    rewrite Eat in Et. simpl in Et. by rewrite <- Et in Ht.
Qed.

Lemma check_worker_result_pure r : keeps (fun w => w) (check_worker_result r).
Proof. unfold check_worker_result. frame. Qed.
Lemma check_result_binding_pure e r : keeps (fun w => w) (check_result_binding e r).
Proof. unfold check_result_binding. frame. Qed.

Lemma check_result_node_Ok existing node result w u w' :
  check_result_node existing node result w = Ok u w' <->
  w' = w /\ pn_kind node = PlanningNodeKind.Work /\
  workflow_work_point_id_for_node node = Some (pr_work_point_id existing) /\
  pn_revision node = wwr_source_revision result.
Proof.
  unfold check_result_node. repeat (rewrite bind_Ok; setoid_rewrite guard_or_Ok).
  setoid_rewrite bind_Ok. setoid_rewrite guard_or_Ok. setoid_rewrite bool_decide_eq_true.
  destruct u. naive_solver.
Qed.

(** A result that is new writes the graph; one recorded before nothing. *)
Lemma record_result_graph i w res w' :
  record_workflow_result i w = Ok res w' ->
  (w' = w /\ wrw_replayed res = true) \/
  exists now node evidence attachment,
    find_by pn_id (wwr_node_id (rwi_result i)) (db_nodes (w_db w)) = Some node /\
    pn_scope_key node = normalized_scope_key (rwi_active_scope_key i) /\
    pn_kind node = PlanningNodeKind.Work /\ pn_revision node = wwr_source_revision (rwi_result i) /\
    (exists existing,
       find_by pr_id (wwr_project_run_id (rwi_result i)) (db_project_runs (w_db w)) = Some existing /\
       workflow_work_point_id_for_node node = Some (pr_work_point_id existing)) /\
    (exists s existing, w_db s = w_db w /\
       write_back i (normalized_scope_key (rwi_active_scope_key i)) now existing node s = Ok res w') /\
    wrw_evidence res = Some evidence /\ wrw_attachment res = Some attachment /\
    adds_evidence (rwi_result i) (normalized_scope_key (rwi_active_scope_key i)) now node w w'
      evidence attachment.
Proof.
  unfold record_workflow_result. intros Hr. tx_inv.
  apply check_worker_result_pure in R. apply (keeps_ensure_in_scope (fun w => w)) in R0.
  unfold load_project_run, load_by, rows in R2. apply check_result_binding_pure in R3.
  unfold ensure_entity_in_scope in R1. tx_inv. simpl in *. subst.
  match goal with R : scope_of _ _ _ _ _ _ = Ok _ _ |- _ => unfold scope_of, load_by, rows in R; tx_inv end.
  bool_props. case_bool_decide; tx_inv; [by left|right].
  assert (forall s s', w_db s' = w_db s -> shapes s' = shapes s /\ edges s' = edges s) as Hdb
    by (unfold shapes, edges; by intros ? ? ->).
  match goal with R : now_string _ = Ok _ _ |- _ => apply keeps_now_string in R as En end.
  match goal with R : require_current_lease _ _ _ _ = Ok _ _ |- _ =>
    apply (keeps_require_current_lease (fun w => w)) in R end.
  match goal with R : check_result_node _ _ _ _ = Ok _ _ |- _ =>
    apply check_result_node_Ok in R as (-> & Hk & Hwp & Hrev) end.
  match goal with R : load_graph_node _ _ = Ok _ _ |- _ =>
    unfold load_graph_node, load_by, rows in R; tx_inv end.
  match goal with |- exists now node evidence attachment, _ =>
    lazymatch type of Hr with write_back _ _ ?t _ ?n _ = _ => exists t, n end end.
  pose proof Hr as Hw. apply write_back_graph in Hr as (ev & att & Hev & Hat & Hadd).
  exists ev, att. simpl in *. subst. rewrite En in *.
  split_and!; try done; [congruence|eauto..|]. unfold adds_evidence in *.
  destruct (Hdb _ _ En) as [<- <-]. exact Hadd.
Qed.

Lemma record_result_inv i w res w' :
  record_workflow_result i w = Ok res w' ->
  graph_inv (shapes w) (edges w) -> graph_inv (shapes w') (edges w').
Proof.
  intros [[-> _]|(now & node & ev & att & Hf & Hsk & Hk & _ & _ & _ & _ & _ & Hadd)]%record_result_graph; [done|].
  eapply adds_evidence_inv; [exact Hadd| |done..]. unfold shapes. rewrite find_by_shape.
  pose proof (find_by_Some _ _ _ _ Hf) as [_ ->]. by rewrite Hf.
Qed.

(** ** Histories *)
Inductive graph_step : World -> World -> Prop :=
| step_graph_op op w : graph_step w (committed (graph_op op) w)
| step_record_result i w : graph_step w (committed (record_workflow_result i) w)
| step_elsewhere w w' :
    db_nodes (w_db w') = db_nodes (w_db w) -> db_edges (w_db w') = db_edges (w_db w) ->
    graph_step w w'.

Lemma graph_step_inv w w' :
  graph_step w w' -> graph_inv (shapes w) (edges w) -> graph_inv (shapes w') (edges w').
Proof.
  intros [op s|i s|s s' En Ee] Hi.
  - unfold committed. destruct (graph_op op s) as [u s'|e] eqn:Hr; [|done].
    eapply graph_trans_inv; [by eapply graph_op_sim|done].
  - unfold committed. destruct (record_workflow_result i s) as [u s'|e] eqn:Hr; [|done].
    by eapply record_result_inv.
  - unfold shapes, edges. by rewrite En, Ee.
Qed.

Lemma graph_history_inv w w' :
  rtc graph_step w w' -> graph_inv (shapes w) (edges w) -> graph_inv (shapes w') (edges w').
Proof. induction 1 as [|? ? ? Hs _ IH]; [done|]. intros Hi. by eapply IH, graph_step_inv. Qed.

Definition empty_graph (w : World) : Prop :=
  db_nodes (w_db w) = [] /\ db_edges (w_db w) = [].
Lemma empty_graph_inv w : empty_graph w -> graph_inv (shapes w) (edges w).
Proof.
  unfold shapes, edges. intros [-> ->]. split; simpl; [constructor|constructor| | |].
  - intros e He. set_solver.
  - intros e e' He. set_solver.
  - intros k _ x Hx. induction Hx as [x y (e & He & _)|x y z (e & He & _) _ _]; set_solver.
Qed.

(** ** The properties *)

(** C2. The graph stays well-formed: along every history of the operations on
    nodes and edges (the unguarded edge upserts aside) and recorded worker
    results, starting from an empty graph and with anything else happening in between, every edge joins
    two different existing nodes of its own scope whose kinds the edge may
    connect, no two active edges share scope, kind and endpoints, and no
    cycle of active [decomposes-to] or [depends-on] edges exists. *)
Theorem graph_stays_well_formed w w' :
  empty_graph w -> rtc graph_step w w' -> graph_inv (shapes w') (edges w').
Proof. intros He Hs. eapply graph_history_inv; [exact Hs|by apply empty_graph_inv]. Qed.
End GraphFacts.
