(* ===== verification/WorkflowFacts.v ===== *)
(** What the operations that write project runs promise, over every history of
    them: without workflow preparation ([lease_step]) they refine the lease
    protocol of [Leases], with it ([run_step], [LeaseTime.leased_world]) the one
    of [LeaseTime]; and what preparing a workflow and recording a result do. *)
From stdpp Require Import relations.
From S2P Require Import Prelude Text Json Model Tx Table Store Walk EdgeRules Validation Frames Clock ProjectRuns Leases Graph Entities WorkflowPlan Workflow LeaseTime GraphFacts.

Section WorkflowFacts.
Context `{External}.
Context (Texts : TimeTexts).

(** ** Histories without preparations *)
Lemma records_run_sim i w w' res :
  records_run i w w' res -> wf_runs (runs w) ->
  lease_trans (map lease_of (runs w)) (map lease_of (runs w')).
Proof.
  intros [eid (ex & now & Hf & _ & _ & (_ & (_ & _ & Htok) & _) & -> & _)] [Hn _].
  erewrite (map_update_where lease_of _
              (fun l => bool_decide (l_id l = wwr_project_run_id (rwi_result i)))); [apply lt_end|].
  intros r Hr. simpl. case_bool_decide as E; [|done].
  rewrite (find_by_unique _ _ _ _ _ Hn Hf Hr E). unfold recorded.
  rewrite bool_decide_true by done. unfold lease_of. simpl. by destruct (wwr_status (rwi_result i)).
Qed.

Lemma lease_step_sim w w' :
  lease_step w w' -> wf_runs (runs w) ->
  wf_runs (runs w') /\ lease_trans (map lease_of (runs w)) (map lease_of (runs w')).
Proof.
  intros [op s|i s|s s' E _] Hwf.
  - unfold committed. destruct (lease_op op s) as [res s'|e] eqn:Hr.
    + by eapply (lease_op_sim (text_laws Texts)).
    + split; [done|apply lt_stay].
  - unfold committed. destruct (record_workflow_result i s) as [res s'|e] eqn:Hr.
    + apply record_effect in Hr as [Hr|(-> & _)]; [|split; [done|apply lt_stay]].
      split; [by eapply records_run_wf|by eapply records_run_sim].
    + split; [done|apply lt_stay].
  - change (runs s' = runs s) in E. rewrite E. split; [done|apply lt_stay].
Qed.

(** A world reached from one without project runs, without preparations. *)
Definition reached (w : World) : Prop :=
  exists w0, runs w0 = [] /\ rtc lease_step w0 w.

Lemma rtc_wf_runs w w' : rtc lease_step w w' -> wf_runs (runs w) -> wf_runs (runs w').
Proof. induction 1 as [|? ? ? Hs _ IH]; [done|]. intros Hw. by apply IH, (lease_step_sim _ _ Hs). Qed.

Lemma reached_wf w : reached w -> wf_runs (runs w).
Proof.
  intros (w0 & E & Hs). eapply rtc_wf_runs; [exact Hs|]. rewrite E.
  split; [constructor|constructor].
Qed.

Lemma reached_inv w : reached w -> lease_inv (map lease_of (runs w)).
Proof.
  intros (w0 & E & Hs).
  assert (wf_runs (runs w0) /\ lease_inv (map lease_of (runs w0))) as [Hwf Hi].
  { rewrite E. repeat split; try constructor; set_solver. }
  clear E. induction Hs as [|? ? ? Hs _ IH]; [done|].
  destruct (lease_step_sim _ _ Hs Hwf) as [Hwf' Ht]. apply IH; [done|].
  by eapply lease_trans_inv.
Qed.

Lemma live_newest w r r' :
  reached w -> r ∈ runs w -> r' ∈ runs w -> run_is_live (pr_status r) = true ->
  pr_work_point_id r' = pr_work_point_id r -> r' <> r ->
  (pr_fencing_token r' < pr_fencing_token r)%Z.
Proof.
  intros Hw Hr Hr' Hlive Hwp Hne. destruct (reached_wf _ Hw) as [Hn _].
  destruct (reached_inv _ Hw) as [_ Hi].
  apply (Hi (lease_of r) (lease_of r')); [by apply list_elem_of_fmap_2..|done|done|].
  intros E. apply Hne. apply (f_equal l_id) in E. simpl in E.
  eapply find_by_unique; [exact Hn| |done|exact E]. by apply find_by_elem.
Qed.

Lemma result_keys i w res w' :
  record_workflow_result i w = Ok res w' -> map run_key (runs w') = map run_key (runs w).
Proof.
  intros [[eid Ho]|(-> & _)]%record_effect; [|done].
  eapply owner_keys; [exact Ho|]. intros ex now r. unfold recorded. by case_bool_decide.
Qed.

Lemma lease_step_keys w w' k :
  lease_step w w' -> keys_unique (runs w) ->
  keys_unique (runs w') /\ (has_run_key k (runs w) -> has_run_key k (runs w')).
Proof.
  unfold has_run_key. intros [op s|i s|s s' E _] Hu.
  3: { change (runs s' = runs s) in E. by rewrite E. }
  2: { unfold committed. destruct (record_workflow_result i s) as [res s'|e] eqn:Ho; [|done].
    apply result_keys in Ho as E.
    split; [by eapply keys_unique_ext|]. by rewrite E. }
  unfold committed. destruct (lease_op op s) as [res s'|e] eqn:Ho; [|done].
  apply lease_op_keys in Ho as [E|(record & E & Hnew)].
  - split; [by eapply keys_unique_ext|]. by rewrite E.
  - split; [|rewrite E; set_solver].
    apply (keys_unique_ext (runs s ++ [record])); [by rewrite map_app|].
    intros r r' [Hr|Hr]%elem_of_app [Hr'|Hr']%elem_of_app Hs; [by apply Hu| | |].
    + apply list_elem_of_singleton in Hr' as ->. specialize (Hnew r Hr).
      assert (same_idempotency record r = true); [|congruence].
      apply same_idempotency_true. apply same_idempotency_true in Hs. naive_solver.
    + apply list_elem_of_singleton in Hr as ->. specialize (Hnew r' Hr'). congruence.
    + by apply list_elem_of_singleton in Hr as ->, Hr' as ->.
Qed.

Lemma rtc_keys w w' k :
  rtc lease_step w w' -> keys_unique (runs w) ->
  keys_unique (runs w') /\ (has_run_key k (runs w) -> has_run_key k (runs w')).
Proof.
  induction 1 as [|? ? ? Hs _ IH]; [done|]. intros Hu.
  destruct (lease_step_keys _ _ k Hs Hu) as [Hu' Hk]. destruct (IH Hu') as [? Hk'].
  split; [done|]. tauto.
Qed.

Lemma reached_keys w : reached w -> keys_unique (runs w).
Proof.
  intros (w0 & E & Hs).
  assert (keys_unique (runs w0)) as Hu by (rewrite E; intros ? ?; set_solver).
  by destruct (rtc_keys w0 w ("", "", None) Hs Hu).
Qed.

(** ** Ended runs *)
Lemma run_not_claimed s : run_is_terminal s = true -> s <> ProjectRunStatus.Claimed.
Proof. by destruct s. Qed.

Lemma owner_keeps_ended id tok f ok w w' (record r : ProjectRunRecord) :
  owner_effect id tok f ok w w' record ->
  (forall existing now, ok existing now -> run_is_terminal (pr_status existing) = false) ->
  wf_runs (runs w) -> r ∈ runs w -> run_is_terminal (pr_status r) = true -> r ∈ runs w'.
Proof.
  intros (ex & now & Hf & _ & _ & Hok & -> & _) Hnt [Hn _] Hr Ht.
  apply elem_of_update_where. exists r. split; [done|]. case_bool_decide as Hid; [|done].
  rewrite (find_by_unique _ _ _ _ _ Hn Hf Hr Hid) in Ht. by rewrite (Hnt _ _ Hok) in Ht.
Qed.

Lemma ended_step w w' r :
  run_step w w' -> wf_runs (runs w) -> r ∈ runs w -> run_is_terminal (pr_status r) = true ->
  r ∈ runs w'.
Proof.
  intros Hs Hwf Hr Ht. destruct Hs as [? ? [op s|i s|s s' E _]|i w].
  - by apply lease_op_keeps_ended.
  - unfold committed. destruct (record_workflow_result i s) as [res s'|e] eqn:Hp; [|done].
    apply record_effect in Hp as [[eid Hp]|(-> & _)]; [|done].
    eapply owner_keeps_ended; [exact Hp| |done..]. by intros ex now (? & _).
  - change (runs s' = runs s) in E. by rewrite E.
  - unfold committed. destruct (prepare_workflow i w) as [res s'|e] eqn:Hp; [|done].
    apply prepare_workflow_effect in Hp as (view & Hp & Hsecs & _).
    apply (prepare_in_transaction_effect Texts) in Hp
      as (n & now & acc & _ & _ & _ & _ & _ & _ & _ & Hk); [|done..]. by apply Hk, run_not_claimed.
Qed.

Lemma ended_history w w' r :
  rtc run_step w w' -> wf_runs (runs w) -> r ∈ runs w -> run_is_terminal (pr_status r) = true ->
  r ∈ runs w'.
Proof.
  induction 1 as [|? ? ? Hs _ IH]; [done|]. intros Hwf Hr Ht.
  apply IH; [by apply (run_step_timed Texts _ _ Hs)|by eapply ended_step|done].
Qed.

(** ** Grants *)

(** A run under a new id was granted by a claim or a preparation. *)
Lemma ids_kept_not_new w w' r :
  map run_key (runs w') = map run_key (runs w) -> r ∈ runs w' ->
  (forall q, q ∈ runs w -> pr_id q <> pr_id r) -> False.
Proof.
  intros E Hr Hnew. assert (run_key r ∈ map run_key (runs w)) as Hin
    by (rewrite <- E; by apply list_elem_of_fmap_2).
  apply list_elem_of_fmap in Hin as (q & Eq & Hq). apply (Hnew q Hq). by injection Eq.
Qed.
Lemma owner_op_not_new op id w res w' r :
  lease_op op w = Ok res w' -> addressed_to op = Some id -> r ∈ runs w' ->
  (forall q, q ∈ runs w -> pr_id q <> pr_id r) -> False.
Proof.
  intros Ho Ha. destruct (addressed_not_terminal _ _ _ _ _ Ho Ha)
    as (f & ok & rec & (ex & now & _ & _ & _ & _ & Eu & _) & _).
  apply lease_op_keys in Ho as [E|(record & E & _)]; [by apply ids_kept_not_new|].
  apply (f_equal length) in E. rewrite length_app, !length_map, Eu in E.
  unfold update_where in E. rewrite length_map in E. simpl in E. lia.
Qed.
(** Where a new run came from: at some reading of the clock, leases of [rs]
    being as they were or ended for having lapsed, new ones were granted. *)
Lemma run_step_grants w w' r :
  run_step w w' -> wf_runs (runs w) -> r ∈ runs w' ->
  (forall q, q ∈ runs w -> pr_id q <> pr_id r) ->
  exists n rs, (w_clock w <= n < w_clock w')%nat /\
    granted (utc_now n) (map tlease_of rs) (map tlease_of (runs w')) /\
    (forall q, q ∈ rs -> exists q0, q0 ∈ runs w /\ pr_id q0 = pr_id q) /\
    (forall q0, q0 ∈ runs w -> exists q, q ∈ rs /\ pr_id q = pr_id q0 /\
       pr_work_point_id q = pr_work_point_id q0 /\ pr_fencing_token q = pr_fencing_token q0 /\
       (lapsed (utc_now n) (tlease_of q) -> lapsed (utc_now n) (tlease_of q0))).
Proof.
  intros Hs Hwf Hr Hnew.
  assert (runs w' = runs w -> False) as Hmoved by (intros E; rewrite E in Hr; by apply (Hnew r)).
  destruct Hs as [? ? [op s|i s|s s' E _]|i w].
  - unfold committed in *. destruct (lease_op op s) as [res s'|e] eqn:Ho; [|done].
    destruct (addressed_to op) as [id|] eqn:Ha; [by destruct (owner_op_not_new _ _ _ _ _ _ Ho Ha Hr)|].
    destruct op as [i|?|?|?|?]; simpl in Ho; try done.
    apply claim_effect in Ho as [Hc|(? & ? & ? & _ & _ & _ & _ & E)]; [|done].
    destruct (claims_granted Texts _ _ _ _ Hc Hwf) as (n & now & Hn & Hnow & _ & _ & _ & Hg).
    exists n, (after_expiry (ci_work_point_id i) now (runs s)). split_and!; [lia|lia|done| |].
    + intros q (q0 & Hq0 & ->)%elem_of_update_where. exists q0. split; [done|].
      by destruct (lease_expired _ _ q0).
    + intros q0 Hq0. exists (if lease_expired (ci_work_point_id i) now q0 then released_at now q0 else q0).
      split; [apply elem_of_update_where; by exists q0|].
      destruct (lease_expired (ci_work_point_id i) now q0) eqn:E; [|done].
      split_and!; [done..|]. intros _. eapply expired_lapsed; [done|exact Hnow| |exact E].
      destruct Hwf as [_ Hwf]. rewrite Forall_forall in Hwf. by apply Hwf.
  - unfold committed in *. destruct (record_workflow_result i s) as [res s'|e] eqn:Ho; [|done].
    by destruct (ids_kept_not_new _ _ _ (result_keys _ _ _ _ Ho) Hr).
  - by destruct Hmoved.
  - unfold committed in *. destruct (prepare_workflow i w) as [res s'|e] eqn:Hp; [|done].
    apply prepare_workflow_effect in Hp as (view & Hp & Hsecs & _).
    apply (prepare_in_transaction_effect Texts) in Hp as (n & now & acc & Hn & _ & _ & Hg & _);
      [|done..].
    exists n, (runs w). split_and!; [lia|lia|done|by eexists|]. intros q0 Hq0. by exists q0.
Qed.

(** ** Stale owners *)

(** An owner's operation is addressed to a run that has not ended, and whose
    lease the clock has not passed. *)
Lemma owner_not_ended id tok f ok w w' (record r : ProjectRunRecord) :
  owner_effect id tok f ok w w' record ->
  (forall existing now, ok existing now -> run_is_terminal (pr_status existing) = false) ->
  wf_runs (runs w) -> r ∈ runs w -> pr_id r = id -> run_is_terminal (pr_status r) = false.
Proof.
  intros (ex & now & Hf & _ & _ & Hok & _) Hnt [Hnd _] Hr Hid.
  rewrite (find_by_unique _ _ _ _ _ Hnd Hf Hr Hid). by eapply Hnt.
Qed.
Lemma owner_in_time id tok f ok w w' (record : ProjectRunRecord) deadline :
  owner_effect id tok f ok w w' record ->
  (forall existing now, ok existing now -> run_is_terminal (pr_status existing) = false) ->
  wf_runs (runs w) -> out_of_time deadline id (map tlease_of (runs w)) ->
  (forall n, (w_clock w <= n)%nat -> (deadline <= utc_now n)%Z) -> False.
Proof.
  intros (ex & now & Hf & Hc & (n & Hn & Hnow) & Hok & _) Hnt [Hnd Hwf]
    (l & (r & -> & Hr)%list_elem_of_fmap & Hid & Hd) Hclock. simpl in Hid.
  pose proof (find_by_unique _ _ _ _ _ Hnd Hf Hr Hid) as ->. apply Hnt in Hok.
  rewrite Forall_forall in Hwf. destruct (Hwf ex Hr) as [Hs _].
  assert (run_is_live (pr_status ex) = true) as Hlive by (destruct (pr_status ex); done).
  pose proof (current_lease_at Texts _ _ _ _ Hnow Hc Hlive) as [_ Hlt].
  specialize (Hd Hlive). specialize (Hclock n ltac:(lia)). lia.
Qed.

(** Nothing an owner can do to the run succeeds: its operations fail, and so
    does recording a result, unless it was recorded before. *)
Definition worker_refused (id : string) (w : World) : Prop :=
  (forall op, addressed_to op = Some id -> exists e, lease_op op w = Fail e) /\
  (forall i res w', wwr_project_run_id (rwi_result i) = id ->
     record_workflow_result i w = Ok res w' -> w' = w /\ wrw_replayed res = true).

Lemma refused_unless id w :
  (forall tok f ok w' record, owner_effect id tok f ok w w' record ->
     (forall existing now, ok existing now -> run_is_terminal (pr_status existing) = false) -> False) ->
  worker_refused id w.
Proof.
  intros Hno. split.
  - intros op Ha. destruct (lease_op op w) as [res w'|e] eqn:Ho; [exfalso|by exists e].
    destruct (addressed_not_terminal _ _ _ _ _ Ho Ha) as (f & ok & rec & Heff & Hnt).
    by eapply Hno.
  - intros i res w' <- Ho. apply record_effect in Ho as [[eid Ho]|(-> & _ & _ & _ & ->)]; [|done].
    exfalso. eapply Hno; [exact Ho|]. by intros ex now (? & _).
Qed.

(** A claim that grants a run leaves every other run of the work point ended. *)
Lemma claim_ends_others i w r r' :
  let w1 := committed (claim_project_run i) w in
  wf_runs (runs w) -> r' ∈ runs w1 -> (forall q, q ∈ runs w -> pr_id q <> pr_id r') ->
  r ∈ runs w1 -> r <> r' -> pr_work_point_id r = pr_work_point_id r' ->
  run_is_terminal (pr_status r) = true.
Proof.
  simpl. unfold committed. destruct (claim_project_run i w) as [res w1|e] eqn:Hc;
    [|intros _ Hr' Hnew; by destruct (Hnew r')].
  intros Hwf Hr' Hnew Hr Hne Hwp.
  apply claim_effect in Hc as [Hc|(? & ? & ? & _ & _ & _ & _ & E)];
    [|rewrite E in Hr'; by destruct (Hnew r')].
  destruct (claims_granted Texts _ _ _ _ Hc Hwf) as (n & now & _ & Hnow & Hheld & Hwp' & E & _).
  rewrite E in Hr, Hr'. set (wp := ci_work_point_id i) in *.
  assert (forall q, q ∈ after_expiry wp now (runs w) -> exists q0, q0 ∈ runs w /\ pr_id q0 = pr_id q) as Hids.
  { intros q (q0 & Hq0 & ->)%elem_of_update_where. exists q0. by destruct (lease_expired wp now q0). }
  apply elem_of_app in Hr' as [Hr'|Hr'%list_elem_of_singleton];
    [destruct (Hids _ Hr') as (q0 & ? & ?); by destruct (Hnew q0)|].
  subst r'. apply elem_of_app in Hr as [Hr|?%list_elem_of_singleton]; [|done].
  destruct (after_expiry_wf wp now _ Hwf) as [_ Hwf1]. rewrite Forall_forall in Hwf1.
  destruct (Hwf1 r Hr) as [Hs _].
  assert (run_is_live (pr_status r) = false) as Hlive; [|by destruct (pr_status r)].
  apply elem_of_update_where in Hr as (r0 & Hr0 & ->).
  destruct (lease_expired wp now r0) eqn:Ex; [done|].
  destruct (run_is_live (pr_status r0)) eqn:Hl; [|done].
  rewrite (claim_leaves_none_live (text_laws Texts) wp now (runs w) r0) in Ex; try done;
    [by eexists|congruence].
Qed.

(** ** The graph node of a result *)
Lemma update_node_Ok node st c r now w n w' :
  update_workflow_node_status_in_transaction node st c r now w = Ok n w' ->
  find_by pn_id (pn_id node) (db_nodes (w_db w)) = Some node ->
  n = node <| pn_status := st |> <| pn_revision ::= Z.succ |> <| pn_updated_at := now |> /\
  find_by pn_id (pn_id node) (db_nodes (w_db w')) = Some n.
Proof.
  unfold update_workflow_node_status_in_transaction, update_graph_node_row. intros Hr Hf. tx_inv.
  match goal with R : load_graph_node _ _ = Ok _ _ |- _ => apply load_by_Ok in R as [Hn ->] end.
  match goal with R : update_db _ _ = Ok _ _ |- _ => apply update_db_Ok in R end.
  repeat match goal with R : ?m ?s = Ok _ ?s' |- _ =>
    let E := fresh "E" in
    assert (db_nodes (w_db s') = db_nodes (w_db s)) as E
      by (refine (keeps_nodes m _ _ _ _ R); unfold node_event; solve [frame]); clear R end.
  subst. simpl in *. rewrite find_by_update_where, Hf in Hn by done. simpl in Hn.
  rewrite bool_decide_true in Hn by done. injection Hn as <-. split; [done|].
  repeat match goal with E : db_nodes _ = _ |- _ => rewrite E; clear E end. simpl.
  rewrite find_by_update_where, Hf by done. simpl. by rewrite bool_decide_true.
Qed.

Lemma insert_node_nodes r w u w' :
  insert_graph_node r w = Ok u w' -> db_nodes (w_db w') = db_nodes (w_db w) ++ [r].
Proof.
  unfold insert_graph_node. intros Hr. tx_inv. apply (proj1 (reads_Ok _ _ _ _)) in R as [-> ->].
  apply (proj1 (insert_row_Some _ _ _ _)) in H0 as [-> _]. by apply update_db_Ok in Hr as ->.
Qed.
(** What a run of the context did to the nodes: nothing. *)
Ltac nodes_track := repeat match goal with
  | R : ?m _ = Ok _ _ |- _ => apply (keeps_nodes m) in R; [simpl in R|solve [frame]] end.
Lemma insert_evidence_nodes sk node result c r now w ev w' :
  insert_workflow_result_evidence sk node result c r now w = Ok ev w' ->
  db_nodes (w_db w') = db_nodes (w_db w) ++ [ev].
Proof.
  unfold insert_workflow_result_evidence. intros Hr. tx_inv. apply insert_node_nodes in R0.
  nodes_track. congruence.
Qed.
Lemma insert_attachment_nodes node ev result c r now :
  keeps (fun w => db_nodes (w_db w)) (insert_workflow_result_attachment node ev result c r now).
Proof.
  unfold insert_workflow_result_attachment, insert_graph_edge, edge_event, update_db.
  frame; apply keeps_nodes; frame.
Qed.

Lemma write_back_node i sk now existing node w res w' :
  write_back i sk now existing node w = Ok res w' ->
  find_by pn_id (pn_id node) (db_nodes (w_db w)) = Some node ->
  let updated := node <| pn_status := workflow_result_graph_status (wwr_status (rwi_result i)) |>
                   <| pn_revision ::= Z.succ |> <| pn_updated_at := now |> in
  wrw_status_update res = Some updated /\
  find_by pn_id (pn_id node) (db_nodes (w_db w')) = Some updated.
Proof.
  unfold write_back. intros Hr Hf. tx_inv. bool_props.
  match goal with
  | Re : insert_workflow_result_evidence _ _ _ _ _ _ _ = Ok _ _,
    Ra : insert_workflow_result_attachment _ _ _ _ _ _ _ = Ok _ _,
    Rk : require_kebab_token _ _ _ = Ok _ _,
    Rn : update_workflow_node_status_in_transaction _ _ _ _ _ _ = Ok _ _,
    Ru : update_db _ _ = Ok _ _ |- _ =>
      apply insert_evidence_nodes in Re; apply insert_attachment_nodes in Ra;
      apply (keeps_require_kebab (fun w => w)) in Rk; simpl in Rk, Ra; subst;
      apply update_node_Ok in Rn as [-> Hn];
        [|rewrite Ra, Re; by apply find_by_app_l];
      apply update_db_Ok in Ru end.
  simpl. split; [congruence|]. nodes_track. subst. simpl in *. rewrite H1 in Hn. congruence.
Qed.

(** ** Answering a result again *)
Definition constant_run {A} (m : M A) (a : A) : Prop := forall w, m w = Ok a w.

Lemma check_worker_result_constant r w u w' :
  check_worker_result r w = Ok u w' -> constant_run (check_worker_result r) tt.
Proof.
  unfold check_worker_result, require_non_empty. intros Hr. tx_inv.
  intros w2. unfold mbind, Tx_bind, guard_or.
  by repeat match goal with E : ?b = true |- _ => rewrite E; clear E end.
Qed.

Lemma in_scope_run {R} (table : Db -> list R) key scope ty id sk w r :
  (forall w, scope_key_for_entity ty id w = scope_of table key scope ty id w) ->
  find_by key id (table (w_db w)) = Some r -> scope r = sk ->
  ensure_entity_in_scope ty id sk w = Ok sk w.
Proof.
  intros Hs Hf <-. unfold ensure_entity_in_scope, mbind, Tx_bind. rewrite Hs.
  unfold scope_of, load_by, rows, mbind, Tx_bind, reads, ok_or. rewrite Hf. simpl.
  unfold guard_or. by rewrite bool_decide_true.
Qed.

Lemma record_again i w run node :
  let result := rwi_result i in
  let sk := normalized_scope_key (rwi_active_scope_key i) in
  constant_run (check_worker_result result) tt ->
  find_by pr_id (wwr_project_run_id result) (runs w) = Some run -> pr_scope_key run = sk ->
  find_by pn_id (wwr_node_id result) (db_nodes (w_db w)) = Some node -> pn_scope_key node = sk ->
  addressed run result -> wwr_idempotency_key result ∈ ev_workflow_result_keys (pr_evidence run) ->
  record_workflow_result i w = Ok (mkWorkflowResultWriteback run None None None true) w.
Proof.
  intros result sk Hc Hf Hsk Hn Hnk Hb Hk. unfold record_workflow_result.
  unfold mbind, Tx_bind. fold result sk. rewrite Hc.
  rewrite (in_scope_run db_project_runs pr_id pr_scope_key _ _ sk w run); [|done..].
  rewrite (in_scope_run db_nodes pn_id pn_scope_key _ _ sk w node); [|done..].
  assert (load_project_run (wwr_project_run_id result) w = Ok run w) as ->
    by by apply load_by_Ok.
  assert (check_result_binding run result w = Ok tt w) as -> by by apply check_result_binding_Ok.
  by rewrite bool_decide_true.
Qed.

Lemma in_scope_Ok {R} (table : Db -> list R) key scope ty id sk w u w' r :
  (forall w, scope_key_for_entity ty id w = scope_of table key scope ty id w) ->
  ensure_entity_in_scope ty id sk w = Ok u w' ->
  find_by key id (table (w_db w)) = Some r -> w' = w /\ scope r = sk.
Proof.
  intros Hs Hr Hf. pose proof (keeps_ensure_in_scope (fun w => w) _ _ _ _ _ _ Hr) as E. simpl in E.
  split; [done|]. unfold ensure_entity_in_scope in Hr. tx_inv. rewrite Hs in R0. unfold scope_of in R0.
  tx_inv. match goal with R : load_by _ _ _ _ _ = Ok _ _ |- _ => apply load_by_Ok in R as [Hl _] end.
  rewrite Hf in Hl. injection Hl as <-. by bool_props.
Qed.

Lemma record_scope i w res w' :
  record_workflow_result i w = Ok res w' ->
  constant_run (check_worker_result (rwi_result i)) tt /\
  (forall existing, find_by pr_id (wwr_project_run_id (rwi_result i)) (runs w) = Some existing ->
    pr_scope_key existing = normalized_scope_key (rwi_active_scope_key i)) /\
  (forall node, find_by pn_id (wwr_node_id (rwi_result i)) (db_nodes (w_db w)) = Some node ->
    pn_scope_key node = normalized_scope_key (rwi_active_scope_key i)).
Proof.
  unfold record_workflow_result. intros Hr. tx_inv. split; [by eapply check_worker_result_constant|].
  apply (check_worker_result_reads (fun w => w)) in R. simpl in R. subst.
  pose proof (keeps_ensure_in_scope (fun w => w) _ _ _ _ _ _ R0) as E. simpl in E. subst.
  split; intros r Hf.
  - by eapply (in_scope_Ok db_project_runs pr_id pr_scope_key) in R0 as [_ ?].
  - by eapply (in_scope_Ok db_nodes pn_id pn_scope_key) in R1 as [_ ?].
Qed.

(** ** The properties *)

(** C1. In every world reached by any sequence of claims, activations,
    heartbeats, releases, evidence additions and recorded workflow results
    (succeeding or failing, with anything that does not write project runs in
    between), a work point has at most one project run whose status is live.
    These are all the operations that write project runs except workflow
    preparation, which breaks this
    ([WorkflowWitnesses.preparation_keeps_expired_runs]); what holds with
    preparations is [grants_find_no_held_lease] and [stale_worker_refused]. *)
Theorem lease_mutual_exclusion w r r' :
  reached w -> r ∈ runs w -> r' ∈ runs w ->
  run_is_live (pr_status r) = true -> run_is_live (pr_status r') = true ->
  pr_work_point_id r = pr_work_point_id r' -> r = r'.
Proof.
  intros Hw Hr Hr' Hl Hl' Hwp. destruct (decide (pr_id r = pr_id r')) as [Hid|Hid].
  - destruct (reached_wf _ Hw) as [Hn _].
    eapply find_by_unique; [exact Hn| |done|exact Hid]. by apply find_by_elem.
  - assert (r' <> r) as Hne by congruence. assert (r <> r') as Hne' by congruence.
    pose proof (live_newest w r r' Hw Hr Hr' Hl (eq_sym Hwp) Hne).
    pose proof (live_newest w r' r Hw Hr' Hr Hl' Hwp Hne'). lia.
Qed.

(** The operations on project runs refine the lease protocol: every
    history of them without workflow preparations is matched by a history of [lease_trans] on the abstracted table of runs. *)
Theorem leases_refine_protocol w w' a :
  lease_sim w a -> rtc lease_step w w' -> exists a', lease_sim w' a' /\ rtc lease_trans a a'.
Proof.
  intros [-> Hwf] Hs. induction Hs as [w|w1 w2 w3 Hs _ IH]; [by eexists|].
  destruct (lease_step_sim _ _ Hs Hwf) as [Hwf' Ht].
  destruct (IH Hwf') as (a' & Ha' & Hr). exists a'. split; [done|]. by eapply rtc_l.
Qed.

(** A stale owner is refused: once a newer fencing token exists for its
    work point, every activation, heartbeat, release and evidence addition on
    a run fails, whatever token and scope the call supplies. *)
Theorem stale_owner_refused w r r' op :
  reached w -> r ∈ runs w -> r' ∈ runs w -> pr_work_point_id r = pr_work_point_id r' ->
  (pr_fencing_token r < pr_fencing_token r')%Z -> addressed_to op = Some (pr_id r) ->
  exists e, lease_op op w = Fail e.
Proof.
  intros Hw Hr Hr' Hwp Htok Ha. destruct (lease_op op w) as [res w'|e] eqn:Ho; [exfalso|by exists e].
  destruct (addressed_not_terminal _ _ _ _ _ Ho Ha)
    as (f & ok & rec & (ex & now & Hf & _ & _ & Hok & _) & Hnt).
  destruct (reached_wf _ Hw) as [Hn Hwf]. pose proof Hwf as Hwf'. rewrite Forall_forall in Hwf'.
  destruct (Hwf' r Hr) as [Hs _].
  rewrite (find_by_elem _ _ _ Hn Hr) in Hf. injection Hf as <-. apply Hnt in Hok.
  assert (run_is_live (pr_status r) = true) as Hl by (destruct (pr_status r); done).
  assert (r' <> r) as Hne by (intros ->; lia).
  pose proof (live_newest w r r' Hw Hr Hr' Hl (eq_sym Hwp) Hne). lia.
Qed.

(** A claim under an idempotency key is made once: repeating it at any
    later point of the history, when it succeeds, returns the run of the
    first claim and leaves the table of runs as it was, whatever became of
    that run in between. *)
Theorem claim_is_idempotent i key w res w1 w2 res' w3 :
  reached w -> ci_idempotency_key i = Some key ->
  claim_project_run i w = Ok res w1 -> rtc lease_step w1 w2 ->
  claim_project_run i w2 = Ok res' w3 ->
  pr_id (mr_record res') = pr_id (mr_record res) /\ runs w3 = runs w2.
Proof.
  intros Hw Hkey Hc Hs Hc'. pose proof (reached_keys _ Hw) as Hu.
  assert (lease_step w w1) as Hs0.
  { pose proof (step_op (Claim i) w) as Hst. simpl in Hst. unfold committed in Hst.
    by rewrite Hc in Hst. }
  destruct (rtc_keys w w2 (pr_id (mr_record res), normalized_scope_key (ci_scope_key i), Some key)
              (rtc_l _ _ _ _ Hs0 Hs) Hu) as [Hu2 _].
  destruct (rtc_keys w1 w2 (pr_id (mr_record res), normalized_scope_key (ci_scope_key i), Some key)
              Hs) as [_ Hin]; [by apply (lease_step_keys _ _ ("", "", None) Hs0 Hu)|].
  specialize (Hin (claim_key (text_laws Texts) _ _ _ _ _ Hc Hkey)).
  apply list_elem_of_fmap in Hin as (r & E & Hr). injection E as Eid Esk Ek.
  apply claim_effect in Hc' as [Hc'|Hc'].
  - destruct Hc' as (id & owner & now & lease & _ & _ & _ & -> & _ & Hfresh & _).
    exfalso.
    assert ((if lease_expired (ci_work_point_id i) now r then released_at now r else r)
            ∈ after_expiry (ci_work_point_id i) now (runs w2)) as Hin
      by (apply elem_of_update_where; by exists r).
    destruct (Hfresh _ Hin) as [_ Hno]. revert Hno. apply not_false_iff_true.
    apply same_idempotency_true. simpl. split; [|exists key]; by destruct (lease_expired _ _ r).
  - destruct Hc' as (owner & k & row & Hk & Hrow & Hf & _ & ->). split; [|done].
    rewrite Hkey in Hk. injection Hk as <-. apply (claim_with_key_Some (text_laws Texts)) in Hrow as (Hrow & Es & Ek').
    apply find_by_Some in Hf as [_ ->]. rewrite Eid. apply Hu2; [done..|].
    apply same_idempotency_true. split; [congruence|]. exists key. split; congruence.
Qed.

(** C19. Completed, failed, cancelled and released are final: a run with such
    a status stays in the table, with every field as it is, in every later
    world, whatever operations on project runs, workflow preparations and
    recorded results happen. *)
Theorem ended_runs_are_final w w' r :
  leased_world w -> r ∈ runs w -> run_is_terminal (pr_status r) = true ->
  rtc run_step w w' -> r ∈ runs w'.
Proof. intros Hw Hr Ht Hs. eapply ended_history; [exact Hs|by apply leased_world_wf|done..]. Qed.

(** C12. The operations on project runs, workflow preparation and the
    recording of results included, refine the timed lease protocol: every
    history of them is matched by one of clock readings, ends, renewals of
    leases that are live and current at the reading, and grants, each under the
    next token of its work point and made when every live lease of the work
    point had lapsed. *)
Theorem runs_refine_timed_leases w w' s :
  timed_sim w s -> rtc run_step w w' ->
  exists s', timed_sim w' s' /\ rtc (timed_trans utc_now) s s'.
Proof.
  intros [-> Hwf] Hs. destruct (run_history_timed Texts _ _ Hs Hwf) as [Hwf' Ht].
  eexists. split; [by split|exact Ht].
Qed.

(** C13. A new run is granted by fencing: whatever operation made it, at the
    time of some reading of the clock it was live, leased for between a second
    and a day, and the newest by its token of all the runs of its work point;
    every live run there was for the work point had a deadline before that
    time or less than two milliseconds after it; and it is the only run the
    operation granted for the work point. *)
Theorem grants_find_no_held_lease w w1 r :
  leased_world w -> run_step w w1 -> r ∈ runs w1 -> (forall q, q ∈ runs w -> pr_id q <> pr_id r) ->
  run_is_live (pr_status r) = true /\
  exists n deadline, (w_clock w <= n < w_clock w1)%nat /\
    rfc3339_parse (pr_lease_expires_at r) = Some deadline /\
    (utc_now n + 1000000000 <= deadline <= utc_now n + 86400000000000)%Z /\
    (forall q, q ∈ runs w -> pr_work_point_id q = pr_work_point_id r ->
       (pr_fencing_token q < pr_fencing_token r)%Z /\
       (run_is_live (pr_status q) = true -> forall d, rfc3339_parse (pr_lease_expires_at q) = Some d ->
          (d < utc_now n + 2000000)%Z)) /\
    (forall q, q ∈ runs w1 -> pr_work_point_id q = pr_work_point_id r ->
       (forall q0, q0 ∈ runs w -> pr_id q0 <> pr_id q) -> q = r).
Proof.
  intros Hw Hs Hr Hnew. pose proof (leased_world_wf Texts _ Hw) as Hwf.
  destruct (run_step_timed Texts _ _ Hs Hwf) as [[Hnd Hwf1] _].
  destruct (run_step_grants _ _ _ Hs Hwf Hr Hnew) as (n & rs & Hn & Hg & Hback & Hfwd).
  assert (tlease_of r ∈ map tlease_of (runs w1)) as Hin by by apply list_elem_of_fmap_2.
  assert (forall q, (forall q0, q0 ∈ runs w -> pr_id q0 <> pr_id q) ->
            forall l0, l0 ∈ map tlease_of rs -> tl_id l0 <> pr_id q) as Hfresh.
  { intros q Hq l0 (q1 & -> & Hq1)%list_elem_of_fmap. destruct (Hback _ Hq1) as (q0 & Hq0 & E).
    simpl. rewrite <- E. by apply Hq. }
  destruct (granted_newest _ _ _ _ Hg Hin (Hfresh r Hnew)) as (Hlive & Hd & Hall).
  split; [exact Hlive|].
  rewrite Forall_forall in Hwf1. destruct (Hwf1 r Hr) as [_ [d Ed]]. simpl in Hd.
  rewrite (parse_format _ _ Ed) in Hd. simpl in Hd.
  exists n, d. split_and!; [lia|lia|by apply parse_format|lia|lia| |].
  - intros q0 Hq0 Hwp. destruct (Hfwd _ Hq0) as (q & Hq & Hid & Hwpq & Htok & Hlaps).
    assert (tlease_of q ∈ map tlease_of (runs w1)) as Hq1.
    { eapply granted_sub; [exact Hg|by apply list_elem_of_fmap_2]. }
    destruct (Hall (tlease_of q) Hq1) as (_ & Hl & Hlt); [|simpl; congruence|].
    { intros E. apply (f_equal tl_id) in E. simpl in E. apply (Hnew q0 Hq0). congruence. }
    simpl in Hlt. split; [lia|]. intros Hlive0 d0 Hd0. specialize (Hlaps Hl Hlive0). simpl in Hlaps.
    by rewrite Hd0 in Hlaps.
  - intros q Hq Hwp Hnewq. destruct (decide (pr_id q = pr_id r)) as [E|Hne].
    + eapply find_by_unique; [exact Hnd| |done|exact E]. by apply find_by_elem.
    + destruct (Hall (tlease_of q)) as (Hin0 & _); [by apply list_elem_of_fmap_2| |exact Hwp|].
      * intros E. by apply (f_equal tl_id) in E.
      * by destruct (Hfresh q Hnewq _ Hin0).
Qed.

(** C14. A stale worker is refused: after a run has been granted for a work
    point, every operation of the owner of another run of the work point fails,
    for ever, and recording a worker's result for that run fails or answers with
    what was recorded before, changing nothing.  This holds whatever the clock
    does when the run was granted by a claim, which ends the others; when it
    was granted by a workflow preparation, which does not, it holds if no later
    reading of the clock is less than two milliseconds after those of the
    preparation ([WorkflowWitnesses.overtaken_leases_can_be_renewed]). *)
Theorem stale_worker_refused w w1 w2 r r' :
  leased_world w -> run_step w w1 -> r' ∈ runs w1 ->
  (forall q, q ∈ runs w -> pr_id q <> pr_id r') ->
  r ∈ runs w1 -> r <> r' -> pr_work_point_id r = pr_work_point_id r' -> rtc run_step w1 w2 ->
  (exists i, w1 = committed (claim_project_run i) w) \/
  (forall n m, (w_clock w <= n < w_clock w1)%nat -> (w_clock w1 <= m)%nat ->
     (utc_now n + 2000000 <= utc_now m)%Z) ->
  worker_refused (pr_id r) w2.
Proof.
  intros Hw Hs Hr' Hnew Hr Hne Hwp Hs2 Hwhen. pose proof (leased_world_wf Texts _ Hw) as Hwf.
  destruct (run_step_timed Texts _ _ Hs Hwf) as [Hwf1 _].
  destruct (run_history_timed Texts _ _ Hs2 Hwf1) as [Hwf2 Ht2].
  apply refused_unless. intros tok f ok w' rec Heff Hnt. destruct Hwhen as [[i ->]|Hclock].
  - pose proof (claim_ends_others i w r r' Hwf Hr' Hnew Hr Hne Hwp) as Hend.
    pose proof (ended_history _ _ _ Hs2 Hwf1 Hr Hend) as Hr2.
    pose proof (owner_not_ended _ _ _ _ _ _ _ _ Heff Hnt Hwf2 Hr2 eq_refl). congruence.
  - destruct (run_step_grants _ _ _ Hs Hwf Hr' Hnew) as (n & rs & Hn & Hg & Hback & _).
    destruct (granted_newest _ _ _ (tlease_of r') Hg) as (_ & _ & Hall);
      [by apply list_elem_of_fmap_2| |].
    { intros l (q & -> & Hq)%list_elem_of_fmap. destruct (Hback _ Hq) as (q0 & Hq0 & E).
      simpl. rewrite <- E. by apply Hnew. }
    destruct (Hall (tlease_of r)) as (_ & Hl & _); [by apply list_elem_of_fmap_2| |exact Hwp|].
    { intros E. apply (f_equal tl_id) in E. simpl in E. apply Hne.
      eapply find_by_unique; [apply Hwf1| |done|exact E]. by apply find_by_elem; [apply Hwf1|]. }
    assert (forall m, (w_clock w1 <= m)%nat -> (utc_now n + grace <= utc_now m)%Z) as Hlate
      by (intros m Hm; by apply Hclock).
    eapply (owner_in_time _ _ _ _ _ _ _ (utc_now n + grace) Heff Hnt Hwf2).
    + eapply (timed_out_of_time _ _ _ _ _ Ht2); [exact Hlate|].
      exists (tlease_of r). split; [by apply list_elem_of_fmap_2|]. split; [done|].
      intros Hlive. specialize (Hl Hlive). lia.
    + intros m Hm. apply Hlate. apply timed_ticks in Ht2. simpl in Ht2. lia.
Qed.

(** C15. What a preparation hands out is leased: for any view, it prepares at
    most as many dispatches as the view's phase and the request allow; and at
    some reading of the clock the run of every dispatch was stored, live,
    activated and held under a current lease with the token, the id and the
    idempotency key the dispatch carries, for the stored graph node the
    dispatch names, at its revision. *)
Theorem prepared_runs_are_leased i view secs w res w' :
  leased_world w -> (1 <= secs <= 86400)%Z -> prepare_in_transaction i view secs w = Ok res w' ->
  (length (wpr_dispatches res) <= effective_max_workers i view)%nat /\
  exists now, read_between w w' now /\
    forall d, d ∈ wpr_dispatches res ->
      let run := wd_project_run d in
      run ∈ runs w' /\ run_is_live (pr_status run) = true /\
      pr_status run <> ProjectRunStatus.Claimed /\
      current_lease run (Some (wd_fencing_token d)) now /\
      wd_dispatch_id d = "dispatch-" +:+ pr_id run /\
      pr_idempotency_key run = Some (wd_idempotency_key d) /\
      exists node, find_by pn_id (wd_node_id d) (db_nodes (w_db w')) = Some node /\
        pn_revision node = wd_source_revision d /\
        workflow_work_point_id_for_node node = Some (pr_work_point_id run).
Proof.
  intros Hw Hsecs Hr. pose proof (leased_world_wf Texts _ Hw) as Hwf.
  apply (prepare_in_transaction_effect Texts) in Hr
    as (n & now & acc & Hn & Hnow & [Hnd Hwf'] & _ & Hs & Hmax & Hd & _); [|done..].
  rewrite Forall_forall in Hs. rewrite Forall_forall in Hwf'. split; [by rewrite Hd, length_map|].
  exists now. split; [by exists n|]. intros d. rewrite Hd.
  intros ([[node hint] run] & -> & Hin)%list_elem_of_fmap.
  destruct (Hs _ Hin) as ((Hf & _ & _ & Hwp & Hkey) & Hr & Hc & Hterm & Hcur). simpl in *.
  destruct (Hwf' _ Hr) as [Hsug _]. split_and!; try done.
  - by destruct (pr_status run).
  - by rewrite Hkey.
  - by exists node.
Qed.

(** C16. A worker's result that is recorded is the one its run was dispatched
    for and writes everything once: the run and the node are in the requested
    scope, the run was not ended, the lease was current, at a reading of the
    clock the recording made, for the token of the result, the dispatch id and
    the idempotency key are the run's, the node is stored work for the run's
    work point at the revision of the dispatch.  Afterwards the run has the
    status of the outcome, with the key and the new evidence node among its
    evidence; that node and the [evidenced-by] edge to it are in the graph,
    under fresh ids; and the work node has the status of the outcome and its
    next revision. *)
Theorem recorded_result_is_bound i w res w' :
  record_workflow_result i w = Ok res w' -> wrw_replayed res = false ->
  let result := rwi_result i in
  let scope_key := normalized_scope_key (rwi_active_scope_key i) in
  exists existing node evidence attachment now,
    find_by pr_id (wwr_project_run_id result) (runs w) = Some existing /\
    pr_scope_key existing = scope_key /\ read_between w w' now /\
    run_is_terminal (pr_status existing) = false /\
    current_lease existing (Some (wwr_fencing_token result)) now /\
    addressed existing result /\
    find_by pn_id (wwr_node_id result) (db_nodes (w_db w)) = Some node /\
    pn_scope_key node = scope_key /\
    pn_kind node = PlanningNodeKind.Work /\ pn_revision node = wwr_source_revision result /\
    workflow_work_point_id_for_node node = Some (pr_work_point_id existing) /\
    find_by pr_id (wwr_project_run_id result) (runs w') = Some (wrw_project_run res) /\
    pr_status (wrw_project_run res) = workflow_result_project_run_status (wwr_status result) /\
    (exists evidence_id, pr_evidence (wrw_project_run res)
       = evidence_with_result (pr_evidence existing) evidence_id (wwr_idempotency_key result)) /\
    wrw_evidence res = Some evidence /\ wrw_attachment res = Some attachment /\
    (exists now', adds_evidence result scope_key now' node w w' evidence attachment) /\
    exists updated, wrw_status_update res = Some updated /\
      find_by pn_id (wwr_node_id result) (db_nodes (w_db w')) = Some updated /\
      pn_status updated = workflow_result_graph_status (wwr_status result) /\
      pn_revision updated = Z.succ (pn_revision node).
Proof.
  intros Hr Hnew result scope_key. pose proof Hr as Hg.
  destruct (record_scope _ _ _ _ Hr) as (_ & Hrs & Hns). apply record_effect in Hr as [[eid Hr]|(_ & _ & _ & _ & E)];
    [|by rewrite E in Hnew].
  destruct Hr as (ex & now & Hf & Hc & Hread & (Hnt & Haddr & _) & Eruns & Hf').
  apply record_result_graph in Hg as [[_ Hrep]|(now' & node & ev & at_ & Hfn & _ & Hk & Hrev
    & (ex' & Hfe' & Hwp) & (s & ex'' & Es & Hwb) & Hev & Hat & Hadd)]; [by rewrite Hrep in Hnew|].
  unfold runs in Hf. rewrite Hf in Hfe'. injection Hfe' as <-.
  pose proof (find_by_Some _ _ _ _ Hfn) as [_ Hid].
  apply write_back_node in Hwb as [Hst Hfn']; [|by rewrite Es, Hid].
  assert (pr_fencing_token ex = wwr_fencing_token (rwi_result i)) as Htok by (symmetry; apply Haddr).
  pose proof (find_by_Some _ _ _ _ Hf) as [_ Hidr].
  pose proof Hf' as Hstored. rewrite Eruns, find_by_update_where in Hf'.
  2: { intros r. unfold recorded. by case_bool_decide. }
  unfold runs in Hf'. rewrite Hf in Hf'. simpl in Hf'. rewrite bool_decide_true in Hf' by done.
  injection Hf' as Hrec. unfold recorded in Hrec. rewrite bool_decide_true in Hrec by done.
  exists ex, node, ev, at_, now.
  split_and!; try done; [by apply Hrs|by apply Hns|by rewrite <- Hrec|exists eid; by rewrite <- Hrec|by eexists|].
  eexists. split; [exact Hst|]. unfold result. by rewrite <- Hid.
Qed.

(** C17. A result is recorded once: after a worker's result has been
    recorded, the same result sent again at any later point of the history, as
    long as the node is still in the scope, is answered with the run as it was
    recorded, and writes nothing. *)
Theorem results_are_recorded_once i w res w1 w2 node :
  leased_world w -> record_workflow_result i w = Ok res w1 -> wrw_replayed res = false ->
  rtc run_step w1 w2 ->
  find_by pn_id (wwr_node_id (rwi_result i)) (db_nodes (w_db w2)) = Some node ->
  pn_scope_key node = normalized_scope_key (rwi_active_scope_key i) ->
  record_workflow_result i w2 = Ok (mkWorkflowResultWriteback (wrw_project_run res) None None None true) w2.
Proof.
  intros Hw Hr Hnew Hs Hf Hsk. pose proof (leased_world_wf Texts _ Hw) as Hwf.
  assert (run_step w w1) as Hst.
  { pose proof (step_lease _ _ (step_record i w)) as Hst. unfold committed in Hst. by rewrite Hr in Hst. }
  destruct (run_step_timed Texts _ _ Hst Hwf) as [Hwf1 _].
  destruct (run_history_timed Texts _ _ Hs Hwf1) as [[Hn2 _] _].
  destruct (record_scope _ _ _ _ Hr) as (Hc & Hscope & _).
  apply record_effect in Hr as [[eid Hr]|(_ & _ & _ & _ & E)]; [|by rewrite E in Hnew].
  destruct Hr as (ex & now & Hfe & _ & _ & (Hnt & Haddr & _) & Eruns & Hf').
  pose proof (find_by_Some _ _ _ _ Hf') as [Hin Hid].
  rewrite Eruns, find_by_update_where in Hf' by (intros r; unfold recorded; by case_bool_decide).
  rewrite Hfe in Hf'. simpl in Hf'. pose proof (find_by_Some _ _ _ _ Hfe) as [_ Hide].
  rewrite bool_decide_true in Hf' by done. injection Hf' as Hrec. unfold recorded in Hrec.
  destruct Haddr as (Hdisp & Hkey & Htok). rewrite bool_decide_true in Hrec by done.
  assert (wrw_project_run res ∈ runs w2) as Hin2.
  { eapply ended_history; [exact Hs|done|exact Hin|]. rewrite <- Hrec. simpl.
    by destruct (wwr_status (rwi_result i)). }
  apply (record_again i w2 _ node); [done| | |exact Hf|done| |].
  - rewrite <- Hid. by apply find_by_elem.
  - rewrite <- Hrec. simpl. by apply Hscope.
  - rewrite <- Hrec. by split_and!.
  - rewrite <- Hrec. simpl. set_solver.
Qed.
End WorkflowFacts.
