(* ===== verification/Status.v ===== *)
(** Lifecycle status changes ([plugins/planning/src/storage.rs],
    [allowed_transitions] and [update_status]).

    The eight lifecycle entities share the first half of [update_status]:
    parse, load, check the transition, write the row, load again.  The
    interface [Lifecycle] states what that half needs of an entity, and
    [move_status] is written against it; each entity then adds its event and
    the validations it refreshes. *)
From S2P Require Import Prelude Text Json Model Tx Table Store Walk EdgeRules Validation Frames.

Record UpdateStatusInput := mkUpdateStatusInput {
  us_entity_type : EntityType; us_entity_id : string; us_status : string;
  us_evidence_refs : option (list string); us_active_scope_key : option string;
  us_run_id : option string; us_override_transition : bool; us_reason : option string }.

(** The record in the JSON object [update_status] returns. *)
Inductive StatusRecord :=
| GoalChanged (r : GoalRecord) | RoadmapChanged (r : RoadmapRecord)
| WorkPointChanged (r : WorkPointRecord) | PlanChanged (r : PlanRecord)
| TodoChanged (r : TodoRecord) | IssueChanged (r : IssueRecord)
| ReviewPointChanged (r : ReviewPointRecord) | InsightChanged (r : InsightRecord).

(** ** The transition tables *)
Definition unknown_status (what current : string) : PlanningStoreError :=
  InvalidInput ("unknown " +:+ what +:+ " status: " +:+ current).

(** The rows of a table as [(current, targets)]. *)
Definition from_table (what current : string) (rows : list (string * list string))
    : PlanningStoreError + list string :=
  match find_by fst current rows with
  | Some (_, targets) => inr targets
  | None => inl (unknown_status what current)
  end.

Definition work_transitions : list (string * list string) :=
  [("draft", ["proposed"; "cancelled"]); ("proposed", ["active"; "cancelled"]);
   ("active", ["blocked"; "completed"; "cancelled"]); ("blocked", ["active"; "cancelled"]);
   ("completed", []); ("cancelled", ["draft"]); ("invalidated", ["draft"])].

Definition allowed_transitions (ty : EntityType) (current : string)
    : PlanningStoreError + list string :=
  match ty with
  | EntityType.Goal => from_table "goal" current
      [("draft", ["proposed"; "abandoned"]); ("proposed", ["active"; "abandoned"]);
       ("active", ["validated"; "invalidated"; "abandoned"]); ("validated", ["superseded"]);
       ("invalidated", ["active"; "abandoned"]); ("superseded", []); ("abandoned", ["draft"])]
  | EntityType.Roadmap => from_table "roadmap" current work_transitions
  | EntityType.WorkPoint => from_table "work point" current work_transitions
  | EntityType.Plan => from_table "plan" current work_transitions
  | EntityType.Todo => from_table "todo" current
      [("pending", ["in-progress"; "cancelled"]);
       ("in-progress", ["blocked"; "completed"; "cancelled"]);
       ("blocked", ["pending"; "in-progress"; "cancelled"]); ("completed", []);
       ("cancelled", ["pending"])]
  | EntityType.Issue => from_table "issue" current
      [("open", ["blocked"; "resolved"]); ("blocked", ["open"; "resolved"]);
       ("resolved", ["reopened"]); ("reopened", ["open"; "blocked"; "resolved"])]
  | EntityType.ReviewPoint => from_table "review point" current
      [("open", ["resolved"; "accepted-risk"]); ("resolved", []); ("accepted-risk", [])]
  | EntityType.Insight => from_table "insight" current
      [("active", ["superseded"; "archived"]); ("superseded", ["active"; "archived"]);
       ("archived", ["active"])]
  | EntityType.RoadmapSection | EntityType.Scope | EntityType.DiscoveryNode
  | EntityType.DiscoveryRelationship | EntityType.DiscoveryCheckpoint =>
      inl (InvalidInput ("status transitions are not supported for " +:+ as_str ty))
  | other => inl (InvalidInput ("unsupported entity type: " +:+ as_str other))
  end.

Definition status_id_flag (ty : EntityType) : string :=
  match ty with
  | EntityType.Goal => "goal-id" | EntityType.Roadmap => "roadmap-id"
  | EntityType.WorkPoint => "work-point-id" | EntityType.Plan => "plan-id"
  | EntityType.Todo => "todo-id" | EntityType.Issue => "issue-id"
  | EntityType.ReviewPoint => "review-point-id" | EntityType.Insight => "insight-id"
  | _ => "id"
  end.

(** ** The interface *)
Class Lifecycle (R S : Type) `{StringEnum S} := {
  lc_type : EntityType;
  lc_table : Db -> list R;
  lc_map : (list R -> list R) -> Db -> Db;
  lc_id : R -> string;
  lc_status : R -> S;
  lc_set : S -> string -> R -> R;      (* status, revision + 1, updated_at *)
  lc_table_map : forall f d, lc_table (lc_map f d) = f (lc_table d);
  lc_id_set : forall s now r, lc_id (lc_set s now r) = lc_id r;
  lc_status_set : forall s now r, lc_status (lc_set s now r) = s }.

#[export] Instance goal_lifecycle : Lifecycle GoalRecord GoalStatus := {
  lc_type := EntityType.Goal; lc_table := db_goals;
  lc_map f d := d <| db_goals ::= f |>; lc_id := gl_id; lc_status := gl_status;
  lc_set s now r := r <| gl_status := s |> <| gl_revision ::= Z.succ |> <| gl_updated_at := now |>;
  lc_table_map f d := eq_refl; lc_id_set s now r := eq_refl; lc_status_set s now r := eq_refl }.
#[export] Instance roadmap_lifecycle : Lifecycle RoadmapRecord RoadmapStatus := {
  lc_type := EntityType.Roadmap; lc_table := db_roadmaps;
  lc_map f d := d <| db_roadmaps ::= f |>; lc_id := rm_id; lc_status := rm_status;
  lc_set s now r := r <| rm_status := s |> <| rm_revision ::= Z.succ |> <| rm_updated_at := now |>;
  lc_table_map f d := eq_refl; lc_id_set s now r := eq_refl; lc_status_set s now r := eq_refl }.
#[export] Instance work_point_lifecycle : Lifecycle WorkPointRecord WorkPointStatus := {
  lc_type := EntityType.WorkPoint; lc_table := db_work_points;
  lc_map f d := d <| db_work_points ::= f |>; lc_id := wp_id; lc_status := wp_status;
  lc_set s now r := r <| wp_status := s |> <| wp_revision ::= Z.succ |> <| wp_updated_at := now |>;
  lc_table_map f d := eq_refl; lc_id_set s now r := eq_refl; lc_status_set s now r := eq_refl }.
#[export] Instance plan_lifecycle : Lifecycle PlanRecord PlanStatus := {
  lc_type := EntityType.Plan; lc_table := db_plans;
  lc_map f d := d <| db_plans ::= f |>; lc_id := pl_id; lc_status := pl_status;
  lc_set s now r := r <| pl_status := s |> <| pl_revision ::= Z.succ |> <| pl_updated_at := now |>;
  lc_table_map f d := eq_refl; lc_id_set s now r := eq_refl; lc_status_set s now r := eq_refl }.
#[export] Instance todo_lifecycle : Lifecycle TodoRecord TodoStatus := {
  lc_type := EntityType.Todo; lc_table := db_todos;
  lc_map f d := d <| db_todos ::= f |>; lc_id := td_id; lc_status := td_status;
  lc_set s now r := r <| td_status := s |> <| td_revision ::= Z.succ |> <| td_updated_at := now |>;
  lc_table_map f d := eq_refl; lc_id_set s now r := eq_refl; lc_status_set s now r := eq_refl }.
#[export] Instance issue_lifecycle : Lifecycle IssueRecord IssueStatus := {
  lc_type := EntityType.Issue; lc_table := db_issues;
  lc_map f d := d <| db_issues ::= f |>; lc_id := is_id; lc_status := is_status;
  lc_set s now r := r <| is_status := s |> <| is_revision ::= Z.succ |> <| is_updated_at := now |>;
  lc_table_map f d := eq_refl; lc_id_set s now r := eq_refl; lc_status_set s now r := eq_refl }.
#[export] Instance review_point_lifecycle : Lifecycle ReviewPointRecord ReviewPointStatus := {
  lc_type := EntityType.ReviewPoint; lc_table := db_review_points;
  lc_map f d := d <| db_review_points ::= f |>; lc_id := rp_id; lc_status := rp_status;
  lc_set s now r := r <| rp_status := s |> <| rp_revision ::= Z.succ |> <| rp_updated_at := now |>;
  lc_table_map f d := eq_refl; lc_id_set s now r := eq_refl; lc_status_set s now r := eq_refl }.
#[export] Instance insight_lifecycle : Lifecycle InsightRecord InsightStatus := {
  lc_type := EntityType.Insight; lc_table := db_insights;
  lc_map f d := d <| db_insights ::= f |>; lc_id := ins_id; lc_status := ins_status;
  lc_set s now r := r <| ins_status := s |> <| ins_revision ::= Z.succ |> <| ins_updated_at := now |>;
  lc_table_map f d := eq_refl; lc_id_set s now r := eq_refl; lc_status_set s now r := eq_refl }.

Section Status.
Context `{External}.

Definition invalid_status_transition_error (ty : EntityType) (id current requested : string)
    (allowed : list string) : PlanningStoreError :=
  let next_allowed_command :=
    (fun next => "elegy-planning " +:+ as_str ty +:+ " update-status --" +:+ status_id_flag ty
                 +:+ " " +:+ id +:+ " --status " +:+ next) <$> head allowed in
  InvalidInput (json_to_string_pretty (json_object
    [("code", JStr "INVALID_STATUS_TRANSITION"); ("entityType", JStr (as_str ty));
     ("entityId", JStr id); ("currentStatus", JStr current); ("requestedStatus", JStr requested);
     ("allowedTransitions", json_strings allowed);
     ("nextAllowedCommand", json_opt next_allowed_command)])).

(** [parse_*_status(input.status)?]. *)
Definition parse_status {S} `{StringEnum S} (value : string) : M S :=
  ok_or (from_str value) (Sqlite FromSqlConversionFailure).

Section Move.
Context {R S : Type} `{Lifecycle R S}.

(** [update_status_row]: the statement and its check of the affected rows. *)
Definition update_status_row (id : string) (f : R -> R) : M unit :=
  t ← rows lc_table;
  _ ← guard_or (existsb (fun r => bool_decide (lc_id r = id)) t) (NotFound (as_str lc_type) id);
  update_db (lc_map (update_where (fun r => bool_decide (lc_id r = id)) f)).

Definition check_transition (old : R) (status : S) (id : string) (override : bool) : M unit :=
  if override then mret tt else
  match allowed_transitions lc_type (as_str (lc_status old)) with
  | inl e => fail e
  | inr allowed =>
      guard_or (bool_decide (as_str status ∈ allowed))
        (invalid_status_transition_error lc_type id (as_str (lc_status old)) (as_str status) allowed)
  end.

(** Parse, load, check, write, load; [extra] is what else the row update sets. *)
Definition move_status (load : string -> M R) (extra : R -> R) (input : UpdateStatusInput)
    (now : string) : M R :=
  status ← parse_status (us_status input);
  old_record ← load (us_entity_id input);
  _ ← check_transition old_record status (us_entity_id input) (us_override_transition input);
  _ ← update_status_row (us_entity_id input) (fun r => lc_set status now (extra r));
  load (us_entity_id input).
End Move.

(** The event of a status change; [fields] are those beside the override's. *)
Definition status_event (ty : EntityType) (id : string) (agg_ty : EntityType)
    (agg_id correlation_id : string) (input : UpdateStatusInput) (fields : list (string * json))
    : M unit :=
  let override := us_override_transition input in
  let event_type := as_str ty +:+ (if override then ".status-overridden" else ".status-updated") in
  let payload := json_object fields in
  let payload := if override then
      json_set "overridden" (JBool true)
        (json_set "reason" (JStr (default "" (us_reason input))) payload)
    else payload in
  record_event ty id agg_ty agg_id correlation_id (us_run_id input) event_type payload.

Definition status_fields (status : string) (revision : Z) : list (string * json) :=
  [("status", JStr status); ("revision", JInt revision)].

Definition update_goal_status (input : UpdateStatusInput) (now : string)
    : M (StatusRecord * ValidationReport) :=
  record ← move_status load_goal id input now;
  _ ← status_event EntityType.Goal (gl_id record) EntityType.Goal (gl_id record)
        (gl_correlation_id record) input (status_fields (as_str (gl_status record)) (gl_revision record));
  validation ← refresh_validation_target EntityType.Goal (gl_id record);
  mret (GoalChanged record, validation).

Definition update_roadmap_status (input : UpdateStatusInput) (now : string)
    : M (StatusRecord * ValidationReport) :=
  record ← move_status load_roadmap id input now;
  _ ← status_event EntityType.Roadmap (rm_id record) EntityType.Roadmap (rm_id record)
        (rm_correlation_id record) input (status_fields (as_str (rm_status record)) (rm_revision record));
  validation ← refresh_validation_target EntityType.Roadmap (rm_id record);
  mret (RoadmapChanged record, validation).

Definition update_work_point_status (input : UpdateStatusInput) (now : string)
    : M (StatusRecord * ValidationReport) :=
  record ← move_status load_work_point id input now;
  correlation_id ← roadmap_correlation_id (wp_roadmap_id record);
  _ ← status_event EntityType.WorkPoint (wp_id record) EntityType.Roadmap (wp_roadmap_id record)
        correlation_id input (status_fields (as_str (wp_status record)) (wp_revision record));
  validation ← refresh_validation_target EntityType.WorkPoint (wp_id record);
  _ ← refresh_validation_target EntityType.Roadmap (wp_roadmap_id record);
  mret (WorkPointChanged record, validation).

Definition update_plan_status (input : UpdateStatusInput) (now : string)
    : M (StatusRecord * ValidationReport) :=
  record ← move_status load_plan id input now;
  _ ← status_event EntityType.Plan (pl_id record) EntityType.Plan (pl_id record)
        (pl_correlation_id record) input (status_fields (as_str (pl_status record)) (pl_revision record));
  validation ← refresh_validation_target EntityType.Plan (pl_id record);
  mret (PlanChanged record, validation).

Definition update_todo_status (input : UpdateStatusInput) (now : string)
    : M (StatusRecord * ValidationReport) :=
  record ← move_status load_todo
             (fun r => r <| td_evidence_refs := default [] (us_evidence_refs input) |>) input now;
  correlation_id ← todo_correlation_id record;
  _ ← status_event EntityType.Todo (td_id record) EntityType.Todo (td_id record) correlation_id
        input [("status", JStr (as_str (td_status record)));
               ("evidenceRefs", json_strings (td_evidence_refs record));
               ("revision", JInt (td_revision record))];
  validation ← refresh_validation_target EntityType.Todo (td_id record);
  _ ← match td_plan_id record with
      | Some plan_id => _ ← refresh_validation_target EntityType.Plan plan_id; mret tt
      | None => mret tt end;
  mret (TodoChanged record, validation).

Definition update_issue_status (input : UpdateStatusInput) (now : string)
    : M (StatusRecord * ValidationReport) :=
  record ← move_status load_issue id input now;
  _ ← status_event EntityType.Issue (is_id record) EntityType.Issue (is_id record)
        (is_correlation_id record) input (status_fields (as_str (is_status record)) (is_revision record));
  validation ← refresh_validation_target EntityType.Issue (is_id record);
  _ ← match is_related_entity_type record, is_related_entity_id record with
      | Some EntityType.Plan, Some related_entity_id =>
          _ ← refresh_validation_target EntityType.Plan related_entity_id; mret tt
      | _, _ => mret tt end;
  mret (IssueChanged record, validation).

Definition update_review_point_status (input : UpdateStatusInput) (now : string)
    : M (StatusRecord * ValidationReport) :=
  record ← move_status load_review_point id input now;
  let attached_ty := rp_attached_entity_type record in
  let attached_id := rp_attached_entity_id record in
  correlation_id ← attached_entity_correlation_id attached_ty attached_id;
  _ ← status_event EntityType.ReviewPoint (rp_id record) attached_ty attached_id correlation_id
        input (status_fields (as_str (rp_status record)) (rp_revision record));
  validation ← refresh_validation_target EntityType.ReviewPoint (rp_id record);
  _ ← refresh_validation_target attached_ty attached_id;
  mret (ReviewPointChanged record, validation).

Definition update_insight_status (input : UpdateStatusInput) (now : string)
    : M (StatusRecord * ValidationReport) :=
  record ← move_status load_insight id input now;
  let parent_ty := ins_parent_entity_type record in
  let parent_id := ins_parent_entity_id record in
  correlation_id ← attached_entity_correlation_id parent_ty parent_id;
  _ ← status_event EntityType.Insight (ins_id record) parent_ty parent_id correlation_id
        input (status_fields (as_str (ins_status record)) (ins_revision record));
  validation ← refresh_validation_target EntityType.Insight (ins_id record);
  _ ← refresh_validation_target parent_ty parent_id;
  mret (InsightChanged record, validation).

Definition not_supported (ty : EntityType) : PlanningStoreError :=
  InvalidInput ("status transitions are not supported for " +:+ as_str ty).

Definition update_status (input : UpdateStatusInput) : M (StatusRecord * ValidationReport) :=
  let ty := us_entity_type input in
  _ ← require_non_empty "entityId" (us_entity_id input);
  _ ← require_non_empty "status" (us_status input);
  now ← now_string;
  let active_scope_key := normalized_scope_key (us_active_scope_key input) in
  _ ← match ty with
      | EntityType.RoadmapSection | EntityType.Scope | EntityType.DiscoveryNode
      | EntityType.DiscoveryRelationship | EntityType.DiscoveryCheckpoint => fail (not_supported ty)
      | _ => ensure_entity_in_scope ty (us_entity_id input) active_scope_key
      end;
  match ty with
  | EntityType.Goal => update_goal_status input now
  | EntityType.Roadmap => update_roadmap_status input now
  | EntityType.WorkPoint => update_work_point_status input now
  | EntityType.Plan => update_plan_status input now
  | EntityType.Todo => update_todo_status input now
  | EntityType.Issue => update_issue_status input now
  | EntityType.ReviewPoint => update_review_point_status input now
  | EntityType.Insight => update_insight_status input now
  | EntityType.RoadmapSection | EntityType.Scope | EntityType.ProjectRun | EntityType.GraphNode
  | EntityType.GraphEdge | EntityType.DiscoveryNode | EntityType.DiscoveryRelationship
  | EntityType.DiscoveryCheckpoint => fail (not_supported ty)
  end.
End Status.

(** ** Facts *)

(** The printed status of a lifecycle entity. *)
Definition status_in {R S} `{Lifecycle R S} (id : string) (d : Db) : option string :=
  (fun r => as_str (lc_status r)) <$> find_by lc_id id (lc_table d).
Definition status_of (ty : EntityType) (id : string) (d : Db) : option string :=
  match ty with
  | EntityType.Goal => status_in (R:=GoalRecord) id d
  | EntityType.Roadmap => status_in (R:=RoadmapRecord) id d
  | EntityType.WorkPoint => status_in (R:=WorkPointRecord) id d
  | EntityType.Plan => status_in (R:=PlanRecord) id d
  | EntityType.Todo => status_in (R:=TodoRecord) id d
  | EntityType.Issue => status_in (R:=IssueRecord) id d
  | EntityType.ReviewPoint => status_in (R:=ReviewPointRecord) id d
  | EntityType.Insight => status_in (R:=InsightRecord) id d
  | _ => None
  end.

(** The transition was in the table for the old status, or overridden. *)
Definition transition_taken (ty : EntityType) (old new : string) (override : bool) : Prop :=
  override = true \/ exists targets, allowed_transitions ty old = inr targets /\ new ∈ targets.

(** Every status of the entity has a row, whose targets are other statuses of it. *)
Definition table_sound (S : Type) `{StringEnum S} (ty : EntityType) : Prop :=
  forall s : S, exists targets, allowed_transitions ty (as_str s) = inr targets /\
    forall t, t ∈ targets -> t <> as_str s /\ exists s' : S, from_str t = Some s'.

(** Decides [table_sound] over the statuses of the enumeration. *)
Definition table_soundb (S : Type) `{StringEnum S} (ty : EntityType) : bool :=
  forallb (fun s : S =>
    match allowed_transitions ty (as_str s) with
    | inr targets => forallb (fun t => negb (bool_decide (t = as_str s))
                                       && bool_decide (is_Some (from_str (A:=S) t))) targets
    | inl _ => false
    end) variants.
Lemma table_soundb_sound (S : Type) `{StringEnum S} ty :
  table_soundb S ty = true -> table_sound S ty.
Proof.
  unfold table_soundb, table_sound. rewrite forallb_forall. intros Hb s.
  specialize (Hb s). rewrite <- list_elem_of_In in Hb. specialize (Hb (variants_complete s)).
  destruct (allowed_transitions ty (as_str s)) as [e|targets]; [done|].
  exists targets. split; [done|]. intros t Ht. rewrite forallb_forall in Hb.
  specialize (Hb t). rewrite <- list_elem_of_In in Hb. specialize (Hb Ht). bool_props.
  split; [done|]. match goal with Hs : is_Some _ |- _ => destruct Hs as [s' Hs'] end. by exists s'.
Qed.

Section StatusFacts.
Context `{External}.

Section MoveFacts.
Context {R S : Type} `{Lifecycle R S}.

(** Loading an entity finds its row, up to the file scopes kept elsewhere. *)
Definition loads_row (load : string -> M R) : Prop :=
  forall id w r w', load id w = Ok r w' ->
    w' = w /\ exists r0, find_by lc_id id (lc_table (w_db w)) = Some r0 /\
                     lc_status r0 = lc_status r.

Lemma check_transition_Ok old status id override w u w' :
  check_transition old status id override w = Ok u w' ->
  w' = w /\ transition_taken lc_type (as_str (lc_status old)) (as_str status) override.
Proof.
  unfold check_transition, transition_taken. destruct override; intros Hr; [tx_inv; by auto|].
  destruct (allowed_transitions lc_type (as_str (lc_status old))) as [e|targets]; tx_inv.
  bool_props. split; [done|right]. by exists targets.
Qed.

Lemma update_status_row_Ok id f w u w' :
  update_status_row id f w = Ok u w' ->
  w_db w' = lc_map (update_where (fun r => bool_decide (lc_id r = id)) f) (w_db w).
Proof.
  unfold update_status_row, update_db. intros Hr. tx_inv.
  by apply (proj1 (reads_Ok _ _ _ _)) in R0 as [_ ->].
Qed.

Lemma move_status_Ok load extra input now w r w' :
  loads_row load -> move_status load extra input now w = Ok r w' ->
  exists old status,
    from_str (us_status input) = Some status /\
    find_by lc_id (us_entity_id input) (lc_table (w_db w)) = Some old /\
    transition_taken lc_type (as_str (lc_status old)) (as_str status)
      (us_override_transition input) /\
    w_db w' = lc_map (update_where (fun r => bool_decide (lc_id r = us_entity_id input))
                        (fun r => lc_set status now (extra r))) (w_db w).
Proof.
  intros Hload. unfold move_status, parse_status. intros Hr. tx_inv.
  repeat match goal with
  | R : load _ _ = Ok _ _ |- _ => apply Hload in R as (-> & ? & ? & ?)
  | R : check_transition _ _ _ _ _ = Ok _ _ |- _ => apply check_transition_Ok in R as [-> ?]
  | R : update_status_row _ _ _ = Ok _ _ |- _ => apply update_status_row_Ok in R
  end.
  eexists _, _. split_and!; [done|done|congruence|done].
Qed.

(** What the move does to the statuses of that table. *)
Lemma status_in_move id id' status now (extra : R -> R) d :
  (forall r, lc_id (extra r) = lc_id r) ->
  is_Some (find_by lc_id id (lc_table d)) ->
  status_in id' (lc_map (update_where (fun r => bool_decide (lc_id r = id))
                           (fun r => lc_set status now (extra r))) d)
  = if bool_decide (id' = id) then Some (as_str status) else status_in id' d.
Proof.
  intros He [old Hf]. unfold status_in. rewrite lc_table_map, find_by_update_where.
  2: { intros r. by rewrite lc_id_set, He. }
  case_bool_decide as Hid.
  - subst. rewrite Hf. simpl. destruct (find_by_Some _ _ _ _ Hf) as [_ ->].
    by rewrite bool_decide_true, lc_status_set.
  - destruct (find_by lc_id id' (lc_table d)) as [r|] eqn:E; [|done]. simpl.
    destruct (find_by_Some _ _ _ _ E) as [_ ->]. by rewrite bool_decide_false.
Qed.
End MoveFacts.

Lemma loads_row_by {R S} `{Lifecycle R S} ty : loads_row (load_by lc_table lc_id ty).
Proof.
  intros id w r w' Hr. unfold load_by, rows in Hr. tx_inv. split; [done|]. by eexists.
Qed.
Lemma loads_work_point : loads_row load_work_point.
Proof.
  intros id w r w' Hr. unfold load_work_point in Hr. tx_inv.
  pose proof (loads_row_by (R:=WorkPointRecord) EntityType.WorkPoint _ _ _ _ R) as (-> & r0 & Hf & Hs).
  pose proof (keeps_load_file_scopes (fun w => w) _ _ _ _ _ R0) as E. simpl in E. subst.
  split; [done|]. by exists r0.
Qed.
Lemma loads_plan : loads_row load_plan.
Proof.
  intros id w r w' Hr. unfold load_plan in Hr. tx_inv.
  pose proof (loads_row_by (R:=PlanRecord) EntityType.Plan _ _ _ _ R) as (-> & r0 & Hf & Hs).
  pose proof (keeps_load_file_scopes (fun w => w) _ _ _ _ _ R0) as E. simpl in E. subst.
  split; [done|]. by exists r0.
Qed.
Lemma loads_todo : loads_row load_todo.
Proof.
  intros id w r w' Hr. unfold load_todo in Hr. tx_inv.
  pose proof (loads_row_by (R:=TodoRecord) EntityType.Todo _ _ _ _ R) as (-> & r0 & Hf & Hs).
  pose proof (keeps_load_file_scopes (fun w => w) _ _ _ _ _ R0) as E. simpl in E. subst.
  split; [done|]. by exists r0.
Qed.

(** The statuses do not depend on the event log, the findings and the tags. *)
Lemma status_of_records ty id w : status_of ty id (w_db w) = status_of ty id (records w).
Proof. by destruct ty. Qed.

(** The outcome of a status change, for one entity type. *)

Definition moved (input : UpdateStatusInput) (d d' : Db) : Prop :=
  let ty := us_entity_type input in
  let id := us_entity_id input in
  exists old, status_of ty id d = Some old /\
    transition_taken ty old (us_status input) (us_override_transition input) /\
    forall ty' id', status_of ty' id' d'
      = if bool_decide (ty' = ty /\ id' = id) then Some (us_status input) else status_of ty' id' d.

Lemma move_status_moved {R S} `{Lifecycle R S} load extra input now s r s1 w w' :
  move_status load extra input now s = Ok r s1 ->
  us_entity_type input = lc_type ->
  (forall id d, status_of lc_type id d = status_in (R:=R) id d) ->
  (forall ty id d f, ty <> lc_type -> status_of ty id (lc_map f d) = status_of ty id d) ->
  loads_row load -> (forall r, lc_id (extra r) = lc_id r) ->
  w_db s = w_db w -> records w' = records s1 ->
  moved input (w_db w) (w_db w').
Proof.
  intros Hr Hty Hof Hother Hload He Es E'.
  apply move_status_Ok in Hr as (old & status & Hp & Hf & Ht & Ed); [|done].
  apply from_str_Some in Hp. unfold moved. rewrite Hty. exists (as_str (lc_status old)).
  rewrite <- Es. rewrite Hof. split_and!; [unfold status_in; by rewrite Hf|by rewrite <- Hp|].
  intros ty' id'. rewrite status_of_records, E', <- status_of_records, Ed.
  destruct (decide (ty' = lc_type)) as [->|Hne].
  - rewrite Hof, status_in_move by done. rewrite Hp, Hof.
    destruct (decide (id' = us_entity_id input)).
    + by rewrite !bool_decide_true.
    + rewrite !bool_decide_false; [done|naive_solver|done].
  - rewrite Hother by done. rewrite bool_decide_false; [done|naive_solver].
Qed.

(** Closes the case of one entity type: all that follows the move is quiet. *)
Lemma keeps_todo_correlation {X} (f : World -> X) r : keeps f (todo_correlation_id r).
Proof. unfold todo_correlation_id, plan_correlation_id, work_point_correlation_id. frame. Qed.
Lemma keeps_status_event ty id aty aid c i fs : keeps records (status_event ty id aty aid c i fs).
Proof. apply record_event_records. Qed.
#[local] Hint Resolve keeps_status_event keeps_todo_correlation : frame.

Lemma after_move {A B} (m : M A) (k : A -> M B) w b w' :
  (m ≫= k) w = Ok b w' -> (forall a, keeps records (k a)) ->
  exists a s1, m w = Ok a s1 /\ records w' = records s1.
Proof. intros Hr Hk. tx_inv. eexists _, _. split; [done|]. by eapply Hk. Qed.

Ltac status_case Hr Ety :=
  let record := fresh "record" in let s := fresh "s" in
  let Hm := fresh "Hm" in let Erec := fresh "Erec" in
  unfold update_goal_status, update_roadmap_status, update_work_point_status, update_plan_status,
    update_todo_status, update_issue_status, update_review_point_status,
    update_insight_status in Hr;
  apply after_move in Hr as (record & s & Hm & Erec); [|frame];
  let R := type of record in
  eapply (move_status_moved (R:=R)); [exact Hm|exact Ety| | | | |congruence|exact Erec];
  [done|by intros []|auto using loads_row_by, loads_work_point, loads_plan, loads_todo|done].

(** C21. Lifecycle changes follow the transition tables: a status update that
    succeeds moved the entity from its old status to the requested one, the
    move was in the table of its entity type unless it was overridden, and
    no other lifecycle entity changed status. *)
Theorem update_status_follows_table input w res w' :
  update_status input w = Ok res w' ->
  let ty := us_entity_type input in
  let id := us_entity_id input in
  exists old, status_of ty id (w_db w) = Some old /\
    (us_override_transition input = true \/
     exists targets, allowed_transitions ty old = inr targets /\ us_status input ∈ targets) /\
    forall ty' id', status_of ty' id' (w_db w')
      = if bool_decide (ty' = ty /\ id' = id) then Some (us_status input)
        else status_of ty' id' (w_db w).
Proof.
  unfold update_status. intros Hr. tx_inv.
  pose proof (keeps_require_non_empty w_db _ _ _ _ _ R) as E1.
  pose proof (keeps_require_non_empty w_db _ _ _ _ _ R0) as E2.
  pose proof (keeps_now_string _ _ _ R1) as E3.
  change (moved input (w_db w) (w_db w')).
  destruct (us_entity_type input) eqn:Ety; tx_inv;
    pose proof (keeps_ensure_in_scope w_db _ _ _ _ _ _ R2) as E4;
    status_case Hr Ety;
    first [ done | exact (loads_row_by (R:=GoalRecord) EntityType.Goal)
          | exact (loads_row_by (R:=RoadmapRecord) EntityType.Roadmap)
          | exact (loads_row_by (R:=IssueRecord) EntityType.Issue)
          | exact (loads_row_by (R:=ReviewPointRecord) EntityType.ReviewPoint)
          | exact (loads_row_by (R:=InsightRecord) EntityType.Insight) ].
Qed.

(** The transition tables are total and closed: for each of the eight
    lifecycle entities every status has a row, and each target in it is
    another status of the same entity. *)
Theorem transition_tables_are_sound :
  table_sound GoalStatus EntityType.Goal /\ table_sound RoadmapStatus EntityType.Roadmap /\
  table_sound WorkPointStatus EntityType.WorkPoint /\ table_sound PlanStatus EntityType.Plan /\
  table_sound TodoStatus EntityType.Todo /\ table_sound IssueStatus EntityType.Issue /\
  table_sound ReviewPointStatus EntityType.ReviewPoint /\
  table_sound InsightStatus EntityType.Insight.
Proof. split_and!; apply table_soundb_sound; vm_compute; reflexivity. Qed.
End StatusFacts.
