(* ===== verification/EventLog.v ===== *)
(** The mutations of the store as one type, and the event log
    ([append_event], [build_event]).

    [PlanningOp] is what a client of [PlanningStore] can ask for.  Each
    operation is one transaction; [planning_step] commits it or rolls it back,
    or lets anything happen outside the database.

    Every mutation appends an event to the stream of its aggregate.  The
    sequence numbers of a stream are 1, 2, 3, .. without gap or repetition,
    whatever operations run ([log_contiguous]). *)
From stdpp Require Import relations.
From S2P Require Import Prelude Text Json Model Tx Table Store Walk EdgeRules Validation Frames ProjectRuns Graph GraphFacts Leases Entities WorkflowPlan Workflow LeaseTime Status.

(** ** The operations *)
Inductive EntityOp :=
| CreateScope (i : CreateScopeInput) | CreateGoal (i : CreateGoalInput)
| CreateRoadmap (i : CreateRoadmapInput) | AddRoadmapSection (i : AddRoadmapSectionInput)
| AddWorkPoint (i : AddWorkPointInput) | ReviseWorkPoint (i : ReviseWorkPointInput)
| CreatePlan (i : CreatePlanInput) | RevisePlan (i : RevisePlanInput)
| CreateTodo (i : CreateTodoInput) | CreateIssue (i : CreateIssueInput)
| CreateReviewPoint (i : CreateReviewPointInput) | CreateInsight (i : CreateInsightInput).

Inductive WorkflowOp :=
| PrepareWorkflow (i : PrepareWorkflowInput) | RecordResult (i : RecordWorkflowResultInput).

Inductive PlanningOp :=
| OnEntity (op : EntityOp) | OnStatus (i : UpdateStatusInput)
| OnRun (op : LeaseOp) | OnGraph (op : GraphOp) | OnWorkflow (op : WorkflowOp).

Section Operations.
Context `{External}.

Definition entity_op (op : EntityOp) : M unit :=
  match op with
  | CreateScope i => drop_result (create_scope i)
  | CreateGoal i => drop_result (create_goal i)
  | CreateRoadmap i => drop_result (create_roadmap i)
  | AddRoadmapSection i => drop_result (add_roadmap_section i)
  | AddWorkPoint i => drop_result (add_work_point i)
  | ReviseWorkPoint i => drop_result (revise_work_point i)
  | CreatePlan i => drop_result (create_plan i)
  | RevisePlan i => drop_result (revise_plan i)
  | CreateTodo i => drop_result (create_todo i)
  | CreateIssue i => drop_result (create_issue i)
  | CreateReviewPoint i => drop_result (create_review_point i)
  | CreateInsight i => drop_result (create_insight i)
  end.

Definition workflow_op (op : WorkflowOp) : M unit :=
  match op with
  | PrepareWorkflow i => drop_result (prepare_workflow i)
  | RecordResult i => drop_result (record_workflow_result i)
  end.

Definition planning_op (op : PlanningOp) : M unit :=
  match op with
  | OnEntity op => entity_op op
  | OnStatus i => drop_result (update_status i)
  | OnRun op => drop_result (lease_op op)
  | OnGraph op => graph_op op
  | OnWorkflow op => workflow_op op
  end.

Definition run_all (ops : list PlanningOp) (w : World) : World :=
  fold_left (fun w op => committed (planning_op op) w) ops w.

Inductive planning_step : World -> World -> Prop :=
| step_planning_op op w : planning_step w (committed (planning_op op) w)
| step_outside w w' : w_db w' = w_db w -> planning_step w w'.
End Operations.

(** ** The log *)
Create HintDb invariant.

(** The sequence numbers of a stream, in order of appending. *)
Definition stream (stream_id : string) (events : list EventRow) : list Z :=
  map (fun r => pev_sequence (evr_event r))
    (select_where (fun r => bool_decide (pev_stream_id (evr_event r) = stream_id)) events).

Definition log_contiguous (events : list EventRow) : Prop :=
  forall stream_id, stream stream_id events
    = map Z.of_nat (seq 1 (length (stream stream_id events))).

Lemma fold_max_seq n :
  fold_left Z.max (map Z.of_nat (seq 2 n)) 1%Z = Z.of_nat (S n).
Proof.
  induction n as [|n IH]; [done|]. rewrite seq_S, map_app, fold_left_app, IH.
  cbn [map fold_left]. lia.
Qed.

(** On a contiguous stream the next number is one past its length. *)
Lemma next_sequence_contiguous stream_id events :
  stream stream_id events = map Z.of_nat (seq 1 (length (stream stream_id events))) ->
  next_sequence stream_id events = Z.of_nat (S (length (stream stream_id events))).
Proof.
  unfold next_sequence, max_or_zero, stream. set (l := map _ _). intros Hc.
  rewrite Hc. generalize (length l) as n. intros [|n]; [done|].
  cbn [seq map]. change (Z.of_nat 1) with 1%Z. rewrite fold_max_seq.
  rewrite ?length_map, ?length_seq. simpl. rewrite ?length_map, ?length_seq. lia.
Qed.

Section EventLog.
Context `{External}.

Definition log_ok (w : World) : Prop := log_contiguous (db_events (w_db w)).

Lemma log_ok_events (w w' : World) :
  db_events (w_db w') = db_events (w_db w) -> log_ok w -> log_ok w'.
Proof. unfold log_ok. by intros ->. Qed.

Lemma append_contiguous events row :
  log_contiguous events ->
  pev_sequence (evr_event row) = next_sequence (pev_stream_id (evr_event row)) events ->
  log_contiguous (events ++ [row]).
Proof.
  intros Hc Hseq sid. unfold stream, select_where. rewrite List.filter_app, map_app. simpl.
  specialize (Hc sid). fold (select_where (fun r : EventRow =>
    bool_decide (pev_stream_id (evr_event r) = sid)) events). fold (stream sid events).
  case_bool_decide as Hs; simpl; [|by rewrite app_nil_r].
  rewrite length_app, seq_app, map_app, <- Hc. simpl. do 2 f_equal.
  by rewrite Hseq, Hs, next_sequence_contiguous.
Qed.

Lemma record_event_log ty id aty aid c r e p : preserves log_ok (record_event ty id aty aid c r e p).
Proof.
  intros w u w' Hr Hw. unfold record_event in Hr. tx_inv.
  pose proof (build_event_db _ _ _ _ _ _ _ _ _ _ _ R) as Ed.
  assert (pev_sequence a = next_sequence (pev_stream_id a) (db_events (w_db w))) as Hseq.
  { unfold build_event in R. tx_inv. simpl.
    match goal with R1 : new_id _ = Ok _ _, R2 : now_string _ = Ok _ _, R3 : rows _ _ = Ok _ _ |- _ =>
      apply keeps_new_id in R1; apply keeps_now_string in R2;
      apply (proj1 (reads_Ok _ _ _ _)) in R3 as [-> ->] end.
    congruence. }
  unfold append_event in Hr. tx_inv.
  match goal with R1 : resolve_event_scope_key _ _ _ _ _ = Ok _ _, R3 : rows _ _ = Ok _ _ |- _ =>
    apply (keeps_resolve_event_scope w_db) in R1;
    apply (proj1 (reads_Ok _ _ _ _)) in R3 as [-> ->] end.
  match goal with Hi : insert_row _ _ _ = Some _ |- _ =>
    apply (proj1 (insert_row_Some _ _ _ _)) in Hi as [-> _] end.
  unfold update_db in Hr. tx_inv. unfold log_ok in *. simpl.
  replace (db_events (w_db _)) with (db_events (w_db w)) by congruence.
  by apply append_contiguous.
Qed.

(** A part of an operation that appends nothing. *)
Lemma quiet_log {A} (m : M A) : keeps (fun w => db_events (w_db w)) m -> preserves log_ok m.
Proof. apply preserves_keeps. intros s s'. apply log_ok_events. Qed.
Lemma node_event_log i c r e p : preserves log_ok (node_event i c r e p).
Proof. apply record_event_log. Qed.
Lemma edge_event_log i n c r e p : preserves log_ok (edge_event i n c r e p).
Proof. apply record_event_log. Qed.
Lemma run_event_log r c i e p : preserves log_ok (run_event r c i e p).
Proof. apply record_event_log. Qed.
#[local] Hint Resolve record_event_log node_event_log edge_event_log run_event_log : invariant.

(** [log]: the operation only appends through [record_event]. *)
Ltac log := repeat first
  [ progress intros
  | match goal with |- preserves _ (_ ≫= _) => apply preserves_bind end
  | solve [eauto 1 with invariant nocore]
  | apply quiet_log; unfold update_db; solve [frame]
  | match goal with
    | |- preserves _ (for_each _ _) => apply preserves_for_each
    | |- preserves _ (match ?x with _ => _ end) => destruct x
    | |- preserves _ (let _ := _ in _) => cbv zeta
    end ].

Lemma lease_op_log op : preserves log_ok (lease_op op).
Proof.
  destruct op as [i|i|i|i|i]; simpl.
  - unfold claim_project_run, claim_checks, claim_owner, claim_replay, claim_new_run,
      expire_leases, refuse_held_lease, next_fencing_token, insert_project_run. log.
  - unfold activate_project_run, owned_run, update_project_run. log.
  - unfold heartbeat_project_run, owned_run. log.
  - unfold release_project_run, owned_run, update_project_run. log.
  - unfold add_project_run_evidence, owned_run, update_project_run. log.
Qed.

Lemma create_graph_node_log i : preserves log_ok (create_graph_node i).
Proof. unfold create_graph_node, insert_graph_node. log. Qed.
Lemma create_graph_edge_log i : preserves log_ok (create_graph_edge i).
Proof.
  unfold create_graph_edge, check_endpoints, check_activation, insert_graph_edge, load_endpoint. log.
Qed.
#[local] Hint Resolve create_graph_node_log create_graph_edge_log : invariant.

Lemma validate_and_report_log ty id : preserves log_ok (validate_and_report ty id).
Proof. apply quiet_log, refresh_events. Qed.
Lemma revised_status_log i e : preserves log_ok (revised_status i e).
Proof. unfold revised_status. log. Qed.
#[local] Hint Resolve validate_and_report_log revised_status_log : invariant.

Lemma graph_op_log op : preserves log_ok (graph_op op).
Proof.
  destruct op as [i|i|i|i|i|i|i|i|i|i|i|i]; simpl; unfold drop_result.
  - log.
  - unfold upsert_graph_node, insert_graph_node, overwrite_node, update_graph_node_row. log.
  - unfold create_acceptance. log.
  - unfold create_evidence. log.
  - unfold update_graph_node_status, update_graph_node_row. log.
  - unfold revise_graph_node, update_graph_node_row. log.
  - unfold finalize_graph_node, finalization_findings, check_finalization,
      update_graph_node_row. log.
  - log.
  - unfold satisfy_acceptance, require_acceptance. log.
  - unfold attach_evidence. log.
  - unfold update_graph_edge_status, check_activation, update_graph_edge_row. log.
  - unfold revise_graph_edge, check_activation, update_graph_edge_row. log.
Qed.

Lemma insert_into_log {R} name (table : Db -> list R) key store r :
  (forall t d, db_events (store t d) = db_events d) ->
  preserves log_ok (insert_into name table key store r).
Proof. intros Hst. apply quiet_log. unfold insert_into, update_db. frame.
  apply keeps_modify. intros s. apply Hst.
Qed.
Lemma replace_file_scopes_log sk ty id fs : preserves log_ok (replace_entity_file_scopes sk ty id fs).
Proof.
  apply quiet_log. unfold replace_entity_file_scopes, insert_file_scope, update_db. frame.
Qed.
Lemma refresh_log ty id : preserves log_ok (refresh ty id).
Proof. unfold refresh. log. Qed.
Lemma refresh_all_log ty ids : preserves log_ok (refresh_all ty ids).
Proof. unfold refresh_all. log. Qed.
Lemma refresh_work_point_users_log id rid : preserves log_ok (refresh_work_point_users id rid).
Proof.
  unfold refresh_work_point_users, list_work_point_dependents, list_plans_targeting_work_point. log;
  apply refresh_all_log.
Qed.
#[local] Hint Resolve replace_file_scopes_log refresh_log refresh_all_log
  refresh_work_point_users_log : invariant.

Ltac log_op := unfold drop_result; repeat first
  [ progress log | apply insert_into_log; reflexivity ].

Lemma entity_op_log op : preserves log_ok (entity_op op).
Proof.
  destruct op as [i|i|i|i|i|i|i|i|i|i|i|i]; simpl.
  - unfold create_scope. log_op.
  - unfold create_goal. log_op.
  - unfold create_roadmap. log_op.
  - unfold add_roadmap_section, next_ordering. log_op.
  - unfold add_work_point, ensure_section_belongs_to_roadmap, check_new_dependencies,
      check_new_blocks, same_roadmap, next_ordering, check_block_cycles. log_op.
  - unfold revise_work_point, revised_dependencies, revised_blocks, same_roadmap,
      check_block_cycles. log_op.
  - unfold create_plan, check_targets. log_op.
  - unfold revise_plan, ensure_plan_transfer_compatible, ensure_plan_transfer_entity_in_scope,
      ensure_plan_transfer_record_in_scope, list_issues_for_related_entity. log_op.
  - unfold create_todo, next_ordering, todo_aggregate, plan_correlation_id,
      work_point_correlation_id. log_op.
  - unfold create_issue. log_op.
  - unfold create_review_point. log_op.
  - unfold create_insight. log_op.
Qed.

Lemma status_event_log ty id aty aid c i fs : preserves log_ok (status_event ty id aty aid c i fs).
Proof. apply record_event_log. Qed.
#[local] Hint Resolve status_event_log : invariant.
Lemma update_status_log i : preserves log_ok (update_status i).
Proof.
  unfold update_status, update_goal_status, update_roadmap_status, update_work_point_status,
    update_plan_status, update_todo_status, update_issue_status, update_review_point_status,
    update_insight_status, move_status, parse_status, check_transition, update_status_row,
    todo_correlation_id, plan_correlation_id, work_point_correlation_id. log_op.
Qed.

(** *** Workflows *)
Lemma activate_run_log run now c i : preserves log_ok (activate_run run now c i).
Proof. unfold activate_run. log. Qed.
Lemma insert_project_run_log r : preserves log_ok (insert_project_run r).
Proof. unfold insert_project_run. log. Qed.
#[local] Hint Resolve activate_run_log insert_project_run_log : invariant.
Lemma lease_run_log i sk owner now secs node hint wp rm key acc :
  preserves log_ok (lease_run i sk owner now secs node hint wp rm key acc).
Proof. unfold lease_run, next_fencing_token, skip_node, prepare_node. log. Qed.
Lemma resume_run_log i now node hint wp rm key id acc :
  preserves log_ok (resume_run i now node hint wp rm key id acc).
Proof. unfold resume_run, skip_node, prepare_node. log. Qed.
#[local] Hint Resolve lease_run_log resume_run_log : invariant.
Lemma prepare_work_point_log i sk owner now secs node hint wp acc :
  preserves log_ok (prepare_work_point i sk owner now secs node hint wp acc).
Proof. unfold prepare_work_point. log. Qed.
#[local] Hint Resolve prepare_work_point_log : invariant.
Lemma prepare_candidate_log i view sk owner now secs max acc id :
  preserves log_ok (prepare_candidate i view sk owner now secs max acc id).
Proof. unfold prepare_candidate, skip_node. log. Qed.
Lemma prepare_in_transaction_log i view secs : preserves log_ok (prepare_in_transaction i view secs).
Proof.
  unfold prepare_in_transaction. destruct (first_phase _) as [[phase mode] ids].
  apply preserves_bind; [log|intros now].
  apply preserves_bind; [|intros; apply preserves_ret].
  apply preserves_for_acc. intros. apply prepare_candidate_log.
Qed.
#[local] Hint Resolve prepare_in_transaction_log : invariant.
#[local] Hint Resolve workflow_view_reads : frame.

Lemma write_back_log i sk now existing node : preserves log_ok (write_back i sk now existing node).
Proof.
  unfold write_back, insert_workflow_result_evidence, insert_workflow_result_attachment,
    update_workflow_node_status_in_transaction, insert_graph_node, insert_graph_edge,
    update_graph_node_row. log.
Qed.
#[local] Hint Resolve write_back_log : invariant.

Lemma workflow_op_log op : preserves log_ok (workflow_op op).
Proof.
  destruct op as [i|i]; simpl; unfold drop_result.
  - unfold prepare_workflow. log.
  - unfold record_workflow_result, check_worker_result, check_result_binding, check_result_node. log.
Qed.

Lemma planning_op_log op : preserves log_ok (planning_op op).
Proof.
  destruct op as [op|i|op|op|op]; simpl; [apply entity_op_log| | |apply graph_op_log
    |apply workflow_op_log];
    apply preserves_bind; intros; try apply preserves_ret; [apply update_status_log|apply lease_op_log].
Qed.

(** C20. The event log is gapless: after any sequence of the store's
    operations on entities, statuses, project runs, the planning graph and
    workflows, committed or rolled back, on a database with no events yet, the events of
    every stream are numbered 1, 2, 3, .. in the order they were appended. *)
Theorem event_streams_are_gapless ops w :
  db_events (w_db w) = [] -> log_contiguous (db_events (w_db (run_all ops w))).
Proof.
  intros E. assert (log_ok w) as Hw by (unfold log_ok; rewrite E; by intros sid).
  clear E. unfold run_all. revert w Hw. induction ops as [|op ops IH]; intros w Hw; simpl; [done|].
  apply IH, preserves_committed; [apply planning_op_log|done].
Qed.
End EventLog.
