(* ===== verification/GraphQueries.v ===== *)
(** Runnable work of the planning graph ([find_runnable_graph_work]).

    [ready] is the declarative condition on a work node; the query returns
    exactly the ready nodes as candidates, in order of status and title, and
    exactly the others as blocked. *)
From S2P Require Import Prelude Text Json Model Tx Table Store EdgeRules Frames Graph.

Section GraphQueries.
Context `{External}.

(** [e] is an edge in force of the scope and kind. *)
Definition in_force (d : Db) (scope_key : string) (kind : PlanningEdgeKind)
    (e : PlanningGraphEdge) : Prop :=
  e ∈ db_edges d /\ is_active e = true /\ pe_scope_key e = scope_key /\ pe_kind e = kind.

Definition node_is (d : Db) (id : string) (p : string -> bool) : Prop :=
  exists n, find_by pn_id id (db_nodes d) = Some n /\ p (pn_status n) = true.

(** Every dependency is done and every blocker is out of the way. *)
Definition ready (d : Db) (scope_key : string) (n : PlanningGraphNode) : Prop :=
  (forall e, in_force d scope_key PlanningEdgeKind.DependsOn e -> pe_source_node_id e = pn_id n ->
     node_is d (pe_target_node_id e) dependency_done) /\
  (forall e, in_force d scope_key PlanningEdgeKind.Blocks e -> pe_target_node_id e = pn_id n ->
     node_is d (pe_source_node_id e) blocker_done).

(** A work node whose status may be picked up. *)
Definition pending_work (d : Db) (scope_key : string) (n : PlanningGraphNode) : Prop :=
  n ∈ db_nodes d /\ pn_scope_key n = scope_key /\ pn_kind n = PlanningNodeKind.Work /\
  runnable_status (pn_status n) = true.

Definition candidate_of (n : PlanningGraphNode) : GraphRunnableCandidate :=
  mkGraphRunnableCandidate (pn_id n) (pn_title n) (pn_status n) "ready" [] [].

Lemma load_graph_node_row id w n w' :
  load_graph_node id w = Ok n w' <-> w' = w /\ find_by pn_id id (db_nodes (w_db w)) = Some n.
Proof.
  unfold load_graph_node, load_by, rows. rewrite bind_Ok. setoid_rewrite reads_Ok.
  setoid_rewrite ok_or_Ok. naive_solver.
Qed.

Lemma pending_ends_acc (far : PlanningGraphEdge -> string) (done : string -> bool)
    (edges : list PlanningGraphEdge) (acc : list string) (w : World) (l : list string) (w' : World) :
  for_acc edges (fun acc e => if is_active e then
      node ← load_graph_node (far e);
      mret (if done (pn_status node) then acc else acc ++ [pn_id node])
    else mret acc) acc w = Ok l w' ->
  w' = w /\
  (l = [] <-> acc = [] /\ forall e, e ∈ edges -> is_active e = true -> node_is (w_db w) (far e) done).
Proof.
  revert acc w. induction edges as [|e edges IH]; intros acc w; simpl; intros Hr; tx_inv.
  { split; [done|]. set_solver. }
  assert (s = w /\ (a = [] <-> acc = [] /\ (is_active e = true -> node_is (w_db w) (far e) done)))
    as [-> Ha].
  { destruct (is_active e); tx_inv; [|naive_solver].
    apply load_graph_node_row in R0 as [-> Hf]. split; [done|]. unfold node_is. rewrite Hf.
    destruct (done (pn_status a0)) eqn:E; split.
    - intros ->. split; [done|]. intros _. by exists a0.
    - by intros [-> _].
    - intros Happ. by apply app_nil in Happ as [_ ?].
    - intros [_ Hn]. destruct (Hn eq_refl) as (n & [= <-] & Hd). congruence. }
  apply IH in Hr as [-> Hl]. split; [done|]. rewrite Hl, Ha. setoid_rewrite elem_of_cons.
  naive_solver.
Qed.

Lemma kind_filter_Some kind e : kind_filter (Some kind) e = true <-> pe_kind e = kind.
Proof. apply bool_decide_eq_true. Qed.

Lemma elem_of_outgoing_in node sk kind w edges w' :
  list_outgoing_edges_in_scope node sk kind w = Ok edges w' ->
  w' = w /\ forall e, e ∈ edges <-> e ∈ db_edges (w_db w) /\ pe_source_node_id e = node /\
                                  kind_filter kind e = true /\ pe_scope_key e = sk.
Proof.
  unfold list_outgoing_edges_in_scope, list_outgoing_edges_for_node, rows. intros Hr. tx_inv.
  split; [done|]. intros e. rewrite elem_of_select_where, elem_of_order_by, elem_of_select_where.
  rewrite andb_true_iff, !bool_decide_eq_true. tauto.
Qed.

Lemma elem_of_incoming_in node sk kind w edges w' :
  list_incoming_edges_in_scope node sk kind w = Ok edges w' ->
  w' = w /\ forall e, e ∈ edges <-> e ∈ db_edges (w_db w) /\ pe_target_node_id e = node /\
                                  kind_filter kind e = true /\ pe_scope_key e = sk.
Proof.
  unfold list_incoming_edges_in_scope, list_incoming_edges_for_node, rows. intros Hr. tx_inv.
  split; [done|]. intros e. rewrite elem_of_select_where, elem_of_order_by, elem_of_select_where.
  rewrite andb_true_iff, !bool_decide_eq_true. tauto.
Qed.

(** One node of the loop is a candidate exactly when it is ready. *)
Lemma runnable_of_node_Ok sk acc n w acc' w' :
  runnable_of_node sk acc n w = Ok acc' w' ->
  w' = w /\
  ((ready (w_db w) sk n /\ grr_candidates acc' = grr_candidates acc ++ [candidate_of n] /\
    grr_blocked acc' = grr_blocked acc) \/
   (~ ready (w_db w) sk n /\ grr_candidates acc' = grr_candidates acc /\
    exists b, bgc_node_id b = pn_id n /\ grr_blocked acc' = grr_blocked acc ++ [b])).
Proof.
  unfold runnable_of_node, pending_ends. intros Hr. tx_inv.
  apply elem_of_outgoing_in in R as [-> Hout].
  apply pending_ends_acc in R0 as [-> Hdeps].
  apply elem_of_incoming_in in R1 as [-> Hin].
  apply pending_ends_acc in R2 as [-> Hblocks].
  setoid_rewrite kind_filter_Some in Hin. setoid_rewrite kind_filter_Some in Hout.
  assert (ready (w_db w) sk n <-> a2 = [] /\ a0 = []) as Hready.
  { rewrite Hdeps, Hblocks. unfold ready, in_force. split.
    - intros [Hd Hb]. split; (split; [done|]); intros e He Ha.
      + apply Hin in He as (? & ? & ? & ?). by apply Hb.
      + apply Hout in He as (? & ? & ? & ?). by apply Hd.
    - intros [[_ Hb] [_ Hd]]. split; intros e (? & ? & ? & ?) ?.
      + apply Hd; [by apply Hout|done].
      + apply Hb; [by apply Hin|done]. }
  rewrite Hready. clear Hin Hout. destruct (bool_decide (a2 = [])) eqn:E2; simpl in Hr;
    [apply bool_decide_eq_true in E2|apply bool_decide_eq_false in E2];
    [destruct (bool_decide (a0 = [])) eqn:E0; [apply bool_decide_eq_true in E0|
       apply bool_decide_eq_false in E0]|]; tx_inv; (split; [done|]).
  - by left.
  - right. split; [naive_solver|]. split; [done|]. eexists. split; [|reflexivity]. done.
  - right. split; [naive_solver|]. split; [done|]. eexists. split; [|reflexivity]. done.
Qed.

Lemma runnable_loop sk nodes acc w res w' :
  for_acc nodes (runnable_of_node sk) acc w = Ok res w' ->
  w' = w /\
  (forall c, c ∈ grr_candidates res <-> c ∈ grr_candidates acc \/
     exists n, n ∈ nodes /\ ready (w_db w) sk n /\ c = candidate_of n) /\
  (forall id, id ∈ map bgc_node_id (grr_blocked res) <-> id ∈ map bgc_node_id (grr_blocked acc) \/
     exists n, n ∈ nodes /\ ~ ready (w_db w) sk n /\ id = pn_id n).
Proof.
  revert acc w. induction nodes as [|n nodes IH]; intros acc w; simpl; intros Hr; tx_inv.
  { split_and!; [done|set_solver..]. }
  apply runnable_of_node_Ok in R as [-> Hn]. apply IH in Hr as (-> & Hc & Hb).
  split_and!; [done|intros c; rewrite Hc|intros id; rewrite Hb]; setoid_rewrite elem_of_cons;
    destruct Hn as [(Hy & Ec & Eb)|(Hy & Ec & b & Hid & Eb)]; rewrite ?Ec, ?Eb;
    rewrite ?map_app, ?elem_of_app; simpl; rewrite ?list_elem_of_singleton, ?Hid; naive_solver.
Qed.

(** Candidates in the order the query reports them. *)
Definition candidate_before : GraphRunnableCandidate -> GraphRunnableCandidate -> bool :=
  leb_by (then_by (asc_Z (fun c => status_rank (grc_status c))) (asc_str grc_title)).

Lemma candidate_before_total a b : candidate_before a b = true \/ candidate_before b a = true.
Proof.
  unfold candidate_before, leb_by, then_by, asc_Z, asc_str.
  rewrite (Z.compare_antisym (status_rank (grc_status a)) (status_rank (grc_status b))).
  destruct (status_rank (grc_status a) ?= status_rank (grc_status b))%Z; simpl; auto.
  rewrite (String.compare_antisym (grc_title a) (grc_title b)).
  destruct (String.compare (grc_title b) (grc_title a)); simpl; auto.
Qed.

(** C23. The query for runnable graph work returns exactly the work: the
    candidates are the pending work nodes of the scope whose active
    dependencies are all done and whose active blockers are all out of the
    way, ordered by status and title; the blocked ones are the other pending
    work nodes; and nothing changes. *)
Theorem runnable_graph_work_is_ready scope_key w res w' :
  find_runnable_graph_work scope_key w = Ok res w' ->
  let sk := normalize_scope_key_value scope_key in
  w' = w /\
  (forall c, c ∈ grr_candidates res <->
     exists n, pending_work (w_db w) sk n /\ ready (w_db w) sk n /\ c = candidate_of n) /\
  (forall id, id ∈ map bgc_node_id (grr_blocked res) <->
     exists n, pending_work (w_db w) sk n /\ ~ ready (w_db w) sk n /\ id = pn_id n) /\
  Sorted (fun a b => candidate_before a b = true) (grr_candidates res).
Proof.
  unfold find_runnable_graph_work, rows. intros Hr. tx_inv.
  apply runnable_loop in R0 as (-> & Hc & Hb). simpl in *.
  assert (forall n, n ∈ order_by (asc_str pn_title) (select_where (fun n =>
        bool_decide (pn_scope_key n = normalize_scope_key_value scope_key)
        && bool_decide (pn_kind n = PlanningNodeKind.Work) && runnable_status (pn_status n))
        (db_nodes (w_db w))) <-> pending_work (w_db w) (normalize_scope_key_value scope_key) n) as Hn.
  { intros n. rewrite elem_of_order_by, elem_of_select_where, !andb_true_iff, !bool_decide_eq_true.
    unfold pending_work. tauto. }
  setoid_rewrite Hn in Hc. setoid_rewrite Hn in Hb.
  split_and!; [done| | |apply sort_by_sorted, candidate_before_total].
  - intros c. rewrite elem_of_order_by, Hc. set_solver.
  - intros id. rewrite Hb. set_solver.
Qed.
End GraphQueries.
