(* ===== verification/Runnable.v ===== *)
(** Runnable work points of a roadmap ([find_runnable_work_points]).

    A work point can be picked up when it is open, no open repair blocks it,
    nobody holds a lease on it and its dependencies are completed.  The query
    answers exactly these, in tiers: urgent fixes, then what resolves a
    blocker, then the rest. *)
From S2P Require Import Prelude Text Json Model Tx Table Store Walk EdgeRules Validation Frames ProjectRuns.

Definition blocking_severity (s : Severity) : bool :=
  match s with Severity.High | Severity.Critical => true | _ => false end.

(** A work point that is over, and one that is not to be picked up. *)
Definition work_point_over (s : WorkPointStatus) : bool :=
  match s with
  | WorkPointStatus.Completed | WorkPointStatus.Cancelled | WorkPointStatus.Invalidated => true
  | _ => false
  end.
Definition work_point_closed (s : WorkPointStatus) : bool :=
  work_point_over s || bool_decide (s = WorkPointStatus.Blocked).

(** [entry(key).or_default().push(value)]. *)
Definition push_entry (m : gmap string (list string)) (key value : string)
    : gmap string (list string) :=
  <[key := default [] (m !! key) ++ [value]]> m.

Definition open_blocker_issues (scope_key : string) (issues : list IssueRecord)
    : gmap string (list string) :=
  fold_left (fun m r => match is_related_entity_id r with
                        | Some entity_id => push_entry m entity_id (is_id r)
                        | None => m
                        end)
    (select_where (fun r => bool_decide (is_scope_key r = scope_key)
       && bool_decide (is_status r = IssueStatus.Open) && blocking_severity (is_severity r)
       && bool_decide (is_Some (is_related_entity_id r))) issues) ∅.

Definition open_blocker_review_points (scope_key : string) (points : list ReviewPointRecord)
    : gmap string (list string) :=
  fold_left (fun m r => push_entry m (rp_attached_entity_id r) (rp_id r))
    (select_where (fun r => bool_decide (rp_scope_key r = scope_key)
       && bool_decide (rp_status r = ReviewPointStatus.Open)
       && blocking_severity (rp_severity r)) points) ∅.

(** A repair that holds back what it blocks. *)
Definition blocks_others (wp : WorkPointRecord) : bool :=
  negb (bool_decide (wp_kind wp = WorkPointKind.Feature))
  && negb (bool_decide (wp_blocks_work_point_ids wp = []))
  && negb (work_point_over (wp_status wp)).

Definition block_all (m : gmap string (string * string)) (wp : WorkPointRecord)
    : gmap string (string * string) :=
  if blocks_others wp then
    fold_left (fun m blocked_id => <[blocked_id := (wp_id wp, wp_title wp)]> m)
      (wp_blocks_work_point_ids wp) m
  else m.
Definition blocked_set (work_points : list WorkPointRecord) : gmap string (string * string) :=
  fold_left block_all work_points ∅.

Definition tier_rank (reason : option string) : Z :=
  if bool_decide (reason = Some "urgent_fix") then 0
  else if bool_decide (reason = Some "resolves_blocker") then 1 else 2.

(** The order of the answer: by tier, by place in the roadmap, by identifier. *)
Definition candidate_order : RunnableWorkPointCandidate -> RunnableWorkPointCandidate -> comparison :=
  then_by (asc_Z (fun c => tier_rank (rwc_required_reason c)))
    (then_by (asc_Z (fun c => wp_ordering (rwc_work_point c)))
       (asc_str (fun c => wp_id (rwc_work_point c)))).

Section Runnable.
Context `{External}.

(** One dependency: its title, and whether it keeps the work point ready. *)
Definition check_dependency (acc : list string * bool) (dependency_id : string)
    : M (list string * bool) :=
  dependency ← handle (load_work_point dependency_id);
  mret match dependency with
       | inr d => (acc.1 ++ [wp_title d],
                   acc.2 && bool_decide (wp_status d = WorkPointStatus.Completed))
       | inl _ => (acc.1 ++ ["<missing: " +:+ dependency_id +:+ ">"], false)
       end.

Definition candidate_reasons (wp : WorkPointRecord) : list string :=
  (if bool_decide (wp_status wp = WorkPointStatus.Draft)
      || bool_decide (wp_status wp = WorkPointStatus.Proposed)
   then ["status is ready for work"] else [])
  ++ [if bool_decide (wp_dependency_ids wp = []) then "no dependencies"
      else "all dependencies completed"].

Definition has_open_blocker (issues points : gmap string (list string)) (ids : list string) : bool :=
  existsb (fun id => bool_decide (is_Some (issues !! id)) || bool_decide (is_Some (points !! id))) ids.

Definition required_reason (issues points : gmap string (list string)) (wp : WorkPointRecord)
    : string :=
  if negb (bool_decide (wp_kind wp = WorkPointKind.Feature))
     && (bool_decide (wp_priority wp = Priority.Urgent)
         || bool_decide (wp_priority wp = Priority.High))
  then "urgent_fix"
  else if has_open_blocker issues points (wp_repairs_work_point_ids wp)
          || has_open_blocker issues points (wp_supersedes_work_point_ids wp)
  then "resolves_blocker"
  else "ready".

(** One turn of the loop over the work points of the roadmap. *)
Definition runnable_step (now : string) (roadmap : RoadmapRecord) (roadmap_id : string)
    (issues points : gmap string (list string)) (blockers : gmap string (string * string))
    (acc : RunnableCandidates) (wp : WorkPointRecord) : M RunnableCandidates :=
  if work_point_closed (wp_status wp) then mret acc else
  match blockers !! wp_id wp with
  | Some (blocker_id, blocker_title) =>
      mret (acc <| rc_blocked ::= fun l => l ++
        [mkBlockedCandidate (wp_id wp) (wp_title wp) blocker_id blocker_title
           ("blocked_by:" +:+ blocker_id)] |>)
  | None =>
      runs ← rows db_project_runs;
      if (0 <? length (select_where (lease_held (wp_id wp) now) runs))%nat then mret acc else
      dependencies ← for_acc (wp_dependency_ids wp) check_dependency ([], true);
      if negb dependencies.2 then mret acc else
      mret (acc <| rc_candidates ::= fun l => l ++
        [mkRunnableWorkPointCandidate wp roadmap_id (rm_title roadmap) dependencies.1
           (candidate_reasons wp) (Some (required_reason issues points wp))] |>)
  end.

Definition find_runnable_work_points_in_connection (roadmap_id : string) : M RunnableCandidates :=
  now ← now_string;
  roadmap ← load_roadmap roadmap_id;
  all_work_points ← list_work_points_for_roadmap roadmap_id;
  issues ← rows db_issues;
  points ← rows db_review_points;
  result ← for_acc all_work_points
    (runnable_step now roadmap roadmap_id
       (open_blocker_issues (rm_scope_key roadmap) issues)
       (open_blocker_review_points (rm_scope_key roadmap) points)
       (blocked_set all_work_points))
    (mkRunnableCandidates roadmap_id [] []);
  mret (result <| rc_candidates ::= order_by candidate_order |>).

Definition find_runnable_work_points (roadmap_id : string) : M RunnableCandidates :=
  _ ← require_non_empty "roadmapId" roadmap_id;
  find_runnable_work_points_in_connection roadmap_id.

(** ** The answer, declaratively *)

(** [b] is an open repair that blocks the work point [id]. *)
Definition holds_back (b : WorkPointRecord) (id : string) : Prop :=
  blocks_others b = true /\ id ∈ wp_blocks_work_point_ids b.
Definition held_back (work_points : list WorkPointRecord) (id : string) : Prop :=
  exists b, b ∈ work_points /\ holds_back b id.
Definition is_completed (d : Db) (id : string) : Prop :=
  exists r, find_by wp_id id (db_work_points d) = Some r /\ wp_status r = WorkPointStatus.Completed.
Definition can_start (d : Db) (work_points : list WorkPointRecord) (now : string)
    (wp : WorkPointRecord) : Prop :=
  work_point_closed (wp_status wp) = false /\
  ~ held_back work_points (wp_id wp) /\
  (forall r, r ∈ db_project_runs d -> lease_held (wp_id wp) now r = false) /\
  (forall id, id ∈ wp_dependency_ids wp -> is_completed d id).

Lemma insert_all_lookup {V} (v : V) ids (m : gmap string V) id :
  fold_left (fun m k => <[k := v]> m) ids m !! id =
  if bool_decide (id ∈ ids) then Some v else m !! id.
Proof.
  revert m. induction ids as [|k ids IH]; intros m; cbn [fold_left].
  { rewrite bool_decide_eq_false_2; [done|set_solver]. }
  rewrite IH. destruct (decide (id = k)) as [->|Hk].
  - rewrite lookup_insert_eq, (bool_decide_eq_true_2 (k ∈ k :: ids)) by set_solver.
    by case_bool_decide.
  - rewrite lookup_insert_ne by done. do 2 case_bool_decide; set_solver.
Qed.

(** A work point of the roadmap is reported with one of those that block it. *)
Lemma blocked_set_from m work_points id :
  match fold_left block_all work_points m !! id with
  | Some v => m !! id = Some v \/
      exists b, b ∈ work_points /\ holds_back b id /\ v = (wp_id b, wp_title b)
  | None => m !! id = None /\ ~ held_back work_points id
  end.
Proof.
  revert m. induction work_points as [|b l IH]; intros m; simpl.
  { destruct (m !! id); [by left|]. split; [done|]. intros (b & Hb & _). set_solver. }
  specialize (IH (block_all m b)).
  assert (block_all m b !! id =
    if blocks_others b && bool_decide (id ∈ wp_blocks_work_point_ids b)
    then Some (wp_id b, wp_title b) else m !! id) as Eb.
  { unfold block_all. destruct (blocks_others b); [apply insert_all_lookup|done]. }
  rewrite Eb in IH. clear Eb.
  assert (blocks_others b && bool_decide (id ∈ wp_blocks_work_point_ids b) = true <->
          holds_back b id) as Hb by (unfold holds_back; by rewrite andb_true_iff, bool_decide_eq_true).
  destruct (blocks_others b && _); destruct (fold_left _ _ _ !! id);
    unfold held_back in *; setoid_rewrite elem_of_cons; naive_solver.
Qed.

Lemma blocked_set_spec work_points id :
  match blocked_set work_points !! id with
  | Some v => exists b, b ∈ work_points /\ holds_back b id /\ v = (wp_id b, wp_title b)
  | None => ~ held_back work_points id
  end.
Proof.
  generalize (blocked_set_from ∅ work_points id). unfold blocked_set.
  destruct (fold_left _ _ _ !! id); rewrite lookup_empty; naive_solver.
Qed.

Lemma loaded_work_point id w r w' :
  load_work_point id w = Ok r w' ->
  w' = w /\ exists r0, find_by wp_id id (db_work_points (w_db w)) = Some r0 /\
                      wp_status r = wp_status r0.
Proof.
  unfold load_work_point, load_by, load_file_scopes_for_entity, rows. intros Hr. tx_inv.
  split; [done|]. by eexists.
Qed.
Lemma missing_work_point id w e :
  load_work_point id w = Fail e -> find_by wp_id id (db_work_points (w_db w)) = None.
Proof.
  unfold load_work_point, load_by, rows, mbind, Tx_bind, reads, ok_or.
  by destruct (find_by _ _ _).
Qed.

Lemma check_dependency_Ok id acc w res w' :
  check_dependency acc id w = Ok res w' ->
  w' = w /\ (res.2 = true <-> acc.2 = true /\ is_completed (w_db w) id).
Proof.
  unfold check_dependency, is_completed. intros Hr. apply bind_Ok in Hr as ([e|d] & s & Hl & Hr).
  - apply handle_inl in Hl as [Hl ->]. apply missing_work_point in Hl. tx_inv.
    split; [done|]. rewrite Hl. naive_solver.
  - apply handle_inr, loaded_work_point in Hl as (-> & r & Hf & Hs). tx_inv.
    split; [done|]. simpl. rewrite andb_true_iff, bool_decide_eq_true, Hs, Hf. naive_solver.
Qed.

Lemma check_dependencies_Ok ids acc w res w' :
  for_acc ids check_dependency acc w = Ok res w' ->
  w' = w /\
  (res.2 = true <-> acc.2 = true /\ forall id, id ∈ ids -> is_completed (w_db w) id).
Proof.
  revert acc w. induction ids as [|id ids IH]; intros acc w; simpl; intros Hr; tx_inv.
  { split; [done|]. set_solver. }
  apply check_dependency_Ok in R as [-> Hid]. apply IH in Hr as [-> Hl].
  split; [done|]. rewrite Hl, Hid. setoid_rewrite elem_of_cons. naive_solver.
Qed.

Lemma lease_held_none id now runs :
  (0 <? length (select_where (lease_held id now) runs))%nat = false <->
  forall r, r ∈ runs -> lease_held id now r = false.
Proof.
  rewrite Nat.ltb_ge. split.
  - intros Hl r Hr. apply not_true_is_false. intros Hh.
    assert (r ∈ select_where (lease_held id now) runs) as Hin by (by apply elem_of_select_where).
    destruct (select_where _ _); [set_solver|simpl in Hl; lia].
  - intros Hn. destruct (select_where _ _) as [|r l] eqn:E; simpl; [lia|].
    assert (r ∈ select_where (lease_held id now) runs) as Hin by (rewrite E; set_solver).
    apply elem_of_select_where in Hin as [Hin Hh]. by rewrite (Hn r Hin) in Hh.
Qed.

Section Loop.
Context (now : string) (roadmap : RoadmapRecord) (roadmap_id : string).
Context (issues points : gmap string (list string)) (work_points : list WorkPointRecord).
#[local] Abbreviation step :=
  (runnable_step now roadmap roadmap_id issues points (blocked_set work_points)).
#[local] Abbreviation reported wp :=
  (work_point_closed (wp_status wp) = false /\ held_back work_points (wp_id wp)).

(** One turn adds the work point to the candidates exactly when it can start,
    and to the blocked exactly when it is open and held back. *)
Lemma runnable_step_Ok acc wp w acc' w' :
  step acc wp w = Ok acc' w' ->
  w' = w /\
  (forall x, x ∈ map rwc_work_point (rc_candidates acc') <->
     x ∈ map rwc_work_point (rc_candidates acc) \/ x = wp /\ can_start (w_db w) work_points now wp) /\
  (forall id, id ∈ map bc_work_point_id (rc_blocked acc') <->
     id ∈ map bc_work_point_id (rc_blocked acc) \/ id = wp_id wp /\ reported wp).
Proof.
  unfold runnable_step, can_start, rows. intros Hr.
  destruct (work_point_closed (wp_status wp)); [tx_inv; naive_solver|].
  generalize (blocked_set_spec work_points (wp_id wp)).
  destruct (blocked_set work_points !! wp_id wp) as [[bi bt]|].
  { intros (b & Hb & Hh & _). assert (held_back work_points (wp_id wp)) by (by exists b).
    tx_inv. split_and!; [done|naive_solver|]. intros id. cbn. rewrite map_app, elem_of_app.
    cbn. rewrite list_elem_of_singleton. naive_solver. }
  intros Hfree. apply bind_Ok in Hr as (runs & s & Hrow & Hr). apply reads_Ok in Hrow as [-> ->].
  generalize (lease_held_none (wp_id wp) now (db_project_runs (w_db w))).
  destruct (0 <? _)%nat; [tx_inv; naive_solver|]. intros Hlease.
  apply bind_Ok in Hr as ([titles ready] & s & Hd & Hr).
  apply check_dependencies_Ok in Hd as [-> Hd]. cbn in Hd. cbn in Hr.
  destruct ready; cbn in Hr; tx_inv; (split_and!; [done| |naive_solver]);
    intros x; cbn; rewrite ?map_app, ?elem_of_app; cbn; rewrite ?list_elem_of_singleton; naive_solver.
Qed.

Lemma runnable_loop_Ok wps acc w res w' :
  for_acc wps step acc w = Ok res w' ->
  w' = w /\
  (forall x, x ∈ map rwc_work_point (rc_candidates res) <->
     x ∈ map rwc_work_point (rc_candidates acc) \/ x ∈ wps /\ can_start (w_db w) work_points now x) /\
  (forall id, id ∈ map bc_work_point_id (rc_blocked res) <->
     id ∈ map bc_work_point_id (rc_blocked acc) \/
     exists wp, wp ∈ wps /\ id = wp_id wp /\ reported wp).
Proof.
  revert acc w. induction wps as [|wp wps IH]; intros acc w; simpl; intros Hr.
  { tx_inv. split_and!; [done|set_solver..]. }
  apply bind_Ok in Hr as (a & s & R & Hr). apply runnable_step_Ok in R as (-> & Hc & Hb).
  apply IH in Hr as (-> & Hc' & Hb').
  split_and!; [done|intros x; rewrite Hc', Hc|intros id; rewrite Hb', Hb];
    setoid_rewrite elem_of_cons; naive_solver.
Qed.
End Loop.

Lemma held_lease_absent id now w :
  (forall r, r ∈ db_project_runs (w_db w) -> lease_held id now r = false) ->
  refuse_held_lease id now w = Ok tt w.
Proof.
  intros Hn%lease_held_none. unfold refuse_held_lease, rows, mbind, Tx_bind, reads. by rewrite Hn.
Qed.

Lemma candidate_order_total a b :
  leb_by candidate_order a b = true \/ leb_by candidate_order b a = true.
Proof.
  unfold leb_by, candidate_order, then_by, asc_Z, asc_str.
  rewrite (Z.compare_antisym (tier_rank (rwc_required_reason a)) (tier_rank (rwc_required_reason b))).
  destruct (tier_rank (rwc_required_reason a) ?= _)%Z; simpl; auto.
  rewrite (Z.compare_antisym (wp_ordering (rwc_work_point a)) (wp_ordering (rwc_work_point b))).
  destruct (wp_ordering (rwc_work_point a) ?= _)%Z; simpl; auto.
  rewrite (String.compare_antisym (wp_id (rwc_work_point a)) (wp_id (rwc_work_point b))).
  destruct (String.compare (wp_id (rwc_work_point b)) _); simpl; auto.
Qed.

(** C30. The query for the runnable work points of a roadmap answers exactly
    those of its work points that can start: not closed, held back by no open
    repair, without a held lease at the time the query read, and with every
    dependency a completed work point; in the order of tier, place in the roadmap
    and identifier.  The ones it reports as blocked are exactly the open ones a
    repair holds back.  It changes nothing but the clock it read, and at that
    time a claim of any candidate is not refused for a held lease. *)
Theorem runnable_work_points_can_start roadmap_id w res w' :
  find_runnable_work_points roadmap_id w = Ok res w' ->
  exists now wps,
    now_string w = Ok now w' /\ list_work_points_for_roadmap roadmap_id w' = Ok wps w' /\
    (forall wp, wp ∈ map rwc_work_point (rc_candidates res) <->
       wp ∈ wps /\ can_start (w_db w') wps now wp) /\
    (forall id, id ∈ map bc_work_point_id (rc_blocked res) <->
       exists wp, wp ∈ wps /\ id = wp_id wp /\
                  work_point_closed (wp_status wp) = false /\ held_back wps id) /\
    (forall c, c ∈ rc_candidates res ->
       refuse_held_lease (wp_id (rwc_work_point c)) now w' = Ok tt w') /\
    Sorted (fun a b => leb_by candidate_order a b = true) (rc_candidates res).
Proof.
  unfold find_runnable_work_points, find_runnable_work_points_in_connection, rows.
  intros Hr. apply bind_Ok in Hr as (u & s & R & Hr). apply guard_or_Ok in R as [_ ->].
  apply bind_Ok in Hr as (now & s & Hnow & Hr). apply bind_Ok in Hr as (roadmap & s' & R & Hr).
  assert (s' = s) as -> by exact (keeps_load_roadmap id roadmap_id _ _ _ R).
  apply bind_Ok in Hr as (wps & s' & Hl & Hr).
  assert (s' = s) as -> by exact (keeps_list_work_points id roadmap_id _ _ _ Hl).
  apply bind_Ok in Hr as (? & ? & R1 & Hr). apply reads_Ok in R1 as [-> ->].
  apply bind_Ok in Hr as (? & ? & R1 & Hr). apply reads_Ok in R1 as [-> ->].
  apply bind_Ok in Hr as (a & ? & R1 & Hr). apply runnable_loop_Ok in R1 as (-> & Hc & Hb).
  apply ret_Ok in Hr as [-> ->]. cbn in Hc, Hb |- *.
  assert (forall wp, wp ∈ map rwc_work_point (order_by candidate_order (rc_candidates a)) <->
            wp ∈ wps /\ can_start (w_db s) wps now wp) as Hc'.
  { intros wp. trans (wp ∈ map rwc_work_point (rc_candidates a)); [|rewrite Hc, elem_of_nil; tauto].
    rewrite !list_elem_of_fmap. setoid_rewrite elem_of_order_by. done. }
  exists now, wps. split_and!; [done..| | |apply sort_by_sorted, candidate_order_total].
  - intros i. rewrite Hb, elem_of_nil. naive_solver.
  - intros c Hin. apply held_lease_absent.
    assert (rwc_work_point c ∈ map rwc_work_point (order_by candidate_order (rc_candidates a)))
      as Hx by (apply list_elem_of_fmap; by exists c).
    apply Hc' in Hx as (_ & _ & _ & Hx & _). exact Hx.
Qed.
End Runnable.
