(* ===== verification/Finalization.v ===== *)
(** Finalizing a node of the planning graph ([finalize_graph_node]).

    The findings that decide are traced back to the graph they describe:
    [edge_fit] is what the absence of structural findings on an edge means,
    [payload_typed] and [acceptance_backed] what the absence of the node's
    own findings means.  Under a clock whose readings can be formatted the
    validators always return ([succeeds]), so no finding is lost. *)
From stdpp Require Import relations.
From S2P Require Import Prelude Text Json Model Tx Table Store Walk EdgeRules Validation Frames ValidationFacts Graph GraphFacts GraphQueries.

Section Finalization.
Context `{External}.

(** ** Validators that always return *)
Definition clock_formats : Prop := forall n, is_Some (rfc3339_format (utc_now n)).
Definition succeeds {A} (m : M A) : Prop := forall w, exists a w', m w = Ok a w'.

Lemma succeeds_bind {A B} (m : M A) (k : A -> M B) :
  succeeds m -> (forall a, succeeds (k a)) -> succeeds (m ≫= k).
Proof.
  intros Hm Hk w. destruct (Hm w) as (a & s & Hr). destruct (Hk a s) as (b & s' & Hr').
  exists b, s'. apply bind_Ok. by exists a, s.
Qed.
Lemma succeeds_ret {A} (a : A) : succeeds (mret a).
Proof. intros w. by exists a, w. Qed.
Lemma succeeds_reads {A} (f : World -> A) : succeeds (reads f).
Proof. intros w. by exists (f w), w. Qed.
Lemma succeeds_handle {A} (m : M A) : succeeds (handle m).
Proof. intros w. unfold handle. destruct (m w); by eexists _, _. Qed.
Lemma succeeds_try_load {A} (m : M A) : succeeds (try_load m).
Proof. apply succeeds_bind; [apply succeeds_handle|]. intros. apply succeeds_ret. Qed.
Lemma succeeds_finding ty id sk sev code msg :
  clock_formats -> succeeds (finding ty id sk sev code msg).
Proof.
  intros Hclock w. unfold finding, now_string, new_id.
  destruct (Hclock (w_clock w)) as [t Ht].
  eexists _, _. rewrite bind_Ok. eexists _, _. split.
  { rewrite bind_Ok. eexists _, _. split; [by apply reads_Ok|]. rewrite bind_Ok. eexists tt, _.
    split; [by apply modify_Ok|]. by apply ret_Ok. }
  rewrite bind_Ok. eexists _, _. split; [|by apply ret_Ok].
  rewrite bind_Ok. eexists _, _. split; [by apply reads_Ok|]. rewrite bind_Ok. eexists tt, _.
  split; [by apply modify_Ok|]. apply ok_or_Ok. split; [exact Ht|done].
Qed.
Lemma succeeds_push_if c mk fs : succeeds mk -> succeeds (push_if c mk fs).
Proof.
  intros Hm. unfold push_if. destruct c; [|apply succeeds_ret].
  apply succeeds_bind; [done|]. intros. apply succeeds_ret.
Qed.

Lemma validate_graph_edge_succeeds id : clock_formats -> succeeds (validate_graph_edge id).
Proof.
  intros Hclock. unfold validate_graph_edge, validate_edge_endpoints,
    list_outgoing_edges_for_node, rows, warning.
  repeat first
    [ progress intros
    | apply succeeds_ret | apply succeeds_handle | apply succeeds_try_load | apply succeeds_reads
    | apply succeeds_push_if, succeeds_finding, Hclock
    | match goal with
      | |- succeeds (match ?x with _ => _ end) => destruct x
      | |- succeeds (let _ := _ in _) => cbv zeta
      end
    | apply succeeds_bind ].
Qed.

(** ** Which findings a run of a validator adds *)

(** No finding has a code of the group. *)
Definition free_of (group : list string) (fs : list ValidationFinding) : Prop :=
  forall x, x ∈ group -> ~ has_code x fs.

Lemma push_if_clean (code : string) c mk fs w fs' w' (group : list string) :
  push_if c mk fs w = Ok fs' w' -> makes code mk ->
  free_of group fs' -> free_of group fs /\ (code ∈ group -> c = false).
Proof.
  intros Hr Hmk Hno. pose proof (push_if_has _ _ _ _ _ _ _ Hmk Hr) as Hhas. split.
  - intros x Hx Hf. apply (Hno x Hx), Hhas. by left.
  - intros Hin. destruct c; [|done]. destruct (Hno code Hin). apply Hhas. by right.
Qed.

Lemma for_acc_push_has {A} (code : string) (l : list A) (c : A -> bool) mk fs w fs' w' :
  for_acc l (fun fs x => push_if (c x) (mk x) fs) fs w = Ok fs' w' ->
  (forall x, makes code (mk x)) ->
  forall code', has_code code' fs' <-> has_code code' fs \/
    (code' = code /\ exists x, x ∈ l /\ c x = true).
Proof.
  intros Hr Hmk code'. revert fs w Hr. induction l as [|x l IH]; intros fs w; simpl; intros Hr; tx_inv.
  { set_solver. }
  rewrite (IH _ _ Hr), (push_if_has _ _ _ _ _ _ _ (Hmk x) R). setoid_rewrite elem_of_cons.
  naive_solver.
Qed.

(** ** Edges *)

(** What finalization insists on for an edge: its endpoints exist in its scope
    with kinds it may connect, and if it is in force it has no duplicate and, if
    its kind is acyclic, closes no cycle, not even as a loop.  A loop of a kind
    that may have cycles passes: the validator reports it as
    [GRAPH-EDGE-SELF-LOOP], which does not keep a node from being finalized
    ([WorkflowWitnesses.self_loops_can_be_finalized]). *)
Definition edge_fit (d : Db) (e : PlanningGraphEdge) : Prop :=
  (exists s t, find_by pn_id (pe_source_node_id e) (db_nodes d) = Some s /\
     find_by pn_id (pe_target_node_id e) (db_nodes d) = Some t /\
     pn_scope_key s = pe_scope_key e /\ pn_scope_key t = pe_scope_key e /\
     edge_kind_pair_ok (pe_kind e) (pn_kind s) (pn_kind t) = true) /\
  activation_ok (db_edges d) e.

(** Decides membership in a list of codes. *)
Ltac code_in := refine (bool_decide_unpack _ _); vm_compute; exact I.

(** Peels the last [push_if] off a clean run, noting what it tested. *)
Ltac peel_clean := match goal with
  | R : push_if ?c ?mk ?fs _ = Ok ?fs' _, Hno : free_of _ ?fs' |- _ =>
      let Hc := fresh "Hc" in
      destruct (push_if_clean _ _ _ _ _ _ _ _ R ltac:(eauto) Hno) as [? Hc]; clear R Hno;
      first [ specialize (Hc ltac:(code_in)) | clear Hc ]
  end.

Lemma try_load_node id w n w' :
  try_load (load_graph_node id) w = Ok n w' -> w' = w /\ n = find_by pn_id id (db_nodes (w_db w)).
Proof.
  unfold try_load, load_graph_node, load_by, rows, handle, ok_or, mbind, Tx_bind, mret, Tx_ret,
    reads, fail. destruct (find_by _ _ _); naive_solver.
Qed.
Lemma try_load_edge id w n w' :
  try_load (load_graph_edge id) w = Ok n w' -> w' = w /\ n = find_by pe_id id (db_edges (w_db w)).
Proof.
  unfold try_load, load_graph_edge, load_by, rows, handle, ok_or, mbind, Tx_bind, mret, Tx_ret,
    reads, fail. destruct (find_by _ _ _); naive_solver.
Qed.

(** The two tests of an edge in force. *)
Lemma duplicate_clean edge mk fs s fs' s' :
  (if is_active edge then
     outgoing ← list_outgoing_edges_for_node (pe_source_node_id edge) (Some (pe_kind edge));
     push_if (0 <? length (List.filter (fun e =>
         negb (bool_decide (pe_id e = pe_id edge))
         && bool_decide (pe_target_node_id e = pe_target_node_id edge)
         && is_active e && bool_decide (pe_scope_key e = pe_scope_key edge)) outgoing))%nat mk fs
   else mret fs) s = Ok fs' s' ->
  makes "GRAPH-EDGE-DUPLICATE-ACTIVE" mk -> free_of structural_codes fs' ->
  free_of structural_codes fs /\ (is_active edge = true ->
    forall e, e ∈ db_edges (w_db s) -> pe_id e <> pe_id edge -> same_active_edge edge e = false).
Proof.
  intros Hr Hmk Hno. destruct (is_active edge); [|by tx_inv].
  unfold list_outgoing_edges_for_node, rows in Hr. tx_inv.
  destruct (push_if_clean _ _ _ _ _ _ _ _ Hr Hmk Hno) as [Hfs Hc]. split; [exact Hfs|].
  intros _ e He Hid. apply not_true_is_false. intros (_ & Ha & Hs & Hk & Hsrc & Ht)%same_active_edge_true.
  specialize (Hc ltac:(code_in)). apply Nat.ltb_ge in Hc.
  match type of Hc with length ?l <= 0 => assert (e ∈ l) as Hin; [|destruct l; [set_solver|simpl in Hc; lia]] end.
  apply list_elem_of_In, filter_In. split.
  - apply list_elem_of_In, elem_of_order_by, elem_of_select_where. split; [done|].
    rewrite bool_decide_true by congruence. simpl. by apply bool_decide_eq_true.
  - by rewrite bool_decide_false, bool_decide_true, Ha, bool_decide_true by congruence.
Qed.

Lemma cycle_clean edge mk fs s fs' s' :
  (if is_active edge && is_acyclic_kind (pe_kind edge) then
     r ← handle (would_create_graph_cycle (pe_source_node_id edge) (pe_target_node_id edge)
                   (pe_kind edge));
     push_if (match r with inr true => true | _ => false end) mk fs
   else mret fs) s = Ok fs' s' ->
  makes "GRAPH-EDGE-CYCLE" mk -> free_of structural_codes fs' ->
  free_of structural_codes fs /\ (is_active edge = true -> is_acyclic_kind (pe_kind edge) = true ->
    ~ rtc (edge_rel (pe_kind edge) (db_edges (w_db s))) (pe_target_node_id edge)
        (pe_source_node_id edge)).
Proof.
  intros Hr Hmk Hno.
  destruct (is_active edge), (is_acyclic_kind (pe_kind edge)); simpl in Hr; try by tx_inv.
  destruct (would_create_graph_cycle_run (pe_source_node_id edge) (pe_target_node_id edge)
              (pe_kind edge) s) as (b & Hrun & Hb).
  tx_inv. destruct a as [e|b']; tx_inv; [congruence|].
  destruct (push_if_clean _ _ _ _ _ _ _ _ Hr Hmk Hno) as [Hfs Hc]. split; [exact Hfs|].
  intros _ _ Hcyc. specialize (Hc ltac:(code_in)).
  assert (b' = b) as -> by congruence. destruct b; [done|]. by apply Hb in Hcyc.
Qed.

Lemma endpoints_clean edge source target fs w fs' w' :
  validate_edge_endpoints edge source target fs w = Ok fs' w' -> free_of structural_codes fs' ->
  free_of structural_codes fs /\ pn_scope_key source = pe_scope_key edge /\ pn_scope_key target = pe_scope_key edge /\
  edge_kind_pair_ok (pe_kind edge) (pn_kind source) (pn_kind target) = true /\
  activation_ok (db_edges (w_db w)) edge.
Proof.
  unfold validate_edge_endpoints. intros Hr Hno. tx_inv.
  assert (w_db s3 = w_db w /\ w_db s4 = w_db w) as [E3 E4].
  { clear Hr. db_track. split; congruence. }
  apply cycle_clean in Hr as [Hno' Hcycle]; [|eauto|exact Hno].
  apply duplicate_clean in R4 as [Hno'' Hdup]; [|eauto|exact Hno'].
  rewrite E3 in Hdup. rewrite E4 in Hcycle.
  assert (edge_kind_pair_ok (pe_kind edge) (pn_kind source) (pn_kind target) = true /\ free_of structural_codes a1)
    as [Hpair Hno1].
  { destruct a2 as [err|[]]; tx_inv.
    - destruct (push_if_clean _ _ _ _ _ _ _ _ R3 ltac:(eauto) Hno'') as [_ Hc].
      by specialize (Hc ltac:(code_in)).
    - unfold validate_edge_kind_pair in *. by tx_inv. }
  clear Hno Hno' Hno'' R2 R3. repeat peel_clean.
  rewrite negb_false_iff, bool_decide_eq_true in *.
  split_and!; [done..|]. intros Ha. split; auto.
Qed.

Lemma validated_edge_fit id e w fs w' :
  validate_graph_edge id w = Ok fs w' -> find_by pe_id id (db_edges (w_db w)) = Some e ->
  free_of structural_codes fs -> edge_fit (w_db w) e.
Proof.
  unfold validate_graph_edge. intros Hr Hf Hno. tx_inv.
  apply try_load_edge in R as [-> ->]. rewrite Hf in Hr. cbv zeta in Hr. tx_inv.
  assert (w_db s3 = w_db w /\ w_db s0 = w_db w /\ w_db s = w_db w) as (E3 & E0 & E).
  { clear Hr. db_track. split_and!; congruence. }
  apply try_load_node in R0 as [-> ->]. apply try_load_node in R1 as [-> ->].
  peel_clean. rewrite E in *.
  destruct (find_by pn_id (pe_source_node_id e) (db_nodes (w_db w))) as [source|] eqn:Es;
    [destruct (find_by pn_id (pe_target_node_id e) (db_nodes (w_db w))) as [target|] eqn:Et|];
    [|tx_inv; repeat peel_clean; done..].
  apply endpoints_clean in R4 as (_ & Hs & Ht & Hk & Ha); [|done].
  rewrite E3 in Ha. split; [|exact Ha]. by exists source, target.
Qed.

(** ** Sound nodes *)

(** The payload of an acceptance or evidence node names its kind. *)
Definition payload_typed (n : PlanningGraphNode) : Prop :=
  (pn_kind n = PlanningNodeKind.Acceptance ->
     is_Some (from_str (A:=AcceptanceKind) (payload_str "acceptanceKind" (pn_payload n)))) /\
  (pn_kind n = PlanningNodeKind.Evidence ->
     is_Some (from_str (A:=EvidenceKind) (payload_str "evidenceKind" (pn_payload n)))).

(** A node of the kind whose payload has the text under the key. *)
Definition typed_node (d : Db) (id : string) (kind : PlanningNodeKind) (key text : string) : Prop :=
  exists n, find_by pn_id id (db_nodes d) = Some n /\ pn_kind n = kind /\
            payload_str key (pn_payload n) = text.

(** If the node is itself an acceptance: an abstract one is satisfied by
    another, concrete, one; a concrete one has evidence of every kind it
    requires.  The acceptances that another node has are not looked at. *)
Definition acceptance_backed (d : Db) (n : PlanningGraphNode) : Prop :=
  pn_kind n = PlanningNodeKind.Acceptance ->
  (payload_str "acceptanceKind" (pn_payload n) = "abstract" ->
     exists e, in_force d (pn_scope_key n) PlanningEdgeKind.Satisfies e /\
       pe_target_node_id e = pn_id n /\ pe_source_node_id e <> pn_id n /\
       typed_node d (pe_source_node_id e) PlanningNodeKind.Acceptance "acceptanceKind" "concrete") /\
  (payload_str "acceptanceKind" (pn_payload n) = "concrete" ->
     forall k, k ∈ required_evidence_kinds (pn_payload n) ->
     exists e, in_force d (pn_scope_key n) PlanningEdgeKind.EvidencedBy e /\
       pe_source_node_id e = pn_id n /\
       typed_node d (pe_target_node_id e) PlanningNodeKind.Evidence "evidenceKind" k).

Lemma typed_node_test d id kind key text :
  match find_by pn_id id (db_nodes d) with
  | Some n => bool_decide (pn_kind n = kind)
              && bool_decide (payload_str key (pn_payload n) = text)
  | None => false
  end = true <-> typed_node d id kind key text.
Proof.
  unfold typed_node. destruct (find_by _ _ _) as [n|].
  - rewrite andb_true_iff, !bool_decide_eq_true. naive_solver.
  - naive_solver.
Qed.

Lemma has_active_coverage_spec d sk id incoming :
  (forall e, e ∈ incoming <-> e ∈ db_edges d /\ pe_target_node_id e = id /\
                              kind_filter None e = true /\ pe_scope_key e = sk) ->
  has_active_coverage id (db_nodes d) incoming = true <->
  exists e, in_force d sk PlanningEdgeKind.Satisfies e /\
    pe_target_node_id e = id /\ pe_source_node_id e <> id /\
    typed_node d (pe_source_node_id e) PlanningNodeKind.Acceptance "acceptanceKind" "concrete".
Proof.
  intros Hin. unfold has_active_coverage, in_force. rewrite existsb_exists.
  setoid_rewrite <- list_elem_of_In. setoid_rewrite Hin. setoid_rewrite andb_true_iff.
  setoid_rewrite typed_node_test. setoid_rewrite andb_true_iff. setoid_rewrite andb_true_iff.
  setoid_rewrite negb_true_iff. setoid_rewrite bool_decide_eq_true.
  setoid_rewrite bool_decide_eq_false. simpl. naive_solver.
Qed.

Lemma evidence_covered_spec d sk id k outgoing :
  (forall e, e ∈ outgoing <-> e ∈ db_edges d /\ pe_source_node_id e = id /\
                              kind_filter None e = true /\ pe_scope_key e = sk) ->
  evidence_covered k (db_nodes d)
    (List.filter (fun e => bool_decide (pe_kind e = PlanningEdgeKind.EvidencedBy) && is_active e)
       outgoing) = true <->
  exists e, in_force d sk PlanningEdgeKind.EvidencedBy e /\ pe_source_node_id e = id /\
    typed_node d (pe_target_node_id e) PlanningNodeKind.Evidence "evidenceKind" k.
Proof.
  intros Hin. unfold evidence_covered, in_force. rewrite existsb_exists.
  setoid_rewrite filter_In. setoid_rewrite <- list_elem_of_In. setoid_rewrite Hin.
  setoid_rewrite typed_node_test. setoid_rewrite andb_true_iff.
  setoid_rewrite bool_decide_eq_true. simpl. naive_solver.
Qed.

(** The two tests of an acceptance. *)
Lemma coverage_free group n mk fs s fs' s' :
  (if bool_decide (payload_str "acceptanceKind" (pn_payload n) = "abstract") then
     incoming ← list_incoming_edges_in_scope (pn_id n) (pn_scope_key n) None;
     push_if (negb (has_active_coverage (pn_id n) (db_nodes (w_db s)) incoming)) mk fs
   else mret fs) s = Ok fs' s' ->
  makes "ACCEPTANCE-COVERAGE-MISSING" mk -> free_of group fs' ->
  free_of group fs /\
  ("ACCEPTANCE-COVERAGE-MISSING" ∈ group ->
   payload_str "acceptanceKind" (pn_payload n) = "abstract" ->
   exists e, in_force (w_db s) (pn_scope_key n) PlanningEdgeKind.Satisfies e /\
     pe_target_node_id e = pn_id n /\ pe_source_node_id e <> pn_id n /\
     typed_node (w_db s) (pe_source_node_id e) PlanningNodeKind.Acceptance
       "acceptanceKind" "concrete").
Proof.
  intros Hr Hmk Hno. destruct (bool_decide _) eqn:Ek; tx_inv;
    [|by apply bool_decide_eq_false in Ek].
  apply elem_of_incoming_in in R as [-> Hin].
  destruct (push_if_clean _ _ _ _ _ _ _ _ Hr Hmk Hno) as [Hfs Hc]. split; [exact Hfs|].
  intros Hg _. apply Hc, negb_false_iff in Hg. by apply (has_active_coverage_spec _ _ _ _ Hin).
Qed.

Lemma evidence_free group n (mk : string -> M ValidationFinding) fs s fs' s' nodes :
  (if bool_decide (payload_str "acceptanceKind" (pn_payload n) = "concrete") then
     if bool_decide (required_evidence_kinds (pn_payload n) = []) then mret fs else
     outgoing ← list_outgoing_edges_in_scope (pn_id n) (pn_scope_key n) None;
     for_acc (required_evidence_kinds (pn_payload n)) (fun fs k =>
       push_if (negb (evidence_covered k nodes (List.filter (fun e =>
           bool_decide (pe_kind e = PlanningEdgeKind.EvidencedBy) && is_active e) outgoing)))
         (mk k) fs) fs
   else mret fs) s = Ok fs' s' ->
  nodes = db_nodes (w_db s) ->
  (forall k, makes "ACCEPTANCE-EVIDENCE-MISSING" (mk k)) -> free_of group fs' ->
  free_of group fs /\
  ("ACCEPTANCE-EVIDENCE-MISSING" ∈ group ->
   payload_str "acceptanceKind" (pn_payload n) = "concrete" ->
   forall k, k ∈ required_evidence_kinds (pn_payload n) ->
   exists e, in_force (w_db s) (pn_scope_key n) PlanningEdgeKind.EvidencedBy e /\
     pe_source_node_id e = pn_id n /\
     typed_node (w_db s) (pe_target_node_id e) PlanningNodeKind.Evidence "evidenceKind" k).
Proof.
  intros Hr -> Hmk Hno. destruct (bool_decide (_ = "concrete")) eqn:Ek;
    [|apply bool_decide_eq_false in Ek; by tx_inv].
  destruct (bool_decide (_ = [])) eqn:En.
  { apply bool_decide_eq_true in En. rewrite En. tx_inv. split; [done|]. set_solver. }
  tx_inv. apply elem_of_outgoing_in in R as [-> Hin].
  pose proof (for_acc_push_has _ _ _ _ _ _ _ _ Hr Hmk) as Hhas. split.
  - intros x Hx Hf. apply (Hno x Hx), Hhas. by left.
  - intros Hg _ k Hk. apply (evidence_covered_spec _ _ _ _ _ Hin).
    destruct (evidence_covered _ _ _) eqn:Ec; [done|]. destruct (Hno _ Hg). apply Hhas. right.
    split; [done|]. exists k. by rewrite Ec.
Qed.

Lemma acceptance_free group n fs w fs' w' :
  validate_acceptance_node n fs w = Ok fs' w' -> free_of group fs' ->
  free_of group fs /\
  ("ACCEPTANCE-KIND-INVALID" ∈ group ->
     is_Some (from_str (A:=AcceptanceKind) (payload_str "acceptanceKind" (pn_payload n)))) /\
  ("ACCEPTANCE-COVERAGE-MISSING" ∈ group -> "ACCEPTANCE-EVIDENCE-MISSING" ∈ group ->
     acceptance_backed (w_db w) n).
Proof.
  unfold validate_acceptance_node. intros Hr Hno. cbv zeta in Hr.
  apply bind_Ok in Hr as (nodes & s0 & Hrows & Hr).
  apply (proj1 (reads_Ok _ _ _ _)) in Hrows as [-> ->].
  apply bind_Ok in Hr as (fs1 & s1 & Hkind & Hr). apply bind_Ok in Hr as (fs2 & s2 & Hcov & Hr).
  assert (w_db s2 = w_db w /\ w_db s1 = w_db w) as [E2 E1].
  { clear Hr. db_track. split; congruence. }
  eapply evidence_free in Hr as [Hno2 Hev]; [|by rewrite E2|eauto|exact Hno].
  rewrite <- E1 in Hcov. eapply coverage_free in Hcov as [Hno1 Hcov]; [|eauto|exact Hno2].
  destruct (push_if_clean _ _ _ _ _ _ _ _ Hkind ltac:(eauto) Hno1) as [Hno0 Hc].
  rewrite E1 in Hcov. rewrite E2 in Hev.
  split_and!; [done| |intros Hg1 Hg2 _; split; [exact (Hcov Hg1)|exact (Hev Hg2)]].
  intros Hg. apply Hc, negb_false_iff, bool_decide_eq_true in Hg. done.
Qed.

Lemma validated_node group id n w fs w' :
  validate_graph_node id w = Ok fs w' -> find_by pn_id id (db_nodes (w_db w)) = Some n ->
  free_of group fs ->
  ("ACCEPTANCE-KIND-INVALID" ∈ group -> "EVIDENCE-KIND-INVALID" ∈ group -> payload_typed n) /\
  ("ACCEPTANCE-COVERAGE-MISSING" ∈ group -> "ACCEPTANCE-EVIDENCE-MISSING" ∈ group ->
     acceptance_backed (w_db w) n).
Proof.
  unfold validate_graph_node. intros Hr Hf Hno.
  apply bind_Ok in Hr as (node & s & Hload & Hr). apply try_load_node in Hload as [-> ->].
  rewrite Hf in Hr. cbv zeta in Hr.
  apply bind_Ok in Hr as (fs1 & s1 & Hstat & Hr). apply bind_Ok in Hr as (fs2 & s2 & Hacc & Hr).
  assert (w_db s1 = w_db w) as E1 by (clear Hr Hacc; db_track; congruence).
  destruct (push_if_clean _ _ _ _ _ _ _ _ Hr ltac:(eauto) Hno) as [Hno2 Hev].
  unfold payload_typed, acceptance_backed.
  assert (("EVIDENCE-KIND-INVALID" ∈ group -> pn_kind n = PlanningNodeKind.Evidence ->
     is_Some (from_str (A:=EvidenceKind) (payload_str "evidenceKind" (pn_payload n))))) as Hevid.
  { intros Hg Hk. apply Hev in Hg. rewrite (bool_decide_true _ Hk) in Hg. simpl in Hg.
    by apply negb_false_iff, bool_decide_eq_true in Hg. }
  destruct (bool_decide (pn_kind n = PlanningNodeKind.Acceptance)) eqn:Ek.
  - apply acceptance_free with (group:=group) in Hacc as (_ & Hkind & Hback); [|exact Hno2].
    rewrite E1 in Hback. split; [|by intros; apply Hback]. intros. split; auto.
  - apply bool_decide_eq_false in Ek. split; [|by intros]. intros. split; [by intros|auto].
Qed.

(** ** Finalization *)
Lemma codes_in_nil group fs : codes_in group fs = [] <-> free_of group fs.
Proof.
  unfold codes_in, free_of, has_code. split.
  - intros E c Hc (f & Hf & <-). assert (vf_code f ∈ @nil string) as Hin; [|set_solver].
    rewrite <- E. apply list_elem_of_In, filter_In.
    rewrite bool_decide_eq_true. split; [|done]. apply list_elem_of_In. by apply list_elem_of_fmap_2.
  - intros Hno. destruct (List.filter _ _) as [|c l] eqn:E; [done|].
    assert (c ∈ c :: l) as Hin by set_solver. rewrite <- E in Hin.
    apply list_elem_of_In, filter_In in Hin as [Hin Hc]. apply bool_decide_eq_true in Hc.
    apply list_elem_of_In, list_elem_of_fmap in Hin as (f & -> & Hf). destruct (Hno _ Hc). by exists f.
Qed.

Lemma check_finalization_Ok id risk fs w u w' :
  check_finalization id risk fs w = Ok u w' ->
  w' = w /\ free_of structural_codes fs /\ free_of type_integrity_codes fs /\
  (risk_accepted risk = true \/ free_of waivable_gap_codes fs).
Proof.
  unfold check_finalization. intros Hr. cbv zeta in Hr. tx_inv.
  rewrite !bool_decide_eq_true, !codes_in_nil in *.
  rewrite orb_true_iff, bool_decide_eq_true, codes_in_nil in *. tauto.
Qed.

(** Every finding on an edge is among the collected ones. *)
Lemma edge_findings_collected (l : list PlanningGraphEdge) acc w res w' :
  clock_formats ->
  for_acc l (fun acc edge => ef ← try_load (validate_entity EntityType.GraphEdge (pe_id edge));
                             mret (acc ++ default [] ef)) acc w = Ok res w' ->
  w_db w' = w_db w /\
  (forall c, has_code c acc -> has_code c res) /\
  forall e, e ∈ l -> exists s fs s', w_db s = w_db w /\
    validate_graph_edge (pe_id e) s = Ok fs s' /\ forall c, has_code c fs -> has_code c res.
Proof.
  intros Hclock. revert acc w. induction l as [|e l IH]; intros acc w; simpl; intros Hr.
  { tx_inv. split_and!; [done|done|set_solver]. }
  apply bind_Ok in Hr as (acc1 & s1 & Hstep & Hr). apply bind_Ok in Hstep as (ef & s & Htry & Hstep).
  tx_inv. destruct (validate_graph_edge_succeeds (pe_id e) Hclock w) as (fs & s' & Hv).
  assert (w_db s = w_db w) as Es by (clear -Htry; db_track; congruence).
  apply IH in Hr as (E & Hacc & Hl). rewrite E, Es. split; [done|].
  assert (ef = Some fs) as ->.
  { unfold try_load, handle, mbind, Tx_bind, mret, Tx_ret in Htry.
    change (validate_entity EntityType.GraphEdge (pe_id e)) with (validate_graph_edge (pe_id e)) in Htry.
    rewrite Hv in Htry. congruence. }
  simpl in Hacc. split.
  - intros c Hc. apply Hacc, has_code_app. by left.
  - intros x [->|Hx]%elem_of_cons.
    + exists w, fs, s'. split_and!; [done..|]. intros c Hc. apply Hacc, has_code_app. by right.
    + destruct (Hl x Hx) as (s1 & fs1 & s1' & E1 & H1). exists s1, fs1, s1'. by rewrite E1.
Qed.

Lemma finalization_findings_collected node w fs w' :
  clock_formats -> finalization_findings node w = Ok fs w' ->
  w_db w' = w_db w /\
  (exists nfs s, validate_graph_node (pn_id node) w = Ok nfs s /\
                 forall c, has_code c nfs -> has_code c fs) /\
  forall e, e ∈ db_edges (w_db w) -> pe_scope_key e = pn_scope_key node ->
    pe_source_node_id e = pn_id node \/ pe_target_node_id e = pn_id node ->
    exists s efs s', w_db s = w_db w /\ validate_graph_edge (pe_id e) s = Ok efs s' /\
      forall c, has_code c efs -> has_code c fs.
Proof.
  intros Hclock. unfold finalization_findings. intros Hr. tx_inv.
  assert (w_db s = w_db w) as Es by (clear -R; db_track; congruence).
  apply elem_of_incoming_in in R0 as [-> Hin]. apply elem_of_outgoing_in in R1 as [-> Hout].
  apply edge_findings_collected in R2 as (E & _ & Hl); [|done].
  rewrite Es in *. split; [done|]. split.
  - exists a, s. split; [exact R|]. intros c Hc. apply has_code_app. by left.
  - intros e He Hsk Hend. destruct (Hl e) as (s1 & efs & s1' & E1 & Hv & Hc).
    { apply elem_of_app. destruct Hend; [right; apply Hout|left; apply Hin]; done. }
    exists s1, efs, s1'. split_and!; [done..|]. intros c Hc'. apply has_code_app. right. auto.
Qed.

(** C22. What finalization insists on: when a node is finalized, the readings
    of the clock being printable, every edge at it in its scope joined existing
    nodes of the scope with kinds it may connect, and if it was active it was no
    duplicate and, if its kind is acyclic, closed no cycle; if the node is an
    acceptance or evidence, its payload names its kind; if it is an acceptance,
    and no risk was accepted, an abstract one was satisfied by another, concrete,
    one and a concrete one had evidence of every kind it requires; and the
    stored node is the old one with the requested status and the next revision,
    while every other node and all edges are as before. *)
Theorem finalized_nodes_were_checked input w res w' :
  clock_formats -> finalize_graph_node input w = Ok res w' ->
  let id := fi_node_id input in
  let d := w_db w in
  exists node, find_by pn_id id (db_nodes d) = Some node /\
    (forall eid e, find_by pe_id eid (db_edges d) = Some e ->
       pe_scope_key e = pn_scope_key node ->
       pe_source_node_id e = id \/ pe_target_node_id e = id -> edge_fit d e) /\
    payload_typed node /\
    (risk_accepted (fi_accepted_risk input) = true \/ acceptance_backed d node) /\
    find_by pn_id id (db_nodes (w_db w'))
      = Some (node <| pn_status := trim (fi_status input) |>
                   <| pn_revision := Z.succ (pn_revision node) |>
                   <| pn_updated_at := pn_updated_at (mr_record res) |>) /\
    (forall id', id' <> id ->
       find_by pn_id id' (db_nodes (w_db w')) = find_by pn_id id' (db_nodes d)) /\
    db_edges (w_db w') = db_edges d.
Proof.
  intros Hclock Hr. unfold finalize_graph_node in Hr. cbv zeta in Hr. tx_inv.
  assert (w_db s3 = w_db w) as E3 by (clear -R R0 R1 R2 R3; db_track; congruence).
  assert (w_db s7 = w_db s6) as E7 by (clear -R7; db_track; congruence).
  assert (records s12 = records s9) as E12.
  { rewrite (keeps_validate_and_report _ _ _ _ _ R11). by rewrite (keeps_node_event _ _ _ _ _ _ _ _ R10). }
  pose proof (f_equal db_nodes E12) as En. pose proof (f_equal db_edges E12) as Ee. simpl in En, Ee.
  apply load_graph_node_row in R4 as [-> Hf]. apply load_graph_node_row in R9 as [-> Hf'].
  apply finalization_findings_collected in R5 as (E5 & (nfs & s' & Hn & Hnc) & Hec); [|done].
  apply check_finalization_Ok in R6 as (-> & Hstruct & Htype & Hgap).
  unfold update_graph_node_row, update_db in R8. tx_inv. simpl in *.
  rewrite E7, E5, E3 in *.
  destruct (find_by_Some _ _ _ _ Hf) as [_ Hid]. rewrite Hid in *.
  rewrite find_by_update_where, Hf in Hf' by done. simpl in Hf'.
  rewrite (bool_decide_true _ Hid) in Hf'. injection Hf' as <-.
  exists a4. rewrite En, Ee. split_and!; [done| | | | | |done].
  - intros eid e He Hsk Hend. destruct (find_by_Some _ _ _ _ He) as [Hin <-].
    destruct (Hec e Hin Hsk Hend) as (s1' & efs & s2' & Es & Hv & Hc). rewrite <- Es.
    eapply validated_edge_fit; [exact Hv|by rewrite Es|]. intros c Hcin Hcode.
    by apply (Hstruct c Hcin), Hc.
  - rewrite <- E3 in Hf. apply (validated_node type_integrity_codes _ _ _ _ _ Hn Hf); [|code_in..].
    intros c Hcin Hcode. by apply (Htype c Hcin), Hnc.
  - destruct Hgap as [?|Hgap]; [by left|right]. rewrite <- E3 in Hf |- *.
    apply (validated_node waivable_gap_codes _ _ _ _ _ Hn Hf); [|code_in..].
    intros c Hcin Hcode. by apply (Hgap c Hcin), Hnc.
  - rewrite find_by_update_where, Hf by done. simpl. by rewrite (bool_decide_true _ Hid).
  - intros id' Hne. rewrite find_by_update_where by done.
    destruct (find_by pn_id id' (db_nodes (w_db w))) as [n'|] eqn:E; [|done]. simpl.
    apply find_by_Some in E as [_ E]. by rewrite bool_decide_false by congruence.
Qed.
End Finalization.
