(* ===== verification/Manifest.v ===== *)
(** Applying a manifest ([apply_manifest]): what its result accounts for.

    Every item of the manifest ends in exactly one list of the result, a dry
    run computes the result of the real one and leaves the database alone,
    and no item is ever reported as revised: an updated row is compared with
    the input after the update. *)
From S2P Require Import Prelude Text Json Model Tx Table Store EdgeRules Frames Graph GraphQueries.

Section Manifest.
Context `{External}.

Definition conflicts_of (kind : string) (acc : ManifestApplyResult) : list ManifestConflict :=
  List.filter (fun c => bool_decide (mc_entity_type c = kind)) (ma_conflicts acc).

(** The number of nodes, and of edges, the result accounts for. *)
Definition nodes_seen (acc : ManifestApplyResult) : nat :=
  length (ma_created_nodes acc) + length (ma_revised_nodes acc) + length (ma_unchanged_nodes acc)
  + length (conflicts_of "node" acc).
Definition edges_seen (acc : ManifestApplyResult) : nat :=
  length (ma_created_edges acc) + length (ma_revised_edges acc) + length (ma_unchanged_edges acc)
  + length (conflicts_of "edge" acc).

(** What a step of the apply leaves as it was: the totals, and no revisions. *)
Definition accounted (acc acc' : ManifestApplyResult) (nodes edges : nat) : Prop :=
  nodes_seen acc' = nodes_seen acc + nodes /\ edges_seen acc' = edges_seen acc + edges /\
  ma_revised_nodes acc' = ma_revised_nodes acc /\ ma_revised_edges acc' = ma_revised_edges acc /\
  ma_total_nodes acc' = ma_total_nodes acc /\ ma_total_edges acc' = ma_total_edges acc.

Lemma conflicts_of_snoc kind acc what id e :
  length (conflicts_of kind (acc <| ma_conflicts ::= fun l => l ++ [mkManifestConflict what id e] |>))
  = length (conflicts_of kind acc) + (if bool_decide (what = kind) then 1 else 0).
Proof.
  unfold conflicts_of. simpl. rewrite List.filter_app, length_app. simpl.
  by destruct (bool_decide (what = kind)).
Qed.

Ltac account := unfold accounted, nodes_seen, edges_seen; rewrite ?conflicts_of_snoc; simpl;
  unfold conflicts_of; simpl; rewrite ?length_app; simpl; split_and!; solve [done | lia].

(** A node the upsert found is stored with the text of the input. *)
Lemma upsert_found_node input sk w id w' :
  upsert_graph_node_in_tx input sk w = Ok (id, false) w' ->
  exists n, find_by pn_id id (db_nodes (w_db w')) = Some n /\
    pn_title n = trim (cn_title input) /\ pn_summary n = trim (cn_summary input) /\
    pn_status n = trim (cn_status input).
Proof.
  unfold upsert_graph_node_in_tx, overwrite_node, update_graph_node_row, update_db, rows.
  intros Hr. tx_inv. destruct (cn_id input) as [eid|]; [|by tx_inv].
  destruct (find_by pn_id eid (db_nodes (w_db s))) as [n|] eqn:Ef; [|by tx_inv].
  tx_inv. simplify_eq. simpl. pose proof (find_by_Some _ _ _ _ Ef) as [_ Hid].
  rewrite find_by_update_where, Ef by done. simpl. rewrite bool_decide_true by done.
  by eexists.
Qed.

Lemma apply_node_accounted sk acc input w acc' w' :
  apply_manifest_node sk acc input w = Ok acc' w' -> accounted acc acc' 1 0.
Proof.
  unfold apply_manifest_node. intros Hr. tx_inv. destruct a as [e|[id []]]; tx_inv; [account..|].
  apply upsert_found_node in R as (n & Hf & Ht & Hsum & Hst).
  apply load_graph_node_row in R0 as [-> Hf']. rewrite Hf in Hf'. injection Hf' as <-.
  rewrite Ht, Hsum, Hst, !bool_decide_true in Hr by done. simpl in Hr. tx_inv. account.
Qed.

Lemma apply_edge_accounted sk acc input w acc' w' :
  apply_manifest_edge sk acc input w = Ok acc' w' -> accounted acc acc' 0 1.
Proof.
  unfold apply_manifest_edge. intros Hr. tx_inv. destruct a as [e|[id []]]; tx_inv; account.
Qed.

Lemma accounted_trans a b c n n' m m' :
  accounted a b n m -> accounted b c n' m' -> accounted a c (n + n') (m + m').
Proof. unfold accounted. intuition (congruence || lia). Qed.

Lemma accounted_loop {A} (step : ManifestApplyResult -> A -> M ManifestApplyResult) n m :
  (forall acc x w acc' w', step acc x w = Ok acc' w' -> accounted acc acc' n m) ->
  forall l acc w acc' w', for_acc l step acc w = Ok acc' w' ->
  accounted acc acc' (length l * n) (length l * m).
Proof.
  intros Hstep. induction l as [|x l IH]; intros acc w acc' w' Hr; simpl in Hr; tx_inv.
  - unfold accounted. simpl. split_and!; lia || done.
  - simpl. eapply accounted_trans; [by eapply Hstep|by eapply IH].
Qed.

(** A manifest is accounted for: of a result of applying one, each node
    and each edge of the manifest is counted once, as created, unchanged or
    in conflict, and none as revised; a dry run leaves the database as it
    was; and the dry run and the real one of the same state return the same
    result. *)
Theorem manifest_is_accounted_for parsed dry_run w res w' :
  apply_manifest parsed dry_run w = Ok res w' ->
  nodes_seen res = length (pm_nodes parsed) /\ edges_seen res = length (pm_edges parsed) /\
  ma_total_nodes res = length (pm_nodes parsed) /\ ma_total_edges res = length (pm_edges parsed) /\
  ma_revised_nodes res = [] /\ ma_revised_edges res = [] /\
  (dry_run = true -> w_db w' = w_db w) /\
  exists w2, apply_manifest parsed (negb dry_run) w = Ok res w2.
Proof.
  unfold apply_manifest. set (tx := _ ≫= _). intros Hr.
  assert (exists w1, tx w = Ok res w1 /\ (dry_run = true -> w_db w' = w_db w)) as (w1 & Ht & Hdry).
  { destruct dry_run; [|by exists w'].
    unfold rolled_back in Hr. destruct (tx w) as [a w1|] eqn:Et; [|done].
    injection Hr as -> <-. by exists w1. }
  assert (exists w2, (if negb dry_run then rolled_back tx else tx) w = Ok res w2) as Hother.
  { destruct dry_run; simpl; [by exists w1|]. unfold rolled_back. rewrite Ht. by eexists. }
  subst tx. tx_inv.
  apply (accounted_loop _ 1 0 (apply_node_accounted _)) in R0.
  apply (accounted_loop _ 0 1 (apply_edge_accounted _)) in Ht.
  pose proof (accounted_trans _ _ _ _ _ _ _ R0 Ht) as (Hn & He & Hrn & Hre & Htn & Hte).
  unfold nodes_seen at 2, conflicts_of in Hn. unfold edges_seen at 2, conflicts_of in He.
  simpl in *.
  split_and!; try done; lia.
Qed.
End Manifest.
