(* ===== verification/References.v ===== *)
(** Referential consistency of the planning database.

    A row's references are what the operations check that the other tables hold
    for it ([Ref]; dependencies, repairs, supersessions, the targets of a plan and
    the relation of an issue are not among them):
    an entity in a scope, the goal of a roadmap, the roadmap of a work point
    or section.  [entity_trans] specifies what an operation may do: keep every
    reference that held, and add rows whose references hold; it keeps the
    database consistent, and every operation of the store refines it
    ([planning_op_trans]). *)
From stdpp Require Import relations.
From S2P Require Import Prelude Text Json Model Tx Table Store Walk EdgeRules Validation Frames ProjectRuns Leases Graph GraphFacts Status Entities.

(** ** References *)
Inductive Ref :=
| InScope (ty : EntityType) (id scope_key : string)
| RoadmapGoal (roadmap_id goal_id : string)
| SectionRoadmap (section_id roadmap_id : string)
| WorkPointRoadmap (work_point_id roadmap_id : string).

Definition scope_in (d : Db) (ty : EntityType) (id : string) : option string :=
  match ty with
  | EntityType.Scope => sc_scope_key <$> find_by sc_scope_key id (db_scopes d)
  | EntityType.Goal => gl_scope_key <$> find_by gl_id id (db_goals d)
  | EntityType.Roadmap => rm_scope_key <$> find_by rm_id id (db_roadmaps d)
  | EntityType.RoadmapSection => rs_scope_key <$> find_by rs_id id (db_sections d)
  | EntityType.WorkPoint => wp_scope_key <$> find_by wp_id id (db_work_points d)
  | EntityType.Plan => pl_scope_key <$> find_by pl_id id (db_plans d)
  | EntityType.Todo => td_scope_key <$> find_by td_id id (db_todos d)
  | EntityType.Issue => is_scope_key <$> find_by is_id id (db_issues d)
  | EntityType.ReviewPoint => rp_scope_key <$> find_by rp_id id (db_review_points d)
  | EntityType.Insight => ins_scope_key <$> find_by ins_id id (db_insights d)
  | EntityType.ProjectRun => pr_scope_key <$> find_by pr_id id (db_project_runs d)
  | EntityType.GraphNode => pn_scope_key <$> find_by pn_id id (db_nodes d)
  | EntityType.GraphEdge => pe_scope_key <$> find_by pe_id id (db_edges d)
  | EntityType.DiscoveryNode => dn_scope_key <$> find_by dn_id id (db_discoveries d)
  | EntityType.DiscoveryRelationship =>
      dr_scope_key <$> find_by dr_id id (db_discovery_relationships d)
  | EntityType.DiscoveryCheckpoint =>
      dc_scope_key <$> find_by dc_id id (db_discovery_checkpoints d)
  end.

Definition holds (d : Db) (ref : Ref) : Prop :=
  match ref with
  | InScope ty id sk => scope_in d ty id = Some sk
  | RoadmapGoal rid gid => rm_goal_id <$> find_by rm_id rid (db_roadmaps d) = Some gid
  | SectionRoadmap sid rid => rs_roadmap_id <$> find_by rs_id sid (db_sections d) = Some rid
  | WorkPointRoadmap wid rid => wp_roadmap_id <$> find_by wp_id wid (db_work_points d) = Some rid
  end.

Definition from_option_list {A} (o : option A) : list A :=
  match o with Some a => [a] | None => [] end.

Definition goal_refs (r : GoalRecord) : list Ref :=
  [InScope EntityType.Scope (gl_scope_key r) (gl_scope_key r)].
Definition roadmap_refs (r : RoadmapRecord) : list Ref :=
  [InScope EntityType.Goal (rm_goal_id r) (rm_scope_key r)].
Definition section_refs (r : RoadmapSectionRecord) : list Ref :=
  [InScope EntityType.Roadmap (rs_roadmap_id r) (rs_scope_key r)].
Definition work_point_refs (r : WorkPointRecord) : list Ref :=
  InScope EntityType.Roadmap (wp_roadmap_id r) (wp_scope_key r)
  :: map (fun s => SectionRoadmap s (wp_roadmap_id r)) (from_option_list (wp_section_id r))
  ++ map (fun b => WorkPointRoadmap b (wp_roadmap_id r)) (wp_blocks_work_point_ids r).
Definition plan_refs (r : PlanRecord) : list Ref :=
  [InScope EntityType.Goal (pl_goal_id r) (pl_scope_key r);
   InScope EntityType.Roadmap (pl_roadmap_id r) (pl_scope_key r);
   RoadmapGoal (pl_roadmap_id r) (pl_goal_id r)].
Definition todo_refs (r : TodoRecord) : list Ref :=
  map (fun p => InScope EntityType.Plan p (td_scope_key r)) (from_option_list (td_plan_id r))
  ++ map (fun w => InScope EntityType.WorkPoint w (td_scope_key r))
       (from_option_list (td_work_point_id r)).
Definition review_point_refs (r : ReviewPointRecord) : list Ref :=
  [InScope (rp_attached_entity_type r) (rp_attached_entity_id r) (rp_scope_key r)].
Definition insight_refs (r : InsightRecord) : list Ref :=
  [InScope (ins_parent_entity_type r) (ins_parent_entity_id r) (ins_scope_key r)].
Definition run_refs (r : ProjectRunRecord) : list Ref :=
  [InScope EntityType.Goal (pr_goal_id r) (pr_scope_key r);
   InScope EntityType.Roadmap (pr_roadmap_id r) (pr_scope_key r);
   InScope EntityType.WorkPoint (pr_work_point_id r) (pr_scope_key r);
   RoadmapGoal (pr_roadmap_id r) (pr_goal_id r);
   WorkPointRoadmap (pr_work_point_id r) (pr_roadmap_id r)].

Inductive has_ref (d : Db) (ref : Ref) : Prop :=
| hr_goal r : r ∈ db_goals d -> ref ∈ goal_refs r -> has_ref d ref
| hr_roadmap r : r ∈ db_roadmaps d -> ref ∈ roadmap_refs r -> has_ref d ref
| hr_section r : r ∈ db_sections d -> ref ∈ section_refs r -> has_ref d ref
| hr_work_point r : r ∈ db_work_points d -> ref ∈ work_point_refs r -> has_ref d ref
| hr_plan r : r ∈ db_plans d -> ref ∈ plan_refs r -> has_ref d ref
| hr_todo r : r ∈ db_todos d -> ref ∈ todo_refs r -> has_ref d ref
| hr_review_point r : r ∈ db_review_points d -> ref ∈ review_point_refs r -> has_ref d ref
| hr_insight r : r ∈ db_insights d -> ref ∈ insight_refs r -> has_ref d ref
| hr_run r : r ∈ db_project_runs d -> ref ∈ run_refs r -> has_ref d ref.

(** ** The invariant and the specification *)

(** The primary keys. *)
Definition keys_unique (d : Db) : Prop :=
  NoDup (map sc_scope_key (db_scopes d)) /\ NoDup (map gl_id (db_goals d)) /\
  NoDup (map rm_id (db_roadmaps d)) /\ NoDup (map rs_id (db_sections d)) /\
  NoDup (map wp_id (db_work_points d)) /\ NoDup (map pl_id (db_plans d)) /\
  NoDup (map td_id (db_todos d)) /\ NoDup (map is_id (db_issues d)) /\
  NoDup (map rp_id (db_review_points d)) /\ NoDup (map ins_id (db_insights d)) /\
  NoDup (map pr_id (db_project_runs d)).

Record consistent (d : Db) : Prop := {
  c_keys : keys_unique d;
  c_refs : forall ref, has_ref d ref -> holds d ref }.

Record entity_trans (d d' : Db) : Prop := {
  et_keys : keys_unique d -> keys_unique d';
  et_keep : forall ref, holds d ref -> holds d' ref;
  et_new : forall ref, has_ref d' ref -> has_ref d ref \/ holds d' ref }.

Lemma entity_trans_consistent d d' : entity_trans d d' -> consistent d -> consistent d'.
Proof.
  intros [Hk Hm Hn] [Hu Hc]. split; [by apply Hk|]. intros ref [Hr|Hr]%Hn; [by apply Hm, Hc|done].
Qed.

(** ** Growth of one table *)

(** Rows stay findable with what they show ([obs]), and new references are in [P]. *)
Definition grows {R O} (key : R -> string) (obs : R -> O) (refs : R -> list Ref)
    (P : Ref -> Prop) (t t' : list R) : Prop :=
  (forall k r, find_by key k t = Some r -> exists r', find_by key k t' = Some r' /\ obs r' = obs r) /\
  (forall r' ref, r' ∈ t' -> ref ∈ refs r' -> (exists r, r ∈ t /\ ref ∈ refs r) \/ P ref) /\
  (NoDup (map key t) -> NoDup (map key t')).

Section Grows.
Context {R O : Type} (key : R -> string) (obs : R -> O) (refs : R -> list Ref) (P : Ref -> Prop).

Lemma grows_refl t : grows key obs refs P t t.
Proof. split_and!; eauto. Qed.
Lemma grows_snoc t r :
  find_by key (key r) t = None -> (forall ref, ref ∈ refs r -> P ref) ->
  grows key obs refs P t (t ++ [r]).
Proof.
  intros Hfresh HP. split_and!.
  - intros k r' Hf. exists r'. split; [by apply find_by_app_l|done].
  - intros r' ref [Hr|Hr%list_elem_of_singleton]%elem_of_app Href; [left; eauto|right].
    subst. by apply HP.
  - intros Hn. apply (insert_row_NoDup key r t); [|done]. unfold insert_row. by rewrite Hfresh.
Qed.
Lemma grows_update t p f :
  (forall r, key (f r) = key r) ->
  (forall r, r ∈ t -> p r = true -> obs (f r) = obs r /\
     forall ref, ref ∈ refs (f r) -> ref ∈ refs r \/ P ref) ->
  grows key obs refs P t (update_where p f t).
Proof.
  intros Hk Hf. split_and!.
  - intros k r Hr. exists (if p r then f r else r). rewrite find_by_update_where, Hr by done.
    split; [done|]. destruct (p r) eqn:E; [|done]. apply Hf; [|done]. by apply find_by_Some in Hr as [? _].
  - intros r' ref (r & Hr & ->)%elem_of_update_where Href. destruct (p r) eqn:E; [|left; eauto].
    destruct (proj2 (Hf r Hr E) ref Href); [left; eauto|by right].
  - by rewrite keys_update_where.
Qed.
End Grows.

(** Every table grows. *)
Record db_grows (P : Ref -> Prop) (d d' : Db) : Prop := {
  g_scopes : grows sc_scope_key sc_scope_key (fun _ => []) P (db_scopes d) (db_scopes d');
  g_goals : grows gl_id gl_scope_key goal_refs P (db_goals d) (db_goals d');
  g_roadmaps : grows rm_id (fun r => (rm_scope_key r, rm_goal_id r)) roadmap_refs P
                 (db_roadmaps d) (db_roadmaps d');
  g_sections : grows rs_id (fun r => (rs_scope_key r, rs_roadmap_id r)) section_refs P
                 (db_sections d) (db_sections d');
  g_work_points : grows wp_id (fun r => (wp_scope_key r, wp_roadmap_id r)) work_point_refs P
                    (db_work_points d) (db_work_points d');
  g_plans : grows pl_id pl_scope_key plan_refs P (db_plans d) (db_plans d');
  g_todos : grows td_id td_scope_key todo_refs P (db_todos d) (db_todos d');
  g_issues : grows is_id is_scope_key (fun _ => []) P (db_issues d) (db_issues d');
  g_review_points : grows rp_id rp_scope_key review_point_refs P
                      (db_review_points d) (db_review_points d');
  g_insights : grows ins_id ins_scope_key insight_refs P (db_insights d) (db_insights d');
  g_runs : grows pr_id pr_scope_key run_refs P (db_project_runs d) (db_project_runs d');
  g_nodes : grows pn_id pn_scope_key (fun _ => []) P (db_nodes d) (db_nodes d');
  g_edges : grows pe_id pe_scope_key (fun _ => []) P (db_edges d) (db_edges d');
  g_discoveries : db_discoveries d' = db_discoveries d;
  g_relationships : db_discovery_relationships d' = db_discovery_relationships d;
  g_checkpoints : db_discovery_checkpoints d' = db_discovery_checkpoints d }.

Lemma grows_lookup {R O} (key : R -> string) (obs : R -> O) {V} (proj : O -> V) refs P t t' k v :
  grows key obs refs P t t' -> (fun r => proj (obs r)) <$> find_by key k t = Some v ->
  (fun r => proj (obs r)) <$> find_by key k t' = Some v.
Proof.
  intros [Hg _] Hv. destruct (find_by key k t) as [r|] eqn:E; [|done].
  destruct (Hg _ _ E) as (r' & -> & Ho). simpl in *. by rewrite Ho.
Qed.

Ltac look := match goal with
  | G : grows _ _ _ _ (?t ?d) (?t ?d') |- _ <$> find_by _ _ (?t ?d) = _ -> _ =>
      first [ exact (grows_lookup _ _ (fun x => x) _ _ _ _ _ _ G)
            | exact (grows_lookup _ _ fst _ _ _ _ _ _ G)
            | exact (grows_lookup _ _ snd _ _ _ _ _ _ G) ]
  | E : ?t ?d' = ?t ?d |- _ <$> find_by _ _ (?t ?d) = _ -> _ => by rewrite E
  end.

Lemma db_grows_holds P d d' : db_grows P d d' -> forall ref, holds d ref -> holds d' ref.
Proof.
  intros [] [ty eid sk|rid gid|sid rid|wid rid]; simpl; [|look..]. destruct ty; simpl; look.
Qed.

Lemma db_grows_trans P d d' :
  db_grows P d d' -> (forall ref, P ref -> holds d ref) -> entity_trans d d'.
Proof.
  intros Hg HP. pose proof (db_grows_holds _ _ _ Hg) as Hm.
  split; [destruct Hg as []; unfold keys_unique, grows in *; tauto|exact Hm|].
  intros ref Href. assert (has_ref d ref \/ P ref) as [?|?]; [|by left|right; auto].
  destruct Hg as []; destruct Href as [r Hr Hin|r Hr Hin|r Hr Hin|r Hr Hin|r Hr Hin|r Hr Hin
    |r Hr Hin|r Hr Hin|r Hr Hin];
  match type of Hr with r ∈ ?t _ =>
    match goal with G : grows _ _ _ _ (t d) (t d') |- _ =>
      destruct (proj1 (proj2 G) r ref Hr Hin) as [(r0 & Hr0 & Hin0)|?]; [left|by right] end end.
  - by eapply hr_goal.
  - by eapply hr_roadmap.
  - by eapply hr_section.
  - by eapply hr_work_point.
  - by eapply hr_plan.
  - by eapply hr_todo.
  - by eapply hr_review_point.
  - by eapply hr_insight.
  - by eapply hr_run.
Qed.

Lemma db_grows_refl P d : db_grows P d d.
Proof. split; auto using grows_refl. Qed.

(** ** From the world *)
Section References.
Context `{External}.

(** What consistency is about: the records without the file scopes. *)
Definition entities (w : World) : Db :=
  let d := w_db w in
  mkDb (db_scopes d) (db_goals d) (db_roadmaps d) (db_sections d) (db_work_points d)
    (db_plans d) (db_todos d) (db_issues d) (db_review_points d) (db_insights d)
    (db_project_runs d) (db_nodes d) (db_edges d) (db_discoveries d)
    (db_discovery_relationships d) (db_discovery_checkpoints d) [] [] [] [] [] [].

Lemma keeps_entities {A} (m : M A) : keeps records m -> keeps entities m.
Proof.
  intros Hm. eapply keeps_proj; [exact Hm|]. intros s s' E.
  change (entities s') with ((records s') <| db_file_scopes := [] |>). by rewrite E.
Qed.

Lemma holds_entities w ref : holds (entities w) ref <-> holds (w_db w) ref.
Proof. destruct ref as [[] ? ?|? ?|? ?|? ?]; reflexivity. Qed.
Lemma has_ref_entities w ref : has_ref (entities w) ref <-> has_ref (w_db w) ref.
Proof.
  split; (intros [r Hr Hin|r Hr Hin|r Hr Hin|r Hr Hin|r Hr Hin|r Hr Hin|r Hr Hin|r Hr Hin|r Hr Hin];
    [eapply hr_goal|eapply hr_roadmap|eapply hr_section|eapply hr_work_point|eapply hr_plan
    |eapply hr_todo|eapply hr_review_point|eapply hr_insight|eapply hr_run]; eassumption).
Qed.
Lemma consistent_entities w : consistent (entities w) <-> consistent (w_db w).
Proof.
  split; intros [Hk Hc]; (split; [exact Hk|]); intros ref Href.
  - by apply holds_entities, Hc, has_ref_entities.
  - by apply holds_entities, Hc, has_ref_entities.
Qed.

Lemma scope_key_for_entity_Ok ty id w sk w' :
  scope_key_for_entity ty id w = Ok sk w' <-> w' = w /\ scope_in (w_db w) ty id = Some sk.
Proof.
  destruct ty; simpl; unfold scope_of, load_by, rows, mbind, Tx_bind, reads, ok_or, mret, Tx_ret, fail;
    destruct (find_by _ _ _); simpl; naive_solver.
Qed.

Lemma referenced_in_scope ty id field active w sk w' :
  ensure_referenced_entity_in_scope ty id field active w = Ok sk w' ->
  w' = w /\ sk = active /\ scope_in (w_db w) ty id = Some sk.
Proof.
  unfold ensure_referenced_entity_in_scope. intros Hr. tx_inv.
  match goal with R : ensure_entity_exists _ _ _ _ = Ok _ _ |- _ =>
    pose proof (keeps_ensure_entity_exists (fun w => w) _ _ _ _ _ _ R) as E; simpl in E; subst end.
  match goal with R : scope_key_for_entity _ _ _ = Ok _ _ |- _ =>
    apply scope_key_for_entity_Ok in R as [-> Hs] end.
  rewrite bool_decide_eq_true in *. by subst.
Qed.

Lemma referenced_entities ty id field active w sk w' :
  ensure_referenced_entity_in_scope ty id field active w = Ok sk w' ->
  entities w' = entities w /\ sk = active /\ holds (entities w) (InScope ty id active).
Proof. intros (-> & -> & Hs)%referenced_in_scope. split_and!; [done..|]. by apply holds_entities. Qed.

Lemma scope_exists_entities sk w u w' :
  ensure_scope_exists sk w = Ok u w' ->
  entities w' = entities w /\ holds (entities w) (InScope EntityType.Scope sk sk).
Proof.
  unfold ensure_scope_exists, rows. intros Hr. tx_inv. split; [done|]. rewrite bool_decide_eq_true in *.
  match goal with Hs : is_Some _ |- _ => destruct Hs as [r Hr] end.
  simpl. rewrite Hr. simpl. f_equal. by apply find_by_Some in Hr as [_ ?].
Qed.

Lemma load_roadmap_entities id w r w' :
  load_roadmap id w = Ok r w' ->
  entities w' = entities w /\ holds (entities w) (RoadmapGoal id (rm_goal_id r)).
Proof.
  unfold load_roadmap, load_by, rows. intros Hr. tx_inv. split; [done|]. simpl.
  match goal with E : find_by _ _ _ = Some _ |- _ => by rewrite E end.
Qed.

Lemma insert_into_entities {R} name (table : Db -> list R) key store r w u w' :
  insert_into name table key store r w = Ok u w' ->
  (forall w, table (entities w) = table (w_db w)) ->
  (forall w t, entities (w <| w_db ::= store t |>) = store t (entities w)) ->
  entities w' = store (table (entities w) ++ [r]) (entities w) /\
  find_by key (key r) (table (entities w)) = None.
Proof.
  unfold insert_into, rows, update_db. intros Hr Ht Hs. tx_inv. rewrite Ht, Hs.
  match goal with E : insert_row _ _ _ = Some _ |- _ =>
    unfold insert_row in E; destruct (find_by _ _ _) eqn:Ef; [done|injection E as <-] end. done.
Qed.

Lemma section_entities sid rid w u w' :
  ensure_section_belongs_to_roadmap sid rid w = Ok u w' ->
  entities w' = entities w /\ holds (entities w) (SectionRoadmap sid rid).
Proof.
  unfold ensure_section_belongs_to_roadmap, load_by, rows. intros Hr. tx_inv.
  rewrite bool_decide_eq_true in *. split; [done|]. simpl.
  match goal with E : find_by _ _ _ = Some _ |- _ => rewrite E end. simpl. congruence.
Qed.

Lemma load_work_point_entities id w r w' :
  load_work_point id w = Ok r w' ->
  w' = w /\ exists r0 fs, find_by wp_id id (db_work_points (w_db w)) = Some r0 /\
    r = r0 <| wp_file_scopes := fs |>.
Proof.
  unfold load_work_point, load_by, rows. intros Hr. tx_inv.
  match goal with R : load_file_scopes_for_entity _ _ _ = Ok _ _ |- _ =>
    pose proof (keeps_load_file_scopes (fun w => w) _ _ _ _ _ R) as E; simpl in E; subst end.
  split; [done|]. by eexists _, _.
Qed.

(** A linked work point that was looked up is in the roadmap. *)
Lemma linked_roadmap id rid w o w1 (k : WorkPointRecord -> M unit) (m : M unit) u w' :
  load_or_missing (load_work_point id) w = Ok o w1 ->
  match o with Some wp => k wp | None => m end w1 = Ok u w' ->
  (forall w u w', m w = Ok u w' -> False) ->
  (forall wp w u w', k wp w = Ok u w' -> w' = w /\ wp_roadmap_id wp = rid) ->
  w' = w /\ holds (entities w) (WorkPointRoadmap id rid).
Proof.
  intros Hl Hr Hm Hk. apply load_or_missing_Ok in Hl. destruct o as [wp|]; [|by apply Hm in Hr].
  apply load_work_point_entities in Hl as [-> (r0 & fs & Hf & ->)]. apply Hk in Hr as [-> <-].
  split; [done|]. simpl. by rewrite Hf.
Qed.

Lemma same_roadmap_Ok what links id wp rid w u w' :
  same_roadmap what links id wp rid w = Ok u w' -> w' = w /\ wp_roadmap_id wp = rid.
Proof. unfold same_roadmap. intros Hr. tx_inv. by rewrite bool_decide_eq_true in *. Qed.

(** Every block target of a new work point is in its roadmap. *)
Lemma check_new_blocks_held rid ids w u w' :
  check_new_blocks rid ids w = Ok u w' ->
  w' = w /\
  forall b, b ∈ normalize_string_list ids -> holds (entities w) (WorkPointRoadmap b rid).
Proof.
  intros Hr.
  assert (w' = w /\ forall id, id ∈ ids -> trim id <> "" ->
            holds (entities w) (WorkPointRoadmap (trim id) rid)) as [-> Hb].
  { unfold check_new_blocks in Hr. revert w Hr. induction ids as [|id ids IH]; intros w Hr;
      simpl in Hr; tx_inv; [set_solver|].
    case_bool_decide as Ht; tx_inv.
    - destruct (IH _ Hr) as [-> Hb]. split; [done|]. intros x [->|Hx]%elem_of_cons; [done|auto].
    - match goal with Rl : load_or_missing _ _ = Ok _ _, Rk : match _ with _ => _ end _ = Ok _ _ |- _ =>
        destruct (linked_roadmap _ rid _ _ _ _ _ _ _ Rl Rk) as [-> Hid];
          [done|intros; by eapply same_roadmap_Ok|] end.
      destruct (IH _ Hr) as [-> Hb]. split; [done|].
      intros x [->|Hx]%elem_of_cons; [by intros _|auto]. }
  split; [done|]. intros b (Hne & x & Hx & ->)%normalize_string_list_elem. auto.
Qed.

Lemma update_db_entities f w u w' :
  update_db f w = Ok u w' -> (forall w, entities (w <| w_db ::= f |>) = f (entities w)) ->
  entities w' = f (entities w).
Proof. unfold update_db. intros Hr Hf. tx_inv. apply Hf. Qed.

Lemma replace_file_scopes_entities sk ty id fs : keeps entities (replace_entity_file_scopes sk ty id fs).
Proof.
  unfold replace_entity_file_scopes, insert_file_scope, update_db. frame.
Qed.
Lemma refresh_records' ty id : keeps records (refresh ty id).
Proof. unfold refresh. frame. Qed.
Lemma next_ordering_records {R} (t : Db -> list R) g o : keeps records (next_ordering t g o).
Proof. unfold next_ordering. frame. Qed.
Lemma todo_aggregate_records r : keeps records (todo_aggregate r).
Proof.
  unfold todo_aggregate, plan_correlation_id, work_point_correlation_id. frame.
Qed.
Lemma list_issues_records ty id : keeps records (list_issues_for_related_entity ty id).
Proof. unfold list_issues_for_related_entity. frame. Qed.
Lemma refresh_all_records ty ids : keeps records (refresh_all ty ids).
Proof. unfold refresh_all. frame. Qed.
Lemma refresh_work_point_users_records id rid : keeps records (refresh_work_point_users id rid).
Proof.
  unfold refresh_work_point_users, list_work_point_dependents, list_plans_targeting_work_point.
  frame; apply refresh_all_records.
Qed.
Lemma check_new_dependencies_records rid ids : keeps records (check_new_dependencies rid ids).
Proof. unfold check_new_dependencies, same_roadmap. frame. Qed.
Lemma check_block_cycles_records sk id bs : keeps records (check_block_cycles sk id bs).
Proof. unfold check_block_cycles. frame. Qed.
#[local] Hint Resolve check_new_dependencies_records check_block_cycles_records : frame.
#[local] Hint Resolve todo_aggregate_records list_issues_records refresh_all_records
  refresh_work_point_users_records : frame.
#[local] Hint Resolve replace_file_scopes_entities refresh_records' next_ordering_records : frame.

Lemma records_entities w w' : records w' = records w -> entities w' = entities w.
Proof.
  intros E. change (entities w') with ((records w') <| db_file_scopes := [] |>). by rewrite E.
Qed.

Definition refines {A} (m : M A) : Prop :=
  forall w a w', m w = Ok a w' -> consistent (w_db w) -> entity_trans (entities w) (entities w').

Lemma entity_trans_refl d : entity_trans d d.
Proof. split; auto. Qed.
Lemma entity_trans_trans d d' d'' : entity_trans d d' -> entity_trans d' d'' -> entity_trans d d''.
Proof.
  intros [Hk Hm Hn] [Hk' Hm' Hn']. split; [auto|auto|].
  intros ref [Hr|Hr]%Hn'; [|by right]. destruct (Hn _ Hr); [by left|right; auto].
Qed.
End References.

#[export] Hint Resolve check_new_dependencies_records check_block_cycles_records
  todo_aggregate_records list_issues_records refresh_all_records
  refresh_work_point_users_records
  replace_file_scopes_entities refresh_records' next_ordering_records : frame.

(** A single call, framed at the right level; composed ones go to [frame]. *)
Ltac ent_frame := intros; first
  [ solve [eauto 1 with frame nocore]
  | apply keeps_entities; solve [eauto 1 with frame nocore]
  | apply keeps_entities, keeps_records; solve [eauto 1 with frame nocore]
  | lazymatch goal with
    | |- keeps _ (_ ≫= _) => apply keeps_bind; ent_frame
    | |- keeps _ (match ?x with _ => _ end) => destruct x; ent_frame
    end
  | progress frame; ent_frame ].

(** Turns each run into what it says about the entities. *)
Ltac ents := repeat match goal with
  | R : ensure_referenced_entity_in_scope _ _ _ _ _ = Ok _ _ |- _ =>
      let E := fresh "E" in let Hr := fresh "Href" in apply referenced_entities in R as (E & ? & Hr); subst
  | R : update_db _ _ = Ok _ _ |- _ =>
      apply update_db_entities in R; [|reflexivity]
  | R : ensure_section_belongs_to_roadmap _ _ _ = Ok _ _ |- _ =>
      let E := fresh "E" in let Hr := fresh "Href" in apply section_entities in R as [E Hr]
  | R : check_new_blocks _ _ _ = Ok _ _ |- _ =>
      let E := fresh "E" in let Hr := fresh "Hblocks" in
      apply check_new_blocks_held in R as [E Hr]; apply (f_equal entities) in E
  | R : ensure_scope_exists _ _ = Ok _ _ |- _ =>
      let E := fresh "E" in let Hr := fresh "Href" in apply scope_exists_entities in R as [E Hr]
  | R : load_roadmap _ _ = Ok _ _ |- _ =>
      let E := fresh "E" in let Hr := fresh "Href" in apply load_roadmap_entities in R as [E Hr]
  | R : insert_into _ _ _ _ _ _ = Ok _ _ |- _ =>
      let E := fresh "E" in
      let F := fresh "Hfresh" in
      apply insert_into_entities in R as [E F]; [|reflexivity|reflexivity]
  | R : ?m ?s = Ok _ ?s' |- _ =>
      let E := fresh "E" in
      assert (entities s' = entities s) as E
        by (refine ((_ : keeps entities m) _ _ _ R); ent_frame);
      clear R
  end.

(** Rewrites the entities of every world back to those of the first. *)
Ltac chain := repeat match goal with
  | E : entities ?s' = _ |- _ => is_var s'; rewrite E in *; clear E
  end.

(** One table took a row; the others are as they were. *)
Ltac one_row :=
  match goal with |- entity_trans ?d _ => apply (db_grows_trans (holds d)); [|by auto] end;
  split; try apply grows_refl; try exact eq_refl; (apply grows_snoc; [assumption|]).

(** The references of a concrete row, each among the facts at hand. *)
Ltac refs_held :=
  let ref := fresh "ref" in let Hin := fresh "Hin" in intros ref Hin;
  repeat (apply elem_of_cons in Hin as [->|Hin]; [eassumption|]);
  by apply not_elem_of_nil in Hin.

(** Rows of one table were rewritten; the others are as they were. *)
Ltac rewritten :=
  match goal with |- entity_trans ?d _ => apply (db_grows_trans (holds d)); [|by auto] end;
  split; try apply grows_refl; try exact eq_refl; apply grows_update; [done|].
(** A row keeps its references under an update of other fields. *)
Ltac rewritten_apart := rewritten; intros r _ _; split; [done|by left].
