(* ===== verification/EntityRefs.v ===== *)
(** The operations on planning entities and the status updates refine
    [entity_trans]: what they insert refers to what they have checked. *)
From stdpp Require Import relations.
From S2P Require Import Prelude Text Json Model Tx Table Store Walk EdgeRules Validation Frames ProjectRuns Leases Graph GraphFacts Status Entities References.

Section EntityRefs.
Context `{External}.

Lemma create_scope_trans i : refines (create_scope i).
Proof.
  intros w a w' Hr _. unfold create_scope in Hr. tx_inv. ents. chain. one_row. refs_held.
Qed.
Lemma create_goal_trans i : refines (create_goal i).
Proof.
  intros w a w' Hr _. unfold create_goal in Hr. tx_inv. ents. chain. one_row. refs_held.
Qed.
Lemma create_roadmap_trans i : refines (create_roadmap i).
Proof.
  intros w a w' Hr _. unfold create_roadmap in Hr. tx_inv. ents. chain. one_row. refs_held.
Qed.
Lemma add_roadmap_section_trans i : refines (add_roadmap_section i).
Proof.
  intros w a w' Hr _. unfold add_roadmap_section in Hr. tx_inv. ents. chain. one_row. refs_held.
Qed.
Lemma create_issue_trans i : refines (create_issue i).
Proof.
  intros w a w' Hr _. unfold create_issue in Hr. tx_inv. ents. chain. one_row. refs_held.
Qed.
Lemma create_review_point_trans i : refines (create_review_point i).
Proof.
  intros w a w' Hr _. unfold create_review_point in Hr. tx_inv. ents. chain. one_row. refs_held.
Qed.
Lemma create_insight_trans i : refines (create_insight i).
Proof.
  intros w a w' Hr _. unfold create_insight in Hr. tx_inv. ents. chain. one_row. refs_held.
Qed.
Lemma create_plan_trans i : refines (create_plan i).
Proof.
  intros w a w' Hr _. unfold create_plan in Hr. tx_inv. rewrite bool_decide_eq_true in *.
  ents. chain. match goal with E : rm_goal_id _ = _ |- _ => rewrite E in * end.
  one_row. unfold plan_refs. refs_held.
Qed.
Lemma create_todo_trans i : refines (create_todo i).
Proof.
  intros w a w' Hr _. unfold create_todo in Hr. tx_inv.
  destruct (ct_plan_id i) eqn:Ep, (ct_work_point_id i) eqn:Ew; tx_inv; ents; chain; one_row;
    unfold todo_refs; simpl; rewrite ?Ep, ?Ew; simpl; refs_held.
Qed.

(** ** Work points *)

Lemma add_work_point_trans i : refines (add_work_point i).
Proof.
  intros w a w' Hr _. unfold add_work_point in Hr. tx_inv.
  destruct (aw_section_id i) as [sid|] eqn:Es; tx_inv; ents; chain; one_row;
    unfold work_point_refs; simpl; rewrite Es; simpl; intros ref.
  - rewrite !elem_of_cons, list_elem_of_fmap. intros [->|[->|(b & -> & Hb)]]; [done|done|auto].
  - rewrite elem_of_cons, list_elem_of_fmap. intros [->|(b & -> & Hb)]; [done|auto].
Qed.

Lemma blocked_loop_held rid l w u w' :
  for_each l (fun id =>
    blocked ← load_or_missing (load_work_point id);
    match blocked with
    | Some blocked => same_roadmap "blocked" "block relationships" id blocked rid
    | None => fail (missing_work_point "blocked" id)
    end) w = Ok u w' ->
  w' = w /\ forall b, b ∈ l -> holds (entities w) (WorkPointRoadmap b rid).
Proof.
  revert w. induction l as [|id l IH]; intros w Hr; simpl in Hr; tx_inv; [set_solver|].
  match goal with Rl : load_or_missing _ _ = Ok _ _, Rk : match _ with _ => _ end _ = Ok _ _ |- _ =>
    destruct (linked_roadmap _ rid _ _ _ _ _ _ _ Rl Rk) as [-> Hid];
      [done|intros; by eapply same_roadmap_Ok|] end.
  destruct (IH _ Hr) as [-> Hb]. split; [done|]. intros x [->|Hx]%elem_of_cons; auto.
Qed.

Lemma revised_blocks_held i record w bs w' :
  revised_blocks i record w = Ok bs w' ->
  w' = w /\ forall b, b ∈ bs -> b ∈ wp_blocks_work_point_ids record \/
    holds (entities w) (WorkPointRoadmap b (wp_roadmap_id record)).
Proof.
  unfold revised_blocks. intros Hr. destruct (rw_clear_blocks i); [tx_inv; set_solver|].
  destruct (rw_blocks_work_point_ids i) as [ids|]; tx_inv; [|by split; [|left]].
  match goal with R : for_each _ _ _ = Ok _ _ |- _ => apply blocked_loop_held in R as [-> Hb] end.
  split; [done|]. by right; auto.
Qed.

Lemma revised_dependencies_records i r : keeps records (revised_dependencies i r).
Proof. unfold revised_dependencies, same_roadmap. frame. Qed.
#[local] Hint Resolve revised_dependencies_records : frame.

(** The stored row with an id is the one a consistent database finds. *)
Lemma row_unique {R} (key : R -> string) t r r0 :
  NoDup (map key t) -> find_by key (key r) t = Some r0 -> r ∈ t -> r0 = r.
Proof. intros Hn Hf Hr. rewrite (find_by_elem _ _ _ Hn Hr) in Hf. congruence. Qed.

Lemma revise_work_point_trans i : refines (revise_work_point i).
Proof.
  intros w a w' Hr [Hk _]%consistent_entities. unfold revise_work_point in Hr. tx_inv.
  apply load_work_point_entities in R as [-> (r0 & fs & Hf & ->)].
  match goal with R : revised_blocks _ _ _ = Ok _ _ |- _ =>
    apply revised_blocks_held in R as [E Hb]; apply (f_equal entities) in E end.
  ents. chain. simpl in *. rewritten.
  intros r Hin Hid%bool_decide_eq_true. split; [done|].
  assert (r0 = r) as ->.
  { destruct Hk as (_ & _ & _ & _ & Hk & _). apply (row_unique wp_id (db_work_points (w_db w)));
      [exact Hk| |exact Hin]. rewrite Hid. by destruct (find_by_Some _ _ _ _ Hf) as [_ ->]. }
  intros ref. unfold work_point_refs. simpl. rewrite !elem_of_cons, !elem_of_app, !list_elem_of_fmap.
  intros [?|[?|(b & -> & Hin')]]; [by left; left|by left; right; left|].
  destruct (Hb b Hin') as [?|?]; [left; right; right; by exists b|by right].
Qed.

(** ** Plans *)
Lemma load_plan_entities id w r w' :
  load_plan id w = Ok r w' ->
  w' = w /\ exists r0 fs, find_by pl_id id (db_plans (w_db w)) = Some r0 /\
    r = r0 <| pl_file_scopes := fs |>.
Proof.
  unfold load_plan, load_by, rows. intros Hr. tx_inv.
  match goal with R : load_file_scopes_for_entity _ _ _ = Ok _ _ |- _ =>
    pose proof (keeps_load_file_scopes (fun w => w) _ _ _ _ _ R) as E; simpl in E; subst end.
  split; [done|]. by eexists _, _.
Qed.

(** The goal of a plan of a consistent database stays behind, so the check on
    a transfer to another scope never passes. *)
Lemma transfer_stays plan target targets w u w' :
  ensure_plan_transfer_compatible plan target targets w = Ok u w' ->
  holds (w_db w) (InScope EntityType.Goal (pl_goal_id plan) (pl_scope_key plan)) ->
  target = pl_scope_key plan.
Proof.
  unfold ensure_plan_transfer_compatible. case_bool_decide as Ht; [done|]. intros Hr Hg.
  unfold ensure_plan_transfer_entity_in_scope, ensure_plan_transfer_record_in_scope in Hr. tx_inv.
  match goal with R : scope_key_for_entity EntityType.Goal _ _ = Ok _ _ |- _ =>
    apply scope_key_for_entity_Ok in R as [-> Hs] end.
  simpl in Hg, Hs. rewrite bool_decide_eq_true in *. congruence.
Qed.

Lemma revise_plan_scope i w a w' :
  revise_plan i w = Ok a w' -> consistent (w_db w) ->
  exists existing, find_by pl_id (rvp_plan_id i) (db_plans (w_db w)) = Some existing /\
    default (pl_scope_key existing) (normalize_scope_key_value <$> rvp_new_scope_key i)
    = pl_scope_key existing.
Proof.
  intros Hr [_ Hc]. unfold revise_plan in Hr. tx_inv.
  apply (keeps_require_non_empty (fun w => w)) in R.
  apply (keeps_ensure_in_scope (fun w => w)) in R0.
  apply load_plan_entities in R1 as [E1 (r0 & fs & Hf & E)].
  apply (keeps_ensure_scope_exists (fun w => w)) in R2.
  simpl in *. subst. apply transfer_stays in R3 as Hstay.
  - exists r0. split; [exact Hf|exact Hstay].
  - apply Hc. apply (hr_plan _ _ r0); [by apply find_by_Some in Hf as [? _]|]. by left.
Qed.

Lemma transfer_records plan t ts : keeps records (ensure_plan_transfer_compatible plan t ts).
Proof.
  unfold ensure_plan_transfer_compatible, ensure_plan_transfer_entity_in_scope,
    ensure_plan_transfer_record_in_scope. frame; apply list_issues_records.
Qed.
#[local] Hint Resolve transfer_records : frame.

Lemma revise_plan_trans i : refines (revise_plan i).
Proof.
  intros w a w' Hr Hcons. destruct (revise_plan_scope _ _ _ _ Hr Hcons) as (p & Hp & Hscope).
  apply consistent_entities in Hcons as [Hk _]. unfold revise_plan in Hr. tx_inv.
  apply (keeps_require_non_empty (fun w => w)) in R.
  apply (keeps_ensure_in_scope (fun w => w)) in R0.
  apply load_plan_entities in R1 as [E1 (r0 & fs & Hf & E)].
  simpl in *. subst. rewrite Hp in Hf. injection Hf as <-. simpl in *. rewrite Hscope in *.
  ents. chain. rewritten.
  intros r Hin Hid%bool_decide_eq_true. assert (p = r) as ->; [|by split; [|left]].
  destruct Hk as (_ & _ & _ & _ & _ & Hk & _). apply (row_unique pl_id (db_plans (w_db w)));
    [exact Hk|by rewrite Hid|exact Hin].
Qed.
(** ** Status changes *)
Lemma move_status_entities {R S} `{Lifecycle R S} load extra input now w r w' :
  move_status load extra input now w = Ok r w' -> loads_row load ->
  (forall w f, entities (w <| w_db ::= lc_map f |>) = lc_map f (entities w)) ->
  exists status, entities w' = lc_map
    (update_where (fun r => bool_decide (lc_id r = us_entity_id input))
       (fun r => lc_set status now (extra r))) (entities w).
Proof.
  intros Hr Hl He. apply move_status_Ok in Hr as (old & status & _ & _ & _ & Hd); [|done].
  exists status. rewrite <- He. unfold entities. by rewrite Hd.
Qed.

Lemma status_event_records ty id aty aid c i fs : keeps records (status_event ty id aty aid c i fs).
Proof. apply record_event_records. Qed.
Lemma todo_correlation_records r : keeps records (todo_correlation_id r).
Proof. unfold todo_correlation_id, plan_correlation_id, work_point_correlation_id. frame. Qed.
#[local] Hint Resolve status_event_records todo_correlation_records : frame.

Lemma update_status_trans i : refines (update_status i).
Proof.
  intros w a w' Hr _. unfold update_status in Hr. tx_inv.
  destruct (us_entity_type i); tx_inv;
    unfold update_goal_status, update_roadmap_status, update_work_point_status, update_plan_status,
      update_todo_status, update_issue_status, update_review_point_status,
      update_insight_status in Hr;
    apply after_move in Hr as (record & s' & Hm & ->%records_entities); [|frame..];
    (apply move_status_entities in Hm as [status Hm];
    [|first [ auto using loads_work_point, loads_plan, loads_todo; fail
          | exact (loads_row_by (R:=GoalRecord) EntityType.Goal)
          | exact (loads_row_by (R:=RoadmapRecord) EntityType.Roadmap)
          | exact (loads_row_by (R:=IssueRecord) EntityType.Issue)
          | exact (loads_row_by (R:=ReviewPointRecord) EntityType.ReviewPoint)
          | exact (loads_row_by (R:=InsightRecord) EntityType.Insight) ]|reflexivity]);
    ents; chain; rewritten_apart.
Qed.
End EntityRefs.
