(* ===== verification/RunRefs.v ===== *)
(** The operations on project runs, on the planning graph and on workflows
    refine [entity_trans]. *)
From stdpp Require Import relations.
From S2P Require Import Prelude Text Json Model Tx Table Store Walk EdgeRules Validation Frames ProjectRuns Leases Graph GraphFacts Status Entities WorkflowPlan Workflow LeaseTime EventLog References.

Section RunRefs.
Context `{External}.

(** ** Project runs *)
Lemma run_event_records r c i e p : keeps records (run_event r c i e p).
Proof. apply record_event_records. Qed.
Lemma owned_run_records id sk tok : keeps records (owned_run id sk tok).
Proof. unfold owned_run. frame. Qed.
#[local] Hint Resolve run_event_records owned_run_records : frame.

Lemma activate_trans i : refines (activate_project_run i).
Proof.
  intros w a w' Hr _. unfold activate_project_run, update_project_run in Hr. tx_inv.
  ents. chain. rewritten_apart.
Qed.
Lemma heartbeat_trans i : refines (heartbeat_project_run i).
Proof.
  intros w a w' Hr _. unfold heartbeat_project_run in Hr. tx_inv. ents. chain. rewritten_apart.
Qed.
Lemma release_trans i : refines (release_project_run i).
Proof.
  intros w a w' Hr _. unfold release_project_run, update_project_run in Hr. tx_inv.
  ents. chain. rewritten_apart.
Qed.
Lemma add_evidence_trans i : refines (add_project_run_evidence i).
Proof.
  intros w a w' Hr _. unfold add_project_run_evidence, update_project_run in Hr. tx_inv.
  ents. chain. rewritten_apart.
Qed.

(** What a claim has checked is what its run refers to. *)
Lemma claim_checks_held i w sk w' :
  claim_checks i w = Ok sk w' ->
  entities w' = entities w /\ sk = normalized_scope_key (ci_scope_key i) /\
  forall id owner now token lease ref,
    ref ∈ run_refs (claimed_record i id sk owner now token lease) -> holds (entities w) ref.
Proof.
  unfold claim_checks. intros Hr. tx_inv. rewrite !bool_decide_eq_true in *.
  match goal with R : load_work_point _ _ = Ok _ _ |- _ =>
    apply load_work_point_entities in R as [-> (r0 & fs & Hf & ->)] end.
  simpl in *.
  match goal with E : wp_roadmap_id r0 = _ |- _ => rename E into Hroadmap end.
  match type of Hf with find_by _ _ (db_work_points (w_db ?s)) = _ =>
    assert (holds (entities s) (WorkPointRoadmap (ci_work_point_id i) (ci_roadmap_id i))) as Hwp
      by (simpl; rewrite Hf; simpl; by f_equal) end.
  ents. chain. match goal with E : rm_goal_id _ = _ |- _ => rewrite E in * end.
  split_and!; [done..|]. intros id owner now token lease. refs_held.
Qed.

Lemma expire_leases_trans i now w u w' :
  expire_leases i now w = Ok u w' -> entity_trans (entities w) (entities w').
Proof. unfold expire_leases. intros Hr. tx_inv. ents. chain. rewritten_apart. Qed.

Lemma insert_run_trans r w u w' :
  insert_project_run r w = Ok u w' -> (forall ref, ref ∈ run_refs r -> holds (entities w) ref) ->
  entity_trans (entities w) (entities w').
Proof.
  intros Hr Hrefs. unfold insert_project_run, rows in Hr. tx_inv. ents.
  match goal with E : insert_row _ _ _ = Some _ |- _ =>
    unfold insert_row in E; destruct (find_by _ _ _) eqn:Ef; [done|injection E as <-] end.
  chain. one_row. auto.
Qed.

Lemma claim_replay_records i sk owner : keeps records (claim_replay i sk owner).
Proof. unfold claim_replay. frame. Qed.
Lemma claim_owner_records i : keeps records (claim_owner i).
Proof. unfold claim_owner. frame. Qed.
#[local] Hint Resolve claim_replay_records claim_owner_records : frame.

Lemma claim_new_run_trans i sk owner now secs w res w' :
  claim_new_run i sk owner now secs w = Ok res w' ->
  (forall id owner now token lease ref,
    ref ∈ run_refs (claimed_record i id sk owner now token lease) -> holds (entities w) ref) ->
  entity_trans (entities w) (entities w').
Proof.
  unfold claim_new_run. intros Hr Hrefs. tx_inv.
  match goal with
  | Re : expire_leases _ _ ?w = Ok _ ?s0, Ri : insert_project_run _ ?s1 = Ok _ ?s2
    |- entity_trans _ (entities ?s3) =>
      apply expire_leases_trans in Re;
      assert (entities s1 = entities s0) as Ea by (clear Ri; ents; congruence);
      apply insert_run_trans in Ri;
        [|rewrite Ea; intros; eapply et_keep; [exact Re|by eapply Hrefs]];
      assert (entities s3 = entities s2) as -> by (ents; congruence);
      rewrite Ea in Ri; by eapply entity_trans_trans
  end.
Qed.

Lemma claim_trans i : refines (claim_project_run i).
Proof.
  intros w a w' Hr _. unfold claim_project_run in Hr. tx_inv.
  match goal with R : claim_checks _ _ = Ok _ _ |- _ => apply claim_checks_held in R as (E & _ & Hrefs) end.
  match goal with o : option ProjectRunRecord |- _ => destruct o as [existing|] end; tx_inv.
  - ents. chain. apply entity_trans_refl.
  - apply claim_new_run_trans in Hr; [ents; by chain|ents; by chain].
Qed.

Lemma lease_op_trans op : refines (lease_op op).
Proof.
  destruct op; [apply claim_trans|apply activate_trans|apply heartbeat_trans|apply release_trans
    |apply add_evidence_trans].
Qed.

(** ** The graph *)
Lemma insert_graph_node_entities r w u w' :
  insert_graph_node r w = Ok u w' -> entity_trans (entities w) (entities w').
Proof.
  unfold insert_graph_node, rows. intros Hr. tx_inv. ents.
  match goal with E : insert_row _ _ _ = Some _ |- _ =>
    unfold insert_row in E; destruct (find_by _ _ _) eqn:Ef; [done|injection E as <-] end.
  chain. one_row. by intros ref ?%elem_of_nil.
Qed.
Lemma insert_graph_edge_entities r w u w' :
  insert_graph_edge r w = Ok u w' -> entity_trans (entities w) (entities w').
Proof.
  unfold insert_graph_edge, rows. intros Hr. tx_inv. ents.
  match goal with E : insert_row _ _ _ = Some _ |- _ =>
    unfold insert_row in E; destruct (find_by _ _ _) eqn:Ef; [done|injection E as <-] end.
  chain. one_row. by intros ref ?%elem_of_nil.
Qed.
Lemma update_graph_node_row_entities id f w u w' :
  update_graph_node_row id f w = Ok u w' ->
  (forall n, pn_id (f n) = pn_id n /\ pn_scope_key (f n) = pn_scope_key n) ->
  entity_trans (entities w) (entities w').
Proof.
  unfold update_graph_node_row. intros Hr Hf. ents. chain.
  apply (db_grows_trans (holds (entities w))); [|by auto].
  split; try apply grows_refl; try exact eq_refl. apply grows_update; [apply Hf|].
  intros r _ _. split; [apply Hf|by left].
Qed.
Lemma update_graph_edge_row_entities id f w u w' :
  update_graph_edge_row id f w = Ok u w' ->
  (forall e, pe_id (f e) = pe_id e /\ pe_scope_key (f e) = pe_scope_key e) ->
  entity_trans (entities w) (entities w').
Proof.
  unfold update_graph_edge_row. intros Hr Hf. tx_inv. ents. chain.
  apply (db_grows_trans (holds (entities w))); [|by auto].
  split; try apply grows_refl; try exact eq_refl. apply grows_update; [apply Hf|].
  intros r _ _. split; [apply Hf|by left].
Qed.

Lemma node_event_records i c r e p : keeps records (node_event i c r e p).
Proof. apply record_event_records. Qed.
Lemma edge_event_records i n c r e p : keeps records (edge_event i n c r e p).
Proof. apply record_event_records. Qed.
Lemma validate_and_report_records ty id : keeps records (validate_and_report ty id).
Proof. apply refresh_records. Qed.
Lemma revised_status_records i e : keeps records (revised_status i e).
Proof. unfold revised_status. frame. Qed.
Lemma finalization_findings_db n : keeps w_db (finalization_findings n).
Proof. unfold finalization_findings. frame. Qed.
Lemma check_finalization_records i r fs : keeps records (check_finalization i r fs).
Proof. unfold check_finalization. frame. Qed.
Lemma require_acceptance_records fi i e : keeps records (require_acceptance fi i e).
Proof. unfold require_acceptance. frame. Qed.
Lemma check_endpoints_records k s t sk : keeps records (check_endpoints k s t sk).
Proof. unfold check_endpoints, load_endpoint, validate_edge_kind_pair. frame. Qed.
Lemma check_activation_records dt ct sk k s t ex : keeps records (check_activation dt ct sk k s t ex).
Proof. unfold check_activation. frame. Qed.
#[local] Hint Resolve node_event_records edge_event_records validate_and_report_records
  revised_status_records finalization_findings_db check_finalization_records
  require_acceptance_records check_endpoints_records check_activation_records : frame.

(** Brings the step [R] between the ends of the operation. *)
Ltac framed R s s' :=
  lazymatch goal with |- entity_trans (entities ?w) (entities ?w') =>
    let Ea := fresh "Ea" in let Eb := fresh "Eb" in
    assert (entities s = entities w) as Ea by (clear R; ents; congruence);
    assert (entities w' = entities s') as Eb by (clear R; ents; congruence);
    rewrite <- Ea, Eb
  end.
(** Follows an operation that writes the graph: one write, the rest quiet. *)
Ltac graph_write :=
  lazymatch goal with
  | R : insert_graph_node _ ?s = Ok _ ?s' |- _ =>
      framed R s s'; exact (insert_graph_node_entities _ _ _ _ R)
  | R : insert_graph_edge _ ?s = Ok _ ?s' |- _ =>
      framed R s s'; exact (insert_graph_edge_entities _ _ _ _ R)
  | R : update_graph_node_row _ _ ?s = Ok _ ?s' |- _ =>
      framed R s s'; by apply (update_graph_node_row_entities _ _ _ _ _ R)
  | R : update_graph_edge_row _ _ ?s = Ok _ ?s' |- _ =>
      framed R s s'; by apply (update_graph_edge_row_entities _ _ _ _ _ R)
  end.

Lemma create_graph_node_trans i : refines (create_graph_node i).
Proof.
  intros w a w' Hr _. unfold create_graph_node in Hr. tx_inv. graph_write.
Qed.
Lemma create_graph_edge_trans i : refines (create_graph_edge i).
Proof.
  intros w a w' Hr _. unfold create_graph_edge in Hr. tx_inv. graph_write.
Qed.
Lemma update_graph_node_status_trans i : refines (update_graph_node_status i).
Proof.
  intros w a w' Hr _. unfold update_graph_node_status in Hr. tx_inv. graph_write.
Qed.
Lemma revise_graph_node_trans i : refines (revise_graph_node i).
Proof. intros w a w' Hr _. unfold revise_graph_node in Hr. tx_inv. graph_write. Qed.
Lemma finalize_graph_node_trans i : refines (finalize_graph_node i).
Proof. intros w a w' Hr _. unfold finalize_graph_node in Hr. tx_inv. graph_write. Qed.
Lemma update_graph_edge_status_trans i : refines (update_graph_edge_status i).
Proof.
  intros w a w' Hr _. unfold update_graph_edge_status in Hr. tx_inv. graph_write.
Qed.
Lemma revise_graph_edge_trans i : refines (revise_graph_edge i).
Proof. intros w a w' Hr _. unfold revise_graph_edge in Hr. tx_inv. graph_write. Qed.
Lemma upsert_graph_node_trans i : refines (upsert_graph_node i).
Proof.
  intros w a w' Hr _. unfold upsert_graph_node, overwrite_node in Hr. tx_inv.
  destruct (cn_id i) as [eid|]; tx_inv; [|graph_write].
  match goal with R' : context [find_by pn_id eid ?t] |- _ =>
    destruct (find_by pn_id eid t) end; tx_inv; graph_write.
Qed.

Lemma refines_drop {A} (m : M A) : refines m -> refines (drop_result m).
Proof. intros Hm w u w' [a Hr]%drop_result_Ok. by eapply Hm. Qed.

(** An operation that checks and then runs another one. *)
Lemma refines_bind {A B} (m : M A) (k : A -> M B) :
  keeps w_db m -> (forall a, refines (k a)) -> refines (m ≫= k).
Proof.
  intros Hm Hk w b w' Hr Hc. tx_inv. pose proof (Hm _ _ _ R) as E.
  assert (entities s = entities w) as <- by (unfold entities; by rewrite E).
  eapply Hk; [exact Hr|]. by rewrite E.
Qed.

Lemma graph_op_trans op : refines (graph_op op).
Proof.
  destruct op; apply refines_drop;
    [exact (create_graph_node_trans _)|exact (upsert_graph_node_trans _)|unfold create_acceptance
    |unfold create_evidence|exact (update_graph_node_status_trans _)|exact (revise_graph_node_trans _)
    |exact (finalize_graph_node_trans _)|exact (create_graph_edge_trans _)|unfold satisfy_acceptance
    |unfold attach_evidence|exact (update_graph_edge_status_trans _)
    |exact (revise_graph_edge_trans _)].
  all: repeat lazymatch goal with
    | |- refines (create_graph_node _) => apply create_graph_node_trans
    | |- refines (create_graph_edge _) => apply create_graph_edge_trans
    | |- refines (_ ≫= _) => apply refines_bind; [unfold require_acceptance; frame|intros ?]
    end.
Qed.

(** ** Workflows *)
Lemma activate_run_trans run now c i w r w' :
  activate_run run now c i w = Ok r w' -> entity_trans (entities w) (entities w').
Proof. unfold activate_run. intros Hr. tx_inv. ents. chain. rewritten_apart. Qed.

Lemma resume_run_trans i now node hint wp rm key id acc w acc' w' :
  resume_run i now node hint wp rm key id acc w = Ok acc' w' ->
  entity_trans (entities w) (entities w').
Proof.
  unfold resume_run, skip_node, prepare_node. intros Hr. tx_inv.
  destruct (run_is_terminal _); tx_inv; [ents; chain; apply entity_trans_refl|].
  match goal with R : handle _ _ = Ok ?x _ |- _ => destruct x end; tx_inv;
    [ents; chain; apply entity_trans_refl|].
  case_bool_decide; tx_inv; [|ents; chain; apply entity_trans_refl].
  match goal with R : activate_run _ _ _ _ _ = Ok _ _ |- _ => apply activate_run_trans in R as Ht; clear R end.
  ents. by chain.
Qed.

Lemma lease_run_trans i sk owner now secs node hint wp rm key acc w acc' w' :
  lease_run i sk owner now secs node hint wp rm key acc w = Ok acc' w' ->
  (forall id token lease ref,
    ref ∈ run_refs (prepared_record i sk owner now id (rm_goal_id rm) (rm_id rm) (wp_id wp)
                      (wdh_worker_profile hint) key token lease) -> holds (entities w) ref) ->
  entity_trans (entities w) (entities w').
Proof.
  unfold lease_run, skip_node, prepare_node. intros Hr Hrefs. tx_inv.
  destruct (0 <? _)%nat; tx_inv; [ents; chain; apply entity_trans_refl|].
  match goal with
  | Ri : insert_project_run _ ?s1 = Ok _ ?s2, Ra : activate_run _ _ _ _ ?s3 = Ok _ ?s4
    |- entity_trans (entities ?w) (entities ?w') =>
      assert (entities s1 = entities w) as E1 by (clear Ri Ra; ents; congruence);
      assert (entities s3 = entities s2) as E2 by (clear Ri Ra; ents; congruence);
      assert (entities w' = entities s4) as E3 by (clear Ri Ra; ents; congruence);
      apply insert_run_trans in Ri; [|rewrite E1; intros; by eapply Hrefs];
      apply activate_run_trans in Ra; rewrite E2 in Ra; rewrite E1 in Ri; rewrite E3
  end.
  by eapply entity_trans_trans.
Qed.

(** The work point of the node is in the roadmap it names. *)
Lemma prepare_work_point_trans i sk owner now secs node hint wp acc w acc' w' :
  prepare_work_point i sk owner now secs node hint wp acc w = Ok acc' w' ->
  holds (entities w) (WorkPointRoadmap (wp_id wp) (wp_roadmap_id wp)) ->
  entity_trans (entities w) (entities w').
Proof.
  unfold prepare_work_point. intros Hr Hwp. tx_inv.
  match goal with R : load_roadmap _ _ = Ok ?r _ |- _ =>
    assert (rm_id r = wp_roadmap_id wp) as Hrm
      by (unfold load_roadmap in R; apply load_by_Ok in R as [Hf _]; by apply find_by_Some in Hf as [_ ?]) end.
  match goal with R : rows _ _ = Ok _ _ |- _ => apply (proj1 (reads_Ok _ _ _ _)) in R as [-> ->] end.
  destruct (claim_with_key _ _ _) as [row|].
  - apply resume_run_trans in Hr. ents. by chain.
  - apply lease_run_trans in Hr; [ents; by chain|].
    clear Hr. ents. chain. rewrite Hrm in *. intros id token lease. unfold run_refs. simpl.
    refs_held.
Qed.

Lemma prepare_candidate_trans i view sk owner now secs max acc id w acc' w' :
  prepare_candidate i view sk owner now secs max acc id w = Ok acc' w' ->
  entity_trans (entities w) (entities w').
Proof.
  unfold prepare_candidate, skip_node. intros Hr.
  destruct (_ <=? _)%nat; tx_inv; [apply entity_trans_refl|].
  apply load_or_missing_Ok in R. destruct a as [node|]; tx_inv; [|apply entity_trans_refl].
  apply (keeps_load_graph_node (fun w => w)) in R. simpl in R. subst.
  destruct (negb _); tx_inv; [apply entity_trans_refl|].
  destruct (find_hint _ _) as [hint|]; tx_inv; [|apply entity_trans_refl].
  destruct (workflow_work_point_id_for_node _) as [wpid|]; tx_inv; [|apply entity_trans_refl].
  apply load_or_missing_Ok in R. destruct a as [wp|]; tx_inv; [|apply entity_trans_refl].
  apply load_work_point_entities in R as [-> (r0 & fs & Hf & ->)].
  destruct (work_point_terminal _); tx_inv; [apply entity_trans_refl|].
  eapply prepare_work_point_trans; [exact Hr|]. simpl.
  pose proof (find_by_Some _ _ _ _ Hf) as [_ Hid]. rewrite Hid, Hf. done.
Qed.

Lemma prepare_loop_trans i view sk owner now secs max ids acc w acc' w' :
  for_acc ids (prepare_candidate i view sk owner now secs max) acc w = Ok acc' w' ->
  entity_trans (entities w) (entities w').
Proof.
  revert acc w. induction ids as [|id ids IH]; intros acc w Hr; simpl in Hr; tx_inv;
    [apply entity_trans_refl|].
  apply prepare_candidate_trans in R. eapply entity_trans_trans; [exact R|by eapply IH].
Qed.

Lemma prepare_workflow_trans i : refines (prepare_workflow i).
Proof.
  intros w a w' Hr _. apply prepare_workflow_effect in Hr as (view & Hr & _).
  unfold prepare_in_transaction in Hr. destruct (first_phase _) as [[phase mode] ids]. tx_inv.
  match goal with R : for_acc _ _ _ _ = Ok _ _ |- _ => apply prepare_loop_trans in R as Ht; clear R end.
  ents. by chain.
Qed.

Lemma write_back_trans i sk now existing node w res w' :
  write_back i sk now existing node w = Ok res w' -> entity_trans (entities w) (entities w').
Proof.
  unfold write_back, insert_workflow_result_evidence, insert_workflow_result_attachment,
    update_workflow_node_status_in_transaction. intros Hr. tx_inv.
  match goal with
  | Rn : insert_graph_node _ ?s1 = Ok _ ?s2, Re : insert_graph_edge _ ?s3 = Ok _ ?s4,
    Ru : update_graph_node_row _ _ ?s5 = Ok _ ?s6, Rr : update_db _ ?s7 = Ok _ ?s8
    |- entity_trans (entities ?w) (entities ?w') =>
      assert (entities s1 = entities w) as E1 by (clear Rn Re Ru Rr; ents; congruence);
      assert (entities s3 = entities s2) as E3 by (clear Rn Re Ru Rr; ents; congruence);
      assert (entities s5 = entities s4) as E5 by (clear Rn Re Ru Rr; ents; congruence);
      assert (entities s7 = entities s6) as E7 by (clear Rn Re Ru Rr; ents; congruence);
      assert (entities w' = entities s8) as E9 by (clear Rn Re Ru Rr; ents; congruence);
      apply insert_graph_node_entities in Rn; apply insert_graph_edge_entities in Re;
      apply update_graph_node_row_entities in Ru; [|done];
      assert (entity_trans (entities s7) (entities s8)) as Rr' by (clear -Rr; ents; chain; rewritten_apart);
      rewrite E1 in Rn; rewrite E3 in Re; rewrite E5 in Ru; rewrite E7 in Rr'; rewrite E9
  end.
  repeat (eapply entity_trans_trans; [eassumption|]). apply entity_trans_refl.
Qed.

Lemma record_workflow_result_trans i : refines (record_workflow_result i).
Proof.
  intros w a w' Hr _. unfold record_workflow_result in Hr. tx_inv.
  case_bool_decide; tx_inv.
  - unfold check_worker_result, check_result_binding in *. ents. chain. apply entity_trans_refl.
  - apply write_back_trans in Hr. unfold check_worker_result, check_result_binding, check_result_node in *.
    ents. by chain.
Qed.

Lemma workflow_op_trans op : refines (workflow_op op).
Proof.
  destruct op; apply refines_drop; [apply prepare_workflow_trans|apply record_workflow_result_trans].
Qed.
End RunRefs.
