(* ===== verification/Consistency.v ===== *)
(** Referential consistency along every history: each operation of the store
    refines [entity_trans] ([planning_op_trans]), which keeps the database
    consistent. *)
From stdpp Require Import relations.
From S2P Require Import Prelude Text Json Model Tx Table Store Walk EdgeRules Validation Frames ProjectRuns Leases Graph GraphFacts Status Entities WorkflowPlan Workflow LeaseTime EventLog References EntityRefs RunRefs.

Section Consistency.
Context `{External}.

(** ** All operations *)
Lemma entity_op_trans op : refines (entity_op op).
Proof.
  destruct op; apply refines_drop; auto using create_scope_trans, create_goal_trans,
    create_roadmap_trans, add_roadmap_section_trans, add_work_point_trans, revise_work_point_trans,
    create_plan_trans, revise_plan_trans, create_todo_trans, create_issue_trans,
    create_review_point_trans, create_insight_trans.
Qed.

Lemma planning_op_trans op : refines (planning_op op).
Proof.
  destruct op; [apply entity_op_trans|apply refines_drop, update_status_trans
    |apply refines_drop, lease_op_trans|apply graph_op_trans|apply workflow_op_trans].
Qed.

Lemma planning_step_trans w w' :
  planning_step w w' -> consistent (w_db w) -> entity_trans (entities w) (entities w').
Proof.
  intros [op s|s s' E] Hc.
  - unfold committed. destruct (planning_op op s) as [u s'|e] eqn:Hr; [|apply entity_trans_refl].
    by eapply planning_op_trans.
  - unfold entities. rewrite E. apply entity_trans_refl.
Qed.

Lemma planning_history_trans w w' :
  rtc planning_step w w' -> consistent (w_db w) ->
  entity_trans (entities w) (entities w') /\ consistent (w_db w').
Proof.
  induction 1 as [|w1 w2 w3 Hs _ IH]; intros Hc; [by split; [apply entity_trans_refl|]|].
  pose proof (planning_step_trans _ _ Hs Hc) as Ht.
  destruct IH as [Ht' Hc'].
  { apply consistent_entities. eapply entity_trans_consistent; [exact Ht|]. by apply consistent_entities. }
  split; [by eapply entity_trans_trans|done].
Qed.

Lemma empty_consistent : consistent empty_db.
Proof.
  split; [unfold keys_unique; simpl; split_and!; apply NoDup_nil_2|].
  intros ref Href.
  destruct Href as [r Hr _|r Hr _|r Hr _|r Hr _|r Hr _|r Hr _|r Hr _|r Hr _|r Hr _];
    by apply elem_of_nil in Hr.
Qed.

(** C11. The planning database stays referentially consistent: from a
    consistent database (the empty one is), along every history of the
    operations of [PlanningOp], committed or rolled back, the primary keys stay
    unique; every goal is in an existing scope; the goal of a roadmap, the
    roadmap of a section and of a work point, the goal and roadmap of a plan, the
    plan and work point of a todo, what a review point is attached to, the parent
    of an insight and the goal, roadmap and work point of a run exist in the
    scope of the row; a plan's and a run's roadmap belongs to its goal, a run's
    work point, a work point's section and the work points it blocks to its
    roadmap; and none of these ever stops to hold.

    Not among them, because the code does not insist on them or lets them go
    stale: the dependencies of a work point, the work points it repairs or
    supersedes, the targets of a plan, the entity an issue is related to.  Not
    among the operations: scaffolds, manifests, discovery, and the upserts of
    graph edges. *)
Theorem planning_stays_consistent w w' :
  consistent (w_db w) -> rtc planning_step w w' ->
  consistent (w_db w') /\ forall ref, holds (w_db w) ref -> holds (w_db w') ref.
Proof.
  intros Hc Hs. destruct (planning_history_trans _ _ Hs Hc) as [Ht Hc']. split; [done|].
  intros ref Href. apply holds_entities. apply (et_keep _ _ Ht). by apply holds_entities.
Qed.

(** C25. A plan never leaves its scope: in a consistent database a revision that
    asks for another scope is refused, the goal of the plan being in the
    old one; so is every revision of a plan that does not exist. *)
Theorem plans_never_change_scope i w :
  consistent (w_db w) ->
  (forall existing, find_by pl_id (rvp_plan_id i) (db_plans (w_db w)) = Some existing ->
     exists target, rvp_new_scope_key i = Some target /\
       normalize_scope_key_value target <> pl_scope_key existing) ->
  committed (revise_plan i) w = w /\ exists e, revise_plan i w = Fail e.
Proof.
  intros Hc Ht. unfold committed. destruct (revise_plan i w) as [a w'|e] eqn:Hr; [exfalso|by eauto].
  destruct (revise_plan_scope _ _ _ _ Hr Hc) as (p & Hp & Hs).
  destruct (Ht p Hp) as (t & Hn & Hne). rewrite Hn in Hs. simpl in Hs. congruence.
Qed.
End Consistency.
