(* ===== verification/Scenario.v ===== *)
(** A concrete setting: an instance of the outside world in which every
    definition of the development evaluates, and a small planning database.

    Time is printed in decimal nanoseconds, one second passing per reading;
    identifiers are numbered; session I/O succeeds. *)
From stdpp Require Import pretty.
From S2P Require Import Prelude Text Concrete Json Model Tx Table Store Validation ProjectRuns Leases Graph Entities WorkflowPlan Workflow LeaseTime GraphFacts EventLog.

(** ** The outside world *)
#[export] Instance demo : External := {|
  utc_now n := (Z.of_nat n * 1000000000)%Z;
  rfc3339_format t := Some (time_text t);
  rfc3339_parse := text_time;
  julianday := text_time;
  uuid_v4 n := "id-" +:+ pretty n;
  json_to_string _ := "{}";
  json_to_string_pretty _ := "{}";
  debug_strings l := String.concat "," l;
  session_readable _ := true;
  session_writable _ := true |}.

#[export] Instance demo_texts : TimeTexts.
Proof.
  split; simpl.
  - intros t s [= <-]. apply text_time_text.
  - intros t s t' s' [= <-] [= <-]. exists t, t'. rewrite !text_time_text.
    split_and!; [done..|]. unfold grace. lia.
Qed.
#[export] Instance demo_laws : ClockLaws := text_laws demo_texts.

(** ** The database: one goal, one roadmap, work points and graph nodes *)
Definition demo_scope : ScopeRecord :=
  mkScopeRecord "default" None None (json_object []) [] 1 "0" "0".
Definition demo_goal : GoalRecord :=
  mkGoalRecord "goal-1" "default" "corr-1" "Ship it" "Ship the store" ["done"] []
    GoalStatus.Active [] 1 "0" "0".
Definition demo_roadmap : RoadmapRecord :=
  mkRoadmapRecord "roadmap-1" "default" "goal-1" "corr-1" "Roadmap" "The way" RoadmapStatus.Active
    [] 1 "0" "0".
Definition demo_work_point (id : string) (deps : list string) : WorkPointRecord :=
  mkWorkPointRecord id "default" "roadmap-1" None "Work" "Do it" WorkPointStatus.Proposed 1 deps
    ["tests pass"] EffortTier.Fast WorkPointKind.Feature Priority.Medium [] [] [] [] [] 1 "0" "0".
Definition demo_node (id : string) (kind : PlanningNodeKind) (status : string) (payload : json)
    : PlanningGraphNode :=
  mkPlanningGraphNode id "default" kind id "A node" status payload [] 1 "0" "0".

Definition demo_db : Db := empty_db
  <| db_scopes := [demo_scope] |> <| db_goals := [demo_goal] |>
  <| db_roadmaps := [demo_roadmap] |>
  <| db_work_points := [demo_work_point "wp-1" ["wp-2"]; demo_work_point "wp-2" ["wp-1"]] |>.
Definition demo_world : World := mkWorld demo_db 0 0 0 None.

Definition demo_claim : ClaimProjectRunInput :=
  mkClaimProjectRunInput None None "goal-1" "roadmap-1" "wp-1" None None None
    (Some "session-1") None None None (Some "agent") (Some "key-1") None.

(** Time passing. *)
Definition later (readings : nat) (w : World) : World := w <| w_clock ::= Nat.add readings |>.

(** A claim, its run left to expire, and a second claim of the work point. *)
Definition claimed_world : World := committed (lease_op (Claim demo_claim)) demo_world.
Definition second_claim : ClaimProjectRunInput :=
  mkClaimProjectRunInput None None "goal-1" "roadmap-1" "wp-1" None None None
    None None None None (Some "other") (Some "key-2") None.
Definition reclaimed_world : World :=
  committed (lease_op (Claim second_claim)) (later 1000 claimed_world).
Definition run_of (n : nat) (w : World) : ProjectRunRecord :=
  nth n (db_project_runs (w_db w)) (claimed_record demo_claim "" "" "" "" 0 "").
Definition old_run : ProjectRunRecord := run_of 0 reclaimed_world.
Definition new_run : ProjectRunRecord := run_of 1 reclaimed_world.

Definition release_new : ReleaseProjectRunInput :=
  mkReleaseProjectRunInput (pr_id new_run) ProjectRunStatus.Completed None None None
    (Some (pr_fencing_token new_run)).
Definition released_world : World := committed (lease_op (Release release_new)) reclaimed_world.

(** ** A graph: an abstract acceptance satisfied by a concrete one, and work *)
Definition node_input (id : string) (kind : PlanningNodeKind) (status : string)
    : CreateGraphNodeInput :=
  mkCreateGraphNodeInput (Some id) None "corr-1" kind id "A node" status (json_object []) [] None.
Definition acceptance_input (id : string) (kind : AcceptanceKind) : CreateAcceptanceInput :=
  mkCreateAcceptanceInput (Some id) None "corr-1" id "An acceptance" "proposed" kind "" "" []
    None [] None.
Definition edge_input (id : string) (kind : PlanningEdgeKind) (source target : string)
    : CreateGraphEdgeInput :=
  mkCreateGraphEdgeInput (Some id) None "corr-1" kind source target "active" (json_object []) None.

Definition graph_ops : list GraphOp :=
  [CreateNode (node_input "work-1" PlanningNodeKind.Work "active");
   CreateNode (node_input "work-2" PlanningNodeKind.Work "active");
   CreateEdge (edge_input "edge-1" PlanningEdgeKind.DependsOn "work-1" "work-2");
   CreateAcceptance (acceptance_input "abstract-1" AcceptanceKind.Abstract);
   CreateAcceptance (acceptance_input "concrete-1" AcceptanceKind.Concrete);
   SatisfyAcceptance (mkSatisfyAcceptanceInput None None "corr-1" "concrete-1" "abstract-1"
                        "it covers it" None)].
Definition graph_world : World :=
  fold_left (fun w op => committed (graph_op op) w) graph_ops demo_world.
Definition finalize_input (id : string) : FinalizeGraphNodeInput :=
  mkFinalizeGraphNodeInput id "corr-1" None "validated" None None.
Definition demo_manifest : ParsedManifest :=
  mkParsedManifest "default"
    [node_input "work-1" PlanningNodeKind.Work "draft";
     node_input "work-3" PlanningNodeKind.Work "draft"]
    [edge_input "edge-2" PlanningEdgeKind.DependsOn "work-2" "work-3";
     edge_input "edge-3" PlanningEdgeKind.DependsOn "work-3" "work-1"].

(** ** A project built from nothing by the store's own operations *)
Definition empty_world : World := mkWorld empty_db 0 0 0 None.
Definition work_point_input (id : string) (blocks : list string) : AddWorkPointInput :=
  mkAddWorkPointInput (Some id) None "roadmap-1" None "Work" "Do it" WorkPointStatus.Proposed
    (Some 1%Z) [] ["tests pass"] EffortTier.Fast None None [] [] blocks [] [] None.
Definition setup_ops : list PlanningOp :=
  [OnEntity (CreateScope (mkCreateScopeInput "default" None None None [] None));
   OnEntity (CreateScope (mkCreateScopeInput "other" None None None [] None));
   OnEntity (CreateGoal (mkCreateGoalInput (Some "goal-1") None "corr-1" "Ship it" "Ship the store"
     ["done"] [] GoalStatus.Active [] None));
   OnEntity (CreateRoadmap (mkCreateRoadmapInput (Some "roadmap-1") None "goal-1" "corr-1"
     "Roadmap" "The way" RoadmapStatus.Active [] None));
   OnEntity (AddWorkPoint (work_point_input "wp-1" []));
   OnEntity (AddWorkPoint (work_point_input "wp-2" ["wp-1"]));
   OnEntity (CreatePlan (mkCreatePlanInput (Some "plan-1") None "goal-1" "roadmap-1" "corr-1"
     "Plan" "The plan" "all" [] [] [] ["wp-1"] EffortTier.Fast None false [] PlanStatus.Draft []
     None))].
Definition project_ops : list PlanningOp := setup_ops ++ [OnRun (Claim demo_claim)].
Definition project_world : World := run_all project_ops empty_world.
Definition plan_transfer : RevisePlanInput :=
  mkRevisePlanInput "plan-1" None (Some "other") None None None None None None false None None false
    None None.

(** ** A workflow: two tasks that may run in parallel, each for a work point *)
Definition task_input (id work_point_id selector : string) : CreateGraphNodeInput :=
  mkCreateGraphNodeInput (Some id) None "corr-1" PlanningNodeKind.Work id "A task" "active"
    (json_object [("workPointId", JStr work_point_id);
                  ("fileScopes", JArr [json_object [("selector", JStr selector)]])]) [] None.
Definition task_ops : list PlanningOp :=
  [OnGraph (CreateNode (task_input "task-1" "wp-1" "src/a/**"));
   OnGraph (CreateNode (task_input "task-2" "wp-2" "src/b/**"));
   OnGraph (CreateEdge (edge_input "edge-1" PlanningEdgeKind.ParallelSafeWith "task-1" "task-2"))].
Definition prepare_input : PrepareWorkflowInput :=
  mkPrepareWorkflowInput "default" EntityType.Roadmap "roadmap-1" "corr-9" "adapter-1" []
    (Some "host") None None None None None 2 900.

(** Tasks without runs; the workflow prepared; the first task's result. *)
Definition tasks_world : World := run_all (setup_ops ++ task_ops) empty_world.
Definition prepared_world : World := committed (prepare_workflow prepare_input) tasks_world.
Definition first_run : ProjectRunRecord := run_of 0 prepared_world.
Definition result_of (run : ProjectRunRecord) (node_id : string) : RecordWorkflowResultInput :=
  mkRecordWorkflowResultInput
    (mkWorkflowWorkerResult "orchestrator-worker-result/v1" ("dispatch-" +:+ pr_id run) (pr_id run)
       node_id 1 (pr_fencing_token run) (default "" (pr_idempotency_key run))
       WorkflowResultStatus.Completed "done" None None EvidenceKind.TestResult None None)
    None "corr-9" None.
Definition recorded_world : World :=
  committed (record_workflow_result (result_of first_run "task-1")) prepared_world.

(** A claim left to expire, and the workflow prepared after it. *)
Definition expired_world : World :=
  later 1000 (run_all [OnRun (Claim demo_claim)] tasks_world).
Definition overtaken_world : World := committed (prepare_workflow prepare_input) expired_world.
Definition overtaken_run : ProjectRunRecord := run_of 0 overtaken_world.
Definition overtaking_run : ProjectRunRecord := run_of 1 overtaken_world.

(** [m] returns from [w], with a result and a world that satisfy [P]. *)
Definition on_success {A} (m : M A) (w : World) (P : A -> World -> Prop) : Prop :=
  match m w with Ok a w' => P a w' | Fail _ => False end.
