(* ===== verification/Witnesses.v ===== *)
(** The theorems at work: each one that has hypotheses is applied in the
    setting of [Scenario], where its hypotheses are evaluated. *)
From stdpp Require Import pretty relations.
From S2P Require Import Prelude Text Json Model Tx Table Store Walk EdgeRules Validation ValidationFacts ProjectRuns Leases Graph GraphFacts EventLog Status GraphQueries Runnable Finalization Manifest Entities WorkflowPlan Workflow LeaseTime WorkflowFacts References Consistency Scenario.

(** Runs the operation; what is left is to use the equation it gives. *)
Ltac run E := unfold on_success; match goal with
  | |- match ?m with _ => _ end =>
      let res := fresh "res" in let w' := fresh "w'" in
      destruct m as [res w'|] eqn:E; [|exfalso; vm_compute in E; discriminate E]
  end.

Ltac at_row n := apply list_elem_of_lookup_2 with n; vm_compute; reflexivity.

(** ** Histories of the scenario *)
Lemma claimed_step : lease_step demo_world claimed_world.
Proof. exact (step_op (Claim demo_claim) demo_world). Qed.
Lemma later_step n w : lease_step w (later n w).
Proof. apply step_other; [reflexivity|simpl; lia]. Qed.
Lemma reclaimed_steps : rtc lease_step claimed_world reclaimed_world.
Proof.
  apply (rtc_l _ _ (later 1000 claimed_world)); [apply later_step|].
  apply rtc_once. exact (step_op (Claim second_claim) (later 1000 claimed_world)).
Qed.
Lemma reclaimed_reached : reached reclaimed_world.
Proof. exists demo_world. split; [reflexivity|]. exact (rtc_l _ _ _ _ claimed_step reclaimed_steps). Qed.
Lemma graph_steps : rtc graph_step demo_world graph_world.
Proof.
  unfold graph_world. generalize graph_ops demo_world. intros ops.
  induction ops as [|op ops IH]; intros w; simpl; [reflexivity|].
  eapply rtc_l; [apply (step_graph_op op)|apply IH].
Qed.

(** ** Project runs *)
Lemma lease_mutual_exclusion_witness :
  new_run ∈ runs reclaimed_world /\ run_is_live (pr_status new_run) = true /\
  run_of 1 reclaimed_world = new_run.
Proof.
  split; [at_row 1|]. split; [vm_compute; reflexivity|].
  apply (lease_mutual_exclusion demo_texts reclaimed_world);
    [exact reclaimed_reached|at_row 1|at_row 1|vm_compute; reflexivity..].
Defined.

Lemma leases_refine_protocol_witness :
  exists a', lease_sim reclaimed_world a' /\ rtc lease_trans [] a'.
Proof.
  apply (leases_refine_protocol demo_texts demo_world).
  - split; [reflexivity|]. split; constructor.
  - exact (rtc_l _ _ _ _ claimed_step reclaimed_steps).
Defined.

Lemma stale_owner_refused_witness :
  exists e, lease_op (Heartbeat (mkHeartbeatProjectRunInput (pr_id old_run) None None
                                   (Some (pr_fencing_token old_run)) None)) reclaimed_world = Fail e.
Proof.
  apply (stale_owner_refused demo_texts _ old_run new_run);
    [exact reclaimed_reached|at_row 0|at_row 1|vm_compute; reflexivity..].
Defined.

Lemma claim_takes_a_newer_token_witness :
  on_success (claim_project_run second_claim) (later 1000 claimed_world) (fun res w' =>
    let record := mr_record res in
    (runs w' = runs (later 1000 claimed_world) /\ record ∈ runs (later 1000 claimed_world)) \/
    (record ∈ runs w' /\ (pr_fencing_token (run_of 0 claimed_world) < pr_fencing_token record)%Z)).
Proof.
  run E. destruct (claim_takes_a_newer_token demo_laws _ _ _ _ E) as [?|(? & _ & _ & _ & _ & Hnew)];
    [by left|right]. split; [done|]. apply Hnew; [at_row 0|vm_compute; reflexivity].
Defined.

Lemma release_ends_the_run_witness :
  on_success (release_project_run release_new) reclaimed_world (fun res w' =>
    pr_status (mr_record res) = ProjectRunStatus.Completed /\
    (old_run ∈ runs w' <-> old_run ∈ runs reclaimed_world)).
Proof.
  run E. destruct (release_ends_the_run _ _ _ _ E) as (ex & _ & _ & Hs & _ & _ & _ & _ & Hrest).
  split; [exact Hs|]. apply Hrest. vm_compute. discriminate.
Defined.

Lemma claim_is_idempotent_witness :
  on_success (claim_project_run demo_claim) demo_world (fun res w1 =>
  on_success (claim_project_run demo_claim) w1 (fun res' w3 =>
    pr_id (mr_record res') = pr_id (mr_record res) /\ runs w3 = runs w1)).
Proof.
  run E. assert (w' = claimed_world) as ->.
  { unfold claimed_world, committed. simpl. by rewrite E. }
  run E'. apply (claim_is_idempotent demo_texts demo_claim "key-1" demo_world res claimed_world claimed_world);
    [exists demo_world; split; reflexivity|reflexivity|exact E|reflexivity|exact E'].
Defined.

(** ** The graph *)
Lemma graph_stays_well_formed_witness :
  length (db_edges (w_db graph_world)) = 2 /\ graph_inv (shapes graph_world) (edges graph_world).
Proof.
  split; [vm_compute; reflexivity|].
  apply (graph_stays_well_formed demo_world); [split; reflexivity|exact graph_steps].
Defined.

(** The first work point is leased, the second can be picked up; without the
    claim both can. *)
Example leased_work_is_not_runnable :
  on_success (find_runnable_work_points "roadmap-1") project_world (fun res _ =>
    map (fun c => wp_id (rwc_work_point c)) (rc_candidates res) = ["wp-2"]).
Proof. vm_compute. reflexivity. Qed.
Example free_work_is_runnable :
  on_success (find_runnable_work_points "roadmap-1") tasks_world (fun res _ =>
    map (fun c => wp_id (rwc_work_point c)) (rc_candidates res) = ["wp-1"; "wp-2"]).
Proof. vm_compute. reflexivity. Qed.

Lemma runnable_work_points_can_start_witness :
  on_success (find_runnable_work_points "roadmap-1") project_world (fun res w' =>
    exists now wps, map (fun c => wp_id (rwc_work_point c)) (rc_candidates res) = ["wp-2"] /\
    forall wp, wp ∈ map rwc_work_point (rc_candidates res) <-> wp ∈ wps /\ can_start (w_db w') wps now wp).
Proof.
  run E. destruct (runnable_work_points_can_start _ _ _ _ E) as (now & wps & _ & _ & Hc & _).
  exists now, wps. split; [|exact Hc]. vm_compute in E. injection E as <- _. reflexivity.
Defined.

Lemma runnable_graph_work_is_ready_witness :
  on_success (find_runnable_graph_work "default") graph_world (fun res w' =>
    w' = graph_world /\
    forall c, c ∈ grr_candidates res <->
      exists n, pending_work (w_db graph_world) "default" n /\ ready (w_db graph_world) "default" n /\
                c = candidate_of n).
Proof.
  run E. destruct (runnable_graph_work_is_ready _ _ _ _ E) as (Hw & Hc & _).
  split; [exact Hw|exact Hc].
Defined.

Lemma demo_clock_formats : clock_formats.
Proof. intros n. by eexists. Qed.

Lemma finalized_nodes_were_checked_witness :
  on_success (finalize_graph_node (finalize_input "abstract-1")) graph_world (fun res w' =>
    exists node, find_by pn_id "abstract-1" (db_nodes (w_db graph_world)) = Some node /\
                 acceptance_backed (w_db graph_world) node).
Proof.
  run E. destruct (finalized_nodes_were_checked _ _ _ _ demo_clock_formats E)
    as (node & Hf & _ & _ & [Hrisk|Hback] & _).
  - discriminate Hrisk.
  - exists node. split; [exact Hf|exact Hback].
Defined.

Lemma manifest_is_accounted_for_witness :
  on_success (apply_manifest demo_manifest false) graph_world (fun res w' =>
    nodes_seen res = 2 /\ edges_seen res = 2 /\ length (ma_conflicts res) = 1 /\
    ma_revised_nodes res = []).
Proof.
  run E. destruct (manifest_is_accounted_for _ _ _ _ _ E) as (Hn & He & _ & _ & Hr & _).
  split; [exact Hn|]. split; [exact He|]. split; [|exact Hr].
  vm_compute in E. injection E as <- _. reflexivity.
Defined.

(** ** Events, statuses, validation *)
Lemma event_streams_are_gapless_witness :
  let ops := OnRun (Claim demo_claim) :: map OnGraph graph_ops in
  length (db_events (w_db (run_all ops demo_world))) = 7 /\
  log_contiguous (db_events (w_db (run_all ops demo_world))).
Proof.
  split; [vm_compute; reflexivity|].
  exact (event_streams_are_gapless (OnRun (Claim demo_claim) :: map OnGraph graph_ops)
           demo_world eq_refl).
Defined.

(** ** Consistency *)
Lemma run_all_steps ops w : rtc planning_step w (run_all ops w).
Proof.
  unfold run_all. revert w. induction ops as [|op ops IH]; intros w; simpl; [reflexivity|].
  eapply rtc_l; [apply (step_planning_op op)|apply IH].
Qed.
Lemma project_consistent : consistent (w_db project_world).
Proof.
  apply (planning_history_trans empty_world); [apply run_all_steps|apply empty_consistent].
Qed.

Lemma planning_stays_consistent_witness :
  length (db_plans (w_db project_world)) = 1 /\ length (db_project_runs (w_db project_world)) = 1 /\
  consistent (w_db project_world).
Proof.
  split; [vm_compute; reflexivity|]. split; [vm_compute; reflexivity|].
  exact (proj1 (planning_stays_consistent empty_world project_world empty_consistent
                  (run_all_steps project_ops empty_world))).
Defined.

Lemma plans_never_change_scope_witness :
  committed (revise_plan plan_transfer) project_world = project_world.
Proof.
  apply (plans_never_change_scope plan_transfer project_world project_consistent).
  intros p Hp. exists "other". split; [reflexivity|].
  vm_compute in Hp. injection Hp as <-. vm_compute. discriminate.
Defined.

Definition start_work : UpdateStatusInput :=
  mkUpdateStatusInput EntityType.WorkPoint "wp-1" "active" None None None false None.
Lemma update_status_follows_table_witness :
  on_success (update_status start_work) demo_world (fun _ w' =>
    status_of EntityType.WorkPoint "wp-1" (w_db w') = Some "active").
Proof.
  run E. destruct (update_status_follows_table _ _ _ _ E) as (old & _ & _ & Hall).
  rewrite Hall. reflexivity.
Defined.

Lemma dependency_cycles_are_reported_witness :
  on_success (validate_work_point "wp-1") demo_world (fun fs w' =>
    tc (depends_on (db_work_points (w_db demo_world))) "wp-1" "wp-1").
Proof.
  run E. apply (dependency_cycles_are_reported _ _ _ _ E).
  vm_compute in E. injection E as <- _. eexists. split; [apply list_elem_of_here|reflexivity].
Defined.
