(* ===== verification/WorkflowWitnesses.v ===== *)
(** The theorems about workflows at work, on the prepared, recorded and
    overtaken workflows of [Scenario]; then executions in which the code does
    less than its comments say. *)
From stdpp Require Import pretty relations.
From S2P Require Import Prelude Text Concrete Substring Json Model Tx Table Store Walk EdgeRules Validation ProjectRuns Leases Graph GraphFacts Entities WorkflowPlan WorkflowPlanFacts Workflow LeaseTime WorkflowFacts EventLog Finalization Scenario Witnesses.

(** ** Histories *)
Lemma later_idle n w : run_step w (later n w).
Proof. apply step_lease, step_other; [reflexivity|simpl; lia]. Qed.
Lemma lease_op_step op w : run_step w (run_all [OnRun op] w).
Proof.
  assert (run_all [OnRun op] w = committed (lease_op op) w) as ->; [|apply step_lease, step_op].
  unfold run_all. simpl. unfold committed, drop_result, mbind, Tx_bind. by destruct (lease_op op w).
Qed.
Lemma prepared_step : run_step tasks_world prepared_world.
Proof. exact (step_prepare prepare_input tasks_world). Qed.
Lemma tasks_leased : leased_world tasks_world.
Proof. exists tasks_world. split; [vm_compute; reflexivity|apply rtc_refl]. Qed.
Lemma prepared_leased : leased_world prepared_world.
Proof.
  exists tasks_world. split; [vm_compute; reflexivity|]. exact (rtc_once _ _ prepared_step).
Qed.
Lemma expired_steps : rtc run_step tasks_world expired_world.
Proof.
  apply (rtc_l _ _ (run_all [OnRun (Claim demo_claim)] tasks_world)).
  { apply lease_op_step. }
  apply rtc_once, later_idle.
Qed.
Lemma expired_leased : leased_world expired_world.
Proof. exists tasks_world. split; [vm_compute; reflexivity|exact expired_steps]. Qed.
Lemma overtaken_steps : rtc run_step tasks_world overtaken_world.
Proof.
  eapply rtc_r; [exact expired_steps|]. exact (step_prepare prepare_input expired_world).
Qed.
(** The run of the first claim, claimed anew. *)
Definition second_claimed_world : World := committed (lease_op (Claim second_claim)) expired_world.
(** The stored run was not there before: by evaluation, row by row. *)
Lemma not_an_id ids id : existsb (String.eqb id) ids = false -> forall x, x ∈ ids -> x <> id.
Proof.
  intros Hn x Hx ->. apply Bool.not_true_iff_false in Hn. apply Hn, existsb_exists. exists id.
  split; [by apply list_elem_of_In|apply String.eqb_refl].
Qed.
Lemma new_run_ids (r : ProjectRunRecord) w :
  existsb (String.eqb (pr_id r)) (map pr_id (runs w)) = false ->
  forall q, q ∈ runs w -> pr_id q <> pr_id r.
Proof. intros Hn q Hq. apply (not_an_id _ _ Hn). by apply list_elem_of_fmap_2. Qed.

Lemma reclaimed_leased : leased_world reclaimed_world.
Proof.
  exists demo_world. split; [reflexivity|].
  apply (rtc_l _ _ claimed_world); [exact (step_lease _ _ (step_op (Claim demo_claim) demo_world))|].
  apply (rtc_l _ _ (later 1000 claimed_world)); [apply later_idle|].
  apply rtc_once. exact (step_lease _ _ (step_op (Claim second_claim) (later 1000 claimed_world))).
Qed.
Lemma released_step : run_step reclaimed_world released_world.
Proof. exact (step_lease _ _ (step_op (Release release_new) reclaimed_world)). Qed.

(** ** Witnesses *)
Lemma ended_runs_are_final_witness :
  run_is_terminal (pr_status old_run) = true /\ old_run ∈ runs released_world.
Proof.
  split; [vm_compute; reflexivity|].
  apply (ended_runs_are_final demo_texts reclaimed_world);
    [exact reclaimed_leased|at_row 0|vm_compute; reflexivity|exact (rtc_once _ _ released_step)].
Defined.

Lemma runs_refine_timed_leases_witness :
  length (runs overtaken_world) = 3 /\
  exists s, timed_sim overtaken_world s /\ rtc (timed_trans utc_now) (w_clock tasks_world, []) s.
Proof.
  split; [vm_compute; reflexivity|].
  apply (runs_refine_timed_leases demo_texts tasks_world); [|exact overtaken_steps].
  split; [reflexivity|]. split; [constructor|constructor].
Defined.

Lemma grants_find_no_held_lease_witness :
  run_is_live (pr_status overtaken_run) = true /\
  (pr_fencing_token overtaken_run < pr_fencing_token overtaking_run)%Z /\
  exists n, forall d, rfc3339_parse (pr_lease_expires_at overtaken_run) = Some d ->
    (d < utc_now n + 2000000)%Z.
Proof.
  assert (run_is_live (pr_status overtaken_run) = true) as Hlive by (vm_compute; reflexivity).
  split; [exact Hlive|].
  destruct (grants_find_no_held_lease demo_texts expired_world overtaken_world overtaking_run)
    as (_ & n & d & _ & _ & _ & Hold & _);
    [exact expired_leased|exact (step_prepare prepare_input expired_world)|at_row 1|apply new_run_ids; vm_compute; reflexivity|].
  destruct (Hold overtaken_run) as [Htok Hout]; [at_row 0|vm_compute; reflexivity|].
  split; [exact Htok|]. exists n. exact (Hout Hlive).
Defined.

Lemma stale_worker_refused_witness :
  exists e, lease_op (Heartbeat (mkHeartbeatProjectRunInput (pr_id overtaken_run) None None
                                   (Some (pr_fencing_token overtaken_run)) None)) second_claimed_world
            = Fail e.
Proof.
  destruct (stale_worker_refused demo_texts expired_world second_claimed_world second_claimed_world
              (run_of 0 second_claimed_world) (run_of 1 second_claimed_world))
    as [Hops _];
    [exact expired_leased|exact (step_lease _ _ (step_op (Claim second_claim) expired_world))
    |at_row 1|apply new_run_ids; vm_compute; reflexivity|at_row 0|vm_compute; discriminate|vm_compute; reflexivity
    |apply rtc_refl|left; exists second_claim; reflexivity|].
  apply Hops. vm_compute. reflexivity.
Defined.

Lemma prepared_runs_are_leased_witness :
  on_success (workflow_view_in_scope "default" EntityType.Roadmap "roadmap-1") tasks_world
    (fun view w => on_success (prepare_in_transaction prepare_input view 900) w (fun res w' =>
      length (wpr_dispatches res) = 2 /\
      exists now, forall d, d ∈ wpr_dispatches res ->
        current_lease (wd_project_run d) (Some (wd_fencing_token d)) now)).
Proof.
  run E. assert (w' = tasks_world) as -> by exact (workflow_view_reads (fun w => w) _ _ _ _ _ _ E).
  vm_compute in E. injection E as <-. run E'.
  destruct (prepared_runs_are_leased demo_texts prepare_input _ 900 tasks_world res w'
              tasks_leased ltac:(lia) E') as (_ & now & _ & Hd).
  split; [|exists now; intros d Hin; exact (proj1 (proj2 (proj2 (proj2 (Hd d Hin)))))].
  vm_compute in E'. injection E' as <- _. reflexivity.
Defined.

Lemma recorded_result_is_bound_witness :
  on_success (record_workflow_result (result_of first_run "task-1")) prepared_world (fun res w' =>
    pr_status (wrw_project_run res) = ProjectRunStatus.Completed).
Proof.
  run E. destruct (recorded_result_is_bound _ _ _ _ E)
    as (ex & node & ev & at_ & now & _ & _ & _ & _ & _ & _ & _ & _ & _ & _ & _ & _ & Hs & _).
  - vm_compute in E. injection E as <- _. reflexivity.
  - exact Hs.
Defined.

Lemma results_are_recorded_once_witness :
  on_success (record_workflow_result (result_of first_run "task-1")) prepared_world (fun res w1 =>
    record_workflow_result (result_of first_run "task-1") w1
    = Ok (mkWorkflowResultWriteback (wrw_project_run res) None None None true) w1).
Proof.
  run E. eapply (results_are_recorded_once demo_texts _ _ _ _ _ _ prepared_leased E).
  - vm_compute in E. injection E as <- _. reflexivity.
  - apply rtc_refl.
  - vm_compute in E. injection E as _ <-. vm_compute. reflexivity.
  - vm_compute. reflexivity.
Defined.

(** Globs read as their literal prefix: the coarsest matcher there is. *)
Definition coarse_match (s : FileScopeRecord) (p : string) : Prop :=
  match fs_selector_type s with
  | FileScopeSelectorType.Exact => p = forward_slashes (fs_selector s)
  | FileScopeSelectorType.Glob =>
      String.prefix (workflow_literal_prefix (forward_slashes (fs_selector s))) p = true
  end.
Lemma literal_prefix_prefix s : String.prefix (workflow_literal_prefix s) s = true.
Proof.
  induction s as [|c s IH]; simpl; [reflexivity|]. destruct (is_wildcard c); [reflexivity|].
  simpl. destruct (Ascii.ascii_dec c c); [exact IH|contradiction].
Qed.
#[export] Instance coarse_matcher : ScopeMatcher coarse_match.
Proof.
  split; unfold coarse_match; intros s p; destruct (fs_selector_type s); try done.
  intros ->. apply literal_prefix_prefix.
Qed.

Definition task_hints : list WorkflowDelegationHint :=
  map workflow_delegation_hint_for_node (db_nodes (w_db tasks_world)).
Definition task_scopes (node_id : string) : list FileScopeRecord :=
  match find_hint task_hints node_id with Some h => wdh_file_scopes h | None => [] end.

Lemma parallel_workers_are_disjoint_witness :
  on_success (find_runnable_graph_work "default") tasks_world (fun runnable _ =>
    exists phase, phase ∈ wxl_phases (workflow_execution_plan runnable task_hints
                                        (db_edges (w_db tasks_world))) /\
      wxp_max_concurrency phase = 2 /\
      disjoint_scopes coarse_match (task_scopes "task-1") (task_scopes "task-2")).
Proof.
  run E. vm_compute in E. injection E as <- _.
  assert (forall (phase : WorkflowExecutionPhase) l, phase ∈ phase :: l) as Hhere
    by (intros; apply list_elem_of_here).
  match goal with |- context [wxl_phases ?plan] =>
    assert (exists phase, wxl_phases plan = [phase] /\ wxp_max_concurrency phase = 2 /\
              wxp_node_ids phase = ["task-1"; "task-2"]) as (phase & Ep & Hmax & Hids)
      by (eexists; vm_compute; split_and!; reflexivity);
    assert (phase ∈ wxl_phases plan) as Hin by (rewrite Ep; apply Hhere) end.
  exists phase. split; [exact Hin|]. split; [exact Hmax|].
  destruct (parallel_workers_are_disjoint coarse_match _ _ _ phase Hin) as (_ & _ & Hpar).
  destruct (Hpar ltac:(rewrite Hmax; lia) 0 1 "task-1" "task-2" ltac:(lia)
              ltac:(by rewrite Hids) ltac:(by rewrite Hids)) as (_ & h & h' & Hh & Hh' & _ & _ & Hd).
  unfold task_scopes. rewrite Hh, Hh'. exact Hd.
Defined.

(** * Where the code does less than its comments say, shown by execution in the
    setting of [Scenario]: the edge upsert that skips the checks of
    [create_graph_edge], finalization past a self-loop, and workflow
    preparation, which leaves run-out leases live. *)
Definition back_edge : CreateGraphEdgeInput :=
  edge_input "edge-9" PlanningEdgeKind.DependsOn "work-2" "work-1".
Definition loop_edge : CreateGraphEdgeInput :=
  edge_input "edge-8" PlanningEdgeKind.Repairs "work-1" "work-1".

Lemma cycle_breaks_inv k x w :
  is_acyclic_kind k = true -> tc (edge_rel k (edges w)) x x ->
  ~ graph_inv (shapes w) (edges w).
Proof. intros Hk Hx [_ _ _ _ Hc]. exact (Hc k Hk x Hx). Qed.

Ltac step_over n := eexists; split; [apply list_elem_of_lookup_2 with n; vm_compute; reflexivity|];
  vm_compute; split_and!; reflexivity.

(** The edge upsert is not guarded: [create_graph_edge] refuses the edge
    back over an active dependency, while [upsert_graph_edge] stores it and
    leaves a graph that is not well-formed. *)
Theorem upsert_graph_edge_closes_cycles :
  graph_inv (shapes graph_world) (edges graph_world) /\
  (exists e, create_graph_edge back_edge graph_world = Fail e) /\
  on_success (upsert_graph_edge back_edge) graph_world (fun _ w' =>
    ~ graph_inv (shapes w') (edges w')).
Proof.
  split; [|split].
  - apply (graph_history_inv demo_world); [|by apply empty_graph_inv].
    unfold graph_world. generalize graph_ops demo_world. intros ops.
    induction ops as [|op ops IH]; intros w; simpl; [reflexivity|].
    eapply rtc_l; [apply (step_graph_op op)|apply IH].
  - eexists. vm_compute. reflexivity.
  - unfold on_success. destruct (upsert_graph_edge back_edge graph_world) as [r w'|] eqn:E;
      [|vm_compute in E; discriminate]. vm_compute in E. injection E as <- <-.
    apply (cycle_breaks_inv PlanningEdgeKind.DependsOn "work-1"); [reflexivity|].
    apply (tc_l _ _ "work-2"); [step_over 0|]. apply tc_once. step_over 2.
Qed.

(** Finalization overlooks self-loops: the validator reports the active
    self-loop of a node, and the node is finalized all the same, without any
    accepted risk. *)
Theorem self_loops_can_be_finalized :
  on_success (upsert_graph_edge loop_edge) graph_world (fun _ w1 =>
    (exists fs w2, validate_graph_edge "edge-8" w1 = Ok fs w2 /\
                   "GRAPH-EDGE-SELF-LOOP" ∈ map vf_code fs) /\
    on_success (finalize_graph_node (finalize_input "work-1")) w1 (fun res _ =>
      pn_status (mr_record res) = "validated")).
Proof.
  unfold on_success. destruct (upsert_graph_edge loop_edge graph_world) as [r w'|] eqn:E;
    [|vm_compute in E; discriminate]. vm_compute in E. injection E as <- <-. split.
  - eexists _, _. split; [vm_compute; reflexivity|]. apply list_elem_of_lookup_2 with 0.
    vm_compute. reflexivity.
  - vm_compute. reflexivity.
Qed.

(** A preparation does not release the run-out leases of the work points
    it leases, as a claim does: after a claim whose lease has run out,
    preparing the workflow leaves its work point with two live runs, while a
    second claim releases the first. *)
Theorem preparation_keeps_expired_runs :
  (overtaken_run ∈ runs overtaken_world /\ overtaking_run ∈ runs overtaken_world /\
   overtaken_run <> overtaking_run /\
   pr_work_point_id overtaken_run = pr_work_point_id overtaking_run /\
   run_is_live (pr_status overtaken_run) = true /\
   run_is_live (pr_status overtaking_run) = true) /\
  on_success (claim_project_run second_claim) expired_world (fun _ w' =>
    map (fun r => run_is_live (pr_status r)) (runs w') = [false; true]).
Proof.
  split.
  - split; [apply list_elem_of_lookup_2 with 0; vm_compute; reflexivity|].
    split; [apply list_elem_of_lookup_2 with 1; vm_compute; reflexivity|].
    split; [vm_compute; discriminate|]. split_and!; vm_compute; reflexivity.
  - vm_compute. reflexivity.
Qed.

(** SQLite compares the deadline of a lease with the time of a preparation in
    milliseconds, the guard of the owner's operations in nanoseconds, and the
    preparation leaves the older run live.  So when a workflow is prepared
    within the last millisecond of a lease, its owner can renew it afterwards:
    the work point then has two runs under current leases.  The clock of this
    scenario reads nanoseconds from 0, and from its thousandth reading on,
    nanoseconds from one second. *)
Section SameMillisecond.
#[local] Instance fine : External := {|
  utc_now n := (if (n <? 1000)%nat then Z.of_nat n else 1000000000 + Z.of_nat (n - 1000))%Z;
  rfc3339_format t := Some (time_text t);
  rfc3339_parse := text_time;
  julianday s := (fun t => (t / 1000000)%Z) <$> text_time s;
  uuid_v4 n := "id-" +:+ pretty n;
  json_to_string _ := "{}";
  json_to_string_pretty _ := "{}";
  debug_strings l := String.concat "," l;
  session_readable _ := true;
  session_writable _ := true |}.

Definition at_reading (n : nat) (w : World) : World := w <| w_clock := n |>.
Definition short_claim : ClaimProjectRunInput :=
  mkClaimProjectRunInput None None "goal-1" "roadmap-1" "wp-1" None None None
    (Some "session-1") None None None (Some "agent") (Some "key-1") (Some 1%Z).
(** A lease of a second, taken at reading 900; the workflow prepared at
    reading 1000, 900 nanoseconds before it runs out; the lease renewed. *)
Definition short_world : World := committed (lease_op (Claim short_claim)) (at_reading 900 tasks_world).
Definition overlapping_world : World :=
  committed (prepare_workflow prepare_input) (at_reading 1000 short_world).
Definition renewal : HeartbeatProjectRunInput :=
  mkHeartbeatProjectRunInput (pr_id (run_of 0 short_world)) None None
    (Some (pr_fencing_token (run_of 0 short_world))) None.

Lemma fine_texts : TimeTexts.
Proof.
  split; simpl.
  - intros t s [= <-]. apply text_time_text.
  - intros t s t' s' [= <-] [= <-]. exists (t / 1000000)%Z, (t' / 1000000)%Z.
    rewrite !text_time_text. split_and!; [done..|]. unfold grace.
    intros. assert (t / 1000000 + 2 <= t' / 1000000)%Z; [|lia].
    replace (t / 1000000 + 2)%Z with ((t + 2 * 1000000) / 1000000)%Z
      by (rewrite Z.div_add by lia; lia).
    apply Z.div_le_mono; lia.
Qed.

Theorem overtaken_leases_can_be_renewed :
  on_success (lease_op (Heartbeat renewal)) overlapping_world (fun _ w =>
    exists now time r r', rfc3339_format time = Some now /\ time = utc_now (w_clock w) /\
      r ∈ runs w /\ r' ∈ runs w /\ pr_id r <> pr_id r' /\
      pr_work_point_id r = pr_work_point_id r' /\
      run_is_live (pr_status r) = true /\ run_is_live (pr_status r') = true /\
      current_lease r (Some (pr_fencing_token r)) now /\
      current_lease r' (Some (pr_fencing_token r')) now).
Proof.
  unfold on_success.
  destruct (lease_op (Heartbeat renewal) overlapping_world) as [res w|e] eqn:E;
    [|vm_compute in E; discriminate E].
  vm_compute in E. injection E as _ <-.
  eexists _, _, _, _. split; [reflexivity|]. split; [reflexivity|].
  split; [apply list_elem_of_lookup_2 with 0; vm_compute; reflexivity|].
  split; [apply list_elem_of_lookup_2 with 1; vm_compute; reflexivity|].
  split; [vm_compute; discriminate|].
  split; [vm_compute; reflexivity|]. split; [vm_compute; reflexivity|].
  split; [vm_compute; reflexivity|].
  split; (split; [reflexivity|]; eexists _, _;
    split; [vm_compute; reflexivity|]; split; [vm_compute; reflexivity|vm_compute; reflexivity]).
Qed.
End SameMillisecond.
