(* ===== verification/Redaction.v ===== *)
(** Redaction of structured output ([Redactor], [elegy-accountd/src/lib.rs]):
    what a response or an audit detail may contain after it. *)
From Stdlib Require Import Ascii.
From S2P Require Import Prelude Text Substring Json.

Definition SECRET_KEYS : list string :=
  ["authorization"; "password"; "access_token"; "refresh_token"; "api_key"; "client_secret";
   "cookie"; "set-cookie"; "secret_value"].

Definition eq_ignore_ascii_case (a b : string) : bool :=
  bool_decide (to_ascii_lowercase a = to_ascii_lowercase b).

Definition is_secret_key (key : option string) : bool :=
  match key with
  | Some candidate => existsb (eq_ignore_ascii_case candidate) SECRET_KEYS
  | None => false
  end.

Definition redacted : string := "[REDACTED]".

(** One canary of the loop over a string, and the loop. *)
Definition redact_canary (text canary : bytes) : bytes :=
  if negb (bool_decide (canary = [])) && contains canary text
  then replace canary (to_bytes redacted) text else text.
Definition redact_text (canaries : list string) (text : string) : string :=
  of_bytes (fold_left redact_canary (map to_bytes canaries) (to_bytes text)).

(** [Redactor::walk]. *)
Fixpoint redact_walk (canaries : list string) (key : option string) (value : json) : json :=
  if is_secret_key key then JStr redacted
  else match value with
  | JObj m => JObj (map (fun e => (fst e, redact_walk canaries (Some (fst e)) (snd e))) m)
  | JArr items => JArr (map (redact_walk canaries None) items)
  | JStr text => JStr (redact_text canaries text)
  | _ => value
  end.

(** [Redactor::new(canaries).sanitize(value)]. *)
Definition sanitize (canaries : list string) (value : json) : json :=
  redact_walk canaries None value.

(** ** What is left after it *)

(** The text holds none of the canaries. *)
Definition free_of (canaries : list string) (text : string) : Prop :=
  forall c, c ∈ canaries -> c <> "" -> ~ occurs (to_bytes c) (to_bytes text).

(** No string below a value holds a canary, and every member with a secret
    key is the mark. *)
Fixpoint clean (canaries : list string) (key : option string) (value : json) : Prop :=
  (is_secret_key key = true -> value = JStr redacted) /\
  match value with
  | JObj m => foldr (fun e rest => clean canaries (Some (fst e)) (snd e) /\ rest) True m
  | JArr items => foldr (fun x rest => clean canaries None x /\ rest) True items
  | JStr text => free_of canaries text
  | _ => True
  end.

(** A canary that cannot be confused with the mark. *)
Definition distinct_from_mark (canary : string) : Prop :=
  "["%char ∉ to_bytes canary /\ "]"%char ∉ to_bytes canary /\
  ~ occurs (to_bytes canary) (to_bytes "REDACTED").

Lemma mark_eq : to_bytes redacted = "["%char :: to_bytes "REDACTED" ++ ["]"%char].
Proof. reflexivity. Qed.

Lemma mark_free canary :
  canary <> "" -> distinct_from_mark canary -> ~ occurs (to_bytes canary) (to_bytes redacted).
Proof.
  intros Hne (Ho & Hc & Hi) H. rewrite mark_eq in H.
  assert (to_bytes canary <> []) as Hb by (destruct canary; done).
  assert (forall l : bytes, occurs (to_bytes canary) l -> l <> []) as Hl.
  { intros l (a & b & ->) E. destruct a, (to_bytes canary); done. }
  change ("["%char :: to_bytes "REDACTED" ++ ["]"%char])
    with ([] ++ ("["%char :: to_bytes "REDACTED" ++ ["]"%char]) ++ []) in H.
  apply occurs_marked in H as [H|H]; [by apply (Hl [] H)|by apply (Hl [] H)|done..].
Qed.

Section RedactText.
Context (canaries : list string) (Hd : forall c, c ∈ canaries -> distinct_from_mark c).

Lemma redact_canary_occurs (c : string) (c' : bytes) text :
  distinct_from_mark c ->
  occurs (to_bytes c) (redact_canary text c') -> occurs (to_bytes c) text.
Proof.
  intros (Ho & Hc & Hi). unfold redact_canary. case_bool_decide as Hn; [done|]. cbn [negb andb].
  destruct (contains c' text); [|done]. rewrite mark_eq. by apply replace_occurs.
Qed.

Lemma redact_canary_gone c text :
  c <> "" -> distinct_from_mark c -> ~ occurs (to_bytes c) (redact_canary text (to_bytes c)).
Proof.
  intros Hne (Ho & Hc & Hi). assert (to_bytes c <> []) as Hb by (destruct c; done).
  unfold redact_canary. rewrite bool_decide_false by done. cbn [negb andb].
  destruct (contains (to_bytes c) text) eqn:E.
  - rewrite mark_eq. by apply replace_gone.
  - rewrite <- contains_iff. congruence.
Qed.

Lemma redact_fold_occurs c l text :
  distinct_from_mark c ->
  occurs (to_bytes c) (fold_left redact_canary l text) -> occurs (to_bytes c) text.
Proof.
  intros Hc. revert text. induction l as [|c' l IH]; intros text; simpl; [done|].
  intros H%IH. by eapply redact_canary_occurs.
Qed.

Lemma redact_text_free text : free_of canaries (redact_text canaries text).
Proof.
  intros c Hc Hne. unfold redact_text. rewrite to_of_bytes.
  pose proof (Hd _ Hc) as Hdc. clear Hd. revert Hc. generalize (to_bytes text) as t.
  induction canaries as [|c' l IH]; intros t; [by intros ?%not_elem_of_nil|].
  intros [->|Hc]%elem_of_cons; simpl; [|by apply IH].
  intros H%redact_fold_occurs; [|done]. by eapply redact_canary_gone.
Qed.

Lemma redact_text_id text : free_of canaries text -> redact_text canaries text = text.
Proof.
  unfold free_of, redact_text. intros Hf. rewrite <- (of_to_bytes text) at 2. f_equal.
  clear Hd. revert Hf. induction canaries as [|c l IH]; intros Hf; [done|]. cbn [map fold_left].
  assert (redact_canary (to_bytes text) (to_bytes c) = to_bytes text) as ->.
  { unfold redact_canary. case_bool_decide as Hn; [done|]. cbn [negb andb].
    destruct (contains (to_bytes c) (to_bytes text)) eqn:E; [|done].
    apply contains_iff in E. destruct (Hf c); [set_solver|by intros ->|done]. }
  apply IH. intros c' Hc'. apply Hf. set_solver.
Qed.
End RedactText.

Lemma clean_unfold canaries key value :
  clean canaries key value <->
  (is_secret_key key = true -> value = JStr redacted) /\
  match value with
  | JObj m => forall k x, (k, x) ∈ m -> clean canaries (Some k) x
  | JArr items => forall x, x ∈ items -> clean canaries None x
  | JStr text => free_of canaries text
  | _ => True
  end.
Proof.
  destruct value as [| | | | |l|m]; simpl; try done; f_equiv.
  - induction l as [|x l IH]; simpl; [split; [by intros _ ? ?%not_elem_of_nil|done]|].
    rewrite IH. split; [intros [? ?] y [->|?]%elem_of_cons; auto|].
    intros H. split; [apply H; by left|]. intros y Hy. apply H. by right.
  - induction m as [|[k x] m IH]; simpl; [split; [by intros _ ? ? ?%not_elem_of_nil|done]|].
    rewrite IH. split; [intros [? ?] k' y [[= -> ->]|?]%elem_of_cons; eauto|].
    intros H. split; [apply H; by left|]. intros k' y Hy. apply H. by right.
Qed.

Lemma walk_clean canaries key value :
  (forall c, c ∈ canaries -> distinct_from_mark c) ->
  clean canaries key (redact_walk canaries key value).
Proof.
  intros Hd. revert key. induction value as [| | | |s|l IH|m IH] using json_nested_ind; intros key;
    simpl; destruct (is_secret_key key) eqn:Hk; apply clean_unfold; rewrite Hk; try done.
  all: try (split; [done|]; intros c Hc Hne; apply mark_free; auto).
  - split; [done|]. by apply redact_text_free.
  - split; [done|]. intros x (y & -> & Hy)%list_elem_of_fmap. rewrite Forall_forall in IH. by apply IH.
  - split; [done|]. intros k x ([k' y] & [= -> ->] & Hy)%list_elem_of_fmap.
    rewrite Forall_forall in IH. by apply (IH (k', y)).
Qed.

Lemma walk_id canaries key value : clean canaries key value -> redact_walk canaries key value = value.
Proof.
  revert key. induction value as [| | | |s|l IH|m IH] using json_nested_ind; intros key
    [Hs Hc]%clean_unfold; simpl; destruct (is_secret_key key) eqn:Hk;
    try (by rewrite Hs); try done.
  - f_equal. by apply redact_text_id.
  - f_equal. rewrite <- (list_fmap_id l) at 2. apply list_fmap_ext. intros i x Hx%list_elem_of_lookup_2.
    rewrite Forall_forall in IH. by apply IH, Hc.
  - f_equal. rewrite <- (list_fmap_id m) at 2. apply list_fmap_ext.
    intros i [k x] Hx%list_elem_of_lookup_2. simpl. f_equal.
    rewrite Forall_forall in IH. apply (IH (k, x)); [done|by apply Hc].
Qed.

(** ** What redaction may change

    [cut canaries t t']: one occurrence of a canary in [t] became the mark. *)
Definition cut (canaries : list string) (t t' : bytes) : Prop :=
  exists c a b, c ∈ canaries /\ c <> "" /\ t = a ++ to_bytes c ++ b /\ t' = a ++ to_bytes redacted ++ b.
Definition is_leaf (value : json) : Prop :=
  match value with JStr _ | JArr _ | JObj _ => False | _ => True end.
(** The second value is the first with canaries cut out of its strings, and with
    the mark for its members under a secret key. *)
Inductive redacts (canaries : list string) : option string -> json -> json -> Prop :=
| redacts_secret key value : is_secret_key key = true -> redacts canaries key value (JStr redacted)
| redacts_text key t t' :
    is_secret_key key = false -> rtc (cut canaries) (to_bytes t) (to_bytes t') -> redacts canaries key (JStr t) (JStr t')
| redacts_array key l l' :
    is_secret_key key = false -> Forall2 (redacts canaries None) l l' -> redacts canaries key (JArr l) (JArr l')
| redacts_object key m m' :
    is_secret_key key = false ->
    Forall2 (fun e e' => fst e' = fst e /\ redacts canaries (Some (fst e)) (snd e) (snd e')) m m' ->
    redacts canaries key (JObj m) (JObj m')
| redacts_leaf key value : is_secret_key key = false -> is_leaf value -> redacts canaries key value value.

Lemma cut_app canaries p t t' : cut canaries t t' -> cut canaries (p ++ t) (p ++ t').
Proof.
  intros (c & a & b & Hc & Hne & -> & ->). exists c, (p ++ a), b. by rewrite <- !app_assoc.
Qed.
Lemma replace_cuts canaries c t :
  c ∈ canaries -> c <> "" -> rtc (cut canaries) t (replace (to_bytes c) (to_bytes redacted) t).
Proof.
  intros Hc Hne. assert (to_bytes c <> []) as Hb by (destruct c; done).
  assert (forall p t t', rtc (cut canaries) t t' -> rtc (cut canaries) (p ++ t) (p ++ t')) as Happ.
  { intros p t1 t2. apply (rtc_congruence (app p)). intros. by apply cut_app. }
  remember (length t) as n eqn:En. revert t En. induction n as [n IH] using lt_wf_ind. intros [|d t] ->; [done|].
  destruct (starts_with (to_bytes c) (d :: t)) eqn:Hs.
  - rewrite replace_hit by done. apply starts_with_iff in Hs as [b E]. rewrite E, drop_app_length.
    eapply rtc_l; [exists c, [], b; by split_and!|]. cbn [app]. apply Happ, (IH (length b)); [|done].
    rewrite E, length_app. destruct (to_bytes c); [done|]. cbn. lia.
  - rewrite replace_cons by done. apply (Happ [d]), (IH (length t)); [|done]. cbn. lia.
Qed.
Lemma redact_text_cuts canaries text : rtc (cut canaries) (to_bytes text) (to_bytes (redact_text canaries text)).
Proof.
  unfold redact_text. rewrite to_of_bytes. generalize (to_bytes text) as t.
  assert (forall c, c ∈ canaries -> c ∈ canaries) as Hl by done. revert Hl. generalize canaries at 1 4 as l.
  induction l as [|c l IH]; intros Hl t; [done|]. cbn [map fold_left].
  etransitivity; [|apply IH; intros c' Hc'; apply Hl; by right].
  unfold redact_canary. case_bool_decide as Hn; [done|]. cbn [negb andb]. destruct (contains _ _); [|done].
  apply replace_cuts; [apply Hl; by left|]. by intros ->.
Qed.
Lemma walk_redacts canaries key value : redacts canaries key value (redact_walk canaries key value).
Proof.
  revert key. induction value as [| | | |s|l IH|m IH] using json_nested_ind; intros key;
    simpl; destruct (is_secret_key key) eqn:Hk; try (by apply redacts_secret); try (by apply redacts_leaf).
  - by apply redacts_text, redact_text_cuts.
  - apply redacts_array; [done|]. apply Forall2_fmap_r, Forall_Forall2_diag. eapply Forall_impl; [exact IH|]. auto.
  - apply redacts_object; [done|]. apply Forall2_fmap_r, Forall_Forall2_diag. eapply Forall_impl; [exact IH|].
    intros [k x] Hx. split; [done|apply Hx].
Qed.

(** C31. Redaction with canaries that cannot be confused with the mark: in the
    result no string holds a canary, at any depth, and every member under a
    secret key (in any letter case) is the mark; and that is all it does: the
    result has the same arrays, members, numbers, booleans and nulls in the same
    places, and its strings differ only by marks where canaries were.
    Redacting twice is redacting once, and a value that has nothing to hide is
    left as it is.  (Names of members are not rewritten.) *)
Theorem redaction_leaves_no_canary canaries
    (Hd : forall c, c ∈ canaries -> distinct_from_mark c) value :
  clean canaries None (sanitize canaries value) /\
  redacts canaries None value (sanitize canaries value) /\
  sanitize canaries (sanitize canaries value) = sanitize canaries value /\
  (clean canaries None value <-> sanitize canaries value = value).
Proof.
  assert (Hc : clean canaries None (sanitize canaries value)) by (by apply walk_clean).
  split; [done|split]; [apply walk_redacts|]. split; [by apply walk_id|]. split; [apply walk_id|congruence].
Qed.

(** A token in an audit detail, beside a password in capitals. *)
Lemma redaction_leaves_no_canary_witness :
  sanitize ["tok-1"]
    (JObj [("PassWord", JInt 7); ("log", JArr [JStr "GET /a?k=tok-1&l=tok-1"; JStr "ok"])]) =
  JObj [("PassWord", JStr "[REDACTED]");
        ("log", JArr [JStr "GET /a?k=[REDACTED]&l=[REDACTED]"; JStr "ok"])] /\
  clean ["tok-1"] None
    (sanitize ["tok-1"]
      (JObj [("PassWord", JInt 7); ("log", JArr [JStr "GET /a?k=tok-1&l=tok-1"; JStr "ok"])])).
Proof.
  split; [reflexivity|]. refine (proj1 (redaction_leaves_no_canary ["tok-1"] _ _)).
  intros c Hc%list_elem_of_singleton. subst c. split_and!.
  - by apply (bool_decide_unpack _).
  - by apply (bool_decide_unpack _).
  - rewrite <- contains_iff. vm_compute. discriminate.
Defined.
