(* ===== verification/Threads.v ===== *)
(** Programs of atomic sections, and their interleavings.

    The account broker ([plugins/accounts]) is shared by the tasks of a daemon
    and, through its database file, by other processes.  What happens in one
    piece is one SQL statement or transaction, or one reading of the clock; a
    [Prog] is the tree of these sections with the code between them, a [Task]
    one that returns a Rust [Result].  [run] executes a program alone, [step]
    interleaves the sections of any number of calls. *)
From S2P Require Import Prelude.

(** Rust's [Result]. *)
Inductive Result (E A : Type) := Ok (a : A) | Err (e : E).
Arguments Ok {E A}.
Arguments Err {E A}.

#[export] Instance Result_ret E : MRet (Result E) := fun A a => Ok a.
#[export] Instance Result_bind E : MBind (Result E) := fun A B k r =>
  match r with Ok a => k a | Err e => Err e end.
(** [if b { return Err(e) }], [option.ok_or(e)?] and a [for] loop that returns
    at the first error. *)
Definition fail_if {E} (b : bool) (e : E) : Result E unit := if b then Err e else Ok tt.
Definition some_or {E A} (o : option A) (e : E) : Result E A :=
  match o with Some a => Ok a | None => Err e end.
Fixpoint for_each {E A} (f : A -> Result E unit) (l : list A) : Result E unit :=
  match l with [] => Ok tt | x :: l' => _ ← f x; for_each f l' end.

Lemma result_bind_Ok {E A B} (r : Result E A) (k : A -> Result E B) b :
  r ≫= k = Ok b <-> exists a, r = Ok a /\ k a = Ok b.
Proof. destruct r as [a|e]; split; [by exists a|by intros (? & [= ->] & ?)|done|by intros (? & ? & ?)]. Qed.
Lemma fail_if_Ok {E} b (e : E) u : fail_if b e = Ok u <-> b = false.
Proof. by destruct b, u. Qed.
Lemma some_or_Ok {E A} (o : option A) (e : E) a : some_or o e = Ok a <-> o = Some a.
Proof. destruct o; split; by intros [= ->]. Qed.
Lemma for_each_Ok {E A} (f : A -> Result E unit) l :
  for_each f l = Ok tt <-> forall x, x ∈ l -> f x = Ok tt.
Proof.
  induction l as [|x l IH]; simpl.
  - split; [by intros _ ? ?%not_elem_of_nil|done].
  - rewrite result_bind_Ok. split.
    + intros ([] & Hx & Hl) y [->|Hy]%elem_of_cons; [done|by apply IH].
    + intros Hf. exists tt. split; [apply Hf; by left|]. apply IH. intros y Hy. apply Hf. by right.
Qed.

Section Programs.
Context {S : Type}.

Inductive Prog (R : Type) : Type :=
| Return (r : R)
| Atomic (X : Type) (section : S -> X * S) (rest : X -> Prog R).
Arguments Return {R}.
Arguments Atomic {R X}.

Fixpoint prog_bind {R R'} (p : Prog R) (k : R -> Prog R') : Prog R' :=
  match p with
  | Return r => k r
  | Atomic section rest => Atomic section (fun x => prog_bind (rest x) k)
  end.

(** The program alone, without interference. *)
Fixpoint run {R} (p : Prog R) (s : S) : R * S :=
  match p with
  | Return r => (r, s)
  | Atomic section rest => run (rest (fst (section s))) (snd (section s))
  end.

Definition Task (E A : Type) := Prog (Result E A).

#[export] Instance Task_ret E : MRet (Task E) := fun A a => Return (Ok a).
#[export] Instance Task_bind E : MBind (Task E) := fun A B k p =>
  prog_bind p (fun r => match r with Ok a => k a | Err e => Return (Err e) end).

Definition throw {E A} (e : E) : Task E A := Return (Err e).
(** [option.ok_or(e)?] and [if !b { return Err(e) }]. *)
Definition ok_or {E A} (o : option A) (e : E) : Task E A :=
  match o with Some a => mret a | None => throw e end.
Definition guard_or {E} (b : bool) (e : E) : Task E unit := if b then mret tt else throw e.
(** [result.map_err(f)]. *)
Definition map_err {E E' A} (f : E -> E') (p : Task E A) : Task E' A :=
  prog_bind p (fun r => match r with Ok a => Return (Ok a) | Err e => throw (f e) end).
End Programs.
Arguments Prog : clear implicits.
Arguments Return {S R}.
Arguments Atomic {S R X}.
Arguments Task : clear implicits.

(** ** Runs under interference

    [exec p trace r]: [p] returns [r] when the state before and after each of
    its sections is as in [trace]; between sections it may change. *)
Section Exec.
Context {S : Type}.
Implicit Types tr : list (S * S).

Inductive exec {R} : Prog S R -> list (S * S) -> R -> Prop :=
| exec_return r : exec (Return r) [] r
| exec_atomic X (section : S -> X * S) rest s tr r :
    exec (rest (fst (section s))) tr r ->
    exec (Atomic section rest) ((s, snd (section s)) :: tr) r.

Lemma exec_return_inv {R} (r r' : R) tr : exec (Return r) tr r' -> tr = [] /\ r' = r.
Proof. by inversion 1. Qed.

Lemma exec_atomic_inv {R X} (section : S -> X * S) (rest : X -> Prog S R) tr r :
  exec (Atomic section rest) tr r ->
  exists s tr', tr = (s, snd (section s)) :: tr' /\ exec (rest (fst (section s))) tr' r.
Proof.
  intros H. refine (match H in exec p tr0 r0 return
    match p with
    | Return _ => True
    | @Atomic _ _ X section rest =>
        exists s tr', tr0 = (s, snd (section s)) :: tr' /\ exec (rest (fst (section s))) tr' r0
    end with exec_return _ => I | exec_atomic _ _ _ s tr' _ H' => _ end).
  by exists s, tr'.
Qed.

Lemma exec_prog_bind {R R'} (p : Prog S R) (k : R -> Prog S R') tr r :
  exec (prog_bind p k) tr r ->
  exists tr1 tr2 x, tr = tr1 ++ tr2 /\ exec p tr1 x /\ exec (k x) tr2 r.
Proof.
  revert tr. induction p as [x|X section rest IH]; simpl; intros tr H.
  - exists [], tr, x. split; [done|]. split; [constructor|done].
  - apply exec_atomic_inv in H as (s & tr' & -> & H).
    apply IH in H as (tr1 & tr2 & x & -> & H1 & H2).
    exists ((s, snd (section s)) :: tr1), tr2, x. split; [done|]. split; [by constructor|done].
Qed.

Lemma exec_bind {E A B} (p : Task S E A) (k : A -> Task S E B) tr r :
  exec (p ≫= k) tr r ->
  (exists e, exec p tr (Err e) /\ r = Err e) \/
  (exists tr1 tr2 a, tr = tr1 ++ tr2 /\ exec p tr1 (Ok a) /\ exec (k a) tr2 r).
Proof.
  intros (tr1 & tr2 & [a|e] & -> & H1 & H2)%exec_prog_bind.
  - right. by exists tr1, tr2, a.
  - left. apply exec_return_inv in H2 as [-> ->]. exists e. by rewrite app_nil_r.
Qed.

Lemma exec_bind_Ok {E A B} (p : Task S E A) (k : A -> Task S E B) tr b :
  exec (p ≫= k) tr (Ok b) ->
  exists tr1 tr2 a, tr = tr1 ++ tr2 /\ exec p tr1 (Ok a) /\ exec (k a) tr2 (Ok b).
Proof. by intros [(e & _ & ?)|?]%exec_bind. Qed.

Lemma exec_guard_or {E} b (e : E) tr u :
  exec (guard_or b e) tr (Ok u) -> b = true /\ tr = [].
Proof. destruct b; intros [-> ?]%exec_return_inv; [done|discriminate]. Qed.
Lemma exec_ok_or {E A} (o : option A) (e : E) tr a :
  exec (ok_or o e) tr (Ok a) -> o = Some a /\ tr = [].
Proof. destruct o; intros [-> ?]%exec_return_inv; by simplify_eq. Qed.
Lemma exec_ret {E A} (a b : A) tr : exec (mret a : Task S E A) tr (Ok b) -> b = a /\ tr = [].
Proof. intros [-> ?]%exec_return_inv. by simplify_eq. Qed.

(** A program run alone is one run under interference. *)
Lemma run_exec {R} (p : Prog S R) s : exists tr, exec p tr (fst (run p s)).
Proof.
  revert s. induction p as [r|X section rest IH]; intros s; simpl.
  - exists []. constructor.
  - destruct (IH (fst (section s)) (snd (section s))) as [tr H].
    exists ((s, snd (section s)) :: tr). by constructor.
Qed.

(** ** What the sections of a program do

    [guarantees I G p]: a section of [p] that starts in a state of [I] ends in
    one related by [G], whatever happens between the sections. *)
Fixpoint guarantees {R} (I : S -> Prop) (G : S -> S -> Prop) (p : Prog S R) : Prop :=
  match p with
  | Return _ => True
  | Atomic section rest =>
      forall s, I s -> G s (snd (section s)) /\ guarantees I G (rest (fst (section s)))
  end.

(** [wp I G s0 p Q]: [p], last at [s0], establishes [Q] while each of its
    sections keeps [I] and changes the state as [G] allows, if the sections of
    others between them do so too. *)
Fixpoint wp {R} (I : S -> Prop) (G : S -> S -> Prop) (s0 : S) (p : Prog S R)
    (Q : R -> S -> Prop) : Prop :=
  match p with
  | Return r => Q r s0
  | Atomic section rest => forall s, G s0 s -> I s ->
      I (snd (section s)) /\ G s (snd (section s)) /\
      wp I G (snd (section s)) (rest (fst (section s))) Q
  end.

Lemma guarantees_weaken {R} I (G G' : S -> S -> Prop) (p : Prog S R) :
  (forall s s', G s s' -> G' s s') -> guarantees I G p -> guarantees I G' p.
Proof.
  intros HG. induction p as [r|X section rest IH]; simpl; [done|]. intros Hp s Hs.
  destruct (Hp s Hs) as [H1 H2]. split; [by apply HG|by apply IH].
Qed.
Lemma guarantees_conj {R} I (G G' : S -> S -> Prop) (p : Prog S R) :
  guarantees I G p -> guarantees I G' p -> guarantees I (fun s s' => G s s' /\ G' s s') p.
Proof.
  induction p as [r|X section rest IH]; simpl; [done|]. intros Hp Hp' s Hs.
  destruct (Hp s Hs) as [H1 H2], (Hp' s Hs) as [H1' H2']. split; [done|by apply IH].
Qed.

Section Guarantees.
Context (I : S -> Prop) (G : S -> S -> Prop).

Lemma guarantees_prog_bind {R R'} (p : Prog S R) (k : R -> Prog S R') :
  guarantees I G p -> (forall r, guarantees I G (k r)) -> guarantees I G (prog_bind p k).
Proof.
  intros Hp Hk. induction p as [r|X section rest IH]; simpl in *; [apply Hk|].
  intros s Hs. destruct (Hp s Hs) as [H1 H2]. split; [done|by apply IH].
Qed.
Lemma guarantees_bind {E A B} (p : Task S E A) (k : A -> Task S E B) :
  guarantees I G p -> (forall a, guarantees I G (k a)) -> guarantees I G (p ≫= k).
Proof. intros Hp Hk. apply guarantees_prog_bind; [done|]. intros [a|e]; [apply Hk|done]. Qed.
Lemma guarantees_bind_bind {E A B C} (p : Task S E A) (k : A -> Task S E B) (k' : B -> Task S E C) :
  guarantees I G (p ≫= (fun a => k a ≫= k')) -> guarantees I G ((p ≫= k) ≫= k').
Proof.
  induction p as [[a|e]|X section rest IH]; simpl; [done..|].
  intros Hp s Hs. destruct (Hp s Hs) as [H1 H2]. split; [done|by apply IH].
Qed.
Lemma guarantees_map_err {E E' A} (f : E -> E') (p : Task S E A) :
  guarantees I G p -> guarantees I G (map_err f p).
Proof. intros Hp. apply guarantees_prog_bind; [done|]. by intros [a|e]. Qed.
Lemma guarantees_ret {E A} (a : A) : guarantees I G (mret a : Task S E A).
Proof. done. Qed.
Lemma guarantees_return {R} (r : R) : guarantees I G (Return r).
Proof. done. Qed.
Lemma guarantees_throw {E A} (e : E) : guarantees I G (throw e : Task S E A).
Proof. done. Qed.
Lemma guarantees_guard_or {E} b (e : E) : guarantees I G (guard_or b e).
Proof. by destruct b. Qed.
Lemma guarantees_ok_or {E A} (o : option A) (e : E) : guarantees I G (ok_or o e).
Proof. by destruct o. Qed.

Lemma wp_mono {R} s0 (p : Prog S R) (Q Q' : R -> S -> Prop) :
  wp I G s0 p Q -> (forall r s, Q r s -> Q' r s) -> wp I G s0 p Q'.
Proof.
  intros H HQ. revert s0 H. induction p as [r|X section rest IH]; intros s0; simpl; [apply HQ|].
  intros Hp s Hg Hi. destruct (Hp s Hg Hi) as (? & ? & ?). eauto.
Qed.
Lemma wp_prog_bind {R R'} s0 (p : Prog S R) (k : R -> Prog S R') Q :
  wp I G s0 p (fun r s => wp I G s (k r) Q) -> wp I G s0 (prog_bind p k) Q.
Proof.
  revert s0. induction p as [r|X section rest IH]; intros s0; simpl; [done|].
  intros Hp s Hg Hi. destruct (Hp s Hg Hi) as (? & ? & ?). eauto.
Qed.
Lemma wp_bind {E A B} s0 (p : Task S E A) (k : A -> Task S E B) Q :
  wp I G s0 p (fun r s => match r with Ok a => wp I G s (k a) Q | Err e => Q (Err e) s end) ->
  wp I G s0 (p ≫= k) Q.
Proof.
  intros H. apply wp_prog_bind. eapply wp_mono; [exact H|]. by intros [a|e] s.
Qed.
End Guarantees.

(** Of a program whose sections are known to be fine, what is left is how
    far the state can have come when it returns. *)
Lemma guarantees_wp {R} I G `{!PreOrder G} s0 (p : Prog S R) (Q : R -> S -> Prop) :
  guarantees I (fun s s' => I s' /\ G s s') p -> (forall r s, G s0 s -> Q r s) -> wp I G s0 p Q.
Proof.
  intros Hp. revert s0. induction p as [r|X section rest IH]; intros s0 HQ; simpl; [by apply HQ|].
  intros s Hg Hi. destruct (Hp s Hi) as [[? ?] ?]. split; [done|]. split; [done|].
  apply IH; [done|]. intros r s' Hs'. apply HQ. etransitivity; [done|]. by etransitivity.
Qed.
Lemma wp_guard_or {E} I G s0 b (e : E) (Q : Result E unit -> S -> Prop) :
  (b = true -> Q (Ok tt) s0) -> Q (Err e) s0 -> wp I G s0 (guard_or b e) Q.
Proof. destruct b; simpl; auto. Qed.
Lemma wp_ok_or {E A} I G s0 (o : option A) (e : E) (Q : Result E A -> S -> Prop) :
  (forall a, o = Some a -> Q (Ok a) s0) -> Q (Err e) s0 -> wp I G s0 (ok_or o e) Q.
Proof. destruct o; simpl; auto. Qed.
End Exec.

Create HintDb sections.
#[export] Hint Resolve guarantees_map_err guarantees_ret guarantees_return guarantees_throw
  guarantees_guard_or guarantees_ok_or : sections.

(** [sections]: proves [guarantees] by the shape of the program, from what is
    known of its parts in the [sections] database. *)
Ltac sections_step := lazymatch goal with
  | |- guarantees _ _ (_ ≫= _) => apply guarantees_bind; [|intros ?]
  | |- guarantees _ _ (prog_bind _ _) => apply guarantees_prog_bind; [|intros ?]
  | |- guarantees _ _ (map_err _ _) => apply guarantees_map_err
  | |- guarantees _ _ (match ?x with _ => _ end) => destruct x
  | |- guarantees _ _ (let _ := _ in _) => cbv zeta
  | |- guarantees _ _ _ => solve [eauto with sections]
  end.
Ltac sections := repeat sections_step.

(** ** Interleavings

    A configuration is the shared state, the calls in flight with what is
    left of each, and the calls that have returned, in order. *)
Section Interleaving.
Context {S C R : Type} (code : C -> Prog S R).

Record Conf := mkConf {
  c_state : S; c_threads : list (C * Prog S R); c_log : list (C * R) }.

(** What is left of a call: returned, or still running. *)
Definition settle (s : S) (i : nat) (c : C) (p : Prog S R) (threads : list (C * Prog S R))
    (log : list (C * R)) : Conf :=
  match p with
  | Return r => mkConf s (delete i threads) (log ++ [(c, r)])
  | Atomic _ _ => mkConf s (<[i := (c, p)]> threads) log
  end.

(** The next section of the [i]-th call in flight. *)
Definition advance (i : nat) (conf : Conf) : option Conf :=
  '(c, p) ← c_threads conf !! i;
  match p with
  | Return r => Some (settle (c_state conf) i c p (c_threads conf) (c_log conf))
  | Atomic section rest =>
      let x := section (c_state conf) in
      Some (settle (snd x) i c (rest (fst x)) (c_threads conf) (c_log conf))
  end.

Definition start (c : C) (conf : Conf) : Conf :=
  mkConf (c_state conf) (c_threads conf ++ [(c, code c)]) (c_log conf).

Inductive step : Conf -> Conf -> Prop :=
| step_start c conf : step conf (start c conf)
| step_advance i conf conf' : advance i conf = Some conf' -> step conf conf'.

(** A schedule: [inl c] starts a call, [inr i] advances one. *)
Fixpoint play (moves : list (C + nat)) (conf : Conf) : option Conf :=
  match moves with
  | [] => Some conf
  | inl c :: moves => play moves (start c conf)
  | inr i :: moves => advance i conf ≫= play moves
  end.

Lemma play_steps moves conf conf' : play moves conf = Some conf' -> rtc step conf conf'.
Proof.
  revert conf. induction moves as [|[c|i] moves IH]; intros conf; simpl.
  - by intros [= ->].
  - intros H. eapply rtc_l; [apply step_start|by apply IH].
  - intros (conf1 & H1 & H2)%bind_Some. eapply rtc_l; [by eapply step_advance|by apply IH].
Qed.

Lemma play_default moves conf : rtc step conf (default conf (play moves conf)).
Proof. destruct (play moves conf) as [conf'|] eqn:E; [by apply play_steps in E|done]. Qed.

(** *** One step *)
Lemma elem_of_insert_inv {A} (l : list A) i x y : y ∈ <[i := x]> l -> y = x \/ y ∈ l.
Proof.
  intros [j Hj]%list_elem_of_lookup. apply list_lookup_insert_Some in Hj as [(_ & ? & _)|[_ Hj]].
  - by left.
  - right. by eapply list_elem_of_lookup_2.
Qed.

Lemma elem_of_settle s i c p threads log t :
  t ∈ c_threads (settle s i c p threads log) ->
  (t = (c, p) /\ forall r, p <> Return r) \/ t ∈ threads.
Proof.
  destruct p; simpl; intros H.
  - right. by eapply list_elem_of_delete_inv.
  - apply elem_of_insert_inv in H as [H|H]; [left; by split|by right].
Qed.

Lemma state_settle s i c p threads log : c_state (settle s i c p threads log) = s.
Proof. by destruct p. Qed.

Lemma elem_of_settle_log s i c p threads log e :
  e ∈ c_log (settle s i c p threads log) -> (exists r, p = Return r /\ e = (c, r)) \/ e ∈ log.
Proof.
  destruct p; simpl; intros H; [|by right].
  apply elem_of_app in H as [H|H%list_elem_of_singleton]; [by right|left; eauto].
Qed.

(** What one advance does: it runs the next section of a call in flight. *)
Lemma advance_Some i conf conf' :
  advance i conf = Some conf' ->
  exists c p, (c, p) ∈ c_threads conf /\
    ((exists r, p = Return r /\ conf' = settle (c_state conf) i c p (c_threads conf) (c_log conf)) \/
     (exists X (section : S -> X * S) rest, p = Atomic section rest /\
        conf' = settle (snd (section (c_state conf))) i c (rest (fst (section (c_state conf))))
                  (c_threads conf) (c_log conf))).
Proof.
  unfold advance. intros ([c p] & Hi & H)%bind_Some. exists c, p.
  split; [by eapply list_elem_of_lookup_2|].
  destruct p as [r|X section rest]; injection H as <-; [left|right]; eauto 6.
Qed.

(** *** Invariants, and what returned calls establish

    Each call keeps the invariant [I] and changes the state only as [G]
    allows, and when it has returned, its postcondition holds, for good. *)
Section RelyGuarantee.
Context (I : S -> Prop) (G : S -> S -> Prop) `{!PreOrder G} (Post : C -> R -> S -> Prop).
Context (Post_stable : forall c r s s', Post c r s -> G s s' -> Post c r s').
Context (code_wp : forall c s, I s -> wp I G s (code c) (Post c)).

Definition settled (conf : Conf) : Prop :=
  I (c_state conf) /\
  (forall c p, (c, p) ∈ c_threads conf ->
     exists s0, G s0 (c_state conf) /\ wp I G s0 p (Post c)) /\
  (forall c r, (c, r) ∈ c_log conf -> Post c r (c_state conf)).

(** A call that has run up to [s'] leaves a settled configuration. *)
Lemma settle_settled conf i c p s' :
  settled conf -> I s' -> G (c_state conf) s' -> wp I G s' p (Post c) ->
  settled (settle s' i c p (c_threads conf) (c_log conf)).
Proof.
  intros (_ & Ht & Hl) Hi Hg Hp. split; [by rewrite state_settle|]. split.
  - intros c' p' [[[= -> ->] _]|H]%elem_of_settle; rewrite state_settle; [by exists s'|].
    destruct (Ht _ _ H) as (s0 & Hs0 & Hw). exists s0. split; [by transitivity (c_state conf)|done].
  - intros c' r [(r' & -> & [= -> ->])|H]%elem_of_settle_log; rewrite state_settle; [exact Hp|].
    eapply Post_stable; [by apply Hl|done].
Qed.

Lemma settled_step conf conf' :
  step conf conf' -> settled conf -> settled conf' /\ G (c_state conf) (c_state conf').
Proof.
  intros Hs Hc. pose proof Hc as (Hi & Ht & Hl). destruct Hs as [c conf|i conf conf' Ha].
  - split; [|done]. split; [done|]. split; [|done].
    intros c' p' [H|H%list_elem_of_singleton]%elem_of_app; [by apply Ht|].
    injection H as -> ->. exists (c_state conf). split; [done|by apply code_wp].
  - apply advance_Some in Ha as (c & p & Hin & Ha). destruct (Ht _ _ Hin) as (s0 & Hs0 & Hw).
    destruct Ha as [(r & -> & ->)|(X & section & rest & -> & ->)]; rewrite state_settle.
    + split; [|done]. apply settle_settled; [done..|]. by eapply Post_stable.
    + destruct (Hw _ Hs0 Hi) as (Hi' & Hg & Hw'). split; [|done]. by apply settle_settled.
Qed.

Lemma settled_steps conf conf' :
  rtc step conf conf' -> settled conf -> settled conf' /\ G (c_state conf) (c_state conf').
Proof.
  induction 1 as [|conf1 conf2 conf3 Hs _ IH]; intros Hc; [done|].
  destruct (settled_step _ _ Hs Hc) as [Hc' Hg]. destruct (IH Hc') as [? ?].
  split; [done|by transitivity (c_state conf2)].
Qed.
End RelyGuarantee.

(** *** Steps

    What every section of every call guarantees holds of every step. *)
Section Guaranteed.
Context (I : S -> Prop) (G : S -> S -> Prop) `{!Reflexive G}.
Let keeps (s s' : S) : Prop := I s' /\ G s s'.
Context (code_keeps : forall c, guarantees I keeps (code c)).

Definition kept (conf : Conf) : Prop :=
  I (c_state conf) /\ forall c p, (c, p) ∈ c_threads conf -> guarantees I keeps p.

Lemma kept_start c conf : guarantees I keeps (code c) -> kept conf -> kept (start c conf).
Proof.
  intros Hc [Hi Ht]. split; [done|]. intros c' p' [H|H%list_elem_of_singleton]%elem_of_app; [by eapply Ht|].
  by injection H as -> ->.
Qed.
Lemma kept_advance i conf conf' :
  advance i conf = Some conf' -> kept conf -> kept conf' /\ G (c_state conf) (c_state conf').
Proof.
  intros (c & p & Hin & Ha)%advance_Some [Hi Ht]. pose proof (Ht _ _ Hin) as Hp.
  destruct Ha as [(r & -> & ->)|(X & section & rest & -> & ->)]; rewrite state_settle.
  - split; [|done]. split; [by rewrite state_settle|].
    intros c' p' [[[= -> ->] _]|H]%elem_of_settle; [done|by eapply Ht].
  - destruct (Hp _ Hi) as [[Hi' Hg] Hr]. split; [|done]. split; [by rewrite state_settle|].
    intros c' p' [[[= -> ->] _]|H]%elem_of_settle; [done|by eapply Ht].
Qed.
Lemma kept_step conf conf' : step conf conf' -> kept conf -> kept conf' /\ G (c_state conf) (c_state conf').
Proof.
  intros Hs Hk. destruct Hs as [c conf|i conf conf' Ha]; [|by eapply kept_advance].
  split; [by apply kept_start|done].
Qed.
Lemma kept_steps conf conf' : rtc step conf conf' -> kept conf -> kept conf'.
Proof. induction 1 as [|conf1 conf2 conf3 Hs _ IH]; [done|]. intros Hk. by eapply IH, kept_step. Qed.
End Guaranteed.

(** *** Who did it

    When the sections of each call guarantee what is allowed to that call,
    every step is allowed to some call in flight. *)
Section Attributed.
Context (I : S -> Prop) (G : C -> S -> S -> Prop).
Context (code_attributed : forall c, guarantees I (G c) (code c)).

Definition attributed (conf : Conf) : Prop :=
  forall c p, (c, p) ∈ c_threads conf -> guarantees I (G c) p.
Lemma attributed_step conf conf' :
  step conf conf' -> I (c_state conf) -> attributed conf ->
  attributed conf' /\
  (c_state conf' = c_state conf \/
   exists c p, (c, p) ∈ c_threads conf /\ G c (c_state conf) (c_state conf')).
Proof.
  intros Hs Hi Ht. destruct Hs as [c conf|i conf conf' Ha].
  - split; [|by left]. intros c' p' [H|H%list_elem_of_singleton]%elem_of_app; [by apply Ht|].
    by injection H as -> ->.
  - apply advance_Some in Ha as (c & p & Hin & Ha). pose proof (Ht _ _ Hin) as Hp.
    destruct Ha as [(r & -> & ->)|(X & section & rest & -> & ->)]; rewrite state_settle.
    + split; [|by left]. intros c' p' [[[= -> ->] _]|H]%elem_of_settle; [done|by apply Ht].
    + destruct (Hp _ Hi) as [Hg Hr]. split; [|right; by exists c, (Atomic section rest)].
      intros c' p' [[[= -> ->] _]|H]%elem_of_settle; [done|by apply Ht].
Qed.
End Attributed.

(** *** Calls of one kind

    While only calls that [allowed] admits are started, the state changes only
    as their sections do. *)
Inductive step_of (allowed : C -> Prop) : Conf -> Conf -> Prop :=
| step_of_start c conf : allowed c -> step_of allowed conf (start c conf)
| step_of_advance i conf conf' : advance i conf = Some conf' -> step_of allowed conf conf'.

Lemma steps_of_steps allowed conf conf' : rtc (step_of allowed) conf conf' -> rtc step conf conf'.
Proof.
  induction 1 as [|a b c Hs _ IH]; [done|]. eapply rtc_l; [|exact IH].
  destruct Hs; [apply step_start|by eapply step_advance].
Qed.

Lemma kept_steps_of (allowed : C -> Prop) (I : S -> Prop) conf conf' :
  (forall c, allowed c -> guarantees I (fun _ s' => I s') (code c)) ->
  rtc (step_of allowed) conf conf' -> kept I (fun _ _ => True) conf -> kept I (fun _ _ => True) conf'.
Proof.
  assert (forall p : Prog S R, guarantees I (fun _ s' => I s') p -> guarantees I (fun _ s' => I s' /\ True) p) as Hw.
  { intros p. apply guarantees_weaken. tauto. }
  intros Hcode. induction 1 as [|conf1 conf2 conf3 Hs _ IH]; intros Hk; [done|]. apply IH.
  destruct Hs as [c conf1 Hc|i conf1 conf2 Ha]; [|by eapply kept_advance].
  apply kept_start; [|done]. by apply Hw, Hcode.
Qed.
Lemma steps_of_guarantee (allowed : C -> Prop) (G : S -> S -> Prop) `{!PreOrder G} conf conf' :
  (forall c, allowed c -> guarantees (fun _ => True) G (code c)) -> rtc (step_of allowed) conf conf' ->
  (forall c p, (c, p) ∈ c_threads conf -> guarantees (fun _ => True) G p) -> G (c_state conf) (c_state conf').
Proof.
  intros Hcode. induction 1 as [|conf1 conf2 conf3 Hs _ IH]; intros Ht; [done|].
  destruct Hs as [c conf1 Hc|i conf1 conf2 Ha].
  - apply IH. intros c' p' [H|H%list_elem_of_singleton]%elem_of_app; [by eapply Ht|].
    injection H as -> ->. by apply Hcode.
  - apply advance_Some in Ha as (c & p & Hin & [(r & -> & ->)|(X & section & rest & -> & ->)]);
      rewrite state_settle in IH.
    + apply IH. intros c' p' [[[= -> ->] _]|H]%elem_of_settle; [done|by eapply Ht].
    + destruct (Ht _ _ Hin (c_state conf1) Logic.I) as [Hg Hr]. etransitivity; [exact Hg|]. apply IH.
      intros c' p' [[[= -> ->] _]|H]%elem_of_settle; [done|by eapply Ht].
Qed.

(** *** Calls that finish

    [finishing I K p]: whenever a section of [p] that starts in [I] is its
    last, the states around it and the result are in [K]. *)
Fixpoint finishing (I : S -> Prop) (K : S -> S -> R -> Prop) (p : Prog S R) : Prop :=
  match p with
  | Return r => forall s, I s -> K s s r
  | Atomic section rest => forall s, I s ->
      match rest (fst (section s)) with
      | Return r => K s (snd (section s)) r
      | Atomic _ _ => finishing I K (rest (fst (section s)))
      end
  end.

Lemma finishing_weaken (I I' : S -> Prop) K (p : Prog S R) :
  (forall s, I' s -> I s) -> finishing I K p -> finishing I' K p.
Proof.
  intros HI. induction p as [r|X section rest IH]; simpl; [by auto|]. intros Hp s Hs.
  specialize (Hp s (HI s Hs)). specialize (IH (fst (section s))). by destruct (rest _); [|apply IH].
Qed.
Lemma finishing_any I K (p : Prog S R) : (forall s s' r, K s s' r) -> finishing I K p.
Proof.
  intros HK. induction p as [r|X section rest IH]; simpl; [auto|]. intros s _.
  pose proof (IH (fst (section s))). by destruct (rest _).
Qed.

(** What the last section of each call does, it did at some step. *)
Section Finished.
Context (I : S -> Prop) (K : C -> S -> S -> R -> Prop).
Context (code_finishing : forall c, finishing I (K c) (code c)).

Definition all_finishing (conf : Conf) : Prop :=
  forall c p, (c, p) ∈ c_threads conf -> finishing I (K c) p.
Lemma finishing_step conf conf' :
  step conf conf' -> I (c_state conf) -> all_finishing conf ->
  all_finishing conf' /\
  forall c r, (c, r) ∈ c_log conf' -> (c, r) ∈ c_log conf \/ K c (c_state conf) (c_state conf') r.
Proof.
  intros Hs Hi Ht. destruct Hs as [c conf|i conf conf' Ha].
  - split; [|by left]. intros c' p' [H|H%list_elem_of_singleton]%elem_of_app; [by apply Ht|].
    by injection H as -> ->.
  - apply advance_Some in Ha as (c & p & Hin & Ha). pose proof (Ht _ _ Hin) as Hp.
    assert (exists q, conf' = settle (c_state conf') i c q (c_threads conf) (c_log conf) /\
      match q with Return r => K c (c_state conf) (c_state conf') r | Atomic _ _ => finishing I (K c) q end)
      as (q & -> & Hq).
    { destruct Ha as [(r & -> & ->)|(X & section & rest & -> & ->)]; rewrite !state_settle.
      - exists (Return r). split; [done|]. by apply Hp.
      - eexists. split; [done|]. specialize (Hp _ Hi). by destruct (rest _). }
    rewrite state_settle in Hq |- *. split.
    + intros c' p' [[[= -> ->] Hn]|H]%elem_of_settle; [|by apply Ht].
      destruct q; [by destruct (Hn r)|done].
    + intros c' r [(r' & -> & [= -> ->])|H]%elem_of_settle_log; [by right|by left].
Qed.
End Finished.

(** *** Counting returned calls *)
Section Counting.
Context (I : S -> Prop) (G : S -> S -> Prop) `{!PreOrder G} (Post : C -> R -> S -> Prop).
Context (Post_stable : forall c r s s', Post c r s -> G s s' -> Post c r s').
Context (code_wp : forall c s, I s -> wp I G s (code c) (Post c)).
(** [J s n]: in the state [s] when [n] counted calls have returned. *)
Context (I' : S -> Prop) (I'_stable : forall s s', I' s -> G s s' -> I' s').
Context (counted : C * R -> bool) (J : S -> nat -> Prop).
Context (J_stable : forall s s' n, J s n -> G s s' -> J s' n).
Let K (c : C) (s s' : S) (r : R) : Prop :=
  counted (c, r) = true -> forall n, J s n -> J s' (Datatypes.S n).
Context (code_counts : forall c, finishing (fun s => I s /\ I' s) (K c) (code c)).

Definition count (log : list (C * R)) : nat := length (List.filter counted log).

Definition counting (conf : Conf) : Prop :=
  settled I G Post conf /\ I' (c_state conf) /\ J (c_state conf) (count (c_log conf)) /\
  forall c p, (c, p) ∈ c_threads conf -> finishing (fun s => I s /\ I' s) (K c) p.

Lemma count_app log e : count (log ++ [e]) = count log + (if counted e then 1 else 0).
Proof. unfold count. rewrite List.filter_app, length_app. simpl. by destruct (counted e). Qed.

Lemma counting_settle s' i c p conf n :
  J s' n -> (forall r, p = Return r -> counted (c, r) = true -> J s' (Datatypes.S n)) ->
  n = count (c_log conf) ->
  J (c_state (settle s' i c p (c_threads conf) (c_log conf)))
    (count (c_log (settle s' i c p (c_threads conf) (c_log conf)))).
Proof.
  intros Hj Hr ->. destruct p as [r|]; simpl; [|done]. rewrite count_app.
  destruct (counted (c, r)) eqn:E; [rewrite Nat.add_1_r; by eapply Hr|by rewrite Nat.add_0_r].
Qed.

Lemma counting_step conf conf' : step conf conf' -> counting conf -> counting conf'.
Proof.
  intros Hs (Hset & Hi' & Hj & Ht).
  destruct (settled_step I G Post Post_stable code_wp _ _ Hs Hset) as [Hset' Hg].
  split; [done|]. split; [by eapply I'_stable|]. destruct Hs as [c conf|i conf conf' Ha].
  - split; [done|]. intros c' p' [H|H%list_elem_of_singleton]%elem_of_app; [by apply Ht|].
    injection H as -> ->. apply code_counts.
  - apply advance_Some in Ha as (c & p & Hin & Ha). pose proof (Ht _ _ Hin) as Hf.
    destruct Hset as [Hi _]. destruct Ha as [(r & -> & ->)|(X & section & rest & -> & ->)].
    + split.
      * apply counting_settle with (count (c_log conf)); [done| |done]. intros r' [= <-] Hc.
        by apply (Hf (c_state conf)).
      * intros c' p' [[[= -> ->] Hn]|H]%elem_of_settle; [by destruct (Hn r)|by apply Ht].
    + rewrite state_settle in Hg. specialize (Hf (c_state conf) (conj Hi Hi')). split.
      * apply counting_settle with (count (c_log conf)); [by eapply J_stable| |done].
        intros r Er Hc. rewrite Er in Hf. by apply Hf.
      * intros c' p' [[[= -> ->] Hn]|H]%elem_of_settle; [|by apply Ht].
        destruct (rest (fst (section (c_state conf)))) as [r|]; [by destruct (Hn r)|exact Hf].
Qed.

Lemma counting_steps conf conf' : rtc step conf conf' -> counting conf -> counting conf'.
Proof. induction 1; [done|]. intros. eauto using counting_step. Qed.
End Counting.

(** *** Calls that return

    A call that starts after [conf0] and has returned in [conf] is a run of
    its program under interference, through sections of the history. *)
Definition during (conf0 conf : Conf) (sec : S * S) : Prop :=
  exists conf1 conf2, rtc step conf0 conf1 /\ step conf1 conf2 /\ rtc step conf2 conf /\
    sec = (c_state conf1, c_state conf2).

Lemma during_step conf0 conf conf' sec :
  during conf0 conf sec -> step conf conf' -> during conf0 conf' sec.
Proof. intros (c1 & c2 & H1 & H2 & H3 & ->) Hs. exists c1, c2. split_and!; [done..| |done]. by eapply rtc_r. Qed.

(** [p] is what [c] still has to do after sections of the history. *)
Definition pending (conf0 conf : Conf) (c : C) (p : Prog S R) : Prop :=
  exists tr, Forall (during conf0 conf) tr /\
    forall tr' r, exec p tr' r -> exec (code c) (tr ++ tr') r.
Definition returned (conf0 conf : Conf) (c : C) (r : R) : Prop :=
  exists tr, Forall (during conf0 conf) tr /\ exec (code c) tr r.

Lemma pending_step conf0 conf conf' c p :
  pending conf0 conf c p -> step conf conf' -> pending conf0 conf' c p.
Proof.
  intros (tr & Htr & Hp) Hs. exists tr. split; [|done].
  eapply Forall_impl; [exact Htr|]. intros sec Hd. by eapply during_step.
Qed.
Lemma returned_step conf0 conf conf' c r :
  returned conf0 conf c r -> step conf conf' -> returned conf0 conf' c r.
Proof.
  intros (tr & Htr & Hp) Hs. exists tr. split; [|done].
  eapply Forall_impl; [exact Htr|]. intros sec Hd. by eapply during_step.
Qed.

Lemma pending_return conf0 conf c r : pending conf0 conf c (Return r) -> returned conf0 conf c r.
Proof.
  intros (tr & Htr & Hp). exists tr. split; [done|].
  rewrite <- (app_nil_r tr). apply Hp. constructor.
Qed.

Lemma pending_section conf0 conf conf' c X (section : S -> X * S) rest :
  rtc step conf0 conf -> step conf conf' -> c_state conf' = snd (section (c_state conf)) ->
  pending conf0 conf c (Atomic section rest) ->
  pending conf0 conf' c (rest (fst (section (c_state conf)))).
Proof.
  intros H0 Hs Hst (tr & Htr & Hp). exists (tr ++ [(c_state conf, c_state conf')]). split.
  - apply Forall_app. split.
    + eapply Forall_impl; [exact Htr|]. intros sec Hd. by eapply during_step.
    + apply Forall_singleton. exists conf, conf'. by repeat split.
  - intros tr' r Hr. rewrite <- app_assoc. apply Hp. simpl. rewrite Hst. by constructor.
Qed.

(** The calls in flight, and those that have returned since [conf0]. *)
Definition traced (conf0 conf : Conf) : Prop :=
  (forall c p, (c, p) ∈ c_threads conf ->
     (exists p0, (c, p0) ∈ c_threads conf0) \/ pending conf0 conf c p) /\
  (exists new, c_log conf = c_log conf0 ++ new /\ forall c r, (c, r) ∈ new ->
     (exists p0, (c, p0) ∈ c_threads conf0) \/ returned conf0 conf c r).

Lemma traced_step conf0 conf conf' :
  rtc step conf0 conf -> step conf conf' -> traced conf0 conf -> traced conf0 conf'.
Proof.
  intros H0 Hs (Ht & new & El & Hl).
  assert (forall c p, (c, p) ∈ c_threads conf ->
    (exists p0, (c, p0) ∈ c_threads conf0) \/ pending conf0 conf' c p) as Ht'.
  { intros c p Hin. destruct (Ht _ _ Hin); [by left|right; by eapply pending_step]. }
  assert (forall c r, (c, r) ∈ new ->
    (exists p0, (c, p0) ∈ c_threads conf0) \/ returned conf0 conf' c r) as Hl'.
  { intros c r Hin. destruct (Hl _ _ Hin); [by left|right; by eapply returned_step]. }
  destruct Hs as [c conf|i conf conf' Ha].
  - split; [|by exists new]. intros c' p' [H|H%list_elem_of_singleton]%elem_of_app; [by apply Ht'|].
    injection H as -> ->. right. by exists [].
  - pose proof (step_advance _ _ _ Ha) as Hs. apply advance_Some in Ha as (c & p & Hin & Ha).
    assert (exists q, conf' = settle (c_state conf') i c q (c_threads conf) (c_log conf) /\
      ((exists p0, (c, p0) ∈ c_threads conf0) \/ pending conf0 conf' c q)) as (q & E & Hq).
    { destruct Ha as [(r & -> & Ec)|(X & section & rest & -> & Ec)].
      { exists (Return r). split; [by rewrite Ec|by apply Ht']. }
      exists (rest (fst (section (c_state conf)))).
      split; [rewrite Ec at 2; by rewrite state_settle|].
      destruct (Ht _ _ Hin) as [?|Hp]; [by left|right].
      eapply pending_section; [done|done| |exact Hp]. by rewrite Ec, state_settle. }
    split.
    + intros c' p' H. rewrite E in H. apply elem_of_settle in H as [[[= -> ->] _]|H]; [done|by apply Ht'].
    + apply (f_equal c_log) in E. destruct q as [r|]; simpl in E; [|exists new; by rewrite E].
      exists (new ++ [(c, r)]). rewrite E, El, app_assoc. split; [done|].
      intros c' r' [H|[= -> ->]%list_elem_of_singleton]%elem_of_app; [by apply Hl'|].
      destruct Hq as [?|?%pending_return]; [by left|by right].
Qed.

Lemma rtc_traced conf0 conf : rtc step conf0 conf -> traced conf0 conf.
Proof.
  revert conf. apply (rtc_ind_r (traced conf0)).
  - split; [intros c p Hin; left; by exists p|]. exists []. rewrite app_nil_r. split; [done|].
    by intros c r ?%not_elem_of_nil.
  - intros conf1 conf2. apply traced_step.
Qed.

(** A call that is not in flight in [conf0] and has returned after it. *)
Lemma returned_exec conf0 conf new c r :
  rtc step conf0 conf -> c_log conf = c_log conf0 ++ new -> (c, r) ∈ new ->
  (forall p, (c, p) ∉ c_threads conf0) -> returned conf0 conf c r.
Proof.
  intros (_ & new' & El & Hl)%rtc_traced E Hin Hp. rewrite E in El. apply app_inv_head in El as ->.
  destruct (Hl _ _ Hin) as [[p0 ?]|?]; [by destruct (Hp p0)|done].
Qed.
End Interleaving.
