(* ===== verification/Network.v ===== *)
(** The network as the account broker uses it: the requests it sends and what
    it reads of the responses; and the validation of UTF-8 text. *)
From Stdlib Require Import Ascii.
From S2P Require Import Prelude Text Substring Json.

(** ** HTTP *)
Inductive Header :=
| HeaderText (name value : string)
| BearerAuth (token : string)
| BasicAuth (username password : string).
Inductive Body := NoBody | FormBody (fields : list (string * string)) | JsonBody (value : json).
Record HttpRequest := mkHttpRequest {
  hr_method : string; hr_url : string; hr_headers : list Header; hr_body : Body }.
(** [hp_json] is [None] when the body is no JSON. *)
Record HttpResponse := mkHttpResponse { hp_status : Z; hp_json : option json }.

(** [StatusCode::is_success]. *)
Definition is_success (response : HttpResponse) : bool :=
  bool_decide (200 <= hp_status response)%Z && bool_decide (hp_status response < 300)%Z.

Definition accept_json : Header := HeaderText "accept" "application/json".
Definition get_request_to (url : string) (headers : list Header) : HttpRequest :=
  mkHttpRequest "GET" url headers NoBody.
Definition post_form (url : string) (headers : list Header) (fields : list (string * string)) : HttpRequest :=
  mkHttpRequest "POST" url headers (FormBody fields).

(** The rest of the world answers the n-th request, or the exchange fails
    (also when [reqwest] refuses to build the request); the [http] crate
    decides which header names and values are valid. *)
Class Network := {
  respond : nat -> HttpRequest -> option HttpResponse;
  header_name_valid : string -> bool;
  header_value_valid : string -> bool }.

(** ** [std::str::from_utf8]

    A byte sequence of one character: its length and the bounds of its second
    byte, by its first byte. *)
Definition utf8_lead (n : nat) : option (nat * nat * nat) :=
  if n <=? 127 then Some (1, 0, 0)
  else if (194 <=? n) && (n <=? 223) then Some (2, 128, 191)
  else if n =? 224 then Some (3, 160, 191)
  else if ((225 <=? n) && (n <=? 236)) || (n =? 238) || (n =? 239) then Some (3, 128, 191)
  else if n =? 237 then Some (3, 128, 159)
  else if n =? 240 then Some (4, 144, 191)
  else if (241 <=? n) && (n <=? 243) then Some (4, 128, 191)
  else if n =? 244 then Some (4, 128, 143)
  else None.

(** [follow] continuation bytes are due; the next one is in [lo, hi]. *)
Fixpoint utf8_valid (follow lo hi : nat) (l : bytes) : bool :=
  match l with
  | [] => follow =? 0
  | c :: l' =>
      let n := nat_of_ascii c in
      match follow with
      | S k => (lo <=? n) && (n <=? hi) && utf8_valid k 128 191 l'
      | O => match utf8_lead n with
             | Some (len, lo', hi') => utf8_valid (len - 1) lo' hi' l'
             | None => false
             end
      end
  end.
Definition from_utf8 (l : bytes) : option string :=
  if utf8_valid 0 0 0 l then Some (of_bytes l) else None.

(** [String::from_utf8_lossy]: every maximal part of no character becomes
    U+FFFD; [pending] are the bytes of a character that is not complete. *)
Definition replacement_character : bytes := map ascii_of_nat [239; 191; 189].
Fixpoint utf8_lossy (pending : bytes) (follow lo hi : nat) (l : bytes) : bytes :=
  match l with
  | [] => if follow =? 0 then [] else replacement_character
  | c :: l' =>
      let n := nat_of_ascii c in
      if (0 <? follow) && (lo <=? n) && (n <=? hi) then
        if follow =? 1 then pending ++ c :: utf8_lossy [] 0 0 0 l'
        else utf8_lossy (pending ++ [c]) (follow - 1) 128 191 l'
      else
        (if follow =? 0 then [] else replacement_character) ++
        match utf8_lead n with
        | Some (1, _, _) => c :: utf8_lossy [] 0 0 0 l'
        | Some (len, lo', hi') => utf8_lossy [c] (len - 1) lo' hi' l'
        | None => replacement_character ++ utf8_lossy [] 0 0 0 l'
        end
  end.
Definition from_utf8_lossy (l : bytes) : string := of_bytes (utf8_lossy [] 0 0 0 l).

(** ** [Value::pointer] (RFC 6901) *)
Definition unescape (token : bytes) : bytes :=
  replace (to_bytes "~0") (to_bytes "~") (replace (to_bytes "~1") (to_bytes "/") token).
(** An array index: decimal, without a sign or leading zeros. *)
Definition array_index (token : bytes) : option nat :=
  match token with
  | [] => None
  | c :: rest =>
      if forallb is_digit token && (bool_decide (rest = []) || negb (bool_decide (c = "0"%char)))
      then Some (fold_left (fun n c => 10 * n + (nat_of_ascii c - 48)) token 0) else None
  end.
Fixpoint follow_pointer (tokens : list bytes) (value : json) : option json :=
  match tokens with
  | [] => Some value
  | token :: tokens' =>
      match value with
      | JObj m => child ← map_get (of_bytes (unescape token)) m; follow_pointer tokens' child
      | JArr items => i ← array_index (unescape token); child ← items !! i; follow_pointer tokens' child
      | _ => None
      end
  end.
Definition json_pointer (pointer : string) (value : json) : option json :=
  match split_on "/"%char (to_bytes pointer) with
  | [] :: tokens => follow_pointer tokens value
  | _ => None
  end.
