(* ===== verification/Catalog.v ===== *)
(** The provider catalog ([plugins/accounts/crates/elegy-accountd/src/provider.rs]):
    the manifests of providers, their validation, and the operations an agent
    may run; and the path of an operation with its arguments filled in
    ([resolve_path] of [typed.rs]). *)
From Stdlib Require Import Ascii.
From S2P Require Import Prelude Text Substring Json Redaction Threads.

(** ** Data *)
Inductive AuthMethod :=
| OAuthPkce | DeviceAuthorization | ApiToken | HttpBasic | ClientCredentials | ServiceCredential.
#[export] Instance AuthMethod_eq_dec : EqDecision AuthMethod.
Proof. solve_decision. Defined.
Inductive ClientRegistrationMode := Environment | Public | UserProvided.
Record ClientRegistration := mkClientRegistration {
  cg_mode : ClientRegistrationMode; cg_client_id : option string; cg_client_id_env : option string }.
(** [required] is a [BTreeMap]: its entries in the order of their keys. *)
Record IdentitySpec := mkIdentitySpec {
  is_url : string; is_selectors : list string; is_required : list (string * json) }.
Record CredentialField := mkCredentialField {
  cf_id : string; cf_label : string; cf_secret : bool; cf_autocomplete : option string }.
Record OAuthLifecycle := mkOAuthLifecycle {
  ol_refresh_url : string; ol_revocation_url : string; ol_revocation_token_type_hint : option string }.
Record AuthProfile := mkAuthProfile {
  ap_id : string; ap_method : AuthMethod; ap_audience : string; ap_issuer : option string;
  ap_authorization_url : option string; ap_authorization_parameters : list (string * string);
  ap_token_url : option string; ap_device_authorization_url : option string;
  ap_identity : IdentitySpec; ap_client : ClientRegistration; ap_scopes : list string;
  ap_credential_header : option string; ap_creation_url : option string;
  ap_credential_fields : list CredentialField; ap_oauth_lifecycle : option OAuthLifecycle }.
Inductive OperationRisk := Read | Write.
#[export] Instance OperationRisk_eq_dec : EqDecision OperationRisk.
Proof. solve_decision. Defined.
Inductive OperationExecutor :=
| Http (profile method path : string)
| Adapter (adapter version : string).
Record ProviderOperation := mkProviderOperation {
  po_description : string; po_risk : OperationRisk; po_scopes : list string;
  po_input_schema : json; po_result_schema : json; po_executor : OperationExecutor }.
Inductive OperationSpec :=
| LegacyScopes (scopes : list string)
| Executable (operation : ProviderOperation).
(** [operations] is a [BTreeMap] too. *)
Record ProviderSpec := mkProviderSpec {
  ps_schema_version : string; ps_id : string; ps_display_name : string; ps_version : string;
  ps_publisher : string; ps_browser_origins : list string; ps_auth_profiles : list AuthProfile;
  ps_operations : list (string * OperationSpec) }.

Inductive ProviderError :=
| InvalidJson
| UnsupportedSchema
| InvalidId
| Duplicate (id : string)
| InsecureUrl
| InvalidUrl
| IncompleteProfile
| IncompleteOperation
| MutatingReadOperation
| UnsafeOperationPath
| UnknownOperationProfile.

Fixpoint assoc {A} (k : string) (m : list (string * A)) : option A :=
  match m with
  | [] => None
  | (k', v) :: m' => if decide (k = k') then Some v else assoc k m'
  end.
Lemma assoc_elem {A} k (m : list (string * A)) v : assoc k m = Some v -> (k, v) ∈ m.
Proof.
  induction m as [|[k' v'] m IH]; simpl; [done|]. case_decide as E; [intros [= ->]; subst; by left|].
  intros ?. right. by apply IH.
Qed.

Definition operation_scopes (provider : ProviderSpec) (operation : string) : option (list string) :=
  spec ← assoc operation (ps_operations provider);
  match spec with LegacyScopes scopes => Some scopes | Executable spec => Some (po_scopes spec) end.

Definition spec_executable_operation (provider : ProviderSpec) (operation : string)
    : option ProviderOperation :=
  spec ← assoc operation (ps_operations provider);
  match spec with Executable spec => Some spec | LegacyScopes _ => None end.

(** ** Validation *)

(** What the [url] crate tells of an absolute URL. *)
Record Url := mkUrl { ur_scheme : string; ur_host : option string; ur_port : option Z }.
(** The parser of the [url] crate, serde's of a manifest, and the environment. *)
Class Parsers := {
  url_parse : string -> option Url;
  provider_from_str : string -> option ProviderSpec;
  env_var : string -> option string }.

(** An IPv4 address in the dotted form of [Ipv4Addr::from_str]: four decimal
    numbers up to 255 without leading zeros. *)
Definition octet (l : bytes) : option nat :=
  match l with
  | [] => None
  | c :: rest =>
      if forallb is_digit l && (length l <=? 3) && (bool_decide (rest = []) || negb (bool_decide (c = "0"%char)))
      then let n := fold_left (fun n c => 10 * n + (nat_of_ascii c - 48)) l 0 in
           if n <=? 255 then Some n else None
      else None
  end.
Definition parse_ipv4 (host : string) : option (list nat) :=
  octets ← mapM octet (split_on "."%char (to_bytes host));
  if bool_decide (length octets = 4) then Some octets else None.
(** [IpAddr::is_loopback] of a parsed host.  The [url] crate writes an IPv6
    host in brackets, which [IpAddr] does not parse. *)
Definition loopback_address (host : string) : bool :=
  match parse_ipv4 host with Some (127 :: _) => true | _ => false end.

(** [str::ends_with]. *)
Definition ends_with (suffix s : string) : bool :=
  starts_with (rev (to_bytes suffix)) (rev (to_bytes s)).
Definition starts_with_text (prefix s : string) : bool := starts_with (to_bytes prefix) (to_bytes s).

Definition is_ascii_id_byte (c : ascii) : bool := is_lower c || is_digit c || is_dash c.

Definition RESERVED_AUTHORIZATION_PARAMETERS : list string :=
  ["client_id"; "redirect_uri"; "response_type"; "scope"; "state"; "nonce"; "code_challenge";
   "code_challenge_method"].

Section Validate.
Context {P : Parsers}.

Definition is_loopback (url : Url) : bool :=
  match ur_host url with
  | Some host => eq_ignore_ascii_case host "localhost" || loopback_address host
  | None => false
  end.
Definition secure_url (url : Url) : bool :=
  bool_decide (ur_scheme url = "https") || (bool_decide (ur_scheme url = "http") && is_loopback url).

Definition validate_url (value : string) : Result ProviderError unit :=
  url ← some_or (url_parse value) InvalidUrl;
  fail_if (negb (secure_url url)) InsecureUrl.

Definition is_v2_or_v3 (provider : ProviderSpec) : bool :=
  ends_with "/v2" (ps_schema_version provider) || ends_with "/v3" (ps_schema_version provider).

(** The optional URLs of a profile, in the order they are checked. *)
Definition profile_urls (profile : AuthProfile) : list string :=
  omap id [ap_issuer profile; ap_authorization_url profile; ap_token_url profile;
           ap_device_authorization_url profile; ap_creation_url profile;
           ol_refresh_url <$> ap_oauth_lifecycle profile;
           ol_revocation_url <$> ap_oauth_lifecycle profile].

Definition profile_complete (profile : AuthProfile) : bool :=
  match ap_method profile with
  | OAuthPkce => bool_decide (is_Some (ap_authorization_url profile))
                 && bool_decide (is_Some (ap_token_url profile))
  | DeviceAuthorization => bool_decide (is_Some (ap_device_authorization_url profile))
                           && bool_decide (is_Some (ap_token_url profile))
  | ClientCredentials => bool_decide (is_Some (ap_token_url profile))
  | ApiToken | HttpBasic | ServiceCredential => true
  end.

Definition bad_parameter (parameter : string * string) : bool :=
  bool_decide (trim (fst parameter) = "") || bool_decide (snd parameter = "")
  || existsb (eq_ignore_ascii_case (fst parameter)) RESERVED_AUTHORIZATION_PARAMETERS.

Definition validate_profile (provider : ProviderSpec) (profile : AuthProfile) : Result ProviderError unit :=
  _ ← validate_url (ap_audience profile);
  _ ← validate_url (is_url (ap_identity profile));
  _ ← for_each validate_url (profile_urls profile);
  _ ← fail_if (negb (profile_complete profile) || bool_decide (is_selectors (ap_identity profile) = []))
        IncompleteProfile;
  _ ← fail_if (existsb bad_parameter (ap_authorization_parameters profile)) IncompleteProfile;
  fail_if (ends_with "/v3" (ps_schema_version provider) && bool_decide (ap_method profile = OAuthPkce)
           && negb (bool_decide (is_Some (ap_oauth_lifecycle profile)))) IncompleteProfile.

(** A path that leaves the audience: not rooted, of another host, through a
    parent segment, or a URL of its own. *)
Definition unsafe_path (path : string) : bool :=
  negb (starts_with_text "/" path) || starts_with_text "//" path
  || existsb (fun segment => bool_decide (segment = to_bytes "..")) (split_on "/"%char (to_bytes path))
  || bool_decide (is_Some (url_parse path)).

Definition validate_operation (provider : ProviderSpec) (operation : OperationSpec)
    : Result ProviderError unit :=
  match operation with
  | LegacyScopes _ => fail_if (is_v2_or_v3 provider) IncompleteOperation
  | Executable spec =>
      _ ← fail_if (negb (is_v2_or_v3 provider) || bool_decide (trim (po_description spec) = ""))
            IncompleteOperation;
      match po_executor spec with
      | Http profile method path =>
          _ ← fail_if (negb (existsb (fun candidate => bool_decide (ap_id candidate = profile))
                               (ps_auth_profiles provider))) UnknownOperationProfile;
          _ ← fail_if (unsafe_path path) UnsafeOperationPath;
          fail_if (bool_decide (po_risk spec = Read) && negb (eq_ignore_ascii_case method "GET"))
            MutatingReadOperation
      | Adapter _ _ => Ok tt
      end
  end.

Definition validate_provider (provider : ProviderSpec) : Result ProviderError unit :=
  _ ← fail_if (negb (bool_decide (ps_schema_version provider ∈
         ["elegy-account-provider/v1"; "elegy-account-provider/v2"; "elegy-account-provider/v3"])))
        UnsupportedSchema;
  _ ← fail_if (bool_decide (ps_id provider = "") || (64 <? String.length (ps_id provider))
               || negb (forallb is_ascii_id_byte (to_bytes (ps_id provider)))) InvalidId;
  _ ← for_each validate_url (ps_browser_origins provider);
  _ ← for_each (validate_profile provider) (ps_auth_profiles provider);
  for_each (validate_operation provider) (map snd (ps_operations provider)).

(** ** The catalog *)
Record ProviderCatalog := mkProviderCatalog {
  pc_providers : gmap string ProviderSpec; pc_executable_providers : gset string }.

(** One document of the loop, and the loop. *)
Definition add_document (trusted : bool) (catalog : ProviderCatalog) (document : string)
    : Result ProviderError ProviderCatalog :=
  provider ← some_or (provider_from_str document) InvalidJson;
  _ ← validate_provider provider;
  let id := ps_id provider in
  let executable := if trusted then {[ id ]} ∪ pc_executable_providers catalog
                    else pc_executable_providers catalog in
  match pc_providers catalog !! id with
  | Some _ => Err (Duplicate id)
  | None => Ok (mkProviderCatalog (<[id := provider]> (pc_providers catalog)) executable)
  end.
Fixpoint add_documents (trusted : bool) (catalog : ProviderCatalog) (documents : list string)
    : Result ProviderError ProviderCatalog :=
  match documents with
  | [] => Ok catalog
  | document :: documents' =>
      catalog' ← add_document trusted catalog document; add_documents trusted catalog' documents'
  end.
Definition from_documents_with_trust (documents : list string) (trusted : bool)
    : Result ProviderError ProviderCatalog :=
  add_documents trusted (mkProviderCatalog ∅ ∅) documents.
Definition from_json_documents (documents : list string) := from_documents_with_trust documents true.
Definition from_untrusted_json_documents (documents : list string) :=
  from_documents_with_trust documents false.

Definition catalog_get (catalog : ProviderCatalog) (id : string) : option ProviderSpec :=
  pc_providers catalog !! id.
Definition profile (catalog : ProviderCatalog) (provider profile : string) : option AuthProfile :=
  spec ← catalog_get catalog provider;
  List.find (fun candidate => bool_decide (ap_id candidate = profile)) (ps_auth_profiles spec).
Definition executable_operation (catalog : ProviderCatalog) (provider operation : string)
    : option ProviderOperation :=
  if negb (bool_decide (provider ∈ pc_executable_providers catalog)) then None
  else spec ← catalog_get catalog provider; spec_executable_operation spec operation.

(** [AuthProfile::configured_client_id]. *)
Definition configured_client_id (profile : AuthProfile) : option string :=
  match cg_client_id (ap_client profile) with
  | Some client_id => Some client_id
  | None =>
      name ← cg_client_id_env (ap_client profile);
      value ← env_var name;
      if bool_decide (trim value = "") then None else Some value
  end.
End Validate.
