(* ===== verification/CatalogFacts.v ===== *)
(** What a catalog that has been loaded guarantees about its providers. *)
From Stdlib Require Import Ascii.
From S2P Require Import Prelude Text Substring Json Redaction Threads Catalog.

Section Facts.
Context {P : Parsers}.

(** A URL the browser or the broker may go to: over TLS, or to this machine. *)
Definition secure (value : string) : Prop :=
  exists url, url_parse value = Some url /\ secure_url url = true.

Lemma validate_url_Ok value : validate_url value = Ok tt <-> secure value.
Proof.
  unfold validate_url, secure. rewrite result_bind_Ok. setoid_rewrite some_or_Ok.
  setoid_rewrite fail_if_Ok. by setoid_rewrite negb_false_iff.
Qed.

Record profile_valid (provider : ProviderSpec) (p : AuthProfile) : Prop := {
  pv_audience : secure (ap_audience p);
  pv_identity : secure (is_url (ap_identity p));
  pv_urls : forall url, url ∈ profile_urls p -> secure url;
  pv_complete : match ap_method p with
                | OAuthPkce => is_Some (ap_authorization_url p) /\ is_Some (ap_token_url p)
                | DeviceAuthorization => is_Some (ap_device_authorization_url p) /\ is_Some (ap_token_url p)
                | ClientCredentials => is_Some (ap_token_url p)
                | _ => True
                end;
  pv_selectors : is_selectors (ap_identity p) <> [];
  pv_parameters : forall name value, (name, value) ∈ ap_authorization_parameters p ->
    trim name <> "" /\ value <> "" /\
    forall reserved, reserved ∈ RESERVED_AUTHORIZATION_PARAMETERS ->
      to_ascii_lowercase name <> to_ascii_lowercase reserved;
  pv_lifecycle : ends_with "/v3" (ps_schema_version provider) = true -> ap_method p = OAuthPkce ->
    is_Some (ap_oauth_lifecycle p) }.

Lemma profile_complete_iff p :
  profile_complete p = true <->
  match ap_method p with
  | OAuthPkce => is_Some (ap_authorization_url p) /\ is_Some (ap_token_url p)
  | DeviceAuthorization => is_Some (ap_device_authorization_url p) /\ is_Some (ap_token_url p)
  | ClientCredentials => is_Some (ap_token_url p)
  | _ => True
  end.
Proof. unfold profile_complete. destruct (ap_method p); rewrite ?andb_true_iff, ?bool_decide_eq_true; done. Qed.

Lemma bad_parameter_iff name value :
  bad_parameter (name, value) = false <->
  trim name <> "" /\ value <> "" /\
  forall reserved, reserved ∈ RESERVED_AUTHORIZATION_PARAMETERS ->
    to_ascii_lowercase name <> to_ascii_lowercase reserved.
Proof.
  unfold bad_parameter, eq_ignore_ascii_case. rewrite !orb_false_iff, !bool_decide_eq_false, existsb_false_iff.
  setoid_rewrite bool_decide_eq_false. simpl. tauto.
Qed.

Lemma validate_profile_iff provider p : validate_profile provider p = Ok tt <-> profile_valid provider p.
Proof.
  unfold validate_profile. split.
  - intros ([] & H1%validate_url_Ok & H)%result_bind_Ok.
    apply result_bind_Ok in H as ([] & H2%validate_url_Ok & H).
    apply result_bind_Ok in H as ([] & H3 & H). rewrite for_each_Ok in H3.
    apply result_bind_Ok in H as ([] & H4%fail_if_Ok & H).
    apply orb_false_iff in H4 as [H4 H5]. apply negb_false_iff in H4.
    apply result_bind_Ok in H as ([] & H6%fail_if_Ok & H7%fail_if_Ok).
    split; try done.
    + intros url Hu. by apply validate_url_Ok, H3.
    + by apply profile_complete_iff.
    + by apply bool_decide_eq_false in H5.
    + intros name value Hin. rewrite existsb_false_iff in H6.
      apply bad_parameter_iff. by apply (H6 (name, value)).
    + intros Hv Hm. rewrite Hv, Hm in H7. simpl in H7.
      by apply negb_false_iff, bool_decide_eq_true in H7.
  - intros [H1 H2 H3 H4 H5 H6 H7]. apply validate_url_Ok in H1, H2. rewrite H1, H2. simpl.
    apply result_bind_Ok. exists tt. split.
    { apply for_each_Ok. intros url Hu. by apply validate_url_Ok, H3. }
    apply profile_complete_iff in H4. rewrite H4, (bool_decide_false _ H5). simpl.
    apply result_bind_Ok. exists tt. split.
    { apply fail_if_Ok, existsb_false_iff. intros [name value] Hin. by apply bad_parameter_iff, (H6 name). }
    apply fail_if_Ok. destruct (ends_with _ _); [|done]. simpl. case_bool_decide as Hm; [|done]. simpl.
    by rewrite bool_decide_true by auto.
Qed.

Definition operation_valid (provider : ProviderSpec) (operation : OperationSpec) : Prop :=
  match operation with
  | LegacyScopes _ => is_v2_or_v3 provider = false
  | Executable spec =>
      is_v2_or_v3 provider = true /\ trim (po_description spec) <> "" /\
      match po_executor spec with
      | Http profile method path =>
          (exists p, p ∈ ps_auth_profiles provider /\ ap_id p = profile) /\
          starts_with_text "/" path = true /\ starts_with_text "//" path = false /\
          to_bytes ".." ∉ split_on "/"%char (to_bytes path) /\ url_parse path = None /\
          (po_risk spec = Read -> to_ascii_lowercase method = to_ascii_lowercase "GET")
      | Adapter _ _ => True
      end
  end.

Lemma unsafe_path_iff path :
  unsafe_path path = false <->
  starts_with_text "/" path = true /\ starts_with_text "//" path = false /\
  to_bytes ".." ∉ split_on "/"%char (to_bytes path) /\ url_parse path = None.
Proof.
  unfold unsafe_path. rewrite !orb_false_iff, negb_false_iff, bool_decide_eq_false, <- eq_None_not_Some.
  rewrite existsb_false_iff. setoid_rewrite bool_decide_eq_false.
  assert ((forall x, x ∈ split_on "/"%char (to_bytes path) -> x <> to_bytes "..") <->
          to_bytes ".." ∉ split_on "/"%char (to_bytes path)) as ->.
  { split; [intros Hn Hin; by apply (Hn _ Hin)|]. intros Hn x Hx ->. done. }
  tauto.
Qed.

Lemma validate_operation_iff provider operation :
  validate_operation provider operation = Ok tt <-> operation_valid provider operation.
Proof.
  destruct operation as [scopes|spec]; simpl; [by rewrite fail_if_Ok|].
  rewrite result_bind_Ok. split.
  - intros ([] & H1%fail_if_Ok & H). apply orb_false_iff in H1 as [H1%negb_false_iff H2%bool_decide_eq_false].
    split; [done|]. split; [done|]. destruct (po_executor spec) as [profile method path|]; [|done].
    apply result_bind_Ok in H as ([] & H3%fail_if_Ok & H).
    apply result_bind_Ok in H as ([] & H4%fail_if_Ok & H5%fail_if_Ok).
    apply unsafe_path_iff in H4 as (? & ? & ? & ?). apply negb_false_iff, existsb_exists in H3 as (p & Hp & E).
    split_and!; try done.
    + exists p. split; [by apply list_elem_of_In|by apply bool_decide_eq_true in E].
    + intros Hr. rewrite bool_decide_true in H5 by done. simpl in H5.
      by apply negb_false_iff, bool_decide_eq_true in H5.
  - intros (H1 & H2 & H). exists tt. rewrite H1, bool_decide_false by done. split; [done|].
    destruct (po_executor spec) as [profile method path|]; [|done].
    destruct H as ((p & Hp & <-) & H3 & H4 & H5 & H6 & H7).
    apply result_bind_Ok. exists tt. split.
    { apply fail_if_Ok, negb_false_iff, existsb_exists. exists p.
      split; [by apply list_elem_of_In|by apply bool_decide_eq_true]. }
    apply result_bind_Ok. exists tt. split; [by apply fail_if_Ok, unsafe_path_iff|].
    apply fail_if_Ok. case_bool_decide as Hr; [|done]. simpl. apply negb_false_iff, bool_decide_eq_true. auto.
Qed.

(** A manifest the broker accepts. *)
Record provider_valid (provider : ProviderSpec) : Prop := {
  pv_schema : ps_schema_version provider ∈
    ["elegy-account-provider/v1"; "elegy-account-provider/v2"; "elegy-account-provider/v3"];
  pv_id : ps_id provider <> "" /\ String.length (ps_id provider) <= 64 /\
    forall c, c ∈ to_bytes (ps_id provider) -> is_ascii_id_byte c = true;
  pv_origins : forall url, url ∈ ps_browser_origins provider -> secure url;
  pv_profiles : forall p, p ∈ ps_auth_profiles provider -> profile_valid provider p;
  pv_operations : forall name operation, (name, operation) ∈ ps_operations provider ->
    operation_valid provider operation }.

Lemma validate_provider_iff provider : validate_provider provider = Ok tt <-> provider_valid provider.
Proof.
  unfold validate_provider. split.
  - intros ([] & H1%fail_if_Ok & H)%result_bind_Ok. apply negb_false_iff, bool_decide_eq_true in H1.
    apply result_bind_Ok in H as ([] & H2%fail_if_Ok & H).
    apply orb_false_iff in H2 as [H2 H3]. apply orb_false_iff in H2 as [H2%bool_decide_eq_false H2'].
    apply negb_false_iff in H3. rewrite forallb_forall in H3. apply Nat.ltb_ge in H2'.
    apply result_bind_Ok in H as ([] & H4 & H). rewrite for_each_Ok in H4.
    apply result_bind_Ok in H as ([] & H5 & H6). rewrite for_each_Ok in H5. rewrite for_each_Ok in H6.
    split; try done.
    + split_and!; [done|done|]. intros c Hc. by apply H3, list_elem_of_In.
    + intros url Hu. by apply validate_url_Ok, H4.
    + intros p Hp. by apply validate_profile_iff, H5.
    + intros name operation Hin. apply validate_operation_iff, H6.
      apply (list_elem_of_fmap_2 snd _ _ Hin).
  - intros [H1 (H2 & H3 & H4) H5 H6 H7]. rewrite (bool_decide_true _ H1). simpl.
    rewrite (bool_decide_false _ H2), (proj2 (Nat.ltb_ge _ _) H3). simpl.
    assert (forallb is_ascii_id_byte (to_bytes (ps_id provider)) = true) as ->.
    { apply forallb_forall. intros c Hc. by apply H4, list_elem_of_In. }
    simpl. apply result_bind_Ok. exists tt. split.
    { apply for_each_Ok. intros url Hu. by apply validate_url_Ok, H5. }
    apply result_bind_Ok. exists tt. split.
    { apply for_each_Ok. intros p Hp. by apply validate_profile_iff, H6. }
    apply for_each_Ok. intros operation ([name operation'] & -> & Hin)%list_elem_of_fmap.
    by apply validate_operation_iff, (H7 name).
Qed.

(** ** Catalogs *)
Record catalog_valid (trusted : bool) (catalog : ProviderCatalog) : Prop := {
  cv_providers : forall id provider, catalog_get catalog id = Some provider ->
    ps_id provider = id /\ provider_valid provider;
  cv_executable : forall id, id ∈ pc_executable_providers catalog <->
    trusted = true /\ is_Some (catalog_get catalog id) }.

Lemma add_document_valid trusted catalog document catalog' :
  catalog_valid trusted catalog -> add_document trusted catalog document = Ok catalog' ->
  catalog_valid trusted catalog'.
Proof.
  intros [H1 H2]. unfold add_document. intros (provider & _ & H)%result_bind_Ok.
  apply result_bind_Ok in H as ([] & Hv%validate_provider_iff & H). cbv zeta in H.
  destruct (pc_providers catalog !! ps_id provider) eqn:E; [done|]. injection H as <-. split.
  - intros id p. unfold catalog_get. simpl.
    intros [[<- <-]|[Hne Hl]]%lookup_insert_Some; [done|by apply H1].
  - intros id. unfold catalog_get in *. simpl. rewrite lookup_insert_is_Some'.
    destruct trusted.
    + rewrite elem_of_union, elem_of_singleton, H2. naive_solver.
    + rewrite H2. naive_solver.
Qed.

Lemma add_documents_valid trusted documents catalog catalog' :
  catalog_valid trusted catalog -> add_documents trusted catalog documents = Ok catalog' ->
  catalog_valid trusted catalog'.
Proof.
  revert catalog. induction documents as [|document documents IH]; intros catalog Hc; simpl.
  - by intros [= <-].
  - intros (catalog1 & H1 & H2)%result_bind_Ok. eapply IH; [|done]. by eapply add_document_valid.
Qed.

Lemma from_documents_valid documents trusted catalog :
  from_documents_with_trust documents trusted = Ok catalog -> catalog_valid trusted catalog.
Proof.
  apply add_documents_valid. split.
  - intros id p E. unfold catalog_get in E. simpl in E. by rewrite lookup_empty in E.
  - intros id. unfold catalog_get. simpl. rewrite lookup_empty. split; [set_solver|by intros [_ [? ?]]].
Qed.

(** Loading is all or nothing, in closed form: what is added to a catalog. *)
Definition extended (trusted : bool) (providers : list ProviderSpec) (catalog : ProviderCatalog)
    : ProviderCatalog :=
  mkProviderCatalog (list_to_map ((fun p => (ps_id p, p)) <$> providers) ∪ pc_providers catalog)
    (if trusted then list_to_set (ps_id <$> providers) ∪ pc_executable_providers catalog
     else pc_executable_providers catalog).

Lemma add_document_Ok trusted catalog document catalog' :
  add_document trusted catalog document = Ok catalog' <->
  exists provider, provider_from_str document = Some provider /\ provider_valid provider /\
    pc_providers catalog !! ps_id provider = None /\ catalog' = extended trusted [provider] catalog.
Proof.
  unfold add_document. rewrite result_bind_Ok. setoid_rewrite some_or_Ok.
  apply exist_proper. intros provider. apply and_iff_compat_l.
  rewrite result_bind_Ok. assert (extended trusted [provider] catalog =
    mkProviderCatalog (<[ps_id provider := provider]> (pc_providers catalog))
      (if trusted then {[ ps_id provider ]} ∪ pc_executable_providers catalog
       else pc_executable_providers catalog)) as ->.
  { unfold extended. simpl. rewrite <- insert_union_l, (left_id_L ∅ _), (right_id_L ∅ _). done. }
  split.
  - intros ([] & Hv%validate_provider_iff & H). split; [done|].
    cbv zeta in H. destruct (_ !! _); [done|]. by injection H as <-.
  - intros (Hv%validate_provider_iff & Hf & ->). exists tt. split; [done|]. cbv zeta. by rewrite Hf.
Qed.

Lemma add_documents_Ok trusted documents catalog catalog' :
  add_documents trusted catalog documents = Ok catalog' <->
  exists providers, provider_from_str <$> documents = Some <$> providers /\
    Forall provider_valid providers /\ NoDup (ps_id <$> providers) /\
    Forall (fun p => pc_providers catalog !! ps_id p = None) providers /\
    catalog' = extended trusted providers catalog.
Proof.
  revert catalog. induction documents as [|document documents IH]; intros catalog; simpl.
  - assert (extended trusted [] catalog = catalog) as Hnil.
    { unfold extended. simpl. rewrite !(left_id_L ∅ _). by destruct catalog, trusted. }
    split.
    + intros [= <-]. exists []. by repeat (constructor; [done|]); repeat constructor.
    + intros ([|] & [=] & _ & _ & _ & ->). by rewrite Hnil.
  - assert (forall p providers, pc_providers catalog !! ps_id p = None -> ps_id p ∉ ps_id <$> providers ->
      extended trusted (p :: providers) catalog = extended trusted providers (extended trusted [p] catalog))
      as Hcons.
    { intros p providers Hp Hn. unfold extended. simpl. f_equal.
      - rewrite <- !insert_union_l, (left_id_L ∅ _), insert_union_r; [done|].
        apply not_elem_of_list_to_map_1. rewrite <- list_fmap_compose. done.
      - destruct trusted; [|done]. set_solver. }
    rewrite result_bind_Ok. setoid_rewrite add_document_Ok. setoid_rewrite IH. split.
    + intros (catalog1 & (p & Hp & Hv & Hf & ->) & providers & Hd & Hvs & Hnd & Hfs & ->).
      assert (forall q, q ∈ providers -> ps_id q <> ps_id p /\ pc_providers catalog !! ps_id q = None) as Hq.
      { intros q Hq. rewrite Forall_forall in Hfs. specialize (Hfs q Hq). simpl in Hfs.
        rewrite <- insert_union_l, (left_id_L ∅ _) in Hfs.
        apply lookup_insert_None in Hfs as [? ?]. done. }
      exists (p :: providers). split_and!; [by apply (f_equal2 cons)|by constructor| | |].
      * constructor; [|done]. intros (q & E & Hin)%list_elem_of_fmap. by destruct (Hq q Hin) as [[] _].
      * constructor; [done|]. apply Forall_forall. intros q Hin. by apply Hq.
      * symmetry. apply Hcons; [done|]. intros (q & E & Hin)%list_elem_of_fmap. by destruct (Hq q Hin) as [[] _].
    + intros ([|p providers] & [=] & Hvs & Hnd & Hfs & ->). simpl in Hnd.
      apply Forall_cons in Hvs as [Hv Hvs], Hfs as [Hf Hfs]. apply NoDup_cons in Hnd as [Hn Hnd].
      exists (extended trusted [p] catalog). split; [by exists p|]. exists providers.
      split_and!; try done; [|by apply Hcons].
      apply Forall_forall. intros q Hin. rewrite Forall_forall in Hfs. simpl.
      rewrite <- insert_union_l, (left_id_L ∅ _), lookup_insert_ne; [by apply Hfs|].
      intros E. apply Hn. rewrite E. by apply list_elem_of_fmap_2.
Qed.

(** C27. Loading a catalog, in closed form, for documents of either trust: it
    succeeds exactly when every document is a manifest, every manifest is valid
    (a known schema, an identifier of lower-case letters, digits and dashes,
    every URL over TLS or on this machine, complete profiles, no reserved
    parameter, operations whose path cannot leave the audience and whose reads
    are GETs), and no two share an identifier; the catalog then holds exactly
    these providers under their identifiers, and marks them executable exactly
    when the documents were trusted. *)
Theorem loaded_catalogs_are_valid documents trusted catalog :
  from_documents_with_trust documents trusted = Ok catalog <->
  exists providers, provider_from_str <$> documents = Some <$> providers /\
    Forall provider_valid providers /\ NoDup (ps_id <$> providers) /\
    catalog = mkProviderCatalog (list_to_map ((fun p => (ps_id p, p)) <$> providers))
                (if trusted then list_to_set (ps_id <$> providers) else ∅).
Proof.
  unfold from_documents_with_trust. rewrite add_documents_Ok. apply exist_proper. intros providers.
  unfold extended. simpl. rewrite !(right_id_L ∅ _).
  assert (Forall (fun p => (∅ : gmap string ProviderSpec) !! ps_id p = None) providers) as Hf.
  { apply Forall_forall. intros p _. apply lookup_empty. }
  tauto.
Qed.
End Facts.
