(* ===== verification/Paths.v ===== *)
(** The path of a typed operation ([resolve_path],
    [plugins/accounts/crates/elegy-accountd/src/typed.rs]): the arguments an
    agent gives are put into the template of the provider's manifest, and
    cannot lead out of it. *)
From Stdlib Require Import Ascii.
From S2P Require Import Prelude Text Substring Json Redaction Threads Catalog.

Definition is_ascii_alphanumeric (c : ascii) : bool :=
  let n := nat_of_ascii c in
  is_lower c || is_digit c || ((65 <=? n)%nat && (n <=? 90)%nat).
Definition is_safe_byte (c : ascii) : bool :=
  is_ascii_alphanumeric c || bool_decide (c = "_"%char) || bool_decide (c = "-"%char).
Definition is_safe_path_segment (value : string) : bool :=
  negb (bool_decide (value = "")) && (String.length value <=? 128)%nat
  && forallb is_safe_byte (to_bytes value).

Definition json_members (v : json) : option (list (string * json)) :=
  match v with JObj m => Some m | _ => None end.

(** [properties] is an object of the schema or empty; a closed schema admits
    its properties only. *)
Definition schema_admits (schema : json) (arguments : list (string * json)) : bool :=
  let properties := default [] (json_get "properties" schema ≫= json_members) in
  negb (bool_decide (json_get "additionalProperties" schema ≫= json_as_bool = Some false)
        && existsb (fun e => negb (bool_decide (is_Some (map_get (fst e) properties)))) arguments)
  && match json_get "required" schema ≫= json_as_array with
     | Some required => forallb (fun name => bool_decide (is_Some (map_get name arguments)))
                          (omap json_as_str required)
     | None => true
     end.

Definition placeholder (name : string) : bytes := "{"%char :: to_bytes name ++ ["}"%char].

(** One argument of the loop. *)
Definition fill_argument (path : bytes) (argument : string * json) : option bytes :=
  value ← json_as_str (snd argument);
  if is_safe_path_segment value && contains (placeholder (fst argument)) path
  then Some (replace (placeholder (fst argument)) (to_bytes value) path) else None.
Fixpoint fill_arguments (path : bytes) (arguments : list (string * json)) : option bytes :=
  match arguments with
  | [] => Some path
  | argument :: arguments' => path' ← fill_argument path argument; fill_arguments path' arguments'
  end.

(** [resolve_path]: [None] is its only error, [InvalidArguments]. *)
Definition resolve_path (schema : json) (template : string) (arguments : json) : option string :=
  arguments ← json_members arguments;
  if negb (schema_admits schema arguments) then None
  else path ← fill_arguments (to_bytes template) arguments;
       if contains ["{"%char] path || contains ["}"%char] path then None else Some (of_bytes path).

(** ** Words that a replacement cannot make

    A word without safe bytes occurs in the result only where it occurred in
    the template. *)
Definition unsafe_word (w : bytes) : Prop := w <> [] /\ forall c, c ∈ w -> is_safe_byte c = false.

Lemma occurs_after_safe w v r :
  unsafe_word w -> forallb is_safe_byte v = true -> occurs w (v ++ r) -> occurs w r.
Proof.
  intros [Hne Hw] Hv. induction v as [|c v IH]; [done|]. simpl in Hv.
  apply andb_true_iff in Hv as [Hc Hv]. intros (a & b & E). destruct a as [|c' a].
  - destruct w as [|c' w]; [done|]. injection E as <- _. rewrite Hw in Hc; [done|by left].
  - injection E as _ E. apply IH; [done|]. by exists a, b.
Qed.

Section Fill.
Context (pat v : bytes) (Hpat : pat <> []) (Hne : v <> []) (Hv : forallb is_safe_byte v = true).

Lemma replace_starts w l :
  (forall c, c ∈ w -> is_safe_byte c = false) ->
  starts_with w (replace pat v l) = true -> starts_with w l = true.
Proof.
  revert w. induction l as [|c l IH]; intros w Hw; [done|].
  destruct (starts_with pat (c :: l)) eqn:Hs.
  - rewrite replace_hit by done. rewrite !starts_with_iff. intros [b E].
    destruct w as [|c' w]; [by exists (c :: l)|]. destruct v as [|c'' v']; [done|].
    injection E as -> _. simpl in Hv. rewrite Hw in Hv; [done|by left].
  - rewrite replace_cons by done. destruct w as [|c' w]; [by intros _; apply starts_with_iff; exists (c :: l)|].
    rewrite !starts_with_iff. intros [b E]. injection E as -> E.
    assert (starts_with w l = true) as [b' ->]%starts_with_iff; [|by exists b'].
    apply IH; [intros; apply Hw; by right|]. apply starts_with_iff. by exists b.
Qed.

Lemma replace_occurs_unsafe w l : unsafe_word w -> occurs w (replace pat v l) -> occurs w l.
Proof.
  intros Hw. remember (length l) as n eqn:En. revert l En. induction n as [n IH] using lt_wf_ind.
  intros l -> H. destruct l as [|c l]; [done|]. destruct (starts_with pat (c :: l)) eqn:Hs.
  - rewrite replace_hit in H by done. apply occurs_after_safe in H; [|done..].
    apply (IH (length (drop (length pat) (c :: l)))) in H; [|rewrite length_drop; destruct pat; simpl; [done|lia]|done].
    destruct H as (a & b & E). exists (take (length pat) (c :: l) ++ a), b.
    rewrite <- app_assoc, <- E. by rewrite take_drop.
  - rewrite replace_cons in H by done. destruct H as (a & b & E). destruct a as [|c' a].
    + assert (starts_with w (c :: l) = true) as [b' ->]%starts_with_iff; [|by exists [], b'].
      apply replace_starts; [apply Hw|]. rewrite replace_cons by done. apply starts_with_iff. by exists b.
    + injection E as <- E. destruct (IH (length l)) with l as (a' & b' & ->); [simpl; lia|done|by exists a, b|].
      by exists (c :: a'), b'.
Qed.
End Fill.

(** The bytes around a template stay around it. *)
Lemma starts_with_snoc pat c l :
  pat <> [] -> last pat <> Some c -> starts_with pat (l ++ [c]) = starts_with pat l.
Proof.
  intros Hne Hlast. apply eq_true_iff_eq. rewrite !starts_with_iff. split; intros [b E].
  - destruct b as [|c' b _] using rev_ind.
    + rewrite app_nil_r in E. subst pat. by rewrite last_snoc in Hlast.
    + rewrite app_assoc in E. apply app_inj_tail in E as [-> _]. by exists b.
  - rewrite E. exists (b ++ [c]). by rewrite app_assoc.
Qed.

Lemma replace_snoc pat v c l :
  pat <> [] -> last pat <> Some c -> replace pat v (l ++ [c]) = replace pat v l ++ [c].
Proof.
  intros Hne Hlast. remember (length l) as n eqn:En. revert l En. induction n as [n IH] using lt_wf_ind.
  intros l ->. destruct l as [|d l].
  - simpl. rewrite replace_cons; [done|]. destruct (starts_with pat [c]) eqn:E; [|done].
    change [c] with ([] ++ [c]) in E. rewrite starts_with_snoc in E by done.
    apply starts_with_iff in E as [b E]. by destruct pat.
  - pose proof (starts_with_snoc pat c (d :: l) Hne Hlast) as Hs. simpl in *.
    destruct (starts_with pat (d :: l)) eqn:E.
    + pose proof E as [b Eb]%starts_with_iff.
      rewrite (replace_hit pat v Hne d (l ++ [c])) by done.
      rewrite (replace_hit pat v Hne d l) by done.
      rewrite <- app_assoc. f_equal. change (d :: l ++ [c]) with ((d :: l) ++ [c]). rewrite Eb.
      rewrite <- app_assoc, !drop_app_length. apply (IH (length b)); [|done].
      apply (f_equal length) in Eb. rewrite length_app in Eb. simpl in Eb. destruct pat; simpl in *; [done|lia].
    + rewrite !replace_cons by done. simpl. f_equal. apply (IH (length l)); [lia|done].
Qed.

Lemma last_placeholder name : last (placeholder name) = Some "}"%char.
Proof. unfold placeholder. change ("{"%char :: to_bytes name ++ ["}"%char]) with (("{"%char :: to_bytes name) ++ ["}"%char]). apply last_snoc. Qed.

Definition rooted (path : bytes) : bytes := "/"%char :: path ++ ["/"%char].

Lemma rooted_fill path name value :
  rooted (replace (placeholder name) value path) = replace (placeholder name) value (rooted path).
Proof.
  unfold rooted. rewrite replace_cons.
  - f_equal. symmetry. apply replace_snoc; [done|]. by rewrite last_placeholder.
  - destruct (starts_with _ _) eqn:E; [|done]. by apply starts_with_iff in E as [b [=]].
Qed.

Lemma fill_argument_unsafe path argument path' w :
  unsafe_word w -> fill_argument path argument = Some path' ->
  (occurs w (rooted path') -> occurs w (rooted path)) /\
  (starts_with w path' = true -> starts_with w path = true).
Proof.
  intros Hw. unfold fill_argument. intros (value & _ & E)%bind_Some.
  destruct (is_safe_path_segment value && _) eqn:Es; [|done]. injection E as <-.
  apply andb_true_iff in Es as [Es _]. unfold is_safe_path_segment in Es.
  apply andb_true_iff in Es as [[Hv _]%andb_true_iff Hs].
  assert (to_bytes value <> []) as Hne by (destruct value; done).
  split.
  - rewrite rooted_fill. by apply replace_occurs_unsafe.
  - apply replace_starts; [done..|apply Hw].
Qed.

Lemma fill_arguments_unsafe path arguments path' w :
  unsafe_word w -> fill_arguments path arguments = Some path' ->
  (occurs w (rooted path') -> occurs w (rooted path)) /\
  (starts_with w path' = true -> starts_with w path = true).
Proof.
  intros Hw. revert path. induction arguments as [|argument arguments IH]; intros path; simpl.
  - by intros [= ->].
  - intros (path1 & H1 & H2)%bind_Some. destruct (IH _ H2) as [Ho Hs].
    destruct (fill_argument_unsafe _ _ _ _ Hw H1) as [Ho1 Hs1]. auto.
Qed.

(** The segments of a path are what lies between its slashes. *)
Lemma split_on_first sep l :
  exists p ps r, split_on sep l = p :: ps /\ sep ∉ p /\ l ++ [sep] = p ++ sep :: r.
Proof.
  induction l as [|c l (p & ps & r & E & Hp & Er)]; [by exists [], [], []; split_and!; [|apply not_elem_of_nil|]|].
  simpl. case_decide as Ec.
  - subst c. exists [], (split_on sep l), (l ++ [sep]). split_and!; [done|apply not_elem_of_nil|done].
  - rewrite E. exists (c :: p), ps, r. split_and!; [done|by apply not_elem_of_cons|by rewrite Er].
Qed.

(** Up to the first separator there is only one piece. *)
Lemma piece_unique (sep : ascii) p q r r' :
  sep ∉ p -> sep ∉ q -> p ++ sep :: r = q ++ sep :: r' -> p = q.
Proof.
  revert q. induction p as [|c p IH]; intros [|d q] Hp Hq E; simpl in E; try done.
  - injection E as -> _. by destruct Hq; left.
  - injection E as -> _. by destruct Hp; left.
  - injection E as -> E. f_equal. apply (IH q); [set_solver..|done].
Qed.

Lemma split_on_tail sep l seg :
  seg ∈ tail (split_on sep l) <-> sep ∉ seg /\ occurs (sep :: seg ++ [sep]) (l ++ [sep]).
Proof.
  induction l as [|c l IH]; simpl.
  - split; [by intros ?%not_elem_of_nil|]. intros (_ & a & b & E).
    apply (f_equal length) in E. rewrite !length_app in E. simpl in E. rewrite length_app in E. simpl in E. lia.
  - destruct (split_on_first sep l) as (p & ps & r & E & Hp & Er). case_decide as Ec.
    + subst c. rewrite E in *. simpl in *. rewrite elem_of_cons, IH. split.
      * intros [->|(Hs & a & b & Eo)].
        -- split; [done|]. exists [], r. simpl. rewrite <- app_assoc. simpl. by rewrite Er.
        -- split; [done|]. exists (sep :: a), b. simpl. by rewrite Eo.
      * intros (Hs & a & b & Eo). destruct a as [|c a].
        -- left. injection Eo as Eo. rewrite <- app_assoc in Eo. simpl in Eo.
           rewrite Er in Eo. by eapply piece_unique.
        -- right. split; [done|]. injection Eo as _ Eo. by exists a, b.
    + rewrite E in *. simpl in *. rewrite IH. f_equiv. split.
      * intros (a & b & Eo). exists (c :: a), b. simpl. by rewrite Eo.
      * intros (a & b & Eo). destruct a as [|c' a]; [injection Eo as -> _; done|].
        injection Eo as _ Eo. by exists a, b.
Qed.

Lemma split_on_rooted l seg :
  seg ∈ split_on "/"%char l <-> "/"%char ∉ seg /\ occurs ("/"%char :: seg ++ ["/"%char]) (rooted l).
Proof.
  pose proof (split_on_tail "/"%char ("/"%char :: l) seg) as Ht. simpl in Ht. exact Ht.
Qed.

Lemma occurs_singleton c l : occurs [c] l <-> c ∈ l.
Proof.
  split; [intros (a & b & ->); set_solver|]. intros (a & b & ->)%list_elem_of_split. by exists a, b.
Qed.

Lemma fill_arguments_rooted path arguments path' :
  fill_arguments path arguments = Some path' ->
  starts_with (to_bytes "/") path = true -> starts_with (to_bytes "/") path' = true.
Proof.
  revert path. induction arguments as [|[name value] arguments IH]; intros path; simpl.
  - by intros [= ->].
  - intros (path1 & H1 & H2)%bind_Some Hs. apply (IH _ H2). unfold fill_argument in H1.
    apply bind_Some in H1 as (v & _ & H1). destruct (_ && _); [|done]. injection H1 as <-.
    apply starts_with_iff in Hs as [b ->]. simpl. rewrite replace_cons.
    + apply starts_with_iff. by eexists.
    + destruct (starts_with _ _) eqn:E; [|done]. by apply starts_with_iff in E as [b' [=]].
Qed.

Lemma resolve_path_Some schema template arguments path :
  resolve_path schema template arguments = Some path ->
  exists arguments' l, json_members arguments = Some arguments' /\
    fill_arguments (to_bytes template) arguments' = Some l /\
    "{"%char ∉ l /\ "}"%char ∉ l /\ path = of_bytes l.
Proof.
  unfold resolve_path. intros (arguments' & Hm & H)%bind_Some. destruct (negb _); [done|].
  apply bind_Some in H as (l & Hl & H). destruct (contains ["{"%char] l || _) eqn:E; [done|].
  injection H as <-. apply orb_false_iff in E as [E1 E2]. exists arguments', l.
  split_and!; [done|done| | |done]; rewrite <- occurs_singleton, <- contains_iff; congruence.
Qed.

(** ** What a path is made of

    A template is literal text and placeholders; filling it puts the word of the
    argument in the place of each. *)
Inductive Token := Literal (l : bytes) | Hole (name : string).
Definition token_text (t : Token) : bytes := match t with Literal l => l | Hole name => placeholder name end.
Definition text_of (tokens : list Token) : bytes := concat (map token_text tokens).
Definition braceless (l : bytes) : Prop := "{"%char ∉ l /\ "}"%char ∉ l.
Definition plain_token (t : Token) : Prop :=
  match t with Literal l => braceless l | Hole name => braceless (to_bytes name) end.
(** The word an argument has for a placeholder. *)
Definition word_for (arguments : list (string * json)) (name : string) : option bytes :=
  to_bytes <$> (map_get name arguments ≫= json_as_str).
Definition fill_token (arguments : list (string * json)) (t : Token) : Token :=
  match t with
  | Literal l => Literal l
  | Hole name => from_option Literal (Hole name) (word_for arguments name)
  end.
(** The path a template spells with words for all its placeholders. *)
Definition spelled (arguments : list (string * json)) (tokens : list Token) : option bytes :=
  concat (A:=ascii) <$> mapM (fun t => match t with Literal l => Some l | Hole name => word_for arguments name end) tokens.

Lemma replace_over name v l r :
  "{"%char ∉ l -> replace (placeholder name) v (l ++ r) = l ++ replace (placeholder name) v r.
Proof.
  induction l as [|c l IH]; [done|]. intros [Hc Hl]%not_elem_of_cons. cbn [app]. rewrite replace_cons.
  - by rewrite IH.
  - destruct (starts_with _ _) eqn:E; [|done]. apply starts_with_iff in E as [b E]. by injection E as -> _.
Qed.
Lemma placeholder_starts name other r :
  braceless (to_bytes name) -> braceless (to_bytes other) ->
  starts_with (placeholder name) (placeholder other ++ r) = true -> name = other.
Proof.
  intros [_ Hn] [_ Ho] (b & E)%starts_with_iff. unfold placeholder in E. cbn in E. injection E as E.
  rewrite <- !app_assoc in E. cbn in E. symmetry in E. apply piece_unique in E; [|done..].
  by rewrite <- (of_to_bytes name), E, of_to_bytes.
Qed.
Lemma replace_token name v t r :
  braceless (to_bytes name) -> plain_token t ->
  replace (placeholder name) v (token_text t ++ r) =
    match t with Literal l => l | Hole n => if decide (n = name) then v else placeholder n end
      ++ replace (placeholder name) v r.
Proof.
  intros Hn Ht. destruct t as [l|n]; [by apply replace_over, Ht|]. cbn [token_text]. case_decide as E.
  - subst n. unfold placeholder at 2. cbn [app]. rewrite replace_hit; [|done|].
    + f_equal. change ("{"%char :: (to_bytes name ++ ["}"%char]) ++ r) with (placeholder name ++ r). by rewrite drop_app_length.
    + apply starts_with_iff. exists r. done.
  - destruct (starts_with (placeholder name) (placeholder n ++ r)) eqn:Es; [by apply placeholder_starts in Es|].
    unfold placeholder at 2 3. cbn [app]. rewrite replace_cons by exact Es. f_equal. rewrite <- !app_assoc.
    destruct Ht as [Ho Hc]. rewrite replace_over by done. by f_equal.
Qed.
Lemma replace_tokens name v tokens :
  braceless (to_bytes name) -> Forall plain_token tokens ->
  replace (placeholder name) (to_bytes v) (text_of tokens) = text_of (map (fill_token [(name, JStr v)]) tokens).
Proof.
  intros Hn. induction 1 as [|t tokens Ht _ IH]; [done|]. unfold text_of in *. cbn [map concat].
  rewrite replace_token by done. rewrite IH. f_equal. destruct t as [l|n]; [done|].
  unfold fill_token, word_for. cbn. by destruct (decide (n = name)).
Qed.
Lemma safe_braceless v : forallb is_safe_byte v = true -> braceless v.
Proof. rewrite forallb_forall. intros Hv. split; intros Hc%list_elem_of_In%Hv; done. Qed.

Lemma fill_argument_Some path name v path' :
  fill_argument path (name, v) = Some path' ->
  exists s, v = JStr s /\ is_safe_path_segment s = true /\ path' = replace (placeholder name) (to_bytes s) path.
Proof.
  unfold fill_argument. intros (s & Hs & E)%bind_Some. destruct v as [| | | |s'| |]; try done. injection Hs as <-.
  destruct (is_safe_path_segment s' && _) eqn:Es; [|done]. injection E as <-.
  apply andb_true_iff in Es as [Es _]. by exists s'.
Qed.
Lemma fill_token_plain name s t :
  is_safe_path_segment s = true -> plain_token t -> plain_token (fill_token [(name, JStr s)] t).
Proof.
  intros [[_ _]%andb_true_iff Hs]%andb_true_iff Ht. destruct t as [l|n]; [done|].
  unfold fill_token, word_for. cbn. destruct (decide (n = name)); [by apply safe_braceless|done].
Qed.
Lemma fill_token_cons name s arguments t :
  fill_token arguments (fill_token [(name, JStr s)] t) = fill_token ((name, JStr s) :: arguments) t.
Proof. destruct t as [l|n]; [done|]. unfold fill_token, word_for. cbn. by destruct (decide (n = name)). Qed.
Lemma fill_arguments_tokens arguments tokens path :
  Forall plain_token tokens -> Forall (fun a => braceless (to_bytes (fst a))) arguments ->
  fill_arguments (text_of tokens) arguments = Some path ->
  path = text_of (map (fill_token arguments) tokens)
  /\ forall name v, (name, v) ∈ arguments -> exists s, v = JStr s /\ is_safe_path_segment s = true.
Proof.
  intros Ht Ha. revert tokens Ht. induction Ha as [|[name v] arguments Hn _ IH]; intros tokens Ht; cbn [fill_arguments].
  { intros [= <-]. split; [|by intros ? ? ?%not_elem_of_nil]. f_equal. rewrite <- (map_id tokens) at 1.
    apply map_ext. by intros [|]. }
  intros (path1 & (s & -> & Hs & ->)%fill_argument_Some & H2)%bind_Some. cbn in Hn. rewrite replace_tokens in H2 by done.
  apply IH in H2 as [-> Hall].
  - split; [|intros n v [[= -> ->]|Hin]%elem_of_cons; [by exists s|by apply (Hall n)]].
    f_equal. rewrite map_map. apply map_ext. intros t. apply fill_token_cons.
  - apply Forall_map. eapply Forall_impl; [exact Ht|]. intros t. by apply fill_token_plain.
Qed.
Lemma spelled_tokens arguments tokens :
  "{"%char ∉ text_of (map (fill_token arguments) tokens) ->
  spelled arguments tokens = Some (text_of (map (fill_token arguments) tokens)).
Proof.
  unfold spelled, text_of. induction tokens as [|t tokens IH]; [done|]. cbn [map concat mapM].
  intros [Ht H]%not_elem_of_app. apply IH, fmap_Some in H as (l & Hl & ->). destruct t as [l'|n]; cbn.
  - by rewrite Hl.
  - destruct (word_for arguments n) as [w|] eqn:E; cbn; [by rewrite Hl|].
    destruct Ht. cbn. rewrite E. by left.
Qed.

(** C29. The path of an operation is its template with the arguments' words in
    their places, and stays where the manifest puts it.  If the template is
    rooted, not of another host and without a parent segment, and the arguments
    are accepted, then so is the path; all placeholders are filled; and every
    byte other than a letter, a digit, [_] and [-] is the template's, so that no
    argument, whatever its name and value, adds a slash, a dot, a query or an
    escape.  And when the template is literal text and placeholders, and no
    argument has a brace in its name, the path is the text with each placeholder
    replaced by the word its argument has, which is safe. *)
Theorem resolved_paths_stay_put schema template arguments path :
  starts_with_text "/" template = true -> starts_with_text "//" template = false ->
  to_bytes ".." ∉ split_on "/"%char (to_bytes template) ->
  resolve_path schema template arguments = Some path ->
  (starts_with_text "/" path = true /\ starts_with_text "//" path = false /\
   to_bytes ".." ∉ split_on "/"%char (to_bytes path) /\
   "{"%char ∉ to_bytes path /\ "}"%char ∉ to_bytes path /\
   forall c, c ∈ to_bytes path -> is_safe_byte c = true \/ c ∈ to_bytes template) /\
  forall tokens members, to_bytes template = text_of tokens -> Forall plain_token tokens ->
    json_members arguments = Some members -> Forall (fun a => braceless (to_bytes (fst a))) members ->
    spelled members tokens = Some (to_bytes path) /\
    forall name v, (name, v) ∈ members -> exists s, v = JStr s /\ is_safe_path_segment s = true.
Proof.
  intros Hroot Hhost Hparent (arguments' & l & Hm & Hf & Ho & Hc & ->)%resolve_path_Some.
  unfold starts_with_text in *. rewrite to_of_bytes. split.
  2:{ intros tokens members Et Ht Em Hn. assert (members = arguments') as -> by congruence. rewrite Et in Hf.
      destruct (fill_arguments_tokens _ _ _ Ht Hn Hf) as [-> Hall]. split; [by apply spelled_tokens|done]. }
  assert (forall w, (w <> [] /\ forallb (fun c => negb (is_safe_byte c)) w = true) ->
    (occurs w (rooted l) -> occurs w (rooted (to_bytes template))) /\
    (starts_with w l = true -> starts_with w (to_bytes template) = true)) as Hw.
  { intros w [Hne Hw]. apply (fill_arguments_unsafe _ arguments'); [|done]. split; [done|].
    intros c Hin. rewrite forallb_forall in Hw. apply negb_true_iff, Hw. by apply list_elem_of_In. }
  split_and!; try done.
  - by eapply fill_arguments_rooted.
  - apply not_true_iff_false. intros E. apply (Hw (to_bytes "//")) in E; [congruence|done].
  - rewrite split_on_rooted in *. intros [Hs Hp]. apply Hparent. split; [done|]. by apply Hw.
  - intros c Hin. destruct (is_safe_byte c) eqn:E; [by left|right].
    apply starts_with_iff in Hroot as [b Eb]. rewrite Eb in *.
    assert (occurs [c] (rooted l)) as Hoc by (apply occurs_singleton; unfold rooted; set_solver).
    apply Hw in Hoc; [|simpl; by rewrite E]. apply occurs_singleton in Hoc. unfold rooted in Hoc.
    simpl in *. set_solver.
Qed.

(** The zone of a DNS query, from the manifest of Cloudflare. *)
Lemma resolved_paths_stay_put_witness :
  let schema := JObj [("additionalProperties", JBool false);
    ("properties", JObj [("zone_id", JObj [])]); ("required", JArr [JStr "zone_id"])] in
  let template := "/client/v4/zones/{zone_id}/dns_records" in
  resolve_path schema template (JObj [("zone_id", JStr "..")]) = None /\
  resolve_path schema template (JObj [("zone_id", JStr "a/../b")]) = None /\
  resolve_path schema template (JObj [("zone_id", JStr "z-1")]) = Some "/client/v4/zones/z-1/dns_records" /\
  to_bytes ".." ∉ split_on "/"%char (to_bytes "/client/v4/zones/z-1/dns_records") /\
  spelled [("zone_id", JStr "z-1")]
    [Literal (to_bytes "/client/v4/zones/"); Hole "zone_id"; Literal (to_bytes "/dns_records")]
    = Some (to_bytes "/client/v4/zones/z-1/dns_records").
Proof.
  intros schema template. split; [reflexivity|]. split; [reflexivity|]. split; [reflexivity|].
  destruct (resolved_paths_stay_put schema template (JObj [("zone_id", JStr "z-1")]) "/client/v4/zones/z-1/dns_records")
    as [(_ & _ & Hp & _) Hs]; [reflexivity|reflexivity|apply (bool_decide_unpack _); vm_compute; exact I|reflexivity|].
  split; [exact Hp|]. apply Hs; [reflexivity| |reflexivity|]; repeat constructor; apply (bool_decide_unpack _); vm_compute; exact I.
Defined.
