(* ===== verification/Vault.v ===== *)
(** The account vault ([plugins/accounts/crates/elegy-accountd/src/vault.rs]):
    its tables, the statements on them, accounts, encrypted credentials and
    authorization sessions.

    A [Daemon] is what the sections of the broker's tasks share: the tables of
    the SQLite file, the number of clock readings, UUIDs and random fills taken
    so far, the HTTP requests sent, and what the process keeps in memory: the
    replay guard of its pipe and the OAuth flows in progress.  A statement or transaction is one section; a constraint it
    violates makes it fail and change nothing.  The mutex around the
    connection is not modelled, and neither is a poisoned mutex: no code holding
    it panics.  Leaving the mutex out only adds interleavings: every execution
    of the program, which locks, is one of the model, so what is proved of every
    interleaving holds of it; of blocking and deadlock nothing is claimed. *)
From S2P Require Import Prelude Text Json Table Threads Network Catalog.

(** What the crate calls and does not define: the clock and its text
    ([chrono]), UUIDs, random bytes, SHA-256, serde's text of JSON values and
    parsing of a list of strings, AES-256-GCM (key, nonce, associated data,
    text) and the key protection of the operating system. *)
Class Host := {
  now_at : nat -> Z;                             (* ns since the epoch, n-th [Utc::now] *)
  uuid_simple : nat -> string;
  random_fill : nat -> nat -> bytes;             (* n-th fill of a buffer of a length *)
  to_rfc3339 : Z -> string;
  parse_from_rfc3339 : string -> option Z;
  sha256_hex : string -> string;
  value_to_string : json -> string;
  value_from_str : string -> option json;
  strings_from_str : string -> option (list string);
  aead_encrypt : bytes -> bytes -> bytes -> bytes -> option bytes;
  aead_decrypt : bytes -> bytes -> bytes -> bytes -> option bytes;
  protect : bytes -> Result string bytes;
  unprotect : bytes -> Result string bytes;
}.

Definition minutes (n : Z) : Z := (n * 60 * 1000000000)%Z.

Inductive VaultError :=
| VaultDatabase
| Protection (message : string)
| VaultNotFound
| Authentication
| Busy
| Conflict.

(** ** Rows *)
Record AccountMetadata := mkAccountMetadata {
  ac_id : string; ac_provider : string; ac_verified_identity : string; ac_auth_method : string;
  ac_created_at : string; ac_status : string }.
#[export] Instance eta_AccountMetadata : Eta AccountMetadata := fun r =>
  mkAccountMetadata (ac_id r) (ac_provider r) (ac_verified_identity r) (ac_auth_method r)
    (ac_created_at r) (ac_status r).

(** [credentials] and [authorization_secrets]; the algorithm column is constant. *)
Record CredentialRow := mkCredentialRow {
  cr_account_id : string; cr_nonce : bytes; cr_ciphertext : bytes; cr_protected_key : bytes;
  cr_generation : Z }.
Record SessionSecretRow := mkSessionSecretRow {
  ss_session_id : string; ss_nonce : bytes; ss_ciphertext : bytes; ss_protected_key : bytes }.

Record AuthorizationSession := mkAuthorizationSession {
  as_id : string; as_provider : string; as_status : string; as_user_code : string;
  as_verification_uri : string; as_expires_at : string; as_interval_seconds : Z;
  as_next_poll_at : string; as_attempts : Z; as_last_error : option string;
  as_created_at : string; as_updated_at : string }.
#[export] Instance eta_AuthorizationSession : Eta AuthorizationSession := fun r =>
  mkAuthorizationSession (as_id r) (as_provider r) (as_status r) (as_user_code r)
    (as_verification_uri r) (as_expires_at r) (as_interval_seconds r) (as_next_poll_at r)
    (as_attempts r) (as_last_error r) (as_created_at r) (as_updated_at r).

Record RequestRow := mkRequestRow {
  rq_id : string; rq_kind : string; rq_status : string; rq_account_id : option string;
  rq_provider : option string; rq_client_id : option string; rq_purpose : string;
  rq_operations_json : string; rq_duration_minutes : Z; rq_idempotency_key : option string;
  rq_created_at : string; rq_updated_at : string }.
#[export] Instance eta_RequestRow : Eta RequestRow := fun r =>
  mkRequestRow (rq_id r) (rq_kind r) (rq_status r) (rq_account_id r) (rq_provider r)
    (rq_client_id r) (rq_purpose r) (rq_operations_json r) (rq_duration_minutes r)
    (rq_idempotency_key r) (rq_created_at r) (rq_updated_at r).

Record GrantRow := mkGrantRow {
  gr_id : string; gr_request_id : string; gr_account_id : string; gr_provider : string;
  gr_client_id : string; gr_purpose : string; gr_operations_json : string;
  gr_expires_at : string; gr_generation : Z; gr_revoked_at : option string }.
#[export] Instance eta_GrantRow : Eta GrantRow := fun r =>
  mkGrantRow (gr_id r) (gr_request_id r) (gr_account_id r) (gr_provider r) (gr_client_id r)
    (gr_purpose r) (gr_operations_json r) (gr_expires_at r) (gr_generation r) (gr_revoked_at r).

Record LeaseRow := mkLeaseRow {
  ls_token_hash : string; ls_grant_id : string; ls_generation : Z; ls_expires_at : string;
  ls_remaining_uses : Z }.
#[export] Instance eta_LeaseRow : Eta LeaseRow := fun r =>
  mkLeaseRow (ls_token_hash r) (ls_grant_id r) (ls_generation r) (ls_expires_at r)
    (ls_remaining_uses r).

Record AuditRow := mkAuditRow {
  au_time : string; au_event : string; au_account_id : option string; au_detail_json : string }.

Record Tables := mkTables {
  vt_accounts : list AccountMetadata;
  vt_credentials : list CredentialRow;
  vt_requests : list RequestRow;
  vt_grants : list GrantRow;
  vt_leases : list LeaseRow;
  vt_audit : list AuditRow;
  vt_sessions : list AuthorizationSession;
  vt_session_secrets : list SessionSecretRow }.
#[export] Instance eta_Tables : Eta Tables := fun r =>
  mkTables (vt_accounts r) (vt_credentials r) (vt_requests r) (vt_grants r) (vt_leases r)
    (vt_audit r) (vt_sessions r) (vt_session_secrets r).

(** An OAuth flow in progress ([OAuthTransaction] of [provider.rs];
    [OAuthConfig] and [PendingOAuth] of [elegy-account-cli/src/main.rs]). *)
Record OAuthTransaction := mkOAuthTransaction {
  ot_provider_id : string; ot_state : string; ot_nonce : string; ot_pkce_verifier : string;
  ot_pkce_challenge : string }.
Record OAuthConfig := mkOAuthConfig {
  og_provider : string; og_client_id : string; og_authorize_url : string; og_token_url : string;
  og_identity : IdentitySpec; og_scopes : string }.
Record PendingOAuth := mkPendingOAuth { pd_transaction : OAuthTransaction; pd_config : OAuthConfig }.

Record Daemon := mkDaemon {
  dm_tables : Tables; dm_readings : nat; dm_uuids : nat; dm_fills : nat;
  dm_sent : list HttpRequest; dm_replay : gmap string Z; dm_oauth : gmap string PendingOAuth }.
#[export] Instance eta_Daemon : Eta Daemon := fun r =>
  mkDaemon (dm_tables r) (dm_readings r) (dm_uuids r) (dm_fills r) (dm_sent r) (dm_replay r)
    (dm_oauth r).

(** ** Statements

    What a statement or transaction computes, or [None] when it violates a
    constraint. *)
Definition Sql (X : Type) : Type := Tables -> option (X * Tables).
#[export] Instance Sql_ret : MRet Sql := fun X x t => Some (x, t).
#[export] Instance Sql_bind : MBind Sql := fun X Y k q t =>
  match q t with Some (x, t') => k x t' | None => None end.

Definition sql_select {X} (f : Tables -> X) : Sql X := fun t => Some (f t, t).
Definition sql_update (f : Tables -> Tables) : Sql unit := fun t => Some (tt, f t).
Definition sql_check (p : Tables -> bool) : Sql unit := fun t => if p t then Some (tt, t) else None.
(** [INSERT] into a table with a primary key. *)
Definition sql_insert {A} (table : Tables -> list A) (set : list A -> Tables -> Tables)
    (key : A -> string) (row : A) : Sql unit := fun t =>
  match insert_row key row (table t) with Some rows => Some (tt, set rows t) | None => None end.

(** [accounts], and [credentials] with the reference to its account. *)
Definition insert_account (row : AccountMetadata) : Sql unit :=
  sql_insert vt_accounts (fun rows t => t <| vt_accounts := rows |>) ac_id row.
Definition insert_credential (row : CredentialRow) : Sql unit :=
  _ ← sql_check (fun t => bool_decide (is_Some (find_by ac_id (cr_account_id row) (vt_accounts t))));
  sql_insert vt_credentials (fun rows t => t <| vt_credentials := rows |>) cr_account_id row.
(** [DELETE FROM accounts WHERE id=?1], with [ON DELETE CASCADE] for its
    credential; the result is the number of rows deleted. *)
Definition delete_account_row (account_id : string) : Sql nat := fun t =>
  Some (length (select_where (fun a => bool_decide (ac_id a = account_id)) (vt_accounts t)),
    t <| vt_accounts ::= delete_where (fun a => bool_decide (ac_id a = account_id)) |>
      <| vt_credentials ::= delete_where (fun c => bool_decide (cr_account_id c = account_id)) |>).

Section Vault.
Context {H : Host}.

(** ** Sections *)
Section Sections.
Context {E : Type}.

Definition utc_now : Task Daemon E Z :=
  Atomic (fun s => (now_at (dm_readings s), s <| dm_readings ::= S |>)) (fun n => Return (Ok n)).
Definition new_uuid : Task Daemon E string :=
  Atomic (fun s => (uuid_simple (dm_uuids s), s <| dm_uuids ::= S |>)) (fun u => Return (Ok u)).
Definition fill (len : nat) : Task Daemon E bytes :=
  Atomic (fun s => (random_fill (dm_fills s) len, s <| dm_fills ::= S |>)) (fun b => Return (Ok b)).
(** A statement or transaction; [e] is the error of a violated constraint. *)
Definition execute {X} (e : E) (q : Sql X) : Task Daemon E X :=
  Atomic (fun s => match q (dm_tables s) with
                   | Some (x, t) => (Ok x, s <| dm_tables := t |>)
                   | None => (Err e, s)
                   end) Return.
(** A statement that stores a new UUID.  The code draws the UUID a little
    earlier; a draw does not depend on the shared state, so it is made here,
    where the UUID is first used. *)
Definition execute_fresh {X} (e : E) (q : string -> Sql X) : Task Daemon E (string * X) :=
  Atomic (fun s =>
    let uuid := uuid_simple (dm_uuids s) in
    let s := s <| dm_uuids ::= S |> in
    match q uuid (dm_tables s) with
    | Some (x, t) => (Ok (uuid, x), s <| dm_tables := t |>)
    | None => (Err e, s)
    end) Return.
(** A transaction that reads the clock [k] times while it runs. *)
Definition execute_timed {X} (e : E) (k : nat) (q : (nat -> string) -> Sql X) : Task Daemon E X :=
  Atomic (fun s =>
    let s := s <| dm_readings ::= Nat.add k |> in
    match q (fun i => to_rfc3339 (now_at (dm_readings s - k + i))) (dm_tables s) with
    | Some (x, t) => (Ok x, s <| dm_tables := t |>)
    | None => (Err e, s)
    end) Return.
Definition query {X} (f : Tables -> X) : Task Daemon E X :=
  Atomic (fun s => (f (dm_tables s), s)) (fun x => Return (Ok x)).

(** [Utc::now().to_rfc3339()]. *)
Definition now_text : Task Daemon E string := now ← utc_now; mret (to_rfc3339 now).
End Sections.

Definition lift_result {A} (f : string -> VaultError) (r : Result string A) : Task Daemon VaultError A :=
  match r with Ok a => mret a | Err m => throw (f m) end.

(** ** Credentials *)
Definition associated_data (account_id provider : string) : string :=
  "elegy-accounts:v1:" +:+ provider +:+ ":" +:+ account_id.
Definition authorization_associated_data (session_id provider : string) : string :=
  "elegy-accounts:authorization:v1:" +:+ provider +:+ ":" +:+ session_id.

(** A fresh key and nonce, the text encrypted under them and the key protected. *)
Definition seal (aad : string) (secret : bytes) : Task Daemon VaultError (bytes * bytes * bytes) :=
  key ← fill 32;
  nonce_bytes ← fill 12;
  _ ← guard_or (bool_decide (length key = 32)) Authentication;
  ciphertext ← ok_or (aead_encrypt key nonce_bytes (to_bytes aad) secret) Authentication;
  protected_key ← lift_result Protection (protect key);
  mret (nonce_bytes, ciphertext, protected_key).

Definition unseal (aad : string) (nonce ciphertext protected_key : bytes)
    : Task Daemon VaultError bytes :=
  _ ← guard_or (bool_decide (length nonce = 12)) Authentication;
  key ← lift_result Protection (unprotect protected_key);
  _ ← guard_or (bool_decide (length key = 32)) Authentication;
  ok_or (aead_decrypt key nonce (to_bytes aad) ciphertext) Authentication.

Definition store_account (provider verified_identity auth_method : string) (secret : bytes)
    : Task Daemon VaultError AccountMetadata :=
  uuid ← new_uuid;
  created_at ← now_text;
  let account := mkAccountMetadata ("acct_" +:+ uuid) provider verified_identity auth_method
        created_at "connected" in
  sealed ← seal (associated_data (ac_id account) (ac_provider account)) secret;
  let '(nonce_bytes, ciphertext, protected_key) := sealed in
  _ ← execute VaultDatabase
        (_ ← insert_account account;
         insert_credential (mkCredentialRow (ac_id account) nonce_bytes ciphertext protected_key 0));
  mret account.

(** [ORDER BY created_at, id]. *)
Definition list_accounts : Task Daemon VaultError (list AccountMetadata) :=
  query (fun t => order_by (then_by (asc_str ac_created_at) (asc_str ac_id)) (vt_accounts t)).

(** The account's provider joined with its credential. *)
Definition credential_of (account_id : string) (t : Tables) : option (string * CredentialRow) :=
  account ← find_by ac_id account_id (vt_accounts t);
  credential ← find_by cr_account_id account_id (vt_credentials t);
  Some (ac_provider account, credential).

Definition load_secret_versioned (account_id : string) : Task Daemon VaultError (bytes * Z) :=
  record ← query (credential_of account_id);
  record ← ok_or record VaultNotFound;
  plaintext ← unseal (associated_data account_id (fst record)) (cr_nonce (snd record))
                (cr_ciphertext (snd record)) (cr_protected_key (snd record));
  mret (plaintext, cr_generation (snd record)).

Definition load_secret (account_id : string) : Task Daemon VaultError bytes :=
  record ← query (credential_of account_id);
  record ← ok_or record VaultNotFound;
  unseal (associated_data account_id (fst record)) (cr_nonce (snd record))
    (cr_ciphertext (snd record)) (cr_protected_key (snd record)).

(** The credential the [UPDATE] is for: of the account, and of the expected
    generation if there is one. *)
Definition replaced_credential (account_id : string) (expected_generation : option Z)
    (c : CredentialRow) : bool :=
  bool_decide (cr_account_id c = account_id) &&
  match expected_generation with
  | Some generation => bool_decide (cr_generation c = generation)
  | None => true
  end.

(** The [UPDATE] of a credential, with the number of rows it changed. *)
Definition update_credential (account_id : string) (expected_generation : option Z)
    (nonce_bytes ciphertext protected_key : bytes) : Sql nat := fun t =>
  let updated := replaced_credential account_id expected_generation in
  Some (length (select_where updated (vt_credentials t)),
    t <| vt_credentials ::= update_where updated (fun c =>
           mkCredentialRow (cr_account_id c) nonce_bytes ciphertext protected_key
             (cr_generation c + 1)) |>).

Definition replace_secret_inner (account_id : string) (secret : bytes)
    (expected_generation : option Z) : Task Daemon VaultError unit :=
  account ← query (fun t => find_by ac_id account_id (vt_accounts t));
  account ← ok_or account VaultNotFound;
  sealed ← seal (associated_data account_id (ac_provider account)) secret;
  let '(nonce_bytes, ciphertext, protected_key) := sealed in
  changed ← execute VaultDatabase
              (update_credential account_id expected_generation nonce_bytes ciphertext protected_key);
  guard_or (negb (bool_decide (changed = 0)))
    (match expected_generation with Some _ => Conflict | None => VaultNotFound end).

Definition replace_secret (account_id : string) (secret : bytes) : Task Daemon VaultError unit :=
  replace_secret_inner account_id secret None.
Definition replace_secret_if_generation (account_id : string) (expected_generation : Z)
    (secret : bytes) : Task Daemon VaultError unit :=
  replace_secret_inner account_id secret (Some expected_generation).

Definition update_account_status (account_id status : string) : Sql nat := fun t =>
  let updated := fun a => bool_decide (ac_id a = account_id) in
  Some (length (select_where updated (vt_accounts t)),
    t <| vt_accounts ::= update_where updated (fun a => a <| ac_status := status |>) |>).

Definition set_account_status (account_id status : string) : Task Daemon VaultError unit :=
  changed ← execute VaultDatabase (update_account_status account_id status);
  guard_or (negb (bool_decide (changed = 0))) VaultNotFound.

Definition delete_account (account_id : string) : Task Daemon VaultError bool :=
  changed ← execute VaultDatabase (delete_account_row account_id);
  mret (0 <? changed)%nat.

(** ** Authorization sessions *)
Definition store_authorization_session (session : AuthorizationSession) (secret : bytes)
    : Task Daemon VaultError unit :=
  sealed ← seal (authorization_associated_data (as_id session) (as_provider session)) secret;
  let '(nonce_bytes, ciphertext, protected_key) := sealed in
  execute VaultDatabase
    (_ ← sql_insert vt_sessions (fun rows t => t <| vt_sessions := rows |>) as_id session;
     sql_insert vt_session_secrets (fun rows t => t <| vt_session_secrets := rows |>) ss_session_id
       (mkSessionSecretRow (as_id session) nonce_bytes ciphertext protected_key)).

Definition list_authorization_sessions : Task Daemon VaultError (list AuthorizationSession) :=
  query (fun t => order_by (then_by (asc_str as_created_at) (asc_str as_id)) (vt_sessions t)).

Definition session_secret_of (session_id : string) (t : Tables)
    : option (string * SessionSecretRow) :=
  session ← find_by as_id session_id (vt_sessions t);
  secret ← find_by ss_session_id session_id (vt_session_secrets t);
  Some (as_provider session, secret).

Definition load_authorization_secret (session_id : string) : Task Daemon VaultError bytes :=
  record ← query (session_secret_of session_id);
  record ← ok_or record VaultNotFound;
  unseal (authorization_associated_data session_id (fst record)) (ss_nonce (snd record))
    (ss_ciphertext (snd record)) (ss_protected_key (snd record)).

Definition update_authorization_session (session : AuthorizationSession)
    : Task Daemon VaultError unit :=
  execute VaultDatabase (sql_update (fun t =>
    t <| vt_sessions ::= update_where (fun s => bool_decide (as_id s = as_id session)) (fun s =>
      s <| as_status := as_status session |> <| as_user_code := as_user_code session |>
        <| as_expires_at := as_expires_at session |>
        <| as_interval_seconds := as_interval_seconds session |>
        <| as_next_poll_at := as_next_poll_at session |> <| as_attempts := as_attempts session |>
        <| as_last_error := as_last_error session |> <| as_updated_at := as_updated_at session |>) |>)).

Definition delete_authorization_secret (session_id : string) : Task Daemon VaultError unit :=
  execute VaultDatabase (sql_update (fun t =>
    t <| vt_session_secrets ::=
      delete_where (fun s => bool_decide (ss_session_id s = session_id)) |>)).
End Vault.
