(* ===== verification/Protocol.v ===== *)
(** The execution protocol ([plugins/accounts/crates/elegy-accountd/src/protocol.rs]):
    signed envelopes by which a client on the machine asks for an operation,
    and the guard that accepts each of them once. *)
From S2P Require Import Prelude Text Json Threads Vault.

(** [TypedExecutionRequest] of [typed.rs]. *)
Record TypedExecutionRequest := mkTypedExecutionRequest {
  tr_client_id : string; tr_purpose_class : string; tr_provider : string; tr_operation : string;
  tr_account_id : option string; tr_arguments : json }.
Inductive ConnectionControlOperation :=
| ListConnections
| StartConnection (service : string)
| Session (session_id : string)
| Verify (connection_id : string)
| DisconnectPreview (connection_id : string)
| DisconnectExecute (connection_id confirmation_digest : string).

Record ExecutionEnvelope := mkExecutionEnvelope {
  ee_schema_version : string; ee_issued_at : string; ee_nonce : string;
  ee_request : TypedExecutionRequest; ee_signature : string }.
Record ConnectionControlEnvelope := mkConnectionControlEnvelope {
  ce_schema_version : string; ce_issued_at : string; ce_nonce : string; ce_client_id : string;
  ce_request : ConnectionControlOperation; ce_signature : string }.

Definition PROTOCOL_VERSION : string := "elegy-account-execution/v1".
Definition CONNECTION_CONTROL_PROTOCOL_VERSION : string := "elegy-connection-control/v1".
Definition MAX_CLOCK_SKEW : Z := minutes 2.

Inductive ExecutionProtocolError :=
| UnsupportedVersion | WrongClient | Stale | InvalidSignature | Replay | Serialization.

(** What serde writes of a request. *)
Definition request_to_value (r : TypedExecutionRequest) : json :=
  JObj [("client_id", JStr (tr_client_id r)); ("purpose_class", JStr (tr_purpose_class r));
        ("provider", JStr (tr_provider r)); ("operation", JStr (tr_operation r));
        ("account_id", json_opt (tr_account_id r)); ("arguments", tr_arguments r)].
Definition operation_to_value (o : ConnectionControlOperation) : json :=
  JObj match o with
       | ListConnections => [("operation", JStr "list")]
       | StartConnection service => [("operation", JStr "start"); ("service", JStr service)]
       | Session id => [("operation", JStr "session"); ("session_id", JStr id)]
       | Verify id => [("operation", JStr "verify"); ("connection_id", JStr id)]
       | DisconnectPreview id => [("operation", JStr "disconnect-preview"); ("connection_id", JStr id)]
       | DisconnectExecute id digest =>
           [("operation", JStr "disconnect-execute"); ("connection_id", JStr id);
            ("confirmation_digest", JStr digest)]
       end.

(** The [hmac], [sha2] and [base64] crates. *)
Class Signing := {
  sha256 : bytes -> bytes;
  hmac_sha256 : bytes -> bytes -> option bytes;      (* key, message *)
  base64_encode : bytes -> string;
  base64_decode : string -> option bytes }.

(** ** The replay guard *)
Notation ReplayGuard := (gmap string Z).

Definition check_and_record (nonce : string) (issued_at now : Z) (seen : ReplayGuard)
    : Result ExecutionProtocolError unit * ReplayGuard :=
  let seen := filter (fun e => (now - MAX_CLOCK_SKEW <= snd e)%Z) seen in
  if bool_decide (nonce = "") || bool_decide (is_Some (seen !! nonce)) then (Err Replay, seen)
  else (Ok tt, <[nonce := issued_at]> seen).

Section Envelopes.
Context {H : Host} {Sg : Signing}.

(** [serde_json::to_vec] of the payload, which does not fail. *)
Definition signing_payload (e : ExecutionEnvelope) : Result ExecutionProtocolError bytes :=
  Ok (to_bytes (value_to_string (JObj
    [("schema_version", JStr (ee_schema_version e)); ("issued_at", JStr (ee_issued_at e));
     ("nonce", JStr (ee_nonce e)); ("request", request_to_value (ee_request e))]))).
Definition connection_signing_payload (e : ConnectionControlEnvelope)
    : Result ExecutionProtocolError bytes :=
  Ok (to_bytes (value_to_string (JObj
    [("schema_version", JStr (ce_schema_version e)); ("issued_at", JStr (ce_issued_at e));
     ("nonce", JStr (ce_nonce e)); ("client_id", JStr (ce_client_id e));
     ("request", operation_to_value (ce_request e))]))).

(** The signature of a payload ([signature_for] and [connection_signature_for]). *)
Definition signature_of (payload : Result ExecutionProtocolError bytes) (key : bytes)
    : Result ExecutionProtocolError string :=
  payload ← payload;
  mac ← some_or (hmac_sha256 key payload) InvalidSignature;
  Ok (base64_encode mac).
Definition signature_for (e : ExecutionEnvelope) (key : bytes) :=
  signature_of (signing_payload e) key.
Definition connection_signature_for (e : ConnectionControlEnvelope) (key : bytes) :=
  signature_of (connection_signing_payload e) key.

Definition sign (request : TypedExecutionRequest) (key : bytes) (issued_at : Z) (nonce : string)
    : Result ExecutionProtocolError ExecutionEnvelope :=
  let envelope signature :=
    mkExecutionEnvelope PROTOCOL_VERSION (to_rfc3339 issued_at) nonce request signature in
  signature ← signature_for (envelope "") key;
  Ok (envelope signature).
Definition connection_sign (client_id : string) (request : ConnectionControlOperation) (key : bytes)
    (issued_at : Z) (nonce : string) : Result ExecutionProtocolError ConnectionControlEnvelope :=
  let envelope signature := mkConnectionControlEnvelope CONNECTION_CONTROL_PROTOCOL_VERSION
        (to_rfc3339 issued_at) nonce client_id request signature in
  signature ← connection_signature_for (envelope "") key;
  Ok (envelope signature).

(** The checks before the guard, the same in both [verify]: the time the
    envelope was issued at, if they pass. *)
Definition verify_parts (version client_id issued_at signature : string)
    (payload : Result ExecutionProtocolError bytes) (expected_version expected_client : string)
    (key : bytes) (now : Z) : Result ExecutionProtocolError Z :=
  _ ← fail_if (negb (bool_decide (version = expected_version))) UnsupportedVersion;
  _ ← fail_if (negb (bool_decide (client_id = expected_client))) WrongClient;
  issued_at ← some_or (parse_from_rfc3339 issued_at) Stale;
  _ ← fail_if (bool_decide (issued_at < now - MAX_CLOCK_SKEW)%Z
               || bool_decide (now + MAX_CLOCK_SKEW < issued_at)%Z) Stale;
  signature ← some_or (base64_decode signature) InvalidSignature;
  payload ← payload;
  mac ← some_or (hmac_sha256 key payload) InvalidSignature;
  _ ← fail_if (negb (bool_decide (mac = signature))) InvalidSignature;
  Ok issued_at.

Definition verify (e : ExecutionEnvelope) (key : bytes) (expected_client : string) (now : Z)
    (replay : ReplayGuard) : Result ExecutionProtocolError TypedExecutionRequest * ReplayGuard :=
  match verify_parts (ee_schema_version e) (tr_client_id (ee_request e)) (ee_issued_at e)
          (ee_signature e) (signing_payload e) PROTOCOL_VERSION expected_client key now with
  | Err error => (Err error, replay)
  | Ok issued_at =>
      let '(r, replay) := check_and_record (ee_nonce e) issued_at now replay in
      (_ ← r; Ok (ee_request e), replay)
  end.
Definition connection_verify (e : ConnectionControlEnvelope) (key : bytes) (expected_client : string)
    (now : Z) (replay : ReplayGuard)
    : Result ExecutionProtocolError ConnectionControlOperation * ReplayGuard :=
  match verify_parts (ce_schema_version e) (ce_client_id e) (ce_issued_at e) (ce_signature e)
          (connection_signing_payload e) CONNECTION_CONTROL_PROTOCOL_VERSION expected_client key now with
  | Err error => (Err error, replay)
  | Ok issued_at =>
      let '(r, replay) := check_and_record (ce_nonce e) issued_at now replay in
      (_ ← r; Ok (ce_request e), replay)
  end.
End Envelopes.
