(* ===== verification/ProtocolFacts.v ===== *)
(** What the execution protocol guarantees: an envelope that was signed is
    accepted in its time, and none is accepted twice. *)
From S2P Require Import Prelude Text Json Threads Vault Protocol.

(** The libraries: what base64 and RFC 3339 text encode they decode, and a
    message can be authenticated under every key. *)
Class SigningLaws (H : Host) (Sg : Signing) := {
  base64_round_trip b : base64_decode (base64_encode b) = Some b;
  rfc3339_round_trip t : parse_from_rfc3339 (to_rfc3339 t) = Some t;
  hmac_total key message : is_Some (hmac_sha256 key message) }.

Section Facts.
Context {H : Host} {Sg : Signing}.
Implicit Types (e : ExecutionEnvelope) (seen : ReplayGuard).

(** An envelope of this protocol, client and key, issued at about [now]. *)
Record authentic (key : bytes) (client : string) (now : Z) e (issued_at : Z) : Prop := {
  au_version : ee_schema_version e = PROTOCOL_VERSION;
  au_client : tr_client_id (ee_request e) = client;
  au_issued : parse_from_rfc3339 (ee_issued_at e) = Some issued_at;
  au_fresh : (now - MAX_CLOCK_SKEW <= issued_at <= now + MAX_CLOCK_SKEW)%Z;
  au_mac : exists payload mac, signing_payload e = Ok payload /\ hmac_sha256 key payload = Some mac /\
    base64_decode (ee_signature e) = Some mac }.

Lemma verify_parts_authentic key client now e issued_at :
  verify_parts (ee_schema_version e) (tr_client_id (ee_request e)) (ee_issued_at e) (ee_signature e)
    (signing_payload e) PROTOCOL_VERSION client key now = Ok issued_at <->
  authentic key client now e issued_at.
Proof.
  unfold verify_parts. split.
  - rewrite !result_bind_Ok. intros ([] & H1%fail_if_Ok & H2). bool_props.
    apply result_bind_Ok in H2 as ([] & H2%fail_if_Ok & H3). bool_props.
    apply result_bind_Ok in H3 as (t & H3%some_or_Ok & H4).
    apply result_bind_Ok in H4 as ([] & H4%fail_if_Ok & H5). bool_props.
    apply result_bind_Ok in H5 as (signature & H5%some_or_Ok & H6).
    apply result_bind_Ok in H6 as (payload & H6 & H7).
    apply result_bind_Ok in H7 as (mac & H7%some_or_Ok & H8).
    apply result_bind_Ok in H8 as ([] & H8%fail_if_Ok & [= <-]). bool_props.
    split; [done|done|done|lia|]. exists payload, mac. split_and!; [done..|].
    congruence.
  - intros [-> -> Hi Hf (payload & mac & Hp & Hm & Hs)]. rewrite !bool_decide_true by done. simpl.
    rewrite Hi. simpl. rewrite !bool_decide_false by lia. simpl. rewrite Hs.
    unfold signing_payload in Hp. injection Hp as <-. simpl. rewrite Hm. simpl.
    by rewrite bool_decide_true.
Qed.

(** ** Deliveries, each with the time it is looked at *)
Fixpoint accepted (key : bytes) (client : string) seen (deliveries : list (ExecutionEnvelope * Z))
    : list (ExecutionEnvelope * Z) :=
  match deliveries with
  | [] => []
  | (e, now) :: deliveries' =>
      match verify e key client now seen with
      | (Ok _, seen') => (e, now) :: accepted key client seen' deliveries'
      | (Err _, seen') => accepted key client seen' deliveries'
      end
  end.

(** What was accepted is remembered until it is too old to be accepted. *)
Definition remembers seen (now : Z) (past : list (string * Z)) : Prop :=
  forall nonce issued_at, (nonce, issued_at) ∈ past ->
    (issued_at < now - MAX_CLOCK_SKEW)%Z \/ exists t, seen !! nonce = Some t /\ (issued_at <= t)%Z.

Lemma remembers_filter seen now now' past :
  (now <= now')%Z -> remembers seen now past ->
  remembers (filter (fun x => (now' - MAX_CLOCK_SKEW <= snd x)%Z) seen) now' past.
Proof.
  intros Hle Hr nonce t Hin. destruct (Hr _ _ Hin) as [?|(t' & Hs & ?)]; [left; lia|].
  destruct (decide (now' - MAX_CLOCK_SKEW <= t')%Z); [right|left; lia].
  exists t'. split; [|done]. by apply map_lookup_filter_Some.
Qed.

Lemma verify_Ok e key client now seen request seen' :
  verify e key client now seen = (Ok request, seen') ->
  exists issued_at, authentic key client now e issued_at /\ request = ee_request e /\ ee_nonce e <> "" /\
    filter (fun x => (now - MAX_CLOCK_SKEW <= snd x)%Z) seen !! ee_nonce e = None /\
    seen' = <[ee_nonce e := issued_at]> (filter (fun x => (now - MAX_CLOCK_SKEW <= snd x)%Z) seen).
Proof.
  unfold verify. destruct (verify_parts _ _ _ _ _ _ _ _ _) as [issued_at|] eqn:Ep; [|done].
  apply verify_parts_authentic in Ep. unfold check_and_record.
  destruct (bool_decide (ee_nonce e = "") || _) eqn:Eg; [done|]. intros [= <- <-]. bool_props.
  exists issued_at. split_and!; try done. by apply eq_None_not_Some.
Qed.

(** A delivery that is refused leaves the guard, or only forgets what is old. *)
Lemma verify_Err e key client now seen error seen' :
  verify e key client now seen = (Err error, seen') ->
  seen' = seen \/ seen' = filter (fun x => (now - MAX_CLOCK_SKEW <= snd x)%Z) seen.
Proof.
  unfold verify. destruct (verify_parts _ _ _ _ _ _ _ _ _) as [issued_at|]; [|intros [= _ <-]; by left].
  unfold check_and_record. destruct (_ || _); [intros [= _ <-]; by right|done].
Qed.

Definition stamp (d : ExecutionEnvelope * Z) : string * option Z :=
  (ee_nonce (fst d), parse_from_rfc3339 (ee_issued_at (fst d))).

Lemma accepted_fresh key client deliveries seen now past :
  remembers seen now past -> (forall d, d ∈ deliveries -> (now <= snd d)%Z) ->
  StronglySorted Z.le (map snd deliveries) ->
  (forall d issued_at, d ∈ accepted key client seen deliveries ->
     stamp d = (ee_nonce (fst d), Some issued_at) -> (ee_nonce (fst d), issued_at) ∉ past) /\
  NoDup (map stamp (accepted key client seen deliveries)) /\
  forall d, d ∈ accepted key client seen deliveries ->
    ee_nonce (fst d) <> "" /\ exists issued_at, authentic key client (snd d) (fst d) issued_at.
Proof.
  revert seen now past. induction deliveries as [|[e t] deliveries IH]; intros seen now past Hr Hnow Hs; simpl.
  { split_and!; [by intros ? ? ?%not_elem_of_nil|by apply NoDup_nil_2|by intros ? ?%not_elem_of_nil]. }
  assert (now <= t)%Z as Ht by (apply (Hnow (e, t)); by left).
  apply StronglySorted_inv in Hs as [Hs Hle]. rewrite Forall_forall in Hle.
  assert (forall d, d ∈ deliveries -> (t <= snd d)%Z) as Hnext.
  { intros d Hd. apply Hle. apply list_elem_of_fmap. by exists d. }
  destruct (verify e key client t seen) as [[request|error] seen'] eqn:Ev.
  - apply verify_Ok in Ev as (issued_at & Hau & -> & Hne & Hnew & ->).
    destruct (IH (<[ee_nonce e := issued_at]> (filter (fun x => (t - MAX_CLOCK_SKEW <= snd x)%Z) seen)) t
                ((ee_nonce e, issued_at) :: past)) as (Hp & Hn & Ha); [|done..|].
    { intros nonce i [[= -> ->]|Hin]%elem_of_cons.
      - right. exists issued_at. rewrite lookup_insert_eq. by split.
      - destruct (remembers_filter _ _ _ _ Ht Hr _ _ Hin) as [?|(t' & Hl & ?)]; [by left|right].
        exists t'. rewrite lookup_insert_ne by congruence. by split. }
    assert ((ee_nonce e, issued_at) ∉ past) as Hfresh.
    { intros Hin. destruct (remembers_filter _ _ _ _ Ht Hr _ _ Hin) as [?|(t' & Hl & ?)].
      - destruct Hau as [_ _ _ ? _]. lia.
      - congruence. }
    split_and!.
    + intros d i [->|Hd]%elem_of_cons; simpl.
      * intros [= E]. rewrite (au_issued _ _ _ _ _ Hau) in E. by injection E as <-.
      * intros E Hin. apply (Hp _ _ Hd E). by right.
    + constructor; [|done]. intros (d & E & Hd)%list_elem_of_fmap. unfold stamp in E. simpl in E.
      rewrite (au_issued _ _ _ _ _ Hau) in E. injection E as E1 E2.
      apply (Hp d issued_at Hd); [unfold stamp; by rewrite <- E2|]. rewrite <- E1. by left.
    + intros d [->|Hd]%elem_of_cons; [by split; [|exists issued_at]|by apply Ha].
  - apply (IH seen' t past); [|done..]. apply verify_Err in Ev as [->| ->].
    + intros nonce i Hin. destruct (Hr _ _ Hin) as [?|?]; [left; lia|by right].
    + by eapply remembers_filter.
Qed.

(** C28. No envelope is accepted twice: over any deliveries that are looked at
    in the order of time, starting with an empty guard, no two accepted ones
    have the same nonce and time of issue, although the guard forgets a nonce
    as soon as its time of issue is two minutes old; and every accepted one
    has a nonce, names the client, was issued within two minutes of its
    delivery, and carries the key's authentication code of its own content. *)
Theorem envelopes_are_accepted_once key client deliveries :
  StronglySorted Z.le (map snd deliveries) ->
  NoDup (map stamp (accepted key client ∅ deliveries)) /\
  forall d, d ∈ accepted key client ∅ deliveries ->
    ee_nonce (fst d) <> "" /\ exists issued_at, authentic key client (snd d) (fst d) issued_at.
Proof.
  intros Hs. assert (exists now, forall d, d ∈ deliveries -> (now <= snd d)%Z) as [now Hnow].
  { destruct deliveries as [|d deliveries]; [exists 0%Z; by intros ? ?%not_elem_of_nil|].
    exists (snd d). apply StronglySorted_inv in Hs as [_ Hs]. rewrite Forall_forall in Hs.
    intros d' [->|Hd]%elem_of_cons; [done|]. apply Hs, list_elem_of_fmap. by exists d'. }
  apply (accepted_fresh key client deliveries ∅ now []); [|done..].
  by intros ? ? ?%not_elem_of_nil.
Qed.

(** A signed envelope is accepted: what [sign] makes of a request
    verifies, for the client the request names, at any time within two minutes
    of its issue and with a guard that does not know its nonce; it gives back
    the request, and the guard then refuses the same envelope. *)
Theorem signed_envelopes_verify `{!SigningLaws H Sg} request key issued_at nonce now seen :
  (issued_at - MAX_CLOCK_SKEW <= now <= issued_at + MAX_CLOCK_SKEW)%Z -> nonce <> "" ->
  seen !! nonce = None ->
  exists e seen', sign request key issued_at nonce = Ok e /\
    verify e key (tr_client_id request) now seen = (Ok request, seen') /\
    fst (verify e key (tr_client_id request) now seen') = Err Replay.
Proof.
  intros Hnow Hne Hseen. unfold sign, signature_for, signature_of, signing_payload. simpl.
  set (payload := to_bytes _). destruct (hmac_total key payload) as [mac Hmac]. rewrite Hmac. simpl.
  set (e := mkExecutionEnvelope _ _ _ _ _).
  assert (authentic key (tr_client_id request) now e issued_at) as Hau%verify_parts_authentic.
  { split; [done|done|apply rfc3339_round_trip|lia|]. exists payload, mac. split; [done|].
    split; [done|]. apply base64_round_trip. }
  assert (forall guard, filter (fun x => (now - MAX_CLOCK_SKEW <= snd x)%Z) guard !! nonce = None ->
    verify e key (tr_client_id request) now guard =
      (Ok request, <[nonce := issued_at]> (filter (fun x => (now - MAX_CLOCK_SKEW <= snd x)%Z) guard)))
    as Hv.
  { intros guard Hg. unfold verify. rewrite Hau. unfold check_and_record. simpl.
    rewrite (bool_decide_false _ Hne), Hg. by rewrite bool_decide_false by (by intros [? ?]). }
  eexists e, _. split; [done|]. split.
  - apply Hv, map_lookup_filter_None. by left.
  - unfold verify. rewrite Hau. unfold check_and_record. simpl. rewrite (bool_decide_false _ Hne).
    rewrite bool_decide_true; [done|]. exists issued_at. apply map_lookup_filter_Some.
    rewrite lookup_insert_eq. split; [done|]. simpl. lia.
Qed.
End Facts.
