(* ===== verification/Broker.v ===== *)
(** The access broker ([plugins/accounts/crates/elegy-accountd/src/broker.rs]):
    requests a user approves, the grants that come of it, and the leases that
    let a client act under a grant.  Every method of [BrokerStore] is a task
    of the vault's sections. *)
From S2P Require Import Prelude Text Substring Json Redaction Table Threads Vault.

Inductive BrokerError :=
| VaultFailure (e : VaultError)
| Database
| NotFound
| InvalidState
| Inactive
| ScopeDenied
| InvalidData.

Record NewAccessRequest := mkNewAccessRequest {
  na_account_id : string; na_client_id : string; na_purpose : string;
  na_operations : list string; na_duration_minutes : Z }.
Record BrokerRequest := mkBrokerRequest {
  br_id : string; br_kind : string; br_status : string; br_account_id : option string;
  br_provider : option string; br_client_id : option string; br_purpose : string;
  br_operations : list string; br_duration_minutes : Z; br_created_at : string;
  br_updated_at : string }.
Record StoredGrant := mkStoredGrant {
  sg_id : string; sg_request_id : string; sg_account_id : string; sg_provider : string;
  sg_client_id : string; sg_purpose : string; sg_operations : list string;
  sg_expires_at : string; sg_revoked : bool }.
Record OpaqueLease := mkOpaqueLease { ol_token : string; ol_expires_at : string }.
Record AuditEvent := mkAuditEvent {
  ae_time : string; ae_event : string; ae_account_id : option string; ae_detail : json }.


Section Broker.
Context {H : Host}.

Definition Broker := Task Daemon BrokerError.
Definition sql {X} (q : Sql X) : Broker X := execute Database q.
Definition sql_fresh {X} (q : string -> Sql X) : Broker (string * X) := execute_fresh Database q.
Definition of_vault {A} (p : Task Daemon VaultError A) : Broker A := map_err VaultFailure p.

(** [parse_vec]: a column that is no JSON list of strings is a conversion error. *)
Definition parse_vec (value : string) : option (list string) := strings_from_str value.
Definition normalize_operations (operations : list string) : list string := sorted_dedup operations.
Definition token_hash (token : string) : string := sha256_hex token.
Definition grant_id_of (uuid : string) : string := "grant_" +:+ uuid.
Definition token_of (uuid : string) : string := "ela_" +:+ uuid.
Definition operations_text (operations : list string) : string :=
  value_to_string (json_strings operations).

Definition request_from_row (r : RequestRow) : option BrokerRequest :=
  operations ← parse_vec (rq_operations_json r);
  Some (mkBrokerRequest (rq_id r) (rq_kind r) (rq_status r) (rq_account_id r) (rq_provider r)
          (rq_client_id r) (rq_purpose r) operations (rq_duration_minutes r) (rq_created_at r)
          (rq_updated_at r)).
Definition grant_from_row (g : GrantRow) : option StoredGrant :=
  operations ← parse_vec (gr_operations_json g);
  Some (mkStoredGrant (gr_id g) (gr_request_id g) (gr_account_id g) (gr_provider g)
          (gr_client_id g) (gr_purpose g) operations (gr_expires_at g)
          (bool_decide (is_Some (gr_revoked_at g)))).

(** ** Audit *)
Definition insert_audit (row : AuditRow) : Sql unit :=
  sql_update (fun t => t <| vt_audit ::= fun rows => rows ++ [row] |>).

Definition audit (event : string) (account_id : option string) (detail : json) : Broker unit :=
  let sanitized := sanitize [] detail in
  time ← now_text;
  sql (insert_audit (mkAuditRow time event account_id (value_to_string sanitized))).

Definition audit_from_row (r : AuditRow) : AuditEvent :=
  mkAuditEvent (au_time r) (au_event r) (au_account_id r)
    (default (json_object [("redacted", JBool true)]) (value_from_str (au_detail_json r))).

(** [ORDER BY id DESC LIMIT min(limit, 500)]: ids are assigned in order. *)
Definition list_audit (limit : nat) : Broker (list AuditEvent) :=
  query (fun t => map audit_from_row (take (Nat.min limit 500) (rev (vt_audit t)))).

(** ** Requests *)
Definition get_request (id : string) : Broker BrokerRequest :=
  row ← query (fun t => find_by rq_id id (vt_requests t));
  row ← ok_or row NotFound;
  ok_or (request_from_row row) Database.

Definition list_requests : Broker (list BrokerRequest) :=
  rows ← query (fun t => order_by (desc_str rq_created_at) (vt_requests t));
  ok_or (mapM request_from_row rows) Database.

Definition insert_request (row : RequestRow) : Sql unit :=
  sql_insert vt_requests (fun rows t => t <| vt_requests := rows |>) rq_id row.

Definition request_access (request : NewAccessRequest) : Broker BrokerRequest :=
  accounts ← of_vault list_accounts;
  account ← ok_or (List.find (fun a => bool_decide (ac_id a = na_account_id request)
                                       && bool_decide (ac_status a = "connected")) accounts) NotFound;
  now ← now_text;
  let operations := normalize_operations (na_operations request) in
  uuid ← sql_fresh (fun uuid => insert_request
        (mkRequestRow ("access_" +:+ uuid) "access" "awaiting_user" (Some (na_account_id request))
           (Some (ac_provider account)) (Some (na_client_id request)) (na_purpose request)
           (operations_text operations) (na_duration_minutes request) None now now));
  let id := "access_" +:+ fst uuid in
  _ ← audit "access.requested" (Some (na_account_id request))
        (json_object [("request_id", JStr id); ("client_id", JStr (na_client_id request));
                      ("operations", json_strings operations)]);
  get_request id.

(** [INSERT OR IGNORE]: a row whose id or idempotency key is taken is dropped. *)
Definition insert_or_ignore_request (row : RequestRow) : Sql unit := fun t =>
  if existsb (fun r => bool_decide (rq_id r = rq_id row)
                       || bool_decide (is_Some (rq_idempotency_key row)
                                       /\ rq_idempotency_key r = rq_idempotency_key row))
       (vt_requests t)
  then Some (tt, t) else insert_request row t.

Definition nul : string := of_bytes [Ascii.zero].

Definition request_creation (key provider purpose : string) (constraints : list string)
    : Broker BrokerRequest :=
  let idempotency_key := sha256_hex (key +:+ nul +:+ provider +:+ nul +:+ purpose) in
  let id := "create_" +:+ String.substring 0 24 idempotency_key in
  now ← now_text;
  let operations := normalize_operations constraints in
  _ ← sql (insert_or_ignore_request
        (mkRequestRow id "creation" "waiting_human" None (Some provider) None purpose
           (operations_text operations) 0 (Some idempotency_key) now now));
  _ ← audit "creation.requested" None
        (json_object [("request_id", JStr id); ("provider", JStr provider)]);
  get_request id.

Definition set_request_status (p : RequestRow -> bool) (status now : string) : Sql unit :=
  sql_update (fun t => t <| vt_requests ::= update_where p (fun r =>
    r <| rq_status := status |> <| rq_updated_at := now |>) |>).

Definition cancel_request (id : string) : Broker unit :=
  request ← get_request id;
  _ ← guard_or (negb (bool_decide (br_status request ∈ ["approved"; "cancelled"]))) InvalidState;
  now ← now_text;
  _ ← sql (set_request_status (fun r => bool_decide (rq_id r = id)) "cancelled" now);
  audit "request.cancelled" (br_account_id request)
    (json_object [("request_id", JStr id); ("partial_credential_stored", JBool false)]).

(** ** Grants *)
(** [INSERT INTO grants]: the request exists and has no grant yet. *)
Definition insert_grant (row : GrantRow) : Sql unit :=
  _ ← sql_check (fun t => bool_decide (is_Some (find_by rq_id (gr_request_id row) (vt_requests t)))
         && negb (existsb (fun g => bool_decide (gr_request_id g = gr_request_id row)) (vt_grants t)));
  sql_insert vt_grants (fun rows t => t <| vt_grants := rows |>) gr_id row.

Definition get_grant (id : string) : Broker StoredGrant :=
  row ← query (fun t => find_by gr_id id (vt_grants t));
  row ← ok_or row NotFound;
  ok_or (grant_from_row row) Database.

Definition grant_for_request (request_id : string) : Broker StoredGrant :=
  id ← query (fun t => (gr_id <$> find_by gr_request_id request_id (vt_grants t)) : option string);
  id ← ok_or id NotFound;
  get_grant id.

Definition list_grants : Broker (list StoredGrant) :=
  rows ← query (fun t => order_by (desc_str gr_expires_at) (vt_grants t));
  ok_or (mapM grant_from_row rows) Database.

(** The transaction of [approve_access]; the [UPDATE] need not find a row. *)
Definition approve_request (request_id now : string) (grant : GrantRow) : Sql unit :=
  _ ← set_request_status (fun r => bool_decide (rq_id r = request_id)
                                   && bool_decide (rq_status r = "awaiting_user")) "approved" now;
  insert_grant grant.

Definition approve_access (request_id : string) : Broker StoredGrant :=
  request ← get_request request_id;
  _ ← guard_or (bool_decide (br_kind request = "access")
                && bool_decide (br_status request = "awaiting_user")) InvalidState;
  account_id ← ok_or (br_account_id request) InvalidData;
  provider ← ok_or (br_provider request) InvalidData;
  client_id ← ok_or (br_client_id request) InvalidData;
  start ← utc_now;
  let expires_at := to_rfc3339 (start + minutes (br_duration_minutes request)) in
  now ← now_text;
  uuid ← sql_fresh (fun uuid => approve_request request_id now
        (mkGrantRow (grant_id_of uuid) request_id account_id provider client_id (br_purpose request)
           (operations_text (br_operations request)) expires_at 0 None));
  let id := grant_id_of (fst uuid) in
  _ ← audit "grant.approved" (Some account_id)
        (json_object [("grant_id", JStr id); ("request_id", JStr request_id)]);
  get_grant id.

(** ** Leases *)
(** [INSERT INTO leases .. SELECT .. FROM grants WHERE id=?2]: no row when the
    grant is gone. *)
Definition insert_lease (hash grant_id expires_at : string) (remaining_uses : Z) : Sql unit := fun t =>
  match find_by gr_id grant_id (vt_grants t) with
  | None => Some (tt, t)
  | Some grant => sql_insert vt_leases (fun rows t => t <| vt_leases := rows |>) ls_token_hash
                    (mkLeaseRow hash (gr_id grant) (gr_generation grant) expires_at remaining_uses) t
  end.

Definition issue_lease_with_uses (grant_id : string) (ttl_minutes : Z) (remaining_uses : Z)
    : Broker OpaqueLease :=
  grant ← get_grant grant_id;
  grant_expiry ← ok_or (parse_from_rfc3339 (sg_expires_at grant)) InvalidData;
  _ ← guard_or (negb (sg_revoked grant)) Inactive;
  checked ← utc_now;
  _ ← guard_or (negb (bool_decide (grant_expiry <= checked)%Z)) Inactive;
  now ← utc_now;
  let expires_at := to_rfc3339 (Z.min (now + minutes (Z.min ttl_minutes 15)) grant_expiry) in
  uuid ← sql_fresh (fun uuid =>
           insert_lease (token_hash (token_of uuid)) grant_id expires_at remaining_uses);
  mret (mkOpaqueLease (token_of (fst uuid)) expires_at).

Definition issue_lease (grant_id : string) (ttl_minutes : Z) : Broker OpaqueLease :=
  issue_lease_with_uses grant_id ttl_minutes (-1).
Definition issue_single_use_lease (grant_id : string) (ttl_minutes : Z) : Broker OpaqueLease :=
  issue_lease_with_uses grant_id ttl_minutes 1.

(** The lease with its grant: of the audience, not revoked, of an account that
    is connected. *)
Definition lease_authorization_record (hash audience : string) (t : Tables)
    : option (LeaseRow * GrantRow) :=
  lease ← find_by ls_token_hash hash (vt_leases t);
  grant ← find_by gr_id (ls_grant_id lease) (vt_grants t);
  account ← find_by ac_id (gr_account_id grant) (vt_accounts t);
  if bool_decide (gr_provider grant = audience) && bool_decide (gr_revoked_at grant = None)
     && bool_decide (ac_status account = "connected")
  then Some (lease, grant) else None.

(** [expiry <= Utc::now()], after parsing the stored text. *)
Definition expired (expires_at : string) : Broker bool :=
  expiry ← ok_or (parse_from_rfc3339 expires_at) InvalidData;
  now ← utc_now;
  mret (bool_decide (expiry <= now)%Z).

(** [UPDATE leases SET remaining_uses=remaining_uses-1 WHERE token_hash=?1 AND
    remaining_uses>0]. *)
Definition use_lease (hash : string) : Sql nat := fun t =>
  let used := fun l => bool_decide (ls_token_hash l = hash) && bool_decide (0 < ls_remaining_uses l)%Z in
  Some (length (select_where used (vt_leases t)),
    t <| vt_leases ::= update_where used (fun l => l <| ls_remaining_uses ::= Z.pred |>) |>).

Definition authorize (token client_id purpose audience operation : string) : Broker unit :=
  let hash := token_hash token in
  record ← query (lease_authorization_record hash audience);
  record ← ok_or record Inactive;
  let '(lease, grant) := record in
  _ ← guard_or (negb (bool_decide (ls_remaining_uses lease = 0%Z))) Inactive;
  _ ← guard_or (bool_decide (ls_generation lease = gr_generation grant)) Inactive;
  lease_expired ← expired (ls_expires_at lease);
  _ ← guard_or (negb lease_expired) Inactive;
  grant_expired ← expired (gr_expires_at grant);
  _ ← guard_or (negb grant_expired) Inactive;
  allowed ← (if bool_decide (gr_client_id grant <> client_id)
                || bool_decide (gr_purpose grant <> purpose) then mret false
             else operations ← ok_or (parse_vec (gr_operations_json grant)) Database;
                  mret (bool_decide (operation ∈ operations)));
  if negb allowed then
    _ ← audit "operation.denied" None
          (json_object [("client_id", JStr client_id); ("audience", JStr audience);
                        ("operation", JStr operation)]);
    throw ScopeDenied
  else if bool_decide (0 < ls_remaining_uses lease)%Z then
    changed ← sql (use_lease hash);
    guard_or (negb (bool_decide (changed = 0))) Inactive
  else mret tt.

Definition account_of_lease (hash : string) (t : Tables) : option string :=
  lease ← find_by ls_token_hash hash (vt_leases t);
  grant ← find_by gr_id (ls_grant_id lease) (vt_grants t);
  Some (gr_account_id grant).

Definition account_id_for_lease (token : string) : Broker string :=
  account_id ← query (account_of_lease (token_hash token));
  ok_or account_id NotFound.

(** ** Revocation *)
Definition revoke_rows (p : GrantRow -> bool) (now : string) : Sql nat := fun t =>
  Some (length (select_where p (vt_grants t)),
    t <| vt_grants ::= update_where p (fun g =>
      g <| gr_revoked_at := Some (default now (gr_revoked_at g)) |>
        <| gr_generation ::= Z.succ |>) |>).

Definition revoke_grant (grant_id reason : string) : Broker unit :=
  grant ← get_grant grant_id;
  now ← now_text;
  changed ← sql (revoke_rows (fun g => bool_decide (gr_id g = grant_id)
                                    && bool_decide (gr_revoked_at g = None)) now);
  _ ← guard_or (negb (bool_decide (changed = 0))) Inactive;
  audit "grant.revoked" (Some (sg_account_id grant))
    (json_object [("grant_id", JStr grant_id); ("reason", JStr reason)]).

(** ** Disconnecting an account *)
(** [DELETE FROM leases WHERE grant_id IN (SELECT id FROM grants WHERE account_id=?1)]. *)
Definition delete_account_leases (account_id : string) : Sql unit :=
  sql_update (fun t => t <| vt_leases ::= delete_where (fun l =>
    existsb (fun g => bool_decide (gr_id g = ls_grant_id l)
                      && bool_decide (gr_account_id g = account_id)) (vt_grants t)) |>).

(** [DELETE FROM grants WHERE account_id=?1]: refused while a lease refers to one. *)
Definition delete_account_grants (account_id : string) : Sql unit :=
  let of_account := fun g => bool_decide (gr_account_id g = account_id) in
  _ ← sql_check (fun t => negb (existsb (fun l => existsb (fun g => of_account g
         && bool_decide (gr_id g = ls_grant_id l)) (vt_grants t)) (vt_leases t)));
  sql_update (fun t => t <| vt_grants ::= delete_where of_account |>).

Definition cancel_account_requests (account_id now : string) : Sql unit :=
  set_request_status (fun r => bool_decide (rq_account_id r = Some account_id)
                               && bool_decide (rq_status r = "awaiting_user")) "cancelled" now.

Definition disconnect_account (account_id : string) : Broker unit :=
  changed ← execute_timed Database 1 (fun now =>
    _ ← delete_account_leases account_id;
    _ ← delete_account_grants account_id;
    _ ← cancel_account_requests account_id (now 0);
    delete_account_row account_id);
  _ ← guard_or (negb (bool_decide (changed = 0))) NotFound;
  audit "account.disconnected" (Some account_id)
    (json_object [("credential_deleted", JBool true); ("leases_invalidated", JBool true)]).

Definition begin_provider_disconnect (account_id : string) : Broker unit :=
  changed ← execute_timed Database 2 (fun now =>
    _ ← delete_account_leases account_id;
    _ ← revoke_rows (fun g => bool_decide (gr_account_id g = account_id)) (now 0);
    _ ← cancel_account_requests account_id (now 1);
    update_account_status account_id "revocation_pending");
  _ ← guard_or (negb (bool_decide (changed = 0))) NotFound;
  audit "account.revocation_pending" (Some account_id)
    (json_object [("local_execution_disabled", JBool true); ("leases_invalidated", JBool true)]).

Definition complete_provider_disconnect (account_id : string) : Broker unit :=
  changed ← sql (_ ← delete_account_grants account_id; delete_account_row account_id);
  _ ← guard_or (negb (bool_decide (changed = 0))) NotFound;
  audit "account.disconnected" (Some account_id)
    (json_object [("provider_revoked", JBool true); ("credential_deleted", JBool true)]).

(** [Vault::open] on an existing file: grants of the legacy client are revoked. *)
Definition open_vault : Task Daemon VaultError unit :=
  now ← now_text;
  revoked ← execute VaultDatabase (revoke_rows (fun g =>
    bool_decide (gr_client_id g = "codex-local") && bool_decide (gr_revoked_at g = None)) now);
  if (0 <? revoked)%nat then
    execute VaultDatabase (insert_audit (mkAuditRow now "grant.legacy_revoked" None
      (value_to_string (json_object
        [("client_id", JStr "codex-local"); ("count", JInt (Z.of_nat revoked))]))))
  else mret tt.
End Broker.
