(* ===== verification/Adapters.v ===== *)
(** The credential adapters ([plugins/accounts/crates/elegy-accountd/src/adapter.rs]):
    verifying a credential against its provider, exchanging an OAuth code, and
    refreshing and revoking OAuth credentials.  Times that a provider grants
    are taken to be in the range of [chrono]. *)
From Stdlib Require Import Ascii.
From S2P Require Import Prelude Text Substring Json Threads Network Catalog Vault.

Record OAuthAdapterConfig := mkOAuthAdapterConfig {
  oa_provider : string; oa_client_id : string; oa_token_url : string; oa_identity : IdentitySpec;
  oa_required_scopes : list string }.
Record TokenAdapterConfig := mkTokenAdapterConfig {
  ta_provider : string; ta_identity : IdentitySpec; ta_header : string; ta_prefix : string }.
Record VerifiedCredential := mkVerifiedCredential {
  vc_provider : string; vc_identity : string; vc_secret : string }.
Record OAuthCredential := mkOAuthCredential {
  oc_version : string; oc_access_token : string; oc_refresh_token : string; oc_scopes : list string;
  oc_expires_at : string }.
(** [CredentialEnvelope] of [proxy.rs]; [fields] is a [BTreeMap]. *)
Record CredentialEnvelope := mkCredentialEnvelope {
  cv_version : string; cv_fields : list (string * string) }.

Inductive AdapterError :=
| AdapterNetwork
| TokenRejected
| InvalidToken
| IdentityRejected
| UnverifiedIdentity
| MissingFields
| ReducedScopes
| RevocationPending
| RefreshConflict.

(** What serde derives for the two texts a credential is kept as. *)
Class CredentialTexts := {
  oauth_credential_from_str : string -> option OAuthCredential;
  oauth_credential_to_string : OAuthCredential -> string;
  credential_envelope_from_str : string -> option CredentialEnvelope }.

(** [.filter(|value| !value.is_empty())]. *)
Definition nonempty (value : option string) : option string :=
  match value with Some "" => None | _ => value end.

Section Adapters.
Context {H : Host} {Net : Network} {Texts : CredentialTexts}.

(** [request.send().await]. *)
Definition http_send {E} (request : HttpRequest) : Task Daemon E (option HttpResponse) :=
  Atomic (fun s => (respond (length (dm_sent s)) request, s <| dm_sent ::= fun l => l ++ [request] |>))
    (fun response => Return (Ok response)).

(** ** [OAuthCredential] *)
Definition from_secret (secret : string) : Result AdapterError OAuthCredential :=
  credential ← some_or (oauth_credential_from_str secret) InvalidToken;
  if negb (bool_decide (oc_version credential = "elegy-oauth-credential/v1"))
     || bool_decide (oc_access_token credential = "") || bool_decide (oc_refresh_token credential = "")
  then Err InvalidToken else Ok credential.
Definition to_secret (credential : OAuthCredential) : string := oauth_credential_to_string credential.
Definition seconds (n : Z) : Z := (n * 1000000000)%Z.
Definition expires_within (credential : OAuthCredential) (duration : Z) : Task Daemon AdapterError bool :=
  expires_at ← ok_or (parse_from_rfc3339 (oc_expires_at credential)) InvalidToken;
  now ← utc_now;
  mret (bool_decide (expires_at <= now + duration)%Z).

(** ** Reading a provider's answers *)

Definition token_scopes (body : json) : option (list string) :=
  match json_str_at "scope" body with
  | Some scope => Some (split_whitespace scope)
  | None => match json_get "scopes" body ≫= json_as_array with
            | Some scopes => Some (omap json_as_str scopes)
            | None => None
            end
  end.
Definition require_scopes (granted required : list string) : bool :=
  forallb (fun scope => existsb (fun g => bool_decide (g = scope)) granted) required.
(** [Value::as_i64]: an integer of the 64-bit range. *)
Definition json_as_int (v : json) : option Z :=
  match v with
  | JInt z => if bool_decide (-9223372036854775808 <= z <= 9223372036854775807)%Z then Some z else None
  | _ => None
  end.
(** A number of seconds that [chrono] cannot add to the time panics there; that
    is not modelled. *)
Definition expiry_from (body : json) : Task Daemon AdapterError string :=
  expires_in ← ok_or (json_get "expires_in" body ≫= json_as_int) InvalidToken;
  _ ← guard_or (bool_decide (0 < expires_in)%Z) InvalidToken;
  now ← utc_now;
  mret (to_rfc3339 (now + seconds expires_in)).

Definition identity_of_value (value : json) : option string :=
  match value with
  | JStr value => nonempty (Some value)
  | JInt _ | JFloat _ => Some (value_to_string value)
  | _ => None
  end.
Fixpoint find_map {A B} (f : A -> option B) (l : list A) : option B :=
  match l with
  | [] => None
  | x :: l' => match f x with Some y => Some y | None => find_map f l' end
  end.
Definition verified_identity (body : json) (spec : IdentitySpec) : Result AdapterError string :=
  _ ← for_each (fun required =>
        fail_if (negb (bool_decide (json_pointer (fst required) body = Some (snd required))))
          IdentityRejected) (is_required spec);
  some_or (find_map (fun pointer => json_pointer pointer body) (is_selectors spec) ≫= identity_of_value)
    UnverifiedIdentity.

Definition lift {E A} (r : Result E A) : Task Daemon E A :=
  match r with Ok a => mret a | Err e => throw e end.

(** A response that arrived and is a success, and its JSON. *)
Definition arrived {E} (network rejected : E) (request : HttpRequest) : Task Daemon E HttpResponse :=
  response ← http_send request;
  response ← ok_or response network;
  _ ← guard_or (is_success response) rejected;
  mret response.
Definition fetched {E} (network rejected invalid : E) (request : HttpRequest) : Task Daemon E json :=
  response ← arrived network rejected request;
  ok_or (hp_json response) invalid.

(** ** Verifying credentials *)
Definition field (fields : list (string * string)) (name : string) : Task Daemon AdapterError string :=
  ok_or (nonempty (assoc name fields)) MissingFields.

(** [json_envelope] keeps the method's name beside the fields. *)
Definition method_name (method : AuthMethod) : string :=
  match method with
  | OAuthPkce => "oauth_pkce"
  | DeviceAuthorization => "device_authorization"
  | ApiToken => "api_token"
  | HttpBasic => "http_basic"
  | ClientCredentials => "client_credentials"
  | ServiceCredential => "service_credential"
  end.
Definition json_envelope (method : AuthMethod) (fields : list (string * string)) : string :=
  value_to_string (json_object
    [("version", JStr "elegy-credential/v1"); ("kind", JStr (method_name method));
     ("fields", JObj (map (fun e => (fst e, JStr (snd e))) fields))]).

Definition client_credentials_form (client_id client_secret : string) (scopes : list string)
    : list (string * string) :=
  [("grant_type", "client_credentials"); ("client_id", client_id); ("client_secret", client_secret);
   ("scope", String.concat " " scopes)].

Definition verify_credentials (provider : string) (profile : AuthProfile) (fields : list (string * string))
    : Task Daemon AdapterError VerifiedCredential :=
  let url := is_url (ap_identity profile) in
  identity_request ←
    match ap_method profile with
    | HttpBasic =>
        username ← field fields "username";
        password ← field fields "password";
        mret (get_request_to url [BasicAuth username password])
    | ClientCredentials =>
        client_id ← field fields "client_id";
        client_secret ← field fields "client_secret";
        token_url ← ok_or (ap_token_url profile) MissingFields;
        token_json ← fetched AdapterNetwork TokenRejected InvalidToken
          (post_form token_url [] (client_credentials_form client_id client_secret (ap_scopes profile)));
        access_token ← ok_or (json_str_at "access_token" token_json) InvalidToken;
        mret (get_request_to url [BearerAuth access_token])
    | _ => throw MissingFields
    end;
  identity_json ← fetched AdapterNetwork IdentityRejected UnverifiedIdentity identity_request;
  identity ← lift (verified_identity identity_json (ap_identity profile));
  mret (mkVerifiedCredential provider identity (json_envelope (ap_method profile) fields)).

Definition exchange_and_verify (config : OAuthAdapterConfig) (code verifier redirect_uri : string)
    : Task Daemon AdapterError VerifiedCredential :=
  token_json ← fetched AdapterNetwork TokenRejected InvalidToken (post_form (oa_token_url config)
    [accept_json]
    [("grant_type", "authorization_code"); ("client_id", oa_client_id config); ("code", code);
     ("redirect_uri", redirect_uri); ("code_verifier", verifier)]);
  token ← ok_or (json_str_at "access_token" token_json) InvalidToken;
  refresh_token ← ok_or (nonempty (json_str_at "refresh_token" token_json)) InvalidToken;
  scopes ← ok_or (token_scopes token_json) InvalidToken;
  _ ← guard_or (require_scopes scopes (oa_required_scopes config)) ReducedScopes;
  expires_at ← expiry_from token_json;
  identity_json ← fetched AdapterNetwork IdentityRejected UnverifiedIdentity
    (get_request_to (is_url (oa_identity config)) [BearerAuth token; accept_json]);
  identity ← lift (verified_identity identity_json (oa_identity config));
  mret (mkVerifiedCredential (oa_provider config) identity
    (to_secret (mkOAuthCredential "elegy-oauth-credential/v1" token refresh_token scopes expires_at))).

Definition verify_token (config : TokenAdapterConfig) (token : string)
    : Task Daemon AdapterError VerifiedCredential :=
  _ ← guard_or (negb (bool_decide (trim token = "")) && (String.length token <=? 4096)%nat) InvalidToken;
  _ ← guard_or (header_name_valid (ta_header config)) InvalidToken;
  _ ← guard_or (header_value_valid (ta_prefix config +:+ token)) InvalidToken;
  body ← fetched AdapterNetwork TokenRejected InvalidToken (get_request_to (is_url (ta_identity config))
    [HeaderText (ta_header config) (ta_prefix config +:+ token); accept_json]);
  identity ← lift (verified_identity body (ta_identity config));
  mret (mkVerifiedCredential (ta_provider config) identity token).

(** ** Refreshing and revoking *)
Definition refresh_oauth_credential (config : OAuthAdapterConfig) (lifecycle : OAuthLifecycle)
    (current : OAuthCredential) : Task Daemon AdapterError OAuthCredential :=
  body ← fetched AdapterNetwork TokenRejected InvalidToken (post_form (ol_refresh_url lifecycle)
    [accept_json]
    [("grant_type", "refresh_token"); ("client_id", oa_client_id config);
     ("refresh_token", oc_refresh_token current)]);
  access_token ← ok_or (nonempty (json_str_at "access_token" body)) InvalidToken;
  let scopes := default (oc_scopes current) (token_scopes body) in
  _ ← guard_or (require_scopes scopes (oa_required_scopes config)) ReducedScopes;
  let refresh_token := default (oc_refresh_token current) (nonempty (json_str_at "refresh_token" body)) in
  expires_at ← expiry_from body;
  mret (mkOAuthCredential (oc_version current) access_token refresh_token scopes expires_at).

(** The error of [replace_secret_if_generation] as the refresh reports it. *)
Definition replace_error (e : VaultError) : AdapterError :=
  match e with Conflict => RefreshConflict | _ => InvalidToken end.

Definition refresh_stored_oauth_credential (account_id : string) (config : OAuthAdapterConfig)
    (lifecycle : OAuthLifecycle) : Task Daemon AdapterError OAuthCredential :=
  stored ← map_err (fun _ => InvalidToken) (load_secret_versioned account_id);
  let '(secret, generation) := stored in
  secret ← ok_or (from_utf8 secret) InvalidToken;
  current ← map_err (fun _ => InvalidToken) (lift (from_secret secret));
  refreshed ← refresh_oauth_credential config lifecycle current;
  _ ← map_err replace_error
        (replace_secret_if_generation account_id generation (to_bytes (to_secret refreshed)));
  mret refreshed.

Definition revoke_oauth_credential (lifecycle : OAuthLifecycle) (credential : OAuthCredential)
    : Task Daemon AdapterError unit :=
  response ← http_send (post_form (ol_revocation_url lifecycle) []
    (("token", oc_refresh_token credential) ::
     match ol_revocation_token_type_hint lifecycle with
     | Some hint => [("token_type_hint", hint)]
     | None => []
     end));
  response ← ok_or response AdapterNetwork;
  guard_or (is_success response) RevocationPending.
End Adapters.
