(* ===== verification/Execution.v ===== *)
(** Running an operation with an account ([execute_authenticated] of
    [plugins/accounts/crates/elegy-accountd/src/proxy.rs] and
    [execute_typed_operation] of [typed.rs]): from a typed request of a client
    to the request that is sent to the provider with the user's credential. *)
From Stdlib Require Import Ascii.
From S2P Require Import Prelude Text Substring Json Redaction Threads Network Catalog Paths Vault Protocol Broker Adapters.

Record AuthenticatedRequest := mkAuthenticatedRequest {
  ar_lease : string; ar_client_id : string; ar_purpose : string; ar_provider : string;
  ar_operation : string; ar_method : string; ar_url : string; ar_body : option json }.
Record AuthenticatedResponse := mkAuthenticatedResponse { rs_status : Z; rs_body : json }.

Inductive ProxyError :=
| ProxyBroker (e : BrokerError)
| ProxyVault (e : VaultError)
| UnknownOperation
| DestinationDenied
| InvalidMethod
| UnsupportedCredential
| ProxyNetwork
| CredentialRefresh.

Record TypedAccountChoice := mkTypedAccountChoice { tc_id : string; tc_verified_identity : string }.
Inductive TypedExecutionOutcome :=
| Completed (status : Z) (result : json) (audit_id : string)
| InteractionRequired (request_id kind : string) (duration_minutes : Z)
| AccountSelectionRequired (accounts : list TypedAccountChoice).
Inductive TypedExecutionError :=
| InvalidOperation
| InvalidArguments
| AccountUnavailable
| TypedBroker (e : BrokerError)
| TypedProxy (e : ProxyError).

Definition DEFAULT_READ_GRANT_MINUTES : Z := (30 * 24 * 60)%Z.

Section Execution.
Context {H : Host} {P : Parsers} {Net : Network} {Texts : CredentialTexts}.
Context (catalog : ProviderCatalog).

(** ** The proxy *)
Definition same_origin (target : Url) (audience : string) : bool :=
  match url_parse audience with
  | Some audience => bool_decide (ur_scheme target = ur_scheme audience)
                     && bool_decide (ur_host target = ur_host audience)
                     && bool_decide (ur_port target = ur_port audience)
  | None => false
  end.

Definition parse_envelope (secret : string) : Result ProxyError CredentialEnvelope :=
  envelope ← some_or (credential_envelope_from_str secret) UnsupportedCredential;
  if bool_decide (cv_version envelope = "elegy-credential/v1") then Ok envelope
  else Err UnsupportedCredential.
Definition required_field (envelope : CredentialEnvelope) (name : string) : Result ProxyError string :=
  some_or (nonempty (assoc name (cv_fields envelope))) UnsupportedCredential.

Definition bearer (profile : AuthProfile) (token : string) : Header :=
  match ap_credential_header profile with
  | Some header => HeaderText header ("Bearer " +:+ token)
  | None => BearerAuth token
  end.

Definition unsupported {A} (p : Task Daemon AdapterError A) : Task Daemon ProxyError A :=
  map_err (fun _ => UnsupportedCredential) p.

(** What another task has stored in the meantime. *)
Definition reload_credential (account_id : string) : Task Daemon ProxyError OAuthCredential :=
  secret ← map_err ProxyVault (load_secret account_id);
  secret ← ok_or (from_utf8 secret) UnsupportedCredential;
  credential ← unsupported (lift (from_secret secret));
  expiring ← unsupported (expires_within credential (seconds 60));
  if expiring : bool then throw CredentialRefresh else mret credential.

(** A refresh, or what another task's refresh has stored. *)
Definition renewed_credential (provider : ProviderSpec) (profile : AuthProfile) (account_id : string)
    : Task Daemon ProxyError OAuthCredential :=
  lifecycle ← ok_or (ap_oauth_lifecycle profile) CredentialRefresh;
  client_id ← ok_or (configured_client_id profile) CredentialRefresh;
  token_url ← ok_or (ap_token_url profile) CredentialRefresh;
  let config := mkOAuthAdapterConfig (ps_id provider) client_id token_url (ap_identity profile)
                  (ap_scopes profile) in
  prog_bind (refresh_stored_oauth_credential account_id config lifecycle) (fun refreshed =>
    match refreshed with
    | Ok credential => Return (Ok credential)
    | Err RefreshConflict => reload_credential account_id
    | Err _ => throw CredentialRefresh
    end).

(** The credential of an OAuth account, renewed when it is about to expire. *)
Definition current_credential (provider : ProviderSpec) (profile : AuthProfile) (account_id secret : string)
    : Task Daemon ProxyError OAuthCredential :=
  credential ← unsupported (lift (from_secret secret));
  expiring ← unsupported (expires_within credential (seconds 60));
  if negb expiring then Return (Ok credential) else renewed_credential provider profile account_id.

(** The header with the credential, and what to keep out of the response. *)
Definition authentication (provider : ProviderSpec) (profile : AuthProfile) (account_id secret_text : string)
    : Task Daemon ProxyError (Header * list string) :=
  match ap_method profile with
  | OAuthPkce =>
      credential ← current_credential provider profile account_id secret_text;
      mret (bearer profile (oc_access_token credential),
            [secret_text; oc_access_token credential; oc_refresh_token credential])
  | DeviceAuthorization | ApiToken => mret (bearer profile secret_text, [secret_text])
  | HttpBasic =>
      envelope ← lift (parse_envelope secret_text);
      username ← lift (required_field envelope "username");
      password ← lift (required_field envelope "password");
      mret (BasicAuth username password, [secret_text; username; password])
  | ClientCredentials =>
      envelope ← lift (parse_envelope secret_text);
      client_id ← lift (required_field envelope "client_id");
      client_secret ← lift (required_field envelope "client_secret");
      token_url ← ok_or (ap_token_url profile) UnsupportedCredential;
      token_body ← fetched ProxyNetwork UnsupportedCredential UnsupportedCredential
        (post_form token_url [] (client_credentials_form client_id client_secret (ap_scopes profile)));
      access_token ← ok_or (nonempty (json_str_at "access_token" token_body)) UnsupportedCredential;
      mret (BearerAuth access_token, [secret_text; client_id; client_secret; access_token])
  | ServiceCredential => throw UnsupportedCredential
  end.

(** [Method::from_bytes], and the five methods the proxy lets through. *)
Definition allowed_method (method : string) : bool :=
  bool_decide (method ∈ ["GET"; "POST"; "PUT"; "PATCH"; "DELETE"]).

Definition execute_authenticated (request : AuthenticatedRequest)
    : Task Daemon ProxyError AuthenticatedResponse :=
  _ ← map_err ProxyBroker (authorize (ar_lease request) (ar_client_id request) (ar_purpose request)
        (ar_provider request) (ar_operation request));
  provider ← ok_or (catalog_get catalog (ar_provider request)) UnknownOperation;
  _ ← guard_or (bool_decide (is_Some (assoc (ar_operation request) (ps_operations provider))))
        UnknownOperation;
  target ← ok_or (url_parse (ar_url request)) DestinationDenied;
  profile ← ok_or (List.find (fun profile => same_origin target (ap_audience profile))
                     (ps_auth_profiles provider)) DestinationDenied;
  _ ← guard_or (allowed_method (ar_method request)) InvalidMethod;
  account_id ← map_err ProxyBroker (account_id_for_lease (ar_lease request));
  secret ← map_err ProxyVault (load_secret account_id);
  secret_text ← ok_or (from_utf8 secret) UnsupportedCredential;
  authenticated ← authentication provider profile account_id secret_text;
  let '(header, redactions) := authenticated in
  response ← http_send (mkHttpRequest (ar_method request) (ar_url request) [header]
    (match ar_body request with Some body => JsonBody body | None => NoBody end));
  response ← ok_or response ProxyNetwork;
  mret (mkAuthenticatedResponse (hp_status response)
          (sanitize redactions (default JNull (hp_json response)))).

(** ** Typed operations *)
Definition validate_result (schema result : json) : Result TypedExecutionError unit :=
  match json_get "type" schema ≫= json_as_str with
  | Some "object" =>
      fail_if (match result with JObj _ => false | _ => true end) InvalidOperation
  | Some "array" => fail_if (match result with JArr _ => false | _ => true end) InvalidOperation
  | _ => Ok tt
  end.

(** [str::trim_end_matches('/')]. *)
Fixpoint drop_slashes (l : bytes) : bytes :=
  match l with c :: l' => if bool_decide (c = "/"%char) then drop_slashes l' else l | [] => [] end.
Definition trim_end_slashes (s : string) : string := of_bytes (rev (drop_slashes (rev (to_bytes s)))).

(** What the manifest says of the request: the method and URL to call, and
    the schema of the result. *)
Definition typed_target (request : TypedExecutionRequest)
    : Result TypedExecutionError (string * string * json) :=
  provider ← some_or (catalog_get catalog (tr_provider request)) InvalidOperation;
  operation ← some_or (executable_operation catalog (tr_provider request) (tr_operation request))
    InvalidOperation;
  _ ← fail_if (bool_decide (po_risk operation = Write)) InvalidOperation;
  match po_executor operation with
  | Adapter _ _ => Err InvalidOperation
  | Http profile_id method path =>
      resolved_path ← some_or (resolve_path (po_input_schema operation) path (tr_arguments request))
        InvalidArguments;
      profile ← some_or (List.find (fun candidate => bool_decide (ap_id candidate = profile_id))
                           (ps_auth_profiles provider)) InvalidOperation;
      Ok (method, trim_end_slashes (ap_audience profile) +:+ resolved_path, po_result_schema operation)
  end.

(** The account to use, or the choice the user has. *)
Definition select_account (request : TypedExecutionRequest) (accounts : list AccountMetadata)
    : Result TypedExecutionError (AccountMetadata + list TypedAccountChoice) :=
  let matching := List.filter (fun a => bool_decide (ac_provider a = tr_provider request)
                                        && bool_decide (ac_status a = "connected")) accounts in
  match tr_account_id request, matching with
  | Some account_id, _ =>
      account ← some_or (List.find (fun a => bool_decide (ac_id a = account_id)) matching)
        AccountUnavailable;
      Ok (inl account)
  | None, [] => Err AccountUnavailable
  | None, [account] => Ok (inl account)
  | None, _ => Ok (inr (map (fun a => mkTypedAccountChoice (ac_id a) (ac_verified_identity a)) matching))
  end.

Definition usable_grant (request : TypedExecutionRequest) (account : AccountMetadata) (now : Z)
    (grant : StoredGrant) : bool :=
  negb (sg_revoked grant)
  && bool_decide (sg_account_id grant = ac_id account)
  && bool_decide (sg_provider grant = tr_provider request)
  && bool_decide (sg_client_id grant = tr_client_id request)
  && bool_decide (sg_purpose grant = tr_purpose_class request)
  && existsb (fun item => bool_decide (item = tr_operation request)) (sg_operations grant)
  && match parse_from_rfc3339 (sg_expires_at grant) with
     | Some expiry => bool_decide (now < expiry)%Z
     | None => false
     end.

Definition same_pending (request : TypedExecutionRequest) (account : AccountMetadata)
    (pending : BrokerRequest) : bool :=
  bool_decide (br_status pending = "awaiting_user")
  && bool_decide (br_account_id pending = Some (ac_id account))
  && bool_decide (br_client_id pending = Some (tr_client_id request))
  && bool_decide (br_purpose pending = tr_purpose_class request)
  && existsb (fun item => bool_decide (item = tr_operation request)) (br_operations pending).

(** Without a grant the user is asked, once per pending request. *)
Definition ask_user (request : TypedExecutionRequest) (account : AccountMetadata)
    : Task Daemon TypedExecutionError TypedExecutionOutcome :=
  requests ← map_err TypedBroker list_requests;
  pending ← match List.find (same_pending request account) requests with
            | Some pending => mret pending
            | None => map_err TypedBroker (request_access (mkNewAccessRequest (ac_id account)
                        (tr_client_id request) (tr_purpose_class request) [tr_operation request]
                        DEFAULT_READ_GRANT_MINUTES))
            end;
  mret (InteractionRequired (br_id pending) "approve_read_access" (br_duration_minutes pending)).

(** With one the operation is run under a lease of its own. *)
Definition run_granted (request : TypedExecutionRequest) (grant : StoredGrant) (method url : string)
    (result_schema : json) : Task Daemon TypedExecutionError TypedExecutionOutcome :=
  lease ← map_err TypedBroker (issue_single_use_lease (sg_id grant) 15);
  response ← map_err TypedProxy (execute_authenticated (mkAuthenticatedRequest (ol_token lease)
    (tr_client_id request) (tr_purpose_class request) (tr_provider request) (tr_operation request)
    method url None));
  _ ← lift (validate_result result_schema (rs_body response));
  uuid ← new_uuid;
  let audit_id := "audit_" +:+ uuid in
  _ ← map_err TypedBroker (audit "operation.completed" (Some (sg_account_id grant)) (json_object
        [("audit_id", JStr audit_id); ("client_id", JStr (tr_client_id request));
         ("provider", JStr (tr_provider request)); ("operation", JStr (tr_operation request));
         ("provider_status", JInt (rs_status response))]));
  mret (Completed (rs_status response) (rs_body response) audit_id).

Definition execute_typed_operation (request : TypedExecutionRequest)
    : Task Daemon TypedExecutionError TypedExecutionOutcome :=
  target ← lift (typed_target request);
  let '(method, url, result_schema) := target in
  accounts ← map_err (fun e => TypedBroker (VaultFailure e)) list_accounts;
  selected ← lift (select_account request accounts);
  match selected with
  | inr choices => mret (AccountSelectionRequired choices)
  | inl account =>
      now ← utc_now;
      grants ← map_err TypedBroker list_grants;
      match List.find (usable_grant request account now) grants with
      | None => ask_user request account
      | Some grant => run_granted request grant method url result_schema
      end
  end.
End Execution.
