(* ===== verification/Center.v ===== *)
(** The account center ([plugins/accounts/crates/elegy-account-cli/src/main.rs]):
    the handlers behind which the user connects and disconnects accounts and
    decides requests, the worker that waits for a device authorization, and
    the pipe over which clients run typed operations. *)
From Stdlib Require Import Ascii.
From S2P Require Import Prelude Text Substring Json Redaction Threads Network Catalog Paths Vault Protocol Broker Adapters Execution.

(** A response: its status, the [status] or [error] it carries and, for the
    start of an OAuth flow, the query of the authorization URL.  Messages for
    the reader are left out. *)
Record WebResponse := mkWebResponse {
  wr_status : Z; wr_code : string; wr_query : list (string * string) }.
Definition web (status : Z) (code : string) : WebResponse := mkWebResponse status code [].

Record DeviceFlowConfig := mkDeviceFlowConfig {
  df_provider : string; df_client_id : string; df_scope : string; df_device_url : string;
  df_token_url : string; df_identity : IdentitySpec }.
Record DeviceAuthorizationGrant := mkDeviceAuthorizationGrant {
  dv_device_code : string; dv_user_code : string; dv_verification_uri : string;
  dv_expires_in : Z; dv_interval : Z }.
Inductive DevicePoll :=
| PollPending (interval : Z)
| PollSlowDown (interval : Z)
| PollComplete (credential : VerifiedCredential)
| PollDenied (reason : string).

Inductive PipeError :=
| PipeProtocol (e : ExecutionProtocolError)
| PipeExecution (e : TypedExecutionError).

Definition u64_max : Z := (2 ^ 64 - 1)%Z.
Definition u32_max : Z := (2 ^ 32 - 1)%Z.
(** [Value::as_u64]. *)
Definition json_as_u64 (v : json) : option Z :=
  match v with JInt z => if bool_decide (0 <= z <= u64_max)%Z then Some z else None | _ => None end.

(** [p.ok()], and [let _ = p]. *)
Definition attempt {E E' A} (p : Task Daemon E A) : Task Daemon E' (option A) :=
  prog_bind p (fun r => Return (Ok (match r with Ok a => Some a | Err _ => None end))).
Definition ignore {E E' A} (p : Task Daemon E A) : Task Daemon E' unit :=
  prog_bind p (fun _ => Return (Ok tt)).
(** [match p { Ok(x) => f(x), Err(e) => error }]. *)
Definition respond_with {E E' A} (p : Task Daemon E A) (ok error : WebResponse) : Task Daemon E' WebResponse :=
  prog_bind p (fun r => Return (Ok (match r with Ok _ => ok | Err _ => error end))).

Section Center.
Context {H : Host} {P : Parsers} {Net : Network} {Texts : CredentialTexts} {Sg : Signing}.
Context (catalog : ProviderCatalog) (client_key : bytes).

(** A handler: an early [return] is the error of the task. *)
Definition Handler := Task Daemon WebResponse WebResponse.

(** The value of the header [x-elegy-intent], if there is one. *)
Definition valid_user_intent (intent : option string) : bool := bool_decide (intent = Some "user-action").
Definition intended (intent : option string) : Task Daemon WebResponse unit :=
  guard_or (valid_user_intent intent) (web 403 "user_intent_required").

(** ** Requests, grants and accounts *)
Definition web_approve (intent : option string) (id : string) : Handler :=
  _ ← intended intent;
  respond_with (approve_access id) (web 200 "grant") (web 409 "approval_failed").
Definition web_cancel (intent : option string) (id : string) : Handler :=
  _ ← intended intent;
  respond_with (cancel_request id) (web 200 "cancelled") (web 409 "cancellation_failed").
Definition web_revoke (intent : option string) (id : string) : Handler :=
  _ ← intended intent;
  respond_with (revoke_grant id "revoked in Account Center") (web 200 "revoked") (web 409 "revocation_failed").

Definition account_lifecycle (account : option AccountMetadata) : option OAuthLifecycle :=
  account ← account;
  provider ← catalog_get catalog (ac_provider account);
  profile ← List.find (fun profile => bool_decide (ap_method profile = OAuthPkce))
              (ps_auth_profiles provider);
  ap_oauth_lifecycle profile.

Definition web_disconnect (intent : option string) (id : string) : Handler :=
  _ ← intended intent;
  accounts ← attempt list_accounts;
  let account := (accounts ≫= List.find (fun a => bool_decide (ac_id a = id))) : option AccountMetadata in
  let lifecycle := account_lifecycle account in
  _ ← guard_or (negb (match account with
                      | Some account => bool_decide (ac_auth_method account = "oauth_pkce")
                      | None => false
                      end && negb (bool_decide (is_Some lifecycle))))
        (web 412 "provider_revocation_unsupported");
  match lifecycle with
  | Some lifecycle =>
      _ ← map_err (fun _ => web 409 "disconnect_failed") (begin_provider_disconnect id);
      secret ← attempt (load_secret id);
      credential ← ok_or (match secret ≫= from_utf8 with
                          | Some text => match from_secret text with Ok c => Some c | Err _ => None end
                          | None => None
                          end) (web 502 "stored_oauth_credential_invalid");
      _ ← map_err (fun _ => web 502 "provider_revocation_failed")
            (revoke_oauth_credential lifecycle credential);
      respond_with (complete_provider_disconnect id) (web 200 "disconnected") (web 409 "disconnect_failed")
  | None =>
      respond_with (disconnect_account id) (web 200 "disconnected") (web 409 "disconnect_failed")
  end.

(** ** Connecting an account with a credential the user enters *)
Definition token_config (provider : string) (profile : AuthProfile) : TokenAdapterConfig :=
  mkTokenAdapterConfig provider (ap_identity profile) (default "authorization" (ap_credential_header profile))
    "Bearer ".

Definition store_verified (verified : VerifiedCredential) (auth_method : string) (failed : WebResponse)
    : Handler :=
  respond_with (store_account (vc_provider verified) (vc_identity verified) auth_method
                  (to_bytes (vc_secret verified))) (web 200 "connected") failed.

(** [format!("{:?}", method).to_ascii_lowercase()]. *)
Definition method_debug (method : AuthMethod) : string :=
  match method with
  | OAuthPkce => "oauthpkce"
  | DeviceAuthorization => "deviceauthorization"
  | ApiToken => "apitoken"
  | HttpBasic => "httpbasic"
  | ClientCredentials => "clientcredentials"
  | ServiceCredential => "servicecredential"
  end.

Definition web_connect_credential (intent : option string) (provider profile_id : string)
    (fields : list (string * string)) : Handler :=
  _ ← intended intent;
  profile ← ok_or (profile catalog provider profile_id) (web 404 "credential_profile_not_found");
  verified ←
    (if bool_decide (ap_method profile = ApiToken) then
       token ← ok_or (assoc "token" fields) (web 400 "credential_fields_missing");
       map_err (fun _ => web 401 "credential_verification_failed")
         (verify_token (token_config provider profile) token)
     else map_err (fun _ => web 401 "credential_verification_failed")
            (verify_credentials provider profile fields));
  store_verified verified (method_debug (ap_method profile)) (web 500 "vault_store_failed").

Definition web_connect_token (intent : option string) (provider token : string) : Handler :=
  _ ← intended intent;
  profile ← ok_or (pack ← catalog_get catalog provider;
                   List.find (fun profile => bool_decide (ap_method profile = ApiToken)) (ps_auth_profiles pack))
              (web 404 "token_profile_not_found");
  verified ← map_err (fun _ => web 401 "token_verification_failed")
               (verify_token (token_config provider profile) token);
  store_verified verified "api_token" (web 500 "vault_store_failed").

(** ** OAuth with PKCE *)
Definition random_urlsafe {E} (len : nat) : Task Daemon E string :=
  value ← fill len; mret (base64_encode value).
(** [OAuthTransaction::new]. *)
Definition new_transaction {E} (provider_id : string) : Task Daemon E OAuthTransaction :=
  state ← random_urlsafe 32;
  nonce ← random_urlsafe 32;
  verifier ← random_urlsafe 64;
  mret (mkOAuthTransaction provider_id state nonce verifier (base64_encode (sha256 (to_bytes verifier)))).

Definition oauth_config (provider : string) (profile : AuthProfile) : option OAuthConfig :=
  client_id ← configured_client_id profile;
  authorize_url ← ap_authorization_url profile;
  token_url ← ap_token_url profile;
  Some (mkOAuthConfig provider client_id authorize_url token_url (ap_identity profile)
          (String.concat " " (ap_scopes profile))).
Definition device_config (provider : string) (profile : AuthProfile) : option DeviceFlowConfig :=
  client_id ← configured_client_id profile;
  device_url ← ap_device_authorization_url profile;
  token_url ← ap_token_url profile;
  Some (mkDeviceFlowConfig provider client_id (String.concat " " (ap_scopes profile)) device_url token_url
          (ap_identity profile)).

Definition redirect_uri : string := "http://127.0.0.1:43119/oauth/callback".
(** The pairs appended to the query of the authorization URL. *)
Definition authorization_query (config : OAuthConfig) (t : OAuthTransaction) (profile : AuthProfile)
    : list (string * string) :=
  [("client_id", og_client_id config); ("redirect_uri", redirect_uri); ("response_type", "code");
   ("scope", og_scopes config); ("state", ot_state t); ("nonce", ot_nonce t);
   ("code_challenge", ot_pkce_challenge t); ("code_challenge_method", "S256")]
  ++ ap_authorization_parameters profile.

(** The map of flows in progress: [insert], and [remove] with what was there. *)
Definition remember_flow {E} (key : string) (pending : PendingOAuth) : Task Daemon E unit :=
  Atomic (fun s => (tt, s <| dm_oauth ::= <[key := pending]> |>)) (fun _ => Return (Ok tt)).
Definition take_flow {E} (key : string) : Task Daemon E (option PendingOAuth) :=
  Atomic (fun s => (dm_oauth s !! key, s <| dm_oauth ::= delete key |>)) (fun p => Return (Ok p)).

Definition start_oauth (provider : string) (profile : AuthProfile) : Handler :=
  config ← ok_or (oauth_config provider profile) (web 428 "provider_configuration_required");
  transaction ← new_transaction provider;
  _ ← ok_or (url_parse (og_authorize_url config)) (web 500 "invalid_provider_configuration");
  _ ← remember_flow (ot_state transaction) (mkPendingOAuth transaction config);
  mret (mkWebResponse 200 "authorization_url" (authorization_query config transaction profile)).

(** [oauth_redirect]: the status in the location is cut to letters, digits and [_]. *)
Definition is_redirect_byte (c : ascii) : bool :=
  is_ascii_alphanumeric c || bool_decide (c = "_"%char).
Definition oauth_redirect (status : string) : WebResponse :=
  web 303 (of_bytes (List.filter is_redirect_byte (to_bytes status))).

Definition web_oauth_callback (code state error : option string) : Handler :=
  _ ← guard_or (negb (bool_decide (is_Some error))) (oauth_redirect "authorization_denied");
  code ← ok_or code (oauth_redirect "invalid_callback");
  callback_state ← ok_or state (oauth_redirect "invalid_callback");
  pending ← take_flow callback_state;
  pending ← ok_or pending (oauth_redirect "invalid_or_expired_state");
  let transaction := pd_transaction pending in
  let config := pd_config pending in
  _ ← guard_or (bool_decide (ot_state transaction = callback_state)) (oauth_redirect "state_mismatch");
  let adapter := mkOAuthAdapterConfig (og_provider config) (og_client_id config) (og_token_url config)
                   (og_identity config) (split_whitespace (og_scopes config)) in
  verified ← map_err (fun _ => oauth_redirect "provider_verification_failed")
               (exchange_and_verify adapter code (ot_pkce_verifier transaction) redirect_uri);
  respond_with (store_account (vc_provider verified) (vc_identity verified) "oauth_pkce"
                  (to_bytes (vc_secret verified)))
    (oauth_redirect ("connected_" +:+ og_provider config)) (oauth_redirect "vault_store_failed").

(** ** Device authorization *)

(** [start_device_flow]; its errors are all answered the same way. *)
Definition start_device_flow (config : DeviceFlowConfig) : Task Daemon unit DeviceAuthorizationGrant :=
  value ← fetched tt tt tt (post_form (df_device_url config) [accept_json]
            [("client_id", df_client_id config); ("scope", df_scope config)]);
  device_code ← ok_or (json_str_at "device_code" value) tt;
  user_code ← ok_or (json_str_at "user_code" value) tt;
  verification_uri ← ok_or (json_str_at "verification_uri" value) tt;
  mret (mkDeviceAuthorizationGrant device_code user_code verification_uri
          (default 900%Z (json_get "expires_in" value ≫= json_as_u64))
          (Z.max (default 5%Z (json_get "interval" value ≫= json_as_u64)) 1)).

Definition denied_reason (error : string) : DevicePoll :=
  match error with
  | "authorization_pending" => PollPending 0
  | "slow_down" => PollSlowDown 5
  | "access_denied" => PollDenied "access_denied"
  | "expired_token" => PollDenied "expired_token"
  | _ => PollDenied "provider_rejected_authorization"
  end.

(** The identity of a device flow: a text or a natural number. *)
Definition device_identity (spec : IdentitySpec) (body : json) : option string :=
  value ← find_map (fun pointer => json_pointer pointer body) (is_selectors spec);
  match json_as_str value with
  | Some text => Some text
  | None => match json_as_u64 value with Some _ => Some (value_to_string value) | None => None end
  end.

Definition poll_device_flow (config : DeviceFlowConfig) (device_code : string)
    : Task Daemon unit DevicePoll :=
  response ← http_send (post_form (df_token_url config) [accept_json]
    [("client_id", df_client_id config); ("device_code", device_code);
     ("grant_type", "urn:ietf:params:oauth:grant-type:device_code")]);
  response ← ok_or response tt;
  value ← ok_or (hp_json response) tt;
  match json_str_at "error" value with
  | Some error => mret (denied_reason error)
  | None =>
      if negb (is_success response) then mret (PollDenied "provider_rejected_authorization")
      else
        secret ← ok_or (json_str_at "access_token" value) tt;
        identity_json ← fetched tt tt tt
          (get_request_to (is_url (df_identity config)) [BearerAuth secret; accept_json]);
        identity ← ok_or (device_identity (df_identity config) identity_json) tt;
        mret (PollComplete (mkVerifiedCredential (df_provider config) identity secret))
  end.

Definition active_session (provider : string) (session : AuthorizationSession) : bool :=
  bool_decide (as_provider session = provider)
  && bool_decide (as_status session ∈ ["waiting_for_user"; "interaction_required"]).

(** The loop that ends the provider's earlier sessions. *)
Fixpoint supersede (now : string) (sessions : list AuthorizationSession) : Task Daemon WebResponse unit :=
  match sessions with
  | [] => mret tt
  | session :: sessions' =>
      _ ← ignore (update_authorization_session
            (session <| as_status := "superseded" |> <| as_updated_at := now |>));
      _ ← ignore (delete_authorization_secret (as_id session));
      supersede now sessions'
  end.

Definition web_start_device (config : DeviceFlowConfig) : Handler :=
  authorization ← map_err (fun _ => web 502 "device_authorization_failed") (start_device_flow config);
  uuid ← new_uuid;
  let request_id := "auth_" +:+ uuid in
  now ← utc_now;
  let text := to_rfc3339 now in
  existing ← attempt list_authorization_sessions;
  _ ← supersede text (List.filter (active_session (df_provider config)) (default [] existing));
  let session := mkAuthorizationSession request_id (df_provider config) "waiting_for_user"
        (dv_user_code authorization) (dv_verification_uri authorization)
        (to_rfc3339 (now + seconds (dv_expires_in authorization))) (dv_interval authorization)
        (to_rfc3339 (now + seconds (dv_interval authorization))) 0 None text text in
  respond_with (store_authorization_session session (to_bytes (dv_device_code authorization)))
    (web 200 "device") (web 500 "authorization_store_failed").

Definition web_start_connection (intent : option string) (provider : string) : Handler :=
  _ ← intended intent;
  pack ← ok_or (catalog_get catalog provider) (web 404 "provider_not_found");
  profile ← ok_or (head (ps_auth_profiles pack)) (web 428 "provider_has_no_auth_profile");
  match ap_method profile with
  | DeviceAuthorization =>
      config ← ok_or (device_config provider profile) (web 428 "provider_configuration_required");
      web_start_device config
  | ApiToken | HttpBasic | ClientCredentials | ServiceCredential => mret (web 200 "manual_credential")
  | OAuthPkce => start_oauth provider profile
  end.

(** *** The worker of a session

    [device_worker] is one round of the loop of [spawn_device_worker]; it
    answers whether there is another one (after a sleep, if it was early). *)
Inductive Round := Again | Finished.

(** What a poll that connected no account does to the session. *)
Definition poll_session (poll : Result unit DevicePoll) (session : AuthorizationSession)
    : AuthorizationSession :=
  match poll with
  | Ok (PollDenied "expired_token") =>
      session <| as_status := "interaction_required" |> <| as_user_code := "" |>
              <| as_last_error := Some "expired_token" |>
  | Ok (PollDenied reason) =>
      session <| as_status := "interaction_required" |> <| as_last_error := Some reason |>
  | Ok (PollSlowDown interval) =>
      session <| as_interval_seconds := Z.max (Z.min (as_interval_seconds session + interval) u64_max) 5 |>
  | Ok (PollPending interval) =>
      session <| as_interval_seconds := Z.max (Z.max (as_interval_seconds session) interval) 1 |>
  | Ok (PollComplete _) => session
  | Err _ => session <| as_last_error := Some "temporary_provider_error" |>
  end.
Definition poll_expired (poll : Result unit DevicePoll) : bool :=
  match poll with Ok (PollDenied "expired_token") => true | _ => false end.

(** A provider that has verified the user: the account, and the session closed. *)
Definition connect_session (session : AuthorizationSession) (verified : VerifiedCredential)
    : Task Daemon WebResponse Round :=
  stored ← attempt (store_account (vc_provider verified) (vc_identity verified) "oauth_device"
                      (to_bytes (vc_secret verified)));
  if bool_decide (is_Some stored) then
    updated_at ← now_text;
    _ ← ignore (update_authorization_session (session <| as_status := "connected" |>
          <| as_user_code := "" |> <| as_last_error := None |> <| as_updated_at := updated_at |>));
    _ ← ignore (delete_authorization_secret (as_id session));
    mret Finished
  else mret Finished.

Definition continue_session (session : AuthorizationSession) (poll : Result unit DevicePoll)
    : Task Daemon WebResponse Round :=
  let session := poll_session poll session in
  _ ← (if poll_expired poll then ignore (delete_authorization_secret (as_id session)) else mret tt);
  updated ← utc_now;
  let session := session <| as_updated_at := to_rfc3339 updated |>
    <| as_next_poll_at := to_rfc3339 (updated + seconds (as_interval_seconds session)) |> in
  _ ← ignore (update_authorization_session session);
  mret (if bool_decide (as_status session = "waiting_for_user") then Again else Finished).

Definition session_config (session : AuthorizationSession) : option DeviceFlowConfig :=
  pack ← catalog_get catalog (as_provider session);
  profile ← List.find (fun profile => bool_decide (ap_method profile = DeviceAuthorization))
              (ps_auth_profiles pack);
  device_config (as_provider session) profile.

Definition poll_round (session : AuthorizationSession) (now : string) : Task Daemon WebResponse Round :=
  match session_config session with
  | None =>
      _ ← ignore (update_authorization_session (session <| as_status := "interaction_required" |>
            <| as_last_error := Some "provider_configuration_required" |> <| as_updated_at := now |>));
      mret Finished
  | Some config =>
      secret ← attempt (load_authorization_secret (as_id session));
      match secret with
      | None => mret Finished
      | Some secret =>
          let session := session <| as_attempts := Z.min (as_attempts session + 1) u64_max |> in
          prog_bind (poll_device_flow config (from_utf8_lossy secret)) (fun poll =>
            match poll with
            | Ok (PollComplete verified) => connect_session session verified
            | _ => continue_session session poll
            end)
      end
  end.

Definition device_worker (session_id : string) : Task Daemon WebResponse Round :=
  sessions ← attempt list_authorization_sessions;
  match sessions ≫= List.find (fun item => bool_decide (as_id item = session_id)) with
  | None => mret Finished
  | Some session =>
      if negb (bool_decide (as_status session = "waiting_for_user")) then mret Finished
      else
        now ← utc_now;
        if match parse_from_rfc3339 (as_expires_at session) with
           | Some expiry => bool_decide (expiry <= now)%Z
           | None => true
           end
        then
          _ ← ignore (update_authorization_session (session <| as_status := "interaction_required" |>
                <| as_user_code := "" |> <| as_last_error := Some "expired_token" |>
                <| as_updated_at := to_rfc3339 now |>));
          _ ← ignore (delete_authorization_secret (as_id session));
          mret Finished
        else if bool_decide (now < default now (parse_from_rfc3339 (as_next_poll_at session)))%Z
        then mret Again
        else poll_round session (to_rfc3339 now)
  end.

(** ** The pipe *)
Definition pipe_verify (envelope : ExecutionEnvelope)
    : Task Daemon ExecutionProtocolError TypedExecutionRequest :=
  Atomic (fun s =>
    let '(r, replay) := verify envelope client_key "codex-actions" (now_at (dm_readings s)) (dm_replay s) in
    (r, s <| dm_readings ::= S |> <| dm_replay := replay |>)) Return.

(** What [run_execution_pipe] does with an envelope it has read. *)
Definition execute_envelope (envelope : ExecutionEnvelope) : Task Daemon PipeError TypedExecutionOutcome :=
  request ← map_err PipeProtocol (pipe_verify envelope);
  map_err PipeExecution (execute_typed_operation catalog request).
End Center.
