(* ===== verification/Tools.v ===== *)
(** The tools that agents call ([plugins/accounts/crates/elegy-account-cli/src/main.rs]):
    the account tools over the broker, the typed actions that go through the
    pipe, and the native host of the browser extension.  Answers keep the data
    of the JSON texts; messages are left out. *)
From Stdlib Require Import Ascii.
From stdpp Require Import pretty.
From S2P Require Import Prelude Text Substring Json Redaction Table Threads Network Catalog Paths Vault Protocol Broker Adapters Execution Center.

(** ** Calls of the tools, with their parameters *)
Inductive ToolCall :=
| AccountList (provider : option string)
| AccountDiscover (provider : option string)
| AccountRequire (provider purpose : string) (operations : list string) (account_id : option string)
| AccountRequestAccess (account_id purpose : string) (operations : list string)
    (duration_minutes : option Z)
| AccountRequestCreation (provider purpose : string) (constraints : option (list string))
| AccountRequestStatus (request_id : string)
| AccountAttentionList (limit : option nat)
| AccountCancelRequest (request_id : string)
| AccountResumeRequest (request_id : string)
| AccountRevokeGrant (grant_id : string) (reason : option string)
| AccountAuditList (account_id : option string) (limit : option nat)
| GithubProfileRead (account_id : option string)
| GithubRepositoriesRead (account_id : option string)
| CloudflareZonesRead (account_id : option string)
| CloudflareDnsRecordsRead (account_id : option string) (zone_id : string).

(** An entry of the attention list. *)
Record Attention := mkAttention {
  at_request_id : string; at_kind : string; at_provider : option string;
  at_purpose : option string; at_status : string; at_expires_at : option string;
  at_reason : option string; at_url : string }.

Inductive ToolAnswer :=
| ToolAccounts (accounts : list AccountMetadata)
| ToolProviders (providers : list ProviderSpec)
| ToolAvailable (account : AccountMetadata) (purpose : string) (operations : list string)
| ToolConnect (provider purpose : string) (operations : list string)
| ToolRequested (request_id status kind : string)
| ToolLease (request_id : string) (grant : StoredGrant) (lease : OpaqueLease)
| ToolRequest (request : BrokerRequest)
| ToolAttention (attention : list Attention)
| ToolStatus (id status : string)
| ToolResume (request_id url : string)
| ToolEvents (events : list AuditEvent)
| ToolOutcome (outcome : TypedExecutionOutcome)
| ToolError (code : string).

(** ** Addresses of the account center *)

(** [str::parse::<u16>]: decimal digits, perhaps after a plus sign. *)
Definition parse_u16 (s : string) : option Z :=
  let l := to_bytes s in
  let digits := default l (strip_prefix [ "+"%char ] l) in
  if bool_decide (digits = []) || negb (forallb is_digit digits) then None
  else let n := fold_left (fun n c => 10 * n + (Z.of_nat (nat_of_ascii c) - 48))%Z digits 0%Z in
       if bool_decide (n <= 65535)%Z then Some n else None.

Section Tools.
Context {H : Host} {P : Parsers} {Net : Network} {Texts : CredentialTexts} {Sg : Signing}.
Context (catalog : ProviderCatalog) (client_key : bytes).

Definition account_center_port : Z :=
  default 43119%Z (value ← env_var "ELEGY_ACCOUNT_CENTER_PORT"; port ← parse_u16 value;
                   if bool_decide (0 < port)%Z then Some port else None).
Definition account_center_url : string := "http://127.0.0.1:" +:+ pretty account_center_port +:+ "/".
Definition request_url (request_id : option string) : option string :=
  match request_id with
  | None => Some account_center_url
  | Some request_id =>
      if is_safe_path_segment request_id then Some (account_center_url +:+ "?request=" +:+ request_id)
      else None
  end.

(** A tool answers errors too. *)
Definition Tool := Task Daemon ToolAnswer ToolAnswer.
(** [match p { Ok(x) => f(x), Err(e) => error }]. *)
Definition tool_with {E A} (p : Task Daemon E A) (f : A -> ToolAnswer) (code : string) : Tool :=
  prog_bind p (fun r => Return (Ok (match r with Ok a => f a | Err _ => ToolError code end))).
(** [unwrap_or_default]. *)
Definition or_empty {E A} (p : Task Daemon E (list A)) : Task Daemon ToolAnswer (list A) :=
  l ← attempt p; mret (default [] l).
(** [option.is_none_or(|x| x == y)]. *)
Definition none_or_eq (x : option string) (y : string) : bool :=
  match x with Some x => bool_decide (x = y) | None => true end.

(** ** The account tools *)
Definition account_list (provider : option string) : Tool :=
  tool_with list_accounts (fun accounts =>
    ToolAccounts (List.filter (fun a => none_or_eq provider (ac_provider a)) accounts)) "vault_unavailable".

(** [ProviderCatalog::list]; providers of one display name stand in the order
    of the [HashMap]. *)
Definition catalog_list : list ProviderSpec :=
  order_by (asc_str ps_display_name) (map snd (map_to_list (pc_providers catalog))).
Definition account_discover (provider : option string) : Tool :=
  mret (ToolProviders (List.filter (fun p => none_or_eq provider (ps_id p)) catalog_list)).

Definition account_require (provider purpose : string) (operations : list string)
    (account_id : option string) : Tool :=
  accounts ← or_empty list_accounts;
  mret (match List.find (fun a => bool_decide (ac_provider a = provider) && none_or_eq account_id (ac_id a))
                accounts with
        | Some account => ToolAvailable account purpose operations
        | None => ToolConnect provider purpose operations
        end).

Definition requested_answer (request : BrokerRequest) : ToolAnswer :=
  ToolRequested (br_id request) (br_status request) (br_kind request).
Definition account_request_access (account_id purpose : string) (operations : list string)
    (duration_minutes : option Z) : Tool :=
  tool_with (request_access (mkNewAccessRequest account_id "codex-local" purpose operations
               (Z.min (default 60%Z duration_minutes) 1440))) requested_answer "request_failed".
Definition account_request_creation (provider purpose : string) (constraints : option (list string)) : Tool :=
  tool_with (request_creation (provider +:+ ":" +:+ purpose) provider purpose (default [] constraints))
    requested_answer "request_failed".

(** A lease for a request that was approved. *)
Definition lease_of_request (request_id : string) : Broker (StoredGrant * OpaqueLease) :=
  grant ← grant_for_request request_id;
  lease ← issue_lease (sg_id grant) 15;
  mret (grant, lease).
Definition account_request_status (request_id : string) : Tool :=
  request ← attempt (get_request request_id);
  match request with
  | None => mret (ToolStatus request_id "not_found")
  | Some request =>
      if bool_decide (br_status request = "approved") && bool_decide (br_kind request = "access")
      then tool_with (lease_of_request (br_id request))
             (fun r => ToolLease (br_id request) (fst r) (snd r)) "lease_unavailable"
      else mret (ToolRequest request)
  end.

Definition attention_of_request (request : BrokerRequest) : Attention :=
  mkAttention (br_id request) (br_kind request) (br_provider request) (Some (br_purpose request))
    (br_status request) None None (account_center_url +:+ "?request=" +:+ br_id request).
Definition attention_of_session (session : AuthorizationSession) : Attention :=
  mkAttention (as_id session) "authorization" (Some (as_provider session)) None (as_status session)
    (Some (as_expires_at session)) (as_last_error session) (account_center_url +:+ "?request=" +:+ as_id session).
Definition account_attention_list (limit : option nat) : Tool :=
  let limit := Nat.min (default 50 limit) 200 in
  requests ← or_empty list_requests;
  sessions ← or_empty list_authorization_sessions;
  mret (ToolAttention (take limit (
    map attention_of_request (List.filter (fun r =>
      bool_decide (br_status r ∈ ["awaiting_user"; "waiting_human"; "interaction_required"])) requests)
    ++ map attention_of_session (List.filter (fun s =>
      bool_decide (as_status s ∈ ["waiting_for_user"; "interaction_required"])) sessions)))).

Definition account_cancel_request (request_id : string) : Tool :=
  cancelled ← attempt (cancel_request request_id);
  if bool_decide (is_Some cancelled) then mret (ToolStatus request_id "cancelled")
  else
    sessions ← or_empty list_authorization_sessions;
    match List.find (fun s => bool_decide (as_id s = request_id)) sessions with
    | None => mret (ToolStatus request_id "not_found")
    | Some session =>
        now ← now_text;
        _ ← ignore (update_authorization_session
              (session <| as_status := "cancelled" |> <| as_user_code := "" |> <| as_updated_at := now |>));
        _ ← ignore (delete_authorization_secret (as_id session));
        mret (ToolStatus request_id "cancelled")
    end.

Definition account_resume_request (request_id : string) : Tool :=
  request ← attempt (get_request request_id);
  exists_ ← (if bool_decide (is_Some request) then mret true
             else sessions ← or_empty list_authorization_sessions;
                  mret (existsb (fun s => bool_decide (as_id s = request_id)) sessions));
  mret (if exists_ : bool then ToolResume request_id (account_center_url +:+ "?request=" +:+ request_id)
        else ToolStatus request_id "not_found").

Definition account_revoke_grant (grant_id : string) (reason : option string) : Tool :=
  tool_with (revoke_grant grant_id (default "agent requested revocation" reason))
    (fun _ => ToolStatus grant_id "revoked") "revocation_failed".

Definition account_audit_list (account_id : option string) (limit : option nat) : Tool :=
  events ← or_empty (list_audit (Nat.min (default 50 limit) 200));
  mret (ToolEvents (List.filter (fun e =>
    match account_id with Some id => bool_decide (ae_account_id e = Some id) | None => true end) events)).

(** ** Typed actions *)

(** [action_request]: the tool decides client, purpose, provider and operation. *)
Definition action_request (tool : string) (account_id : option string) (arguments : json)
    : option TypedExecutionRequest :=
  '(provider, operation, purpose_class) ←
    match tool with
    | "github_profile_read" => Some ("github", "profile.read", "github.profile.read")
    | "github_repositories_read" => Some ("github", "repositories.read", "github.repositories.read")
    | "cloudflare_zones_read" => Some ("cloudflare", "zones.read", "cloudflare.zones.read")
    | "cloudflare_dns_records_read" => Some ("cloudflare", "dns.records.read", "cloudflare.dns.records.read")
    | _ => None
    end;
  Some (mkTypedExecutionRequest "codex-actions" purpose_class provider operation account_id arguments).

(** [TypedExecutionError::code], and the code that goes over the pipe: the
    text before the colon when it looks like one. *)
Definition execution_code (e : TypedExecutionError) : string :=
  match e with
  | InvalidOperation => "invalid_operation"
  | InvalidArguments => "invalid_operation_arguments"
  | AccountUnavailable => "account_unavailable"
  | TypedBroker _ => "broker_unavailable"
  | TypedProxy _ => "sanitized_provider_error"
  end.
Definition wire_code (e : PipeError) : string :=
  match e with PipeExecution e => execution_code e | PipeProtocol _ => "execution_failed" end.

(** [invoke_action] and [call_execution_broker], with the pipe's other end. *)
Definition invoke_action (request : option TypedExecutionRequest) : Tool :=
  match request with
  | None => mret (ToolError "invalid_operation")
  | Some request =>
      now ← utc_now;
      uuid ← new_uuid;
      match sign request client_key now ("nonce_" +:+ uuid) with
      | Err _ => mret (ToolError "broker_unavailable")
      | Ok envelope =>
          prog_bind (execute_envelope catalog client_key envelope) (fun r =>
            Return (Ok (match r with Ok outcome => ToolOutcome outcome | Err e => ToolError (wire_code e) end)))
      end
  end.

Definition run_tool (c : ToolCall) : Tool :=
  match c with
  | AccountList provider => account_list provider
  | AccountDiscover provider => account_discover provider
  | AccountRequire provider purpose operations account_id =>
      account_require provider purpose operations account_id
  | AccountRequestAccess account_id purpose operations duration =>
      account_request_access account_id purpose operations duration
  | AccountRequestCreation provider purpose constraints =>
      account_request_creation provider purpose constraints
  | AccountRequestStatus request_id => account_request_status request_id
  | AccountAttentionList limit => account_attention_list limit
  | AccountCancelRequest request_id => account_cancel_request request_id
  | AccountResumeRequest request_id => account_resume_request request_id
  | AccountRevokeGrant grant_id reason => account_revoke_grant grant_id reason
  | AccountAuditList account_id limit => account_audit_list account_id limit
  | GithubProfileRead account_id =>
      invoke_action (action_request "github_profile_read" account_id (JObj []))
  | GithubRepositoriesRead account_id =>
      invoke_action (action_request "github_repositories_read" account_id (JObj []))
  | CloudflareZonesRead account_id =>
      invoke_action (action_request "cloudflare_zones_read" account_id (JObj []))
  | CloudflareDnsRecordsRead account_id zone_id =>
      invoke_action (action_request "cloudflare_dns_records_read" account_id
        (JObj [("zone_id", JStr zone_id)]))
  end.
End Tools.

(** ** The native host *)
Definition NATIVE_SECRET_KEYS : list string :=
  ["authorization"; "password"; "cookie"; "set-cookie"; "access_token"; "refresh_token"; "api_key";
   "client_secret"; "secret"; "token"].
Fixpoint contains_secret_key (value : json) : bool :=
  match value with
  | JObj m => existsb (fun e => existsb (eq_ignore_ascii_case (fst e)) NATIVE_SECRET_KEYS
                                || contains_secret_key (snd e)) m
  | JArr items => existsb contains_secret_key items
  | _ => false
  end.

(** [handle_native_message], given what loading the catalog gave. *)
Definition handle_native_message (catalog : option ProviderCatalog) (message : json) : json :=
  let kind := json_str_at "type" message in
  if bool_decide (kind = Some "account.providers") && negb (contains_secret_key message) then
    match catalog with
    | Some catalog => json_object [("ok", JBool true); ("providers", JArr (map (fun p =>
        json_object [("id", JStr (ps_id p)); ("displayName", JStr (ps_display_name p));
                     ("browserOrigins", json_strings (ps_browser_origins p))]) (catalog_list catalog)))]
    | None => json_object [("ok", JBool false); ("error", JStr "Provider registry is unavailable")]
    end
  else if bool_decide (kind = Some "account.discovery")
          && bool_decide (is_Some (json_pointer "/hint/providerId" message ≫= json_as_str))
          && bool_decide (is_Some (json_pointer "/hint/origin" message ≫= json_as_str))
          && negb (contains_secret_key message)
  then json_object [("ok", JBool true); ("status", JStr "interaction_required");
                    ("openCenter", JStr "http://127.0.0.1:43119/")]
  else json_object [("ok", JBool false); ("error", JStr "Unsupported or unsafe native message")].
