(* ===== verification/Service.v ===== *)
(** The daemon as a whole: the calls that reach the broker, from the pipe of
    the clients, the tools of the agents, the account center and the workers,
    with what they answer; any number of them may run at once. *)
From S2P Require Import Prelude Text Substring Json Redaction Table Threads Network Catalog Paths Vault Protocol Broker Adapters Execution Center Tools.

(** The catalog and the client key the daemon was started with. *)
Class Deployment := { catalog : ProviderCatalog; client_key : bytes }.

(** ** Calls *)
Inductive Call :=
| RequestAccess (request : NewAccessRequest)
| RequestCreation (key provider purpose : string) (constraints : list string)
| GetRequest (id : string)
| ListRequests
| CancelRequest (id : string)
| ApproveAccess (request_id : string)
| GetGrant (id : string)
| GrantForRequest (request_id : string)
| ListGrants
| IssueLease (grant_id : string) (ttl_minutes : Z)
| IssueSingleUseLease (grant_id : string) (ttl_minutes : Z)
| Authorize (token client_id purpose audience operation : string)
| AccountIdForLease (token : string)
| RevokeGrant (grant_id reason : string)
| DisconnectAccount (account_id : string)
| BeginProviderDisconnect (account_id : string)
| CompleteProviderDisconnect (account_id : string)
| ListAudit (limit : nat)
| OpenVault
| StoreAccount (provider verified_identity auth_method : string) (secret : bytes)
| ListAccounts
| LoadSecret (account_id : string)
| LoadSecretVersioned (account_id : string)
| ReplaceSecret (account_id : string) (secret : bytes)
| ReplaceSecretIfGeneration (account_id : string) (expected_generation : Z) (secret : bytes)
| SetAccountStatus (account_id status : string)
| DeleteAccount (account_id : string)
| StoreAuthorizationSession (session : AuthorizationSession) (secret : bytes)
| ListAuthorizationSessions
| LoadAuthorizationSecret (session_id : string)
| UpdateAuthorizationSession (session : AuthorizationSession)
| DeleteAuthorizationSecret (session_id : string)
| ExecuteTyped (request : TypedExecutionRequest)
| ExecuteEnvelope (envelope : ExecutionEnvelope)
| WebApprove (intent : option string) (id : string)
| WebCancel (intent : option string) (id : string)
| WebRevoke (intent : option string) (id : string)
| WebDisconnect (intent : option string) (id : string)
| WebConnectCredential (intent : option string) (provider profile : string) (fields : list (string * string))
| WebConnectToken (intent : option string) (provider token : string)
| WebStartConnection (intent : option string) (provider : string)
| WebOAuthCallback (code state error : option string)
| DeviceWorker (session_id : string)
| CallTool (call : ToolCall).

Inductive Answer :=
| Done
| ARequest (request : BrokerRequest)
| ARequests (requests : list BrokerRequest)
| AGrant (grant : StoredGrant)
| AGrants (grants : list StoredGrant)
| ALease (lease : OpaqueLease)
| AText (text : string)
| AAudit (events : list AuditEvent)
| AAccount (account : AccountMetadata)
| AAccounts (accounts : list AccountMetadata)
| ASecret (secret : bytes)
| AVersioned (secret : bytes) (generation : Z)
| AFlag (flag : bool)
| ASessions (sessions : list AuthorizationSession)
| AOutcome (outcome : Result TypedExecutionError TypedExecutionOutcome)
| APipe (outcome : Result PipeError TypedExecutionOutcome)
| AWeb (response : WebResponse)
| ARound (round : Round)
| ATool (answer : ToolAnswer).

Section Service.
Context {H : Host} {P : Parsers} {Net : Network} {Texts : CredentialTexts} {Sg : Signing}
  {D : Deployment}.

Definition answer {A} (f : A -> Answer) (p : Broker A) : Broker Answer :=
  prog_bind p (fun r => Return (match r with Ok a => Ok (f a) | Err e => Err e end)).
(** A program with errors of its own: they are part of the answer. *)
Definition reply {E A} (f : Result E A -> Answer) (p : Task Daemon E A) : Broker Answer :=
  prog_bind p (fun r => Return (Ok (f r))).
Definition page (p : Handler) : Broker Answer :=
  reply (fun r => AWeb (match r with Ok response => response | Err response => response end)) p.
Definition done (p : Broker unit) : Broker Answer := answer (fun _ => Done) p.

Definition broker_call (c : Call) : Broker Answer :=
  match c with
  | RequestAccess request => answer ARequest (request_access request)
  | RequestCreation key provider purpose constraints =>
      answer ARequest (request_creation key provider purpose constraints)
  | GetRequest id => answer ARequest (get_request id)
  | ListRequests => answer ARequests list_requests
  | CancelRequest id => done (cancel_request id)
  | ApproveAccess request_id => answer AGrant (approve_access request_id)
  | GetGrant id => answer AGrant (get_grant id)
  | GrantForRequest request_id => answer AGrant (grant_for_request request_id)
  | ListGrants => answer AGrants list_grants
  | IssueLease grant_id ttl => answer ALease (issue_lease grant_id ttl)
  | IssueSingleUseLease grant_id ttl => answer ALease (issue_single_use_lease grant_id ttl)
  | Authorize token client_id purpose audience operation =>
      done (authorize token client_id purpose audience operation)
  | AccountIdForLease token => answer AText (account_id_for_lease token)
  | RevokeGrant grant_id reason => done (revoke_grant grant_id reason)
  | DisconnectAccount account_id => done (disconnect_account account_id)
  | BeginProviderDisconnect account_id => done (begin_provider_disconnect account_id)
  | CompleteProviderDisconnect account_id => done (complete_provider_disconnect account_id)
  | ListAudit limit => answer AAudit (list_audit limit)
  | OpenVault => done (of_vault open_vault)
  | StoreAccount provider identity method secret =>
      answer AAccount (of_vault (store_account provider identity method secret))
  | ListAccounts => answer AAccounts (of_vault list_accounts)
  | LoadSecret account_id => answer ASecret (of_vault (load_secret account_id))
  | LoadSecretVersioned account_id =>
      answer (fun r => AVersioned (fst r) (snd r)) (of_vault (load_secret_versioned account_id))
  | ReplaceSecret account_id secret => done (of_vault (replace_secret account_id secret))
  | ReplaceSecretIfGeneration account_id generation secret =>
      done (of_vault (replace_secret_if_generation account_id generation secret))
  | SetAccountStatus account_id status => done (of_vault (set_account_status account_id status))
  | DeleteAccount account_id => answer AFlag (of_vault (delete_account account_id))
  | StoreAuthorizationSession session secret =>
      done (of_vault (store_authorization_session session secret))
  | ListAuthorizationSessions => answer ASessions (of_vault list_authorization_sessions)
  | LoadAuthorizationSecret session_id =>
      answer ASecret (of_vault (load_authorization_secret session_id))
  | UpdateAuthorizationSession session => done (of_vault (update_authorization_session session))
  | DeleteAuthorizationSecret session_id => done (of_vault (delete_authorization_secret session_id))
  | ExecuteTyped request => reply AOutcome (execute_typed_operation catalog request)
  | ExecuteEnvelope envelope => reply APipe (execute_envelope catalog client_key envelope)
  | WebApprove intent id => page (web_approve intent id)
  | WebCancel intent id => page (web_cancel intent id)
  | WebRevoke intent id => page (web_revoke intent id)
  | WebDisconnect intent id => page (web_disconnect catalog intent id)
  | WebConnectCredential intent provider profile fields =>
      page (web_connect_credential catalog intent provider profile fields)
  | WebConnectToken intent provider token => page (web_connect_token catalog intent provider token)
  | WebStartConnection intent provider => page (web_start_connection catalog intent provider)
  | WebOAuthCallback code state error => page (web_oauth_callback code state error)
  | DeviceWorker session_id =>
      reply (fun r => ARound (match r with Ok round => round | Err _ => Finished end))
        (device_worker catalog session_id)
  | CallTool call =>
      reply (fun r => ATool (match r with Ok answer => answer | Err answer => answer end))
        (run_tool catalog client_key call)
  end.

(** Any number of calls at once, over a vault that starts empty. *)
Definition broker_step := step broker_call.
Definition BrokerConf := Conf (S := Daemon) (C := Call) (R := Result BrokerError Answer).
Definition empty_tables : Tables := mkTables [] [] [] [] [] [] [] [].
Definition fresh_daemon : BrokerConf := mkConf (mkDaemon empty_tables 0 0 0 [] ∅ ∅) [] [].
Definition broker_reachable (conf : BrokerConf) : Prop := rtc broker_step fresh_daemon conf.
End Service.
