(* ===== verification/BrokerFacts.v ===== *)
(** What every statement of the broker keeps, whatever other calls do between
    its sections: the vault's keys and references, where grants come from, and
    how requests, grants and leases may change. *)
From S2P Require Import Prelude Text Substring Json Redaction Table Threads Network Catalog Paths Vault Protocol Broker Adapters Execution Center Tools Service.

(** What the theorems use of the libraries: UUIDs are distinct and so are the
    hashes of the tokens made of them, and a list of strings parses from its
    own text. *)
Class HostLaws (H : Host) := {
  uuid_inj : Inj (=) (=) uuid_simple;
  token_hash_inj : Inj (=) (=) (fun k => token_hash (token_of (uuid_simple k)));
  strings_round_trip l : strings_from_str (value_to_string (json_strings l)) = Some l
}.
#[export] Existing Instances uuid_inj token_hash_inj.

Section Invariant.
Context {H : Host}.
Implicit Types (n : nat) (t : Tables).

(** A grant is for what its request, which no longer waits, asked for. *)
Definition granted_from (r : RequestRow) (g : GrantRow) : Prop :=
  rq_kind r = "access" /\ rq_status r <> "awaiting_user" /\
  rq_account_id r = Some (gr_account_id g) /\ rq_provider r = Some (gr_provider g) /\
  rq_client_id r = Some (gr_client_id g) /\ rq_purpose r = gr_purpose g /\
  exists operations, parse_vec (rq_operations_json r) = Some operations /\
    gr_operations_json g = operations_text operations.

Record vault_ok n t : Prop := {
  ok_requests : NoDup (map rq_id (vt_requests t));
  ok_grants : NoDup (map gr_id (vt_grants t));
  ok_one_grant : NoDup (map gr_request_id (vt_grants t));
  ok_leases : NoDup (map ls_token_hash (vt_leases t));
  ok_grant_ids : forall g, g ∈ vt_grants t -> exists k, k < n /\ gr_id g = grant_id_of (uuid_simple k);
  ok_tokens : forall l, l ∈ vt_leases t ->
    exists k, k < n /\ ls_token_hash l = token_hash (token_of (uuid_simple k));
  ok_lease_grant : forall l, l ∈ vt_leases t -> exists g, g ∈ vt_grants t /\ gr_id g = ls_grant_id l;
  ok_origin : forall g, g ∈ vt_grants t ->
    exists r, r ∈ vt_requests t /\ rq_id r = gr_request_id g /\ granted_from r g
}.

(** How a row may change: a request keeps what it asks for and is decided
    once; a grant keeps what it allows and stays revoked; a lease keeps its
    grant and only loses uses. *)
Definition same_request (r r' : RequestRow) : Prop :=
  rq_id r' = rq_id r /\ rq_kind r' = rq_kind r /\ rq_account_id r' = rq_account_id r /\
  rq_provider r' = rq_provider r /\ rq_client_id r' = rq_client_id r /\
  rq_purpose r' = rq_purpose r /\ rq_operations_json r' = rq_operations_json r /\
  (rq_status r <> "awaiting_user" -> rq_status r' <> "awaiting_user").
Definition same_grant (g g' : GrantRow) : Prop :=
  gr_id g' = gr_id g /\ gr_request_id g' = gr_request_id g /\ gr_account_id g' = gr_account_id g /\
  gr_provider g' = gr_provider g /\ gr_client_id g' = gr_client_id g /\
  gr_purpose g' = gr_purpose g /\ gr_operations_json g' = gr_operations_json g /\
  gr_expires_at g' = gr_expires_at g /\ (gr_generation g <= gr_generation g')%Z /\
  (gr_revoked_at g <> None -> gr_revoked_at g' <> None).
Definition same_lease (l l' : LeaseRow) : Prop :=
  ls_token_hash l' = ls_token_hash l /\ ls_grant_id l' = ls_grant_id l /\
  ls_generation l' = ls_generation l /\ ls_expires_at l' = ls_expires_at l /\
  (ls_remaining_uses l' = ls_remaining_uses l \/
   0 <= ls_remaining_uses l' < ls_remaining_uses l)%Z.

#[export] Instance same_request_po : PreOrder same_request.
Proof.
  split; [intros r; by unfold same_request|]. unfold same_request. intros ??? ??.
  destruct_and?. split_and!; try congruence. auto.
Qed.
#[export] Instance same_grant_po : PreOrder same_grant.
Proof.
  split; [intros g; by unfold same_grant|]. unfold same_grant. intros ??? ??.
  destruct_and?. split_and!; try congruence; [lia|auto].
Qed.
#[export] Instance same_lease_po : PreOrder same_lease.
Proof.
  split; [intros l; unfold same_lease; auto 10|]. unfold same_lease. intros ??? ??.
  destruct_and?. split_and!; try congruence. lia.
Qed.

(** The rows of [l'] are changed rows of [l], or new ones. *)
Definition descends {A} (same : A -> A -> Prop) (new : A -> Prop) (l l' : list A) : Prop :=
  forall x', x' ∈ l' -> (exists x, x ∈ l /\ same x x') \/ new x'.

Definition new_grant n n' (g : GrantRow) : Prop :=
  exists k, n <= k < n' /\ gr_id g = grant_id_of (uuid_simple k).
Definition new_lease n n' (l : LeaseRow) : Prop :=
  exists k, n <= k < n' /\ ls_token_hash l = token_hash (token_of (uuid_simple k)).

Record lease_grows n t n' t' : Prop := {
  lg_uuids : n <= n';
  lg_leases : descends same_lease (new_lease n n') (vt_leases t) (vt_leases t')
}.
Record grows n t n' t' : Prop := {
  gw_leases : lease_grows n t n' t';
  gw_requests : forall r, r ∈ vt_requests t -> exists r', r' ∈ vt_requests t' /\ same_request r r';
  gw_grants : descends same_grant (new_grant n n') (vt_grants t) (vt_grants t')
}.

Lemma descends_refl {A} (same : A -> A -> Prop) `{!Reflexive same} new l : descends same new l l.
Proof. intros x Hx. left. by exists x. Qed.
Lemma descends_trans {A} (same : A -> A -> Prop) `{!Transitive same} (new1 new2 new : A -> Prop) l l' l'' :
  descends same new1 l l' -> descends same new2 l' l'' ->
  (forall x x', new1 x -> same x x' -> new x') -> (forall x, new2 x -> new x) -> descends same new l l''.
Proof.
  intros H1 H2 Hn1 Hn2 x'' Hx''. destruct (H2 _ Hx'') as [(x' & Hx' & Hs)|?]; [|by right; apply Hn2].
  destruct (H1 _ Hx') as [(x & Hx & Hs')|?]; [left|right; by eapply Hn1].
  exists x. split; [done|by transitivity x'].
Qed.

Lemma lease_grows_refl n t : lease_grows n t n t.
Proof. split; [done|apply descends_refl, _]. Qed.
Lemma lease_grows_same n t t' : vt_leases t' = vt_leases t -> lease_grows n t n t'.
Proof. intros E. split; [done|]. rewrite E. apply descends_refl, _. Qed.
Lemma lease_grows_trans n t n1 t1 n2 t2 :
  lease_grows n t n1 t1 -> lease_grows n1 t1 n2 t2 -> lease_grows n t n2 t2.
Proof.
  intros [H1 L1] [H2 L2]. split; [lia|]. eapply descends_trans; [apply _|exact L1|exact L2| |].
  - intros x x' (k & ? & E) (E' & _). exists k. split; [lia|congruence].
  - intros x (k & ? & E). exists k. split; [lia|done].
Qed.

Lemma vault_grows_refl n t : grows n t n t.
Proof. split; [apply lease_grows_refl|intros r Hr; by exists r|apply descends_refl, _]. Qed.
Lemma vault_grows_trans n t n1 t1 n2 t2 : grows n t n1 t1 -> grows n1 t1 n2 t2 -> grows n t n2 t2.
Proof.
  intros [L1 R1 G1] [L2 R2 G2]. pose proof (lg_uuids _ _ _ _ L1). pose proof (lg_uuids _ _ _ _ L2).
  split; [by eapply lease_grows_trans| |].
  - intros r Hr. destruct (R1 _ Hr) as (r' & Hr' & ?). destruct (R2 _ Hr') as (r'' & ? & ?).
    exists r''. split; [done|by transitivity r'].
  - eapply descends_trans; [apply _|exact G1|exact G2| |].
    + intros x x' (k & ? & E) (E' & _). exists k. split; [lia|congruence].
    + intros x (k & ? & E). exists k. split; [lia|done].
Qed.

Lemma vault_ok_le n n' t : vault_ok n t -> n <= n' -> vault_ok n' t.
Proof.
  intros [] Hle. split; try done; intros x Hx.
  - destruct (ok_grant_ids0 _ Hx) as (k & ? & ?). exists k. split; [lia|done].
  - destruct (ok_tokens0 _ Hx) as (k & ? & ?). exists k. split; [lia|done].
Qed.

(** ** Changes of the tables *)
Definition kept n t n' t' : Prop := vault_ok n' t' /\ grows n t n' t'.

Lemma kept_trans n t n1 t1 n2 t2 : kept n t n1 t1 -> kept n1 t1 n2 t2 -> kept n t n2 t2.
Proof. intros [_ ?] [? ?]. split; [done|by eapply vault_grows_trans]. Qed.

(** Requests, grants and leases as they were. *)
Lemma kept_quiet n t t' :
  vt_requests t' = vt_requests t -> vt_grants t' = vt_grants t -> vt_leases t' = vt_leases t ->
  vault_ok n t -> kept n t n t'.
Proof.
  intros Er Eg El []. split; [split; by rewrite ?Er, ?Eg, ?El|]. split.
  - split; [done|]. rewrite El. apply descends_refl, _.
  - intros r Hr. exists r. by rewrite Er.
  - rewrite Eg. apply descends_refl, _.
Qed.

Lemma descends_update {A} (same : A -> A -> Prop) `{!Reflexive same} new p f (l : list A) :
  (forall x, p x = true -> same x (f x)) -> descends same new l (update_where p f l).
Proof.
  intros Hf x' (x & Hx & ->)%elem_of_update_where. left. exists x. split; [done|].
  destruct (p x) eqn:E; [by apply Hf|done].
Qed.
Lemma descends_delete {A} (same : A -> A -> Prop) `{!Reflexive same} new p (l : list A) :
  descends same new l (delete_where p l).
Proof. intros x [Hx _]%elem_of_delete_where. left. by exists x. Qed.
Lemma descends_app {A} (same : A -> A -> Prop) `{!Reflexive same} (new : A -> Prop) x (l : list A) :
  new x -> descends same new l (l ++ [x]).
Proof.
  intros Hx y [Hy| ->%list_elem_of_singleton]%elem_of_app; [left; by exists y|by right].
Qed.

Lemma NoDup_delete_where {A B} (f : A -> B) p (l : list A) :
  NoDup (map f l) -> NoDup (map f (delete_where p l)).
Proof.
  induction l as [|x l IH]; simpl; [done|]. intros [Hx Hl]%NoDup_cons. unfold delete_where in *. simpl.
  destruct (p x); simpl; [by apply IH|]. constructor; [|by apply IH].
  intros (y & E & Hy)%list_elem_of_fmap. apply Hx. apply list_elem_of_fmap. exists y. split; [done|].
  apply list_elem_of_In, filter_In in Hy as [Hy _]. by apply list_elem_of_In.
Qed.

Lemma kept_update_requests n t p f :
  (forall r, same_request r (f r)) -> vault_ok n t ->
  kept n t n (t <| vt_requests ::= update_where p f |>).
Proof.
  intros Hf Hok. pose proof Hok as []. split; [split; simpl; try done|split; simpl].
  - rewrite keys_update_where; [done|]. intros r. by destruct (Hf r).
  - intros g Hg. destruct (ok_origin0 _ Hg) as (r & Hr & Hid & Hfrom).
    exists (if p r then f r else r). split; [apply elem_of_update_where; by exists r|].
    destruct (p r); [|done]. destruct (Hf r) as (E1 & E2 & E3 & E4 & E5 & E6 & E7 & E8).
    unfold granted_from in *. rewrite E1, E2, E3, E4, E5, E6, E7. naive_solver.
  - by apply lease_grows_same.
  - intros r Hr. exists (if p r then f r else r). split; [apply elem_of_update_where; by exists r|].
    by destruct (p r).
  - apply descends_refl, _.
Qed.

Lemma kept_append_request n t r rows :
  insert_row rq_id r (vt_requests t) = Some rows -> vault_ok n t ->
  kept n t n (t <| vt_requests := rows |>).
Proof.
  intros Hi Hok. pose proof Hok as []. pose proof (insert_row_NoDup _ _ _ _ Hi ok_requests0) as Hn.
  apply insert_row_Some in Hi as [-> Hr]. split; [split; simpl; try done|split; simpl].
  - intros g Hg. destruct (ok_origin0 _ Hg) as (r' & ? & ?). exists r'. split; [set_solver|done].
  - by apply lease_grows_same.
  - intros r' Hr'. exists r'. split; [set_solver|done].
  - apply descends_refl, _.
Qed.

Lemma kept_update_grants n t p f :
  (forall g, p g = true -> same_grant g (f g)) -> (forall g, gr_id (f g) = gr_id g) ->
  (forall g, gr_request_id (f g) = gr_request_id g) -> vault_ok n t ->
  kept n t n (t <| vt_grants ::= update_where p f |>).
Proof.
  intros Hf Hid Hreq Hok. pose proof Hok as [].
  assert (forall g', g' ∈ update_where p f (vt_grants t) ->
            exists g, g ∈ vt_grants t /\ same_grant g g') as Hd.
  { intros g' (g & Hg & ->)%elem_of_update_where. exists g. split; [done|].
    destruct (p g) eqn:E; [by apply Hf|done]. }
  split; [split; simpl; try done|split; simpl].
  - by rewrite keys_update_where.
  - by rewrite keys_update_where.
  - intros g' Hg'. destruct (Hd _ Hg') as (g & Hg & E & _). rewrite E. by apply ok_grant_ids0.
  - intros l Hl. destruct (ok_lease_grant0 _ Hl) as (g & Hg & E).
    exists (if p g then f g else g). split; [apply elem_of_update_where; by exists g|].
    destruct (p g); [by rewrite Hid|done].
  - intros g' Hg'. destruct (Hd _ Hg') as (g & Hg & S). destruct (ok_origin0 _ Hg) as (r & Hr & E & Hfrom).
    exists r. split; [done|]. unfold same_grant, granted_from in *.
    destruct S as (? & E2 & E3 & E4 & E5 & E6 & E7 & _). rewrite E2, E3, E4, E5, E6, E7. done.
  - by apply lease_grows_same.
  - intros r Hr. by exists r.
  - by apply descends_update; [apply _|].
Qed.

Lemma kept_update_leases n t p f :
  (forall l, p l = true -> same_lease l (f l)) -> (forall l, ls_token_hash (f l) = ls_token_hash l) ->
  vault_ok n t -> kept n t n (t <| vt_leases ::= update_where p f |>).
Proof.
  intros Hf Hh Hok. pose proof Hok as []. split; [split; simpl; try done|split; simpl].
  - by rewrite keys_update_where.
  - intros l' (l & Hl & ->)%elem_of_update_where. destruct (ok_tokens0 _ Hl) as (k & ? & E).
    exists k. split; [done|]. destruct (p l); [by rewrite Hh|done].
  - intros l' (l & Hl & ->)%elem_of_update_where. destruct (ok_lease_grant0 _ Hl) as (g & Hg & E).
    exists g. split; [done|]. destruct (p l) eqn:Ep; [|done]. destruct (Hf _ Ep) as (_ & E' & _). congruence.
  - split; [done|]. by apply descends_update; [apply _|].
  - intros r Hr. by exists r.
  - apply descends_refl, _.
Qed.

Lemma kept_delete_leases n t p :
  vault_ok n t -> kept n t n (t <| vt_leases ::= delete_where p |>).
Proof.
  intros Hok. pose proof Hok as []. split; [split; simpl; try done|split; simpl].
  - by apply NoDup_delete_where.
  - intros l [Hl _]%elem_of_delete_where. by apply ok_tokens0.
  - intros l [Hl _]%elem_of_delete_where. by apply ok_lease_grant0.
  - split; [done|]. apply descends_delete, _.
  - intros r Hr. by exists r.
  - apply descends_refl, _.
Qed.

Lemma kept_delete_grants n t p :
  (forall l g, l ∈ vt_leases t -> g ∈ vt_grants t -> gr_id g = ls_grant_id l -> p g = false) ->
  vault_ok n t -> kept n t n (t <| vt_grants ::= delete_where p |>).
Proof.
  intros Hp Hok. pose proof Hok as []. split; [split; simpl; try done|split; simpl].
  - by apply NoDup_delete_where.
  - by apply NoDup_delete_where.
  - intros g [Hg _]%elem_of_delete_where. by apply ok_grant_ids0.
  - intros l Hl. destruct (ok_lease_grant0 _ Hl) as (g & Hg & E). exists g. split; [|done].
    apply elem_of_delete_where. split; [done|by eapply Hp].
  - intros g [Hg _]%elem_of_delete_where. by apply ok_origin0.
  - by apply lease_grows_same.
  - intros r Hr. by exists r.
  - apply descends_delete, _.
Qed.
End Invariant.

(** ** Statements *)
Section Statements.
Context {H : Host}.
Implicit Types (n : nat) (t : Tables).

Definition sql_keeps {X} (q : Sql X) : Prop := forall n t x t',
  vault_ok n t -> q t = Some (x, t') -> kept n t n t'.

Lemma sql_keeps_bind {X Y} (q : Sql X) (k : X -> Sql Y) :
  sql_keeps q -> (forall x, sql_keeps (k x)) -> sql_keeps (q ≫= k).
Proof.
  intros Hq Hk n t y t2 Hok E. unfold mbind, Sql_bind in E. destruct (q t) as [[x t1]|] eqn:E1; [|done].
  pose proof (Hq _ _ _ _ Hok E1) as K1. eapply kept_trans; [exact K1|].
  by eapply Hk; [apply K1|].
Qed.
Lemma sql_keeps_update f :
  (forall n t, vault_ok n t -> kept n t n (f t)) -> sql_keeps (sql_update f).
Proof. intros Hf n t x t' Hok [= _ <-]. by apply Hf. Qed.
Lemma sql_keeps_check p : sql_keeps (sql_check p).
Proof.
  intros n t x t' Hok E. unfold sql_check in E. destruct (p t); [|done]. injection E as _ <-.
  by apply kept_quiet.
Qed.
(** Inserting into a table of which the invariant does not speak. *)
Lemma sql_keeps_insert {A} (table : Tables -> list A) set key row :
  (forall rows t, vt_requests (set rows t) = vt_requests t /\ vt_grants (set rows t) = vt_grants t /\
                  vt_leases (set rows t) = vt_leases t) -> sql_keeps (sql_insert table set key row).
Proof.
  intros Hs n t x t' Hok E. unfold sql_insert in E. destruct (insert_row key row (table t)); [|done].
  injection E as _ <-. destruct (Hs l t) as (? & ? & ?). by apply kept_quiet.
Qed.

Lemma insert_request_keeps row : sql_keeps (insert_request row).
Proof.
  intros n t x t' Hok E. unfold insert_request, sql_insert in E.
  destruct (insert_row rq_id row (vt_requests t)) as [rows|] eqn:Ei; [|done]. injection E as _ <-.
  by eapply kept_append_request.
Qed.
Lemma insert_or_ignore_request_keeps row : sql_keeps (insert_or_ignore_request row).
Proof.
  intros n t x t' Hok E. unfold insert_or_ignore_request in E. destruct (existsb _ _).
  - injection E as _ <-. by apply kept_quiet.
  - by eapply insert_request_keeps.
Qed.
Lemma set_request_status_keeps p status now :
  status <> "awaiting_user" -> sql_keeps (set_request_status p status now).
Proof.
  intros Hs. apply sql_keeps_update. intros n t Hok. apply kept_update_requests; [|done].
  intros r. unfold same_request. by destruct r.
Qed.
Lemma insert_audit_keeps row : sql_keeps (insert_audit row).
Proof. apply sql_keeps_update. intros n t Hok. by apply kept_quiet. Qed.
Lemma revoke_rows_keeps p now : sql_keeps (revoke_rows p now).
Proof.
  intros n t x t' Hok [= _ <-]. apply kept_update_grants; [|by intros []..|done].
  intros [] _. unfold same_grant. simpl. split_and!; try done. lia.
Qed.
Lemma use_lease_keeps hash : sql_keeps (use_lease hash).
Proof.
  intros n t x t' Hok [= _ <-]. apply kept_update_leases; [|by intros []|done].
  intros [h g gen exp uses] Hu. bool_props. simpl in *. unfold same_lease. simpl. split_and!; try done. lia.
Qed.
Lemma delete_account_leases_keeps account_id : sql_keeps (delete_account_leases account_id).
Proof. apply sql_keeps_update. intros n t Hok. by apply kept_delete_leases. Qed.
Lemma delete_account_grants_keeps account_id : sql_keeps (delete_account_grants account_id).
Proof.
  intros n t x t' Hok E. unfold delete_account_grants, mbind, Sql_bind, sql_check in E.
  destruct (negb _) eqn:Hn; [|done]. injection E as _ <-. apply negb_true_iff in Hn.
  apply kept_delete_grants; [|done]. intros l g Hl Hg Eg.
  pose proof (proj1 (existsb_false_iff _ _) Hn l Hl) as Hl'. simpl in Hl'.
  pose proof (proj1 (existsb_false_iff _ _) Hl' g Hg) as Hg'. simpl in Hg'.
  rewrite (bool_decide_true _ Eg), andb_true_r in Hg'. exact Hg'.
Qed.
Lemma update_account_status_keeps account_id status : sql_keeps (update_account_status account_id status).
Proof. intros n t x t' Hok [= _ <-]. by apply kept_quiet. Qed.
Lemma delete_account_row_keeps account_id : sql_keeps (delete_account_row account_id).
Proof. intros n t x t' Hok [= _ <-]. by apply kept_quiet. Qed.
Lemma insert_account_keeps row : sql_keeps (insert_account row).
Proof. by apply sql_keeps_insert. Qed.
Lemma insert_credential_keeps row : sql_keeps (insert_credential row).
Proof. apply sql_keeps_bind; [apply sql_keeps_check|]. intros ?. by apply sql_keeps_insert. Qed.
Lemma update_credential_keeps account_id generation nonce ciphertext key :
  sql_keeps (update_credential account_id generation nonce ciphertext key).
Proof. intros n t x t' Hok [= _ <-]. by apply kept_quiet. Qed.

(** A lease with a new token. *)
Lemma insert_lease_keeps n t x t' grant_id expires_at uses :
  vault_ok n t ->
  insert_lease (token_hash (token_of (uuid_simple n))) grant_id expires_at uses t = Some (x, t') ->
  kept n t (S n) t'.
Proof.
  intros Hok E. unfold insert_lease in E. destruct (find_by gr_id grant_id (vt_grants t)) as [g|] eqn:Hg.
  2: { injection E as _ <-. split; [apply (vault_ok_le n); [done|lia]|].
       split; [split; [lia|apply descends_refl, _]|intros r Hr; by exists r|apply descends_refl, _]. }
  apply find_by_Some in Hg as [Hg Eg]. unfold sql_insert in E.
  destruct (insert_row _ _ _) as [rows|] eqn:Hi; [|done]. injection E as _ <-.
  pose proof (insert_row_NoDup _ _ _ _ Hi (ok_leases _ _ Hok)) as Hn.
  apply insert_row_Some in Hi as [-> Hl].
  destruct (vault_ok_le n (S n) t Hok) as []; [lia|]. split; [split; simpl; try done|split; simpl].
  - intros l [Hl'| ->%list_elem_of_singleton]%elem_of_app; [by apply ok_tokens0|].
    exists n. simpl. split; [lia|done].
  - intros l [Hl'| ->%list_elem_of_singleton]%elem_of_app; [by apply ok_lease_grant0|by exists g].
  - split; [lia|]. apply descends_app; [apply _|]. exists n. simpl. split; [lia|done].
  - intros r Hr. by exists r.
  - apply descends_refl, _.
Qed.
End Statements.

#[export] Hint Resolve sql_keeps_check insert_request_keeps
  insert_or_ignore_request_keeps insert_audit_keeps revoke_rows_keeps use_lease_keeps
  delete_account_leases_keeps delete_account_grants_keeps update_account_status_keeps
  delete_account_row_keeps insert_account_keeps insert_credential_keeps update_credential_keeps : sections.
#[export] Hint Extern 1 (sql_keeps (set_request_status _ _ _)) =>
  apply set_request_status_keeps; discriminate : sections.
#[export] Hint Extern 1 (sql_keeps (cancel_account_requests _ _)) =>
  apply set_request_status_keeps; discriminate : sections.

(** ** Programs *)
Section Programs.
Context {H : Host}.
Implicit Types s : Daemon.

Definition daemon_ok s : Prop := vault_ok (dm_uuids s) (dm_tables s).
Definition daemon_grows s s' : Prop := grows (dm_uuids s) (dm_tables s) (dm_uuids s') (dm_tables s').
Definition section_ok s s' : Prop := daemon_ok s' /\ daemon_grows s s'.

#[export] Instance daemon_grows_po : PreOrder daemon_grows.
Proof. split; [intros s; apply vault_grows_refl|intros s s1 s2; apply vault_grows_trans]. Qed.

Lemma section_ok_same s s' :
  daemon_ok s -> dm_tables s' = dm_tables s -> dm_uuids s <= dm_uuids s' -> section_ok s s'.
Proof.
  intros Hok Et Hle. unfold section_ok, daemon_ok, daemon_grows. rewrite Et.
  split; [by eapply vault_ok_le|]. split; [split; [done|apply descends_refl, _]|intros r Hr; by exists r|].
  apply descends_refl, _.
Qed.

Notation guaranteed p := (guarantees daemon_ok section_ok p).

Lemma utc_now_ok {E} : guaranteed (utc_now (E:=E)).
Proof. intros s Hs. split; [by apply section_ok_same|done]. Qed.
Lemma new_uuid_ok {E} : guaranteed (new_uuid (E:=E)).
Proof. intros s Hs. split; [apply section_ok_same; simpl; [done..|lia]|done]. Qed.
Lemma fill_ok {E} len : guaranteed (fill (E:=E) len).
Proof. intros s Hs. split; [by apply section_ok_same|done]. Qed.
Lemma query_ok {E X} (f : Tables -> X) : guaranteed (query (E:=E) f).
Proof. intros s Hs. split; [by apply section_ok_same|done]. Qed.
Lemma now_text_ok {E} : guaranteed (now_text (E:=E)).
Proof. apply guarantees_bind; [apply utc_now_ok|by intros]. Qed.
Lemma execute_ok {E X} (e : E) (q : Sql X) : sql_keeps q -> guaranteed (execute e q).
Proof.
  intros Hq s Hs. split; [|by simpl]. simpl. destruct (q (dm_tables s)) as [[x t]|] eqn:Eq.
  - by apply (Hq _ _ _ _ Hs Eq).
  - by apply section_ok_same.
Qed.
Lemma execute_timed_ok {E X} (e : E) k (q : (nat -> string) -> Sql X) :
  (forall now, sql_keeps (q now)) -> guaranteed (execute_timed e k q).
Proof.
  intros Hq s Hs. split; [|by simpl]. simpl.
  destruct (q _ (dm_tables s)) as [[x t]|] eqn:Eq; [|by apply section_ok_same].
  by apply (Hq _ _ _ _ _ Hs Eq).
Qed.
Lemma execute_fresh_ok {E X} (e : E) (q : string -> Sql X) :
  (forall n t x t', vault_ok n t -> q (uuid_simple n) t = Some (x, t') -> kept n t (S n) t') ->
  guaranteed (execute_fresh e q).
Proof.
  intros Hq s Hs. split; [|by simpl]. simpl.
  destruct (q _ (dm_tables s)) as [[x t]|] eqn:Eq.
  - by apply (Hq _ _ _ _ Hs Eq).
  - apply section_ok_same; [done..|simpl; lia].
Qed.
Lemma execute_fresh_keeps {E X} (e : E) (q : string -> Sql X) :
  (forall uuid, sql_keeps (q uuid)) -> guaranteed (execute_fresh e q).
Proof.
  intros Hq. apply execute_fresh_ok. intros n t x t' Hok Eq.
  destruct (Hq _ _ _ _ _ Hok Eq) as [Hok' [[H1 H2] H3 H4]].
  split; [apply (vault_ok_le n); [done|lia]|]. split; [split; [lia|]|done|].
  - intros l Hl. destruct (H2 _ Hl) as [?|(k & ? & ?)]; [by left|right]. exists k. split; [lia|done].
  - intros g Hg. destruct (H4 _ Hg) as [?|(k & ? & ?)]; [by left|right]. exists k. split; [lia|done].
Qed.
End Programs.

#[export] Hint Resolve utc_now_ok new_uuid_ok fill_ok query_ok now_text_ok : sections.

Section Calls.
Context {H : Host}.
Notation guaranteed p := (guarantees daemon_ok section_ok p).

Lemma sql_ok {X} (q : Sql X) : sql_keeps q -> guaranteed (sql q).
Proof. apply execute_ok. Qed.
Lemma audit_ok event account detail : guaranteed (audit event account detail).
Proof. unfold audit. sections_step; [sections|]. apply sql_ok. eauto with sections. Qed.
Lemma of_vault_ok {A} (p : Task Daemon VaultError A) : guaranteed p -> guaranteed (of_vault p).
Proof. apply guarantees_map_err. Qed.
Lemma answer_ok {A} (f : A -> Answer) (p : Broker A) : guaranteed p -> guaranteed (answer f p).
Proof. intros Hp. apply guarantees_prog_bind; [done|]. by intros [a|e]. Qed.
Lemma lift_result_ok {A} f (r : Result string A) : guaranteed (lift_result f r).
Proof. by destruct r. Qed.
End Calls.
#[export] Hint Resolve audit_ok of_vault_ok lift_result_ok : sections.

(** [guarded]: every section of a program keeps the invariant, by its shape
    and the statements it executes. *)
Ltac guarded_step := lazymatch goal with
  | |- sql_keeps (_ ≫= _) => apply sql_keeps_bind; [|intros ?]
  | |- sql_keeps _ => solve [eauto with sections]
  | |- guarantees _ _ (execute _ _) => apply execute_ok
  | |- guarantees _ _ (execute_timed _ _ _) => apply execute_timed_ok; intros ?
  | |- guarantees _ _ (sql _) => apply sql_ok
  | |- guarantees _ _ (of_vault _) => apply of_vault_ok
  | |- guarantees _ _ (answer _ _) => apply answer_ok
  | |- guarantees _ _ (done _) => apply answer_ok
  | |- _ => sections_step
  end.
Ltac guarded := repeat guarded_step.

Section Vault.
Context {H : Host}.
Notation guaranteed p := (guarantees daemon_ok section_ok p).

Lemma seal_ok aad secret : guaranteed (seal aad secret).
Proof. unfold seal. guarded. Qed.
Lemma unseal_ok aad nonce ciphertext key : guaranteed (unseal aad nonce ciphertext key).
Proof. unfold unseal. guarded. Qed.
Hint Resolve seal_ok unseal_ok : sections.

Lemma store_account_ok provider identity method secret :
  guaranteed (store_account provider identity method secret).
Proof. unfold store_account. guarded. Qed.
Lemma list_accounts_ok : guaranteed list_accounts.
Proof. unfold list_accounts. guarded. Qed.
Lemma load_secret_versioned_ok account_id : guaranteed (load_secret_versioned account_id).
Proof. unfold load_secret_versioned. guarded. Qed.
Lemma load_secret_ok account_id : guaranteed (load_secret account_id).
Proof. unfold load_secret. guarded. Qed.
Lemma replace_secret_inner_ok account_id secret generation :
  guaranteed (replace_secret_inner account_id secret generation).
Proof. unfold replace_secret_inner. guarded. Qed.
Lemma set_account_status_ok account_id status : guaranteed (set_account_status account_id status).
Proof. unfold set_account_status. guarded. Qed.
Lemma delete_account_ok account_id : guaranteed (delete_account account_id).
Proof. unfold delete_account. guarded. Qed.
Lemma store_authorization_session_ok session secret :
  guaranteed (store_authorization_session session secret).
Proof.
  unfold store_authorization_session. sections_step; [guarded|]. repeat (destruct a as [a ?]). apply execute_ok, sql_keeps_bind; [|intros ?];
    by apply sql_keeps_insert.
Qed.
Lemma load_authorization_secret_ok session_id : guaranteed (load_authorization_secret session_id).
Proof. unfold load_authorization_secret. guarded. Qed.
Lemma update_authorization_session_ok session : guaranteed (update_authorization_session session).
Proof. apply execute_ok, sql_keeps_update. intros n t Hok. by apply kept_quiet. Qed.
Lemma delete_authorization_secret_ok session_id : guaranteed (delete_authorization_secret session_id).
Proof. apply execute_ok, sql_keeps_update. intros n t Hok. by apply kept_quiet. Qed.
Lemma list_authorization_sessions_ok : guaranteed list_authorization_sessions.
Proof. unfold list_authorization_sessions. guarded. Qed.
Lemma open_vault_ok : guaranteed open_vault.
Proof. unfold open_vault. guarded. Qed.
End Vault.
#[export] Hint Resolve store_account_ok list_accounts_ok load_secret_versioned_ok load_secret_ok
  replace_secret_inner_ok set_account_status_ok delete_account_ok store_authorization_session_ok
  load_authorization_secret_ok update_authorization_session_ok delete_authorization_secret_ok
  list_authorization_sessions_ok open_vault_ok : sections.

Section Broker.
Context {H : Host}.
Notation guaranteed p := (guarantees daemon_ok section_ok p).

Lemma get_request_ok id : guaranteed (get_request id).
Proof. unfold get_request. guarded. Qed.
Lemma get_grant_ok id : guaranteed (get_grant id).
Proof. unfold get_grant. guarded. Qed.
Hint Resolve get_request_ok get_grant_ok : sections.

Lemma request_access_ok request : guaranteed (request_access request).
Proof.
  unfold request_access. do 3 (sections_step; [guarded|]). apply guarantees_bind.
  - apply execute_fresh_keeps. intros uuid. guarded.
  - intros ?. guarded.
Qed.
Lemma request_creation_ok key provider purpose constraints :
  guaranteed (request_creation key provider purpose constraints).
Proof. unfold request_creation. guarded. Qed.
Lemma list_requests_ok : guaranteed list_requests.
Proof. unfold list_requests. guarded. Qed.
Lemma cancel_request_ok id : guaranteed (cancel_request id).
Proof. unfold cancel_request. guarded. Qed.
Lemma grant_for_request_ok id : guaranteed (grant_for_request id).
Proof. unfold grant_for_request. guarded. Qed.
Lemma list_grants_ok : guaranteed list_grants.
Proof. unfold list_grants. guarded. Qed.
Lemma issue_lease_with_uses_ok id ttl uses : guaranteed (issue_lease_with_uses id ttl uses).
Proof.
  unfold issue_lease_with_uses. do 6 (sections_step; [guarded|]). apply guarantees_bind.
  - apply execute_fresh_ok. intros n t x t'. apply insert_lease_keeps.
  - intros ?. guarded.
Qed.
Lemma expired_ok text : guaranteed (expired text).
Proof. unfold expired. guarded. Qed.
Hint Resolve expired_ok : sections.
Lemma authorize_ok token client purpose audience operation :
  guaranteed (authorize token client purpose audience operation).
Proof. unfold authorize. guarded. Qed.
Lemma account_id_for_lease_ok token : guaranteed (account_id_for_lease token).
Proof. unfold account_id_for_lease. guarded. Qed.
Lemma revoke_grant_ok id reason : guaranteed (revoke_grant id reason).
Proof. unfold revoke_grant. guarded. Qed.
Lemma disconnect_account_ok id : guaranteed (disconnect_account id).
Proof. unfold disconnect_account. guarded. Qed.
Lemma begin_provider_disconnect_ok id : guaranteed (begin_provider_disconnect id).
Proof. unfold begin_provider_disconnect. guarded. Qed.
Lemma complete_provider_disconnect_ok id : guaranteed (complete_provider_disconnect id).
Proof. unfold complete_provider_disconnect. guarded. Qed.
Lemma list_audit_ok limit : guaranteed (list_audit limit).
Proof. unfold list_audit. guarded. Qed.
End Broker.
#[export] Hint Resolve get_request_ok get_grant_ok request_access_ok request_creation_ok
  list_requests_ok cancel_request_ok grant_for_request_ok list_grants_ok issue_lease_with_uses_ok
  expired_ok authorize_ok account_id_for_lease_ok revoke_grant_ok disconnect_account_ok
  begin_provider_disconnect_ok complete_provider_disconnect_ok list_audit_ok : sections.

(** ** What calls establish *)
Section Establish.
Context {H : Host} {Laws : HostLaws H}.
Implicit Types s : Daemon.
Notation ensures := (wp daemon_ok daemon_grows).

Lemma guaranteed_ensures {R} s0 (p : Prog Daemon R) Q :
  guarantees daemon_ok section_ok p -> (forall r s, daemon_grows s0 s -> Q r s) -> ensures s0 p Q.
Proof. intros Hp. apply guarantees_wp; [apply _|exact Hp]. Qed.

Lemma ensures_bind_any {E A B} s0 (p : Task Daemon E A) (k : A -> Task Daemon E B) Q :
  guarantees daemon_ok section_ok p ->
  (forall a s, daemon_grows s0 s -> ensures s (k a) Q) ->
  (forall e s, daemon_grows s0 s -> Q (Err e) s) -> ensures s0 (p ≫= k) Q.
Proof.
  intros Hp Hk He. apply wp_bind. eapply guaranteed_ensures; [exact Hp|]. intros [a|e] s Hs; auto.
Qed.

Lemma ensures_execute {E X} s0 (e : E) (q : Sql X) Q :
  sql_keeps q ->
  (forall s x t, daemon_grows s0 s -> daemon_ok s -> q (dm_tables s) = Some (x, t) ->
     Q (Ok x) (s <| dm_tables := t |>)) ->
  (forall s, Q (Err e) s) -> ensures s0 (execute e q) Q.
Proof.
  intros Hq Hok He s Hg Hi. simpl. destruct (q (dm_tables s)) as [[x t]|] eqn:Eq; simpl.
  - destruct (Hq _ _ _ _ Hi Eq) as [? ?]. split; [done|]. split; [done|by apply Hok].
  - split; [done|]. split; [apply vault_grows_refl|apply He].
Qed.

Lemma ensures_execute_fresh {E X} s0 (e : E) (q : string -> Sql X) Q :
  (forall s x t, daemon_grows s0 s -> daemon_ok s -> q (uuid_simple (dm_uuids s)) (dm_tables s) = Some (x, t) ->
     kept (dm_uuids s) (dm_tables s) (S (dm_uuids s)) t /\
     Q (Ok (uuid_simple (dm_uuids s), x)) (s <| dm_uuids ::= S |> <| dm_tables := t |>)) ->
  (forall s, Q (Err e) s) -> ensures s0 (execute_fresh e q) Q.
Proof.
  intros Hok He s Hg Hi. simpl. destruct (q _ (dm_tables s)) as [[x t]|] eqn:Eq; simpl.
  - destruct (Hok _ _ _ Hg Hi Eq) as [[? ?] ?]. split; [done|]. by split.
  - assert (section_ok s (s <| dm_uuids ::= S |>)) as [? ?] by (apply section_ok_same; simpl; [done..|lia]).
    split; [done|]. split; [done|apply He].
Qed.

Lemma query_ensures {E X} s0 (f : Tables -> X) (Q : Result E X -> Daemon -> Prop) :
  (forall s, daemon_grows s0 s -> daemon_ok s -> Q (Ok (f (dm_tables s))) s) ->
  ensures s0 (query f) Q.
Proof. intros HQ s Hg Hi. simpl. split; [done|]. split; [apply vault_grows_refl|by apply HQ]. Qed.

Lemma get_request_ensures s0 id :
  ensures s0 (get_request id) (fun r s =>
    match r with
    | Ok request => exists row, row ∈ vt_requests (dm_tables s) /\ rq_id row = id /\
                                request_from_row row = Some request
    | Err _ => True
    end).
Proof.
  unfold get_request. apply wp_bind, query_ensures. intros s Hs Hi. apply wp_bind, wp_ok_or; [|done].
  intros row [Hr Hid]%find_by_Some. apply wp_ok_or; [|done]. intros request Hq. by exists row.
Qed.

(** The transaction of an approval: the grant is for what was asked. *)
Lemma approve_request_kept n t x t' id now expires_at row request account provider client :
  vault_ok n t -> row ∈ vt_requests t -> rq_id row = id -> request_from_row row = Some request ->
  br_kind request = "access" -> br_account_id request = Some account ->
  br_provider request = Some provider -> br_client_id request = Some client ->
  approve_request id now (mkGrantRow (grant_id_of (uuid_simple n)) id account provider client
    (br_purpose request) (operations_text (br_operations request)) expires_at 0 None) t = Some (x, t') ->
  kept n t (S n) t'.
Proof.
  intros Hok Hrow Hid Hq Hkind Ha Hp Hc E. unfold approve_request, mbind, Sql_bind in E.
  set (p := fun r => bool_decide (rq_id r = id) && bool_decide (rq_status r = "awaiting_user")) in *.
  destruct (set_request_status p "approved" now t) as [[y t1]|] eqn:E1; [|done].
  assert (kept n t n t1) as K1 by (eapply set_request_status_keeps; [|exact Hok|exact E1]; done).
  injection E1 as _ E1. destruct K1 as [Hok1 Hg1].
  unfold insert_grant, mbind, Sql_bind, sql_check in E. destruct (_ && negb _) eqn:Eg; [|done].
  apply andb_true_iff in Eg as [_ Eone]. apply negb_true_iff in Eone.
  unfold sql_insert in E. destruct (insert_row _ _ _) as [rows|] eqn:Hi; [|done]. injection E as _ <-.
  pose proof (insert_row_NoDup _ _ _ _ Hi (ok_grants _ _ Hok1)) as Hn.
  apply insert_row_Some in Hi as [-> Hfresh].
  destruct (vault_ok_le n (S n) t1 Hok1) as []; [lia|]. split.
  - split; simpl; try done.
    + rewrite map_app. apply NoDup_app. split_and!; [done| |apply NoDup_singleton].
      intros k Hk ->%list_elem_of_singleton. apply list_elem_of_fmap in Hk as (g & Ek & Hg). simpl in Ek.
      pose proof (proj1 (existsb_false_iff _ _) Eone g Hg) as Hne. simpl in Hne. bool_props. congruence.
    + intros g [Hg| ->%list_elem_of_singleton]%elem_of_app; [by apply ok_grant_ids0|].
      exists n. simpl. split; [lia|done].
    + intros l Hl. destruct (ok_lease_grant0 _ Hl) as (g & Hg & ?). exists g. split; [set_solver|done].
    + intros g [Hg| ->%list_elem_of_singleton]%elem_of_app; [by apply ok_origin0|]. simpl.
      exists (if p row then row <| rq_status := "approved" |> <| rq_updated_at := now |> else row).
      split; [rewrite <- E1; simpl; apply elem_of_update_where; by exists row|].
      unfold request_from_row in Hq. apply bind_Some in Hq as (operations & Hops & Hq).
      injection Hq as <-. simpl in *.
      assert (forall r, r = row \/ r = row <| rq_status := "approved" |> <| rq_updated_at := now |> ->
                rq_status r <> "awaiting_user" ->
                rq_id r = id /\ granted_from r (mkGrantRow (grant_id_of (uuid_simple n)) id account
                  provider client (rq_purpose row) (operations_text operations) expires_at 0 None)) as Hr.
      { intros r [->| ->] Hst; unfold granted_from; simpl in *; split_and!; try done; by exists operations. }
      apply Hr; [destruct (p row); auto|]. unfold p. rewrite (bool_decide_true _ Hid). simpl.
      case_bool_decide; [discriminate|done].
  - eapply vault_grows_trans; [exact Hg1|]. split; simpl.
    + split; [lia|]. apply descends_refl, _.
    + intros r Hr. by exists r.
    + apply descends_app; [apply _|]. exists n. simpl. split; [lia|done].
Qed.

Lemma approve_access_ensures s0 id : daemon_ok s0 -> ensures s0 (approve_access id) (fun _ _ => True).
Proof.
  intros Hi0. unfold approve_access. apply wp_bind. eapply wp_mono; [apply get_request_ensures|].
  intros [request|e] s1; [|done]. intros (row & Hrow & Hid & Hq).
  apply wp_bind, wp_guard_or; [|done]. intros [Hk _]%andb_true_iff. apply bool_decide_eq_true in Hk.
  apply wp_bind, wp_ok_or; [|done]. intros account Ha.
  apply wp_bind, wp_ok_or; [|done]. intros provider Hp.
  apply wp_bind, wp_ok_or; [|done]. intros client Hc.
  apply ensures_bind_any; [guarded| |done]. intros start s2 Hs2. cbv zeta.
  apply ensures_bind_any; [guarded| |done]. intros now s3 Hs3.
  apply wp_bind. apply ensures_execute_fresh; [|done]. intros s x t Hs Hi Eq. split.
  - destruct (gw_requests _ _ _ _ Hs2 _ Hrow) as (row2 & Hrow2 & S2).
    destruct (gw_requests _ _ _ _ Hs3 _ Hrow2) as (row3 & Hrow3 & S3).
    destruct (gw_requests _ _ _ _ Hs _ Hrow3) as (row4 & Hrow4 & S4).
    assert (same_request row row4) as (E1 & E2 & E3 & E4 & E5 & E6 & E7 & _)
      by (etransitivity; [exact S2|etransitivity; [exact S3|exact S4]]).
    assert (exists request', request_from_row row4 = Some request' /\ br_purpose request' = br_purpose request /\
      br_operations request' = br_operations request /\ br_kind request' = br_kind request /\
      br_account_id request' = br_account_id request /\ br_provider request' = br_provider request /\
      br_client_id request' = br_client_id request) as (request' & Hq' & Ep & Eo & Ek & Eac & Epr & Ec).
    { unfold request_from_row in *. rewrite E7. apply bind_Some in Hq as (ops & Hops & Hq).
      injection Hq as <-. rewrite Hops. eexists. split; [reflexivity|]. simpl. by rewrite E2, E3, E4, E5, E6. }
    rewrite <- Ep, <- Eo in Eq. eapply approve_request_kept; [exact Hi|exact Hrow4| |exact Hq'| | | | |exact Eq];
      congruence.
  - cbv zeta. apply guaranteed_ensures; [guarded|done].
Qed.
End Establish.

(** ** What returned calls have established, for good *)
Section Posts.
Context {H : Host} {Laws : HostLaws H}.
Implicit Types s : Daemon.
Notation ensures := (wp daemon_ok daemon_grows).

(** A grant of the past that is revoked, if it is still there. *)
Definition retired (grant_id : string) s : Prop :=
  (exists k, k < dm_uuids s /\ grant_id = grant_id_of (uuid_simple k)) /\
  forall g, g ∈ vt_grants (dm_tables s) -> gr_id g = grant_id -> gr_revoked_at g <> None.

(** A token of the past whose lease, if it is still there, is under the grant;
    [uses] holds of the uses that are left. *)
Definition leased (uses : Z -> Prop) (grant_id token : string) s : Prop :=
  exists k, k < dm_uuids s /\ token = token_of (uuid_simple k) /\
    forall l, l ∈ vt_leases (dm_tables s) -> ls_token_hash l = token_hash token ->
      ls_grant_id l = grant_id /\ uses (ls_remaining_uses l).
Definition single_use (n : Z) : Prop := (0 <= n <= 1)%Z.

Definition post (c : Call) (r : Result BrokerError Answer) s : Prop :=
  match c, r with
  | RevokeGrant grant_id _, Ok _ => retired grant_id s
  | IssueLease grant_id _, Ok (ALease lease) => leased (fun _ => True) grant_id (ol_token lease) s
  | IssueSingleUseLease grant_id _, Ok (ALease lease) => leased single_use grant_id (ol_token lease) s
  | _, _ => True
  end.

Lemma grant_id_inj k k' : grant_id_of (uuid_simple k) = grant_id_of (uuid_simple k') -> k = k'.
Proof. intros E. injection E as E. by apply (inj uuid_simple). Qed.

Lemma retired_stable grant_id s s' : retired grant_id s -> daemon_grows s s' -> retired grant_id s'.
Proof.
  intros [(k & Hk & ->) Hr] [[Hle _] _ Hg]. split; [exists k; split; [lia|done]|].
  intros g' Hg' E. destruct (Hg _ Hg') as [(g & Hin & Hs)|(k' & ? & E')].
  - destruct Hs as (Ei & _ & _ & _ & _ & _ & _ & _ & _ & Hrev). apply Hrev, Hr; [done|congruence].
  - rewrite E in E'. apply grant_id_inj in E' as ->. lia.
Qed.

Lemma leased_stable (uses : Z -> Prop) grant_id token s s' :
  (forall m m', uses m -> (m' = m \/ 0 <= m' < m)%Z -> uses m') ->
  leased uses grant_id token s -> daemon_grows s s' -> leased uses grant_id token s'.
Proof.
  intros Hu (k & Hk & -> & Hl) [[Hle Hg] _ _]. exists k. split; [lia|]. split; [done|].
  intros l' Hl' E. destruct (Hg _ Hl') as [(l & Hin & Hs)|(k' & ? & E')].
  - destruct Hs as (Eh & Ei & _ & _ & Hrem). rewrite Ei. destruct (Hl l Hin) as [? ?]; [congruence|].
    split; [done|by eapply Hu].
  - rewrite E in E'. apply (inj (fun k => token_hash (token_of (uuid_simple k)))) in E' as ->. lia.
Qed.

Lemma single_use_less m m' : single_use m -> (m' = m \/ 0 <= m' < m)%Z -> single_use m'.
Proof. unfold single_use. lia. Qed.

Lemma post_stable c r s s' : post c r s -> daemon_grows s s' -> post c r s'.
Proof.
  destruct c; simpl; auto; destruct r as [[]|]; auto;
    try (intros; by eapply retired_stable).
  - intros Hl ?. eapply leased_stable; [|exact Hl|done]. done.
  - intros Hl ?. eapply leased_stable; [|exact Hl|done]. exact single_use_less.
Qed.

Lemma revoke_grant_ensures s0 id reason :
  ensures s0 (revoke_grant id reason) (fun r s => match r with Ok _ => retired id s | Err _ => True end).
Proof.
  unfold revoke_grant. apply ensures_bind_any; [guarded| |done]. intros grant s1 _.
  apply ensures_bind_any; [guarded| |done]. intros now s2 _.
  apply wp_bind. apply ensures_execute; [eauto with sections| |done].
  intros s n t _ Hi Eq. apply wp_bind, wp_guard_or; [|done].
  intros Hn. apply negb_true_iff, bool_decide_eq_false in Hn.
  assert (retired id (s <| dm_tables := t |>)) as Hret.
  { injection Eq as <- <-. simpl in *. split.
    - destruct (select_where _ (vt_grants (dm_tables s))) as [|g l] eqn:Es; [done|].
      assert (g ∈ select_where (fun g => bool_decide (gr_id g = id) && bool_decide (gr_revoked_at g = None))
                (vt_grants (dm_tables s))) as Hg by (rewrite Es; by left).
      apply elem_of_select_where in Hg as [Hg Hp]. bool_props.
      destruct (ok_grant_ids _ _ Hi _ Hg) as (k & ? & E). exists k. split; [done|congruence].
    - intros g' (g & Hg & ->)%elem_of_update_where. case_bool_decide as E1; simpl; [|done].
      case_bool_decide as E2; simpl; [done|]. by intros _. }
  apply guaranteed_ensures; [guarded|]. intros [[]|e] s' Hs'; [|done]. by eapply retired_stable.
Qed.

Lemma issue_lease_ensures (allowed : Z -> Prop) s0 id ttl uses :
  allowed uses ->
  ensures s0 (issue_lease_with_uses id ttl uses) (fun r s =>
    match r with Ok lease => leased allowed id (ol_token lease) s | Err _ => True end).
Proof.
  intros Hu. unfold issue_lease_with_uses. do 6 (apply ensures_bind_any; [guarded| |done]; let a := fresh "a" in let v := fresh "v" in intros a v _).
  cbv zeta. apply wp_bind, ensures_execute_fresh; [|done]. intros s x t _ Hi Eq. split.
  - by eapply insert_lease_keeps.
  - simpl. exists (dm_uuids s). simpl. split; [lia|]. split; [done|]. intros l Hl Eh.
    assert (l ∉ vt_leases (dm_tables s) -> ls_grant_id l = id /\ allowed (ls_remaining_uses l)) as Hnew.
    { intros Hold. unfold insert_lease in Eq. destruct (find_by gr_id id _) as [g|] eqn:Hg.
      2: { injection Eq as _ <-. done. }
      unfold sql_insert in Eq. destruct (insert_row _ _ _) as [rows|] eqn:Hr; [|done]. injection Eq as _ <-.
      apply insert_row_Some in Hr as [-> _]. simpl in Hl.
      apply elem_of_app in Hl as [?| ->%list_elem_of_singleton]; [done|]. simpl.
      by apply find_by_Some in Hg as [_ ?]. }
    apply Hnew. intros Hold. unfold insert_lease in Eq. destruct (find_by gr_id id _) as [g|] eqn:Hg.
    + unfold sql_insert in Eq. destruct (insert_row _ _ _) as [rows|] eqn:Hr; [|done].
      apply insert_row_Some in Hr as [_ Hf]. by apply (Hf l).
    + (* no row was inserted, and no older token has this hash *)
      injection Eq as _ <-. destruct (ok_tokens _ _ Hi _ Hold) as (k & Hk & E). rewrite Eh in E.
      apply (inj (fun k => token_hash (token_of (uuid_simple k)))) in E. lia.
Qed.
End Posts.
