(* ===== verification/CallFacts.v ===== *)
(** Every section of every call of the daemon keeps the vault's invariant and
    changes the tables as [grows] allows. *)
From S2P Require Import Prelude Text Substring Json Redaction Table Threads Network Catalog Paths Vault Protocol Broker Adapters Execution Center Tools Service BrokerFacts.

(** Programs around a program, for any invariant and guarantee. *)
Section Wrappers.
Context {H : Host} {I : Daemon -> Prop} {G : Daemon -> Daemon -> Prop}.
Notation guaranteed p := (guarantees I G p).

Lemma attempt_ok {E E' A} (p : Task Daemon E A) : guaranteed p -> guaranteed (attempt (E':=E') p).
Proof. intros Hp. by apply guarantees_prog_bind. Qed.
Lemma ignore_ok {E E' A} (p : Task Daemon E A) : guaranteed p -> guaranteed (ignore (E':=E') p).
Proof. intros Hp. by apply guarantees_prog_bind. Qed.
Lemma respond_with_ok {E E' A} (p : Task Daemon E A) ok error :
  guaranteed p -> guaranteed (respond_with (E':=E') p ok error).
Proof. intros Hp. by apply guarantees_prog_bind. Qed.
Lemma reply_ok {E A} (f : Result E A -> Answer) (p : Task Daemon E A) : guaranteed p -> guaranteed (reply f p).
Proof. intros Hp. by apply guarantees_prog_bind. Qed.
Lemma lift_ok {E A} (r : Result E A) : guaranteed (lift r).
Proof. by destruct r. Qed.
End Wrappers.

Section Programs.
Context {H : Host} {P : Parsers} {Net : Network} {Texts : CredentialTexts} {Sg : Signing}
  {D : Deployment}.
Notation guaranteed p := (guarantees daemon_ok section_ok p).
(** What is not in the tables is not the invariant's concern. *)
Lemma http_send_ok {E} request : guaranteed (http_send (E:=E) request).
Proof. intros s Hs. split; [by apply section_ok_same|done]. Qed.
Lemma remember_flow_ok {E} key pending : guaranteed (remember_flow (E:=E) key pending).
Proof. intros s Hs. split; [by apply section_ok_same|done]. Qed.
Lemma take_flow_ok {E} key : guaranteed (take_flow (E:=E) key).
Proof. intros s Hs. split; [by apply section_ok_same|done]. Qed.
Lemma pipe_verify_ok key envelope : guaranteed (pipe_verify key envelope).
Proof.
  intros s Hs. simpl. destruct (verify _ _ _ _ _) as [r replay]. split; [by apply section_ok_same|done].
Qed.
End Programs.
#[export] Hint Resolve lift_ok http_send_ok remember_flow_ok take_flow_ok pipe_verify_ok : sections.

(** The definition of a program. *)
Ltac open_program p := lazymatch p with ?f _ => open_program f | _ => unfold p end.

(** [guarded] for the programs above the broker. *)
Ltac called_step := lazymatch goal with
  | |- guarantees _ _ (attempt _) => apply attempt_ok
  | |- guarantees _ _ (ignore _) => apply ignore_ok
  | |- guarantees _ _ (respond_with _ _ _) => apply respond_with_ok
  | |- guarantees _ _ (reply _ _) => apply reply_ok
  | |- guarantees _ _ (page _) => apply reply_ok
  | |- guarantees _ _ (unsupported _) => apply guarantees_map_err
  | |- _ => guarded_step
  end.
Ltac called := repeat called_step.

Section Calls.
Context {H : Host} {P : Parsers} {Net : Network} {Texts : CredentialTexts} {Sg : Signing}
  {D : Deployment}.
Notation guaranteed p := (guarantees daemon_ok section_ok p).

(** ** Adapters *)
Lemma fetched_ok {E} (network rejected invalid : E) request :
  guaranteed (fetched network rejected invalid request).
Proof. unfold fetched, arrived. called. Qed.
Lemma expires_within_ok credential duration : guaranteed (expires_within credential duration).
Proof. unfold expires_within. called. Qed.
Lemma expiry_from_ok body : guaranteed (expiry_from body).
Proof. unfold expiry_from. called. Qed.
Hint Resolve fetched_ok expires_within_ok expiry_from_ok : sections.
Lemma verify_credentials_ok provider profile fields : guaranteed (verify_credentials provider profile fields).
Proof. unfold verify_credentials, field. called. Qed.
Lemma exchange_and_verify_ok config code verifier uri : guaranteed (exchange_and_verify config code verifier uri).
Proof. unfold exchange_and_verify. called. Qed.
Lemma verify_token_ok config token : guaranteed (verify_token config token).
Proof. unfold verify_token. called. Qed.
Lemma refresh_oauth_credential_ok config lifecycle current :
  guaranteed (refresh_oauth_credential config lifecycle current).
Proof. unfold refresh_oauth_credential. called. Qed.
Hint Resolve refresh_oauth_credential_ok : sections.
Lemma refresh_stored_ok account_id config lifecycle :
  guaranteed (refresh_stored_oauth_credential account_id config lifecycle).
Proof. unfold refresh_stored_oauth_credential, replace_secret_if_generation. called. Qed.
Lemma revoke_oauth_credential_ok lifecycle credential : guaranteed (revoke_oauth_credential lifecycle credential).
Proof. unfold revoke_oauth_credential. called. Qed.
Hint Resolve verify_credentials_ok exchange_and_verify_ok verify_token_ok refresh_stored_ok
  revoke_oauth_credential_ok : sections.

(** ** Execution *)
Lemma renewed_credential_ok provider profile account_id :
  guaranteed (renewed_credential provider profile account_id).
Proof. unfold renewed_credential, reload_credential. called. Qed.
Hint Resolve renewed_credential_ok : sections.
Lemma authentication_ok provider profile account_id secret :
  guaranteed (authentication provider profile account_id secret).
Proof. unfold authentication, current_credential. called. Qed.
Hint Resolve authentication_ok : sections.
Lemma execute_authenticated_ok request : guaranteed (execute_authenticated catalog request).
Proof. unfold execute_authenticated. called. Qed.
Hint Resolve execute_authenticated_ok : sections.
Lemma run_granted_ok request grant method url schema :
  guaranteed (run_granted catalog request grant method url schema).
Proof. unfold run_granted, issue_single_use_lease. called. Qed.
Lemma ask_user_ok request account : guaranteed (ask_user request account).
Proof. unfold ask_user. called. Qed.
Hint Resolve run_granted_ok ask_user_ok : sections.
Lemma execute_typed_operation_ok request : guaranteed (execute_typed_operation catalog request).
Proof. unfold execute_typed_operation. called. Qed.
Hint Resolve execute_typed_operation_ok : sections.
Lemma execute_envelope_ok envelope : guaranteed (execute_envelope catalog client_key envelope).
Proof. unfold execute_envelope. called. Qed.
Hint Resolve execute_envelope_ok : sections.

(** ** The account center *)
Lemma web_cancel_ok intent id : guaranteed (web_cancel intent id).
Proof. unfold web_cancel, intended. called. Qed.
Lemma web_revoke_ok intent id : guaranteed (web_revoke intent id).
Proof. unfold web_revoke, intended. called. Qed.
Lemma web_disconnect_ok intent id : guaranteed (web_disconnect catalog intent id).
Proof. unfold web_disconnect, intended. called. Qed.
Lemma store_verified_ok verified method failed : guaranteed (store_verified verified method failed).
Proof. unfold store_verified. called. Qed.
Hint Resolve store_verified_ok : sections.
Lemma web_connect_credential_ok intent provider profile fields :
  guaranteed (web_connect_credential catalog intent provider profile fields).
Proof. unfold web_connect_credential, intended. called. Qed.
Lemma web_connect_token_ok intent provider token : guaranteed (web_connect_token catalog intent provider token).
Proof. unfold web_connect_token, intended. called. Qed.
Lemma start_oauth_ok provider profile : guaranteed (start_oauth provider profile).
Proof. unfold start_oauth, new_transaction, random_urlsafe. called. Qed.
Lemma web_oauth_callback_ok code state error : guaranteed (web_oauth_callback code state error).
Proof. unfold web_oauth_callback. called. Qed.
Lemma start_device_flow_ok config : guaranteed (start_device_flow config).
Proof. unfold start_device_flow. called. Qed.
Lemma poll_device_flow_ok config code : guaranteed (poll_device_flow config code).
Proof. unfold poll_device_flow. called. Qed.
Lemma supersede_ok now sessions : guaranteed (supersede now sessions).
Proof. induction sessions; cbn [supersede]; called. Qed.
Hint Resolve start_oauth_ok start_device_flow_ok poll_device_flow_ok supersede_ok : sections.
Lemma web_start_device_ok config : guaranteed (web_start_device config).
Proof. unfold web_start_device. called. Qed.
Hint Resolve web_start_device_ok : sections.
Lemma web_start_connection_ok intent provider : guaranteed (web_start_connection catalog intent provider).
Proof. unfold web_start_connection, intended. called. Qed.
Lemma connect_session_ok session verified : guaranteed (connect_session session verified).
Proof. unfold connect_session. called. Qed.
Lemma continue_session_ok session poll : guaranteed (continue_session session poll).
Proof. unfold continue_session. called. Qed.
Hint Resolve connect_session_ok continue_session_ok : sections.
Lemma poll_round_ok session now : guaranteed (poll_round catalog session now).
Proof. unfold poll_round. called. Qed.
Hint Resolve poll_round_ok : sections.
Lemma device_worker_ok session_id : guaranteed (device_worker catalog session_id).
Proof. unfold device_worker. called. Qed.

(** ** The tools *)
Lemma tool_with_ok {E A} (p : Task Daemon E A) f code : guaranteed p -> guaranteed (tool_with p f code).
Proof. intros Hp. by apply guarantees_prog_bind. Qed.
Lemma or_empty_ok {E A} (p : Task Daemon E (list A)) : guaranteed p -> guaranteed (or_empty p).
Proof. intros Hp. unfold or_empty. by apply guarantees_bind; [apply attempt_ok|]. Qed.
Lemma lease_of_request_ok request_id : guaranteed (lease_of_request request_id).
Proof. unfold lease_of_request. called. Qed.
Hint Resolve tool_with_ok or_empty_ok lease_of_request_ok : sections.
Lemma invoke_action_ok request : guaranteed (invoke_action catalog client_key request).
Proof. unfold invoke_action. called. Qed.
Hint Resolve invoke_action_ok : sections.
Lemma run_tool_ok c : guaranteed (run_tool catalog client_key c).
Proof.
  destruct c; cbn [run_tool]; unfold account_list, account_discover, account_require, account_request_access,
    account_request_creation, account_request_status, account_attention_list, account_cancel_request,
    account_resume_request, account_revoke_grant, account_audit_list; called.
Qed.
End Calls.
#[export] Hint Resolve run_tool_ok execute_typed_operation_ok execute_envelope_ok web_cancel_ok web_revoke_ok
  web_disconnect_ok web_connect_credential_ok web_connect_token_ok web_start_connection_ok
  web_oauth_callback_ok device_worker_ok : sections.

(** ** Where grants come from: a section that adds a grant is one of a call
    that approves its request *)

(** The calls by which a user approves a request: the broker's own, and the
    account center's, with the header that says the user acted. *)
Definition approves (c : Call) (request_id : string) : Prop :=
  c = ApproveAccess request_id \/
  exists intent, c = WebApprove intent request_id /\ valid_user_intent intent = true.

(** Every grant was there before, or is for an allowed request. *)
Definition grants_only (allowed : string -> Prop) (s s' : Daemon) : Prop :=
  forall g', g' ∈ vt_grants (dm_tables s') ->
    (exists g, g ∈ vt_grants (dm_tables s) /\ gr_request_id g = gr_request_id g') \/
    allowed (gr_request_id g').

Section Granting.
Context {H : Host} (allowed : string -> Prop).
Notation granting p := (guarantees daemon_ok (grants_only allowed) p).

Lemma grants_only_same s s' : vt_grants (dm_tables s') = vt_grants (dm_tables s) -> grants_only allowed s s'.
Proof. intros E g. rewrite E. intros Hg. left. by exists g. Qed.
Lemma granting_quiet {E A X} (section : Daemon -> X * Daemon) (rest : X -> Task Daemon E A) :
  (forall s, dm_tables (snd (section s)) = dm_tables s) -> (forall x, granting (rest x)) ->
  granting (Atomic section rest).
Proof. intros Hq Hr s _. split; [|by apply Hr]. apply grants_only_same. by rewrite Hq. Qed.
Lemma utc_now_granting {E} : granting (utc_now (E:=E)).
Proof. by apply granting_quiet. Qed.
Lemma new_uuid_granting {E} : granting (new_uuid (E:=E)).
Proof. by apply granting_quiet. Qed.
Lemma fill_granting {E} len : granting (fill (E:=E) len).
Proof. by apply granting_quiet. Qed.
Lemma query_granting {E X} (f : Tables -> X) : granting (query (E:=E) f).
Proof. by apply granting_quiet. Qed.

(** A statement that assigns no identifier adds no grant. *)
Lemma sql_keeps_grants {X} (q : Sql X) n t x t' :
  sql_keeps q -> vault_ok n t -> q t = Some (x, t') ->
  forall g', g' ∈ vt_grants t' -> exists g, g ∈ vt_grants t /\ gr_request_id g = gr_request_id g'.
Proof.
  intros Hq Hok Eq g' Hg'. destruct (Hq _ _ _ _ Hok Eq) as [_ [_ _ Hg]].
  destruct (Hg _ Hg') as [(g & Hin & (_ & E & _))|(k & ? & _)]; [by exists g|lia].
Qed.
Lemma execute_granting {E X} (e : E) (q : Sql X) : sql_keeps q -> granting (execute e q).
Proof.
  intros Hq s Hs. split; [|done]. simpl. destruct (q _) as [[x t]|] eqn:Eq; [|by apply grants_only_same].
  intros g Hg. left. by eapply sql_keeps_grants.
Qed.
Lemma execute_timed_granting {E X} (e : E) k (q : (nat -> string) -> Sql X) :
  (forall now, sql_keeps (q now)) -> granting (execute_timed e k q).
Proof.
  intros Hq s Hs. split; [|done]. simpl. destruct (q _ _) as [[x t]|] eqn:Eq; [|by apply grants_only_same].
  intros g Hg. left. by eapply sql_keeps_grants.
Qed.
Lemma execute_fresh_granting {E X} (e : E) (q : string -> Sql X) :
  (forall uuid t x t' g', q uuid t = Some (x, t') -> g' ∈ vt_grants t' ->
     (exists g, g ∈ vt_grants t /\ gr_request_id g = gr_request_id g') \/ allowed (gr_request_id g')) ->
  granting (execute_fresh e q).
Proof.
  intros Hq s Hs. split; [|done]. simpl. destruct (q _ _) as [[x t]|] eqn:Eq; [|by apply grants_only_same].
  intros g Hg. by eapply Hq.
Qed.
Lemma insert_request_granting {E} (e : E) (row : string -> RequestRow) :
  granting (execute_fresh e (fun uuid => insert_request (row uuid))).
Proof.
  apply execute_fresh_granting. intros uuid t x t' g'. unfold insert_request, sql_insert.
  destruct (insert_row _ _ _); [|done]. intros [= _ <-] Hg. left. by exists g'.
Qed.
Lemma insert_lease_granting {E} (e : E) hash grant_id expires_at uses :
  granting (execute_fresh e (fun uuid => insert_lease (hash uuid) grant_id expires_at uses)).
Proof.
  apply execute_fresh_granting. intros uuid t x t' g'. unfold insert_lease.
  destruct (find_by _ _ _); [|by intros [= _ <-] Hg; left; exists g'].
  unfold sql_insert. destruct (insert_row _ _ _); [|done]. intros [= _ <-] Hg. left. by exists g'.
Qed.
Lemma approve_request_granting {E} (e : E) request_id now (grant : string -> GrantRow) :
  allowed request_id -> (forall uuid, gr_request_id (grant uuid) = request_id) ->
  granting (execute_fresh e (fun uuid => approve_request request_id now (grant uuid))).
Proof.
  intros Ha Hr. apply execute_fresh_granting. intros uuid t x t' g' Eq Hg.
  unfold approve_request, set_request_status, insert_grant, sql_check, sql_update, sql_insert,
    mbind, Sql_bind in Eq.
  destruct (_ && negb _); [|done]. simpl in Eq. destruct (insert_row _ _ _) as [rows|] eqn:Ei; [|done].
  injection Eq as _ <-. apply insert_row_Some in Ei as [-> _]. simpl in Hg.
  apply elem_of_app in Hg as [Hg| ->%list_elem_of_singleton]; [left; by exists g'|right]. by rewrite Hr.
Qed.
Lemma lift_result_granting {A} f (r : Result string A) : granting (lift_result f r).
Proof. by destruct r. Qed.
Lemma http_send_granting {Net : Network} {E} request : granting (http_send (E:=E) request).
Proof. by apply granting_quiet. Qed.
Lemma remember_flow_granting {E} key pending : granting (remember_flow (E:=E) key pending).
Proof. by apply granting_quiet. Qed.
Lemma take_flow_granting {E} key : granting (take_flow (E:=E) key).
Proof. by apply granting_quiet. Qed.
Lemma pipe_verify_granting {Sg : Signing} key envelope : granting (pipe_verify key envelope).
Proof. apply granting_quiet; [|done]. intros s. simpl. by destruct (verify _ _ _ _ _). Qed.
End Granting.
#[export] Hint Resolve utc_now_granting new_uuid_granting fill_granting query_granting
  insert_request_granting insert_lease_granting lift_result_granting http_send_granting
  remember_flow_granting take_flow_granting pipe_verify_granting : sections.

(** [granting]: a program that approves nothing, by its shape; programs are opened. *)
Ltac granting_step := lazymatch goal with
  | |- sql_keeps (_ ≫= _) => apply sql_keeps_bind; [|intros ?]
  | |- sql_keeps _ => solve [eauto with sections]
  | |- guarantees _ _ (execute _ _) => apply execute_granting
  | |- guarantees _ _ (execute_timed _ _ _) => apply execute_timed_granting; intros ?
  | |- guarantees _ _ (attempt _) => apply attempt_ok
  | |- guarantees _ _ (ignore _) => apply ignore_ok
  | |- guarantees _ _ (reply _ _) => apply reply_ok
  | |- guarantees _ _ (_ ≫= _) => apply guarantees_bind; [|intros ?]
  | |- guarantees _ _ (prog_bind _ _) => apply guarantees_prog_bind; [|intros ?]
  | |- guarantees _ _ (map_err _ _) => apply guarantees_map_err
  | |- guarantees _ _ (match ?x with _ => _ end) => destruct x
  | |- guarantees _ _ (let _ := _ in _) => cbv zeta
  | |- guarantees _ _ ?p => first [solve [eauto with sections] | open_program p]
  end.
Ltac granting := repeat granting_step.

Section Grants.
Context {H : Host} {P : Parsers} {Net : Network} {Texts : CredentialTexts} {Sg : Signing}
  {D : Deployment}.
Notation granting p := (guarantees daemon_ok (grants_only _) p).

Lemma approve_access_granting (allowed : string -> Prop) request_id :
  allowed request_id -> guarantees daemon_ok (grants_only allowed) (approve_access request_id).
Proof.
  intros Ha. unfold approve_access. do 6 (granting_step; [granting|]). cbv zeta.
  granting_step; [granting|]. granting_step; [by apply approve_request_granting|]. granting.
Qed.
Lemma update_authorization_session_granting allowed session :
  guarantees daemon_ok (grants_only allowed) (update_authorization_session session).
Proof. apply execute_granting, sql_keeps_update. intros n t Hok. by apply kept_quiet. Qed.
Lemma delete_authorization_secret_granting allowed session_id :
  guarantees daemon_ok (grants_only allowed) (delete_authorization_secret session_id).
Proof. apply execute_granting, sql_keeps_update. intros n t Hok. by apply kept_quiet. Qed.
Lemma seal_granting allowed aad secret : guarantees daemon_ok (grants_only allowed) (seal aad secret).
Proof. granting. Qed.
Hint Resolve update_authorization_session_granting delete_authorization_secret_granting seal_granting : sections.
Lemma store_authorization_session_granting allowed session secret :
  guarantees daemon_ok (grants_only allowed) (store_authorization_session session secret).
Proof.
  unfold store_authorization_session. granting_step; [granting|]. repeat (destruct a as [a ?]).
  apply execute_granting, sql_keeps_bind; [|intros ?]; by apply sql_keeps_insert.
Qed.
Hint Resolve store_authorization_session_granting : sections.
Lemma supersede_granting allowed now sessions :
  guarantees daemon_ok (grants_only allowed) (supersede now sessions).
Proof. induction sessions; cbn [supersede]; granting. Qed.
Hint Resolve approve_access_granting supersede_granting : sections.
Lemma web_approve_granting c intent id :
  c = WebApprove intent id -> guarantees daemon_ok (grants_only (approves c)) (web_approve intent id).
Proof.
  intros ->. unfold web_approve, intended. destruct (valid_user_intent intent) eqn:Ei; [|done].
  granting_step; [granting|]. apply respond_with_ok, approve_access_granting. right. by exists intent.
Qed.
Lemma call_granting c : guarantees daemon_ok (grants_only (approves c)) (broker_call c).
Proof.
  destruct c; cbn [broker_call]; try solve [granting].
  - apply guarantees_prog_bind; [apply approve_access_granting; by left|by intros [a|e]].
  - by eapply reply_ok, web_approve_granting.
Qed.
End Grants.
