(* ===== verification/BrokerSafety.v ===== *)
(** The safety of the broker under every interleaving: what an authorization
    rests on, that a revocation is final, and that a single-use lease works
    once. *)
From S2P Require Import Prelude Text Substring Json Redaction Table Threads Network Catalog Paths Vault Protocol Broker Adapters Execution Center Tools Service BrokerFacts CallFacts.

Section Safety.
Context {H : Host} {P : Parsers} {Net : Network} {Texts : CredentialTexts} {Sg : Signing}
  {D : Deployment} {Laws : HostLaws H}.
Implicit Types (s : Daemon) (conf : BrokerConf) (tr : list (Daemon * Daemon)).
Notation ensures := (wp daemon_ok daemon_grows).

(** ** Every call *)
Lemma answer_ensures {A} (f : A -> Answer) (p : Broker A) s0 Q :
  ensures s0 p (fun r s => Q (match r with Ok a => Ok (f a) | Err e => Err e end) s) ->
  ensures s0 (answer f p) Q.
Proof. intros Hp. by apply wp_prog_bind. Qed.

Lemma broker_call_ensures c s : daemon_ok s -> ensures s (broker_call c) (post c).
Proof.
  intros Hs. destruct c;
    try solve [apply guaranteed_ensures; [cbn [broker_call]; called|done]].
  - apply answer_ensures. eapply wp_mono; [by apply approve_access_ensures|]. by intros [a|e].
  - apply answer_ensures. eapply wp_mono; [by apply (issue_lease_ensures (fun _ => True))|]. by intros [a|e].
  - apply answer_ensures. eapply wp_mono; [apply (issue_lease_ensures single_use); done|]. by intros [a|e].
  - apply answer_ensures. eapply wp_mono; [apply revoke_grant_ensures|]. by intros [a|e].
  - apply wp_prog_bind, wp_bind, wp_guard_or; [|done]. intros _. apply wp_prog_bind.
    eapply wp_mono; [by apply approve_access_ensures|]. done.
Qed.

Lemma fresh_settled : settled daemon_ok daemon_grows post fresh_daemon.
Proof.
  split; [split; simpl; try apply NoDup_nil_2; by intros ? ?%not_elem_of_nil|].
  split; by intros ? ? ?%not_elem_of_nil.
Qed.

Lemma broker_steps_settled conf conf' :
  rtc broker_step conf conf' -> settled daemon_ok daemon_grows post conf ->
  settled daemon_ok daemon_grows post conf' /\ daemon_grows (c_state conf) (c_state conf').
Proof.
  apply (settled_steps broker_call daemon_ok daemon_grows post post_stable broker_call_ensures).
Qed.

Lemma reachable_settled conf : broker_reachable conf -> settled daemon_ok daemon_grows post conf.
Proof. intros Hr. by apply (broker_steps_settled _ _ Hr fresh_settled). Qed.

(** ** Who granted *)

(** The request was approved: at some step of the history a section of a call
    by which a user approves it made the grant for it. *)
Definition approved conf (request_id : string) : Prop :=
  exists conf1 conf2 c p, broker_reachable conf1 /\ broker_step conf1 conf2 /\ rtc broker_step conf2 conf /\
    (c, p) ∈ c_threads conf1 /\ approves c request_id /\
    (forall g, g ∈ vt_grants (dm_tables (c_state conf1)) -> gr_request_id g <> request_id) /\
    (exists g, g ∈ vt_grants (dm_tables (c_state conf2)) /\ gr_request_id g = request_id).

Lemma approved_later conf conf' request_id :
  approved conf request_id -> rtc broker_step conf conf' -> approved conf' request_id.
Proof.
  intros (c1 & c2 & c & p & ? & ? & Hs & ? & ? & ? & ?) Hs'. exists c1, c2, c, p. split_and!; try done.
  by etransitivity.
Qed.

Lemma reachable_attributed conf :
  broker_reachable conf -> attributed daemon_ok (fun c => grants_only (approves c)) conf.
Proof.
  unfold broker_reachable. revert conf. apply rtc_ind_r.
  - by intros c p ?%not_elem_of_nil.
  - intros conf conf' Hr Hs IH. by apply (attributed_step broker_call daemon_ok _ call_granting _ _ Hs);
      [apply reachable_settled|].
Qed.

Lemma grants_are_approved conf :
  broker_reachable conf ->
  forall g, g ∈ vt_grants (dm_tables (c_state conf)) -> approved conf (gr_request_id g).
Proof.
  unfold broker_reachable. revert conf. apply (rtc_ind_r (fun conf =>
    forall g, g ∈ vt_grants (dm_tables (c_state conf)) -> approved conf (gr_request_id g))).
  - by intros g ?%not_elem_of_nil.
  - intros conf conf' Hr Hs IH g Hg.
    destruct (attributed_step broker_call daemon_ok _ call_granting _ _ Hs) as [_ Hstep];
      [by apply reachable_settled|by apply reachable_attributed|].
    assert (forall g0, g0 ∈ vt_grants (dm_tables (c_state conf)) -> gr_request_id g0 = gr_request_id g ->
              approved conf' (gr_request_id g)) as Hold.
    { intros g0 Hg0 <-. eapply approved_later; [by apply IH|]. by eapply rtc_once. }
    destruct Hstep as [E|(c & p & Hin & Hc)]; [rewrite E in Hg; by eapply Hold|].
    destruct (Hc _ Hg) as [(g0 & Hg0 & E)|Ha]; [by eapply Hold|].
    destruct (existsb (fun g0 => bool_decide (gr_request_id g0 = gr_request_id g))
                (vt_grants (dm_tables (c_state conf)))) eqn:Ex.
    { apply existsb_exists in Ex as (g0 & Hg0%list_elem_of_In & E%bool_decide_eq_true). by eapply Hold. }
    exists conf, conf', c, p. split_and!; try done; [|by exists g].
    intros g0 Hg0 E. pose proof (proj1 (existsb_false_iff _ _) Ex g0 Hg0) as Hn. simpl in Hn. by bool_props.
Qed.

(** ** Runs of [authorize] *)
Lemma exec_query {E X} (f : Tables -> X) tr (x : X) :
  exec (query (E:=E) f) tr (Ok x) -> exists s, tr = [(s, s)] /\ x = f (dm_tables s).
Proof.
  intros (s & tr' & -> & Hr)%exec_atomic_inv. apply exec_return_inv in Hr as [-> [= ->]]. by exists s.
Qed.
Lemma exec_utc_now {E} tr (x : Z) :
  exec (utc_now (E:=E)) tr (Ok x) -> exists s s', tr = [(s, s')] /\ x = now_at (dm_readings s).
Proof.
  intros (s & tr' & -> & Hr)%exec_atomic_inv. apply exec_return_inv in Hr as [-> [= ->]]. by eexists _, _.
Qed.
Lemma exec_answer {A} (f : A -> Answer) (p : Broker A) tr a :
  exec (answer f p) tr (Ok a) -> exists x, exec p tr (Ok x) /\ a = f x.
Proof.
  intros (tr1 & tr2 & [x|e] & -> & Hp & Hr)%exec_prog_bind; apply exec_return_inv in Hr as [-> [= ->]].
  exists x. by rewrite app_nil_r.
Qed.

(** The stored text had not passed at a reading of the clock in the run. *)
Definition unexpired_in tr (expires_at : string) : Prop :=
  exists deadline s s', parse_from_rfc3339 expires_at = Some deadline /\ (s, s') ∈ tr /\
    (now_at (dm_readings s) < deadline)%Z.

Lemma exec_expired text tr :
  exec (expired text) tr (Ok false) -> unexpired_in tr text.
Proof.
  intros (tr1 & tr2 & deadline & -> & H1 & H2)%exec_bind_Ok. apply exec_ok_or in H1 as [Hd ->].
  apply exec_bind_Ok in H2 as (tr3 & tr4 & now & -> & H3 & H4).
  apply exec_utc_now in H3 as (s & s' & -> & ->). apply exec_ret in H4 as [Hb ->].
  symmetry in Hb. apply bool_decide_eq_false in Hb. exists deadline, s, s'. split; [done|]. split; [set_solver|lia].
Qed.

Lemma unexpired_in_mono tr tr' text :
  unexpired_in tr text -> (forall sec, sec ∈ tr -> sec ∈ tr') -> unexpired_in tr' text.
Proof. intros (d & s & s' & ? & ? & ?) Hsub. exists d, s, s'. auto. Qed.

(** What [authorize] reads in the tables when it goes on to answer [Ok]. *)
Record backing (t : Tables) (token client_id purpose audience operation : string)
    (lease : LeaseRow) (grant : GrantRow) (account : AccountMetadata) : Prop := {
  bk_lease : lease ∈ vt_leases t;
  bk_token : ls_token_hash lease = token_hash token;
  bk_uses : ls_remaining_uses lease <> 0%Z;
  bk_grant : grant ∈ vt_grants t;
  bk_under : gr_id grant = ls_grant_id lease;
  bk_generation : ls_generation lease = gr_generation grant;
  bk_unrevoked : gr_revoked_at grant = None;
  bk_account : account ∈ vt_accounts t;
  bk_of : ac_id account = gr_account_id grant;
  bk_connected : ac_status account = "connected";
  bk_provider : gr_provider grant = audience;
  bk_client : gr_client_id grant = client_id;
  bk_purpose : gr_purpose grant = purpose;
  bk_operation : exists operations, parse_vec (gr_operations_json grant) = Some operations /\
    operation ∈ operations
}.

Lemma lease_authorization_record_Some hash audience t lease grant :
  lease_authorization_record hash audience t = Some (lease, grant) ->
  exists account, lease ∈ vt_leases t /\ ls_token_hash lease = hash /\ grant ∈ vt_grants t /\
    gr_id grant = ls_grant_id lease /\ account ∈ vt_accounts t /\ ac_id account = gr_account_id grant /\
    gr_provider grant = audience /\ gr_revoked_at grant = None /\ ac_status account = "connected".
Proof.
  unfold lease_authorization_record. intros (l & [Hl El]%find_by_Some & Hr)%bind_Some.
  apply bind_Some in Hr as (g & [Hg Eg]%find_by_Some & Hr).
  apply bind_Some in Hr as (acc & [Ha Ea]%find_by_Some & Hr).
  destruct (_ && _ && _) eqn:E; [|done]. injection Hr as <- <-. bool_props.
  exists acc. by repeat split.
Qed.

Lemma authorize_exec token client_id purpose audience operation tr u :
  exec (authorize token client_id purpose audience operation) tr (Ok u) ->
  exists s lease grant account, (s, s) ∈ tr /\
    backing (dm_tables s) token client_id purpose audience operation lease grant account /\
    unexpired_in tr (ls_expires_at lease) /\ unexpired_in tr (gr_expires_at grant).
Proof.
  unfold authorize. cbv zeta. intros (tr0 & tr1 & rec & -> & Hq & Hx)%exec_bind_Ok.
  apply exec_query in Hq as (s & -> & ->).
  apply exec_bind_Ok in Hx as (tr2 & tr3 & [lease grant] & -> & Ho & Hx). apply exec_ok_or in Ho as [Ho ->].
  destruct (lease_authorization_record_Some _ _ _ _ _ Ho) as (account & Hacc).
  apply exec_bind_Ok in Hx as (tr4 & tr5 & [] & -> & Hg & Hx). apply exec_guard_or in Hg as [Huses ->].
  apply exec_bind_Ok in Hx as (tr6 & tr7 & [] & -> & Hg & Hx). apply exec_guard_or in Hg as [Hgen ->].
  apply exec_bind_Ok in Hx as (tr8 & tr9 & le & -> & He & Hx).
  apply exec_bind_Ok in Hx as (tr10 & tr11 & [] & -> & Hg & Hx). apply exec_guard_or in Hg as [Hle ->].
  apply negb_true_iff in Hle as ->. apply exec_expired in He.
  apply exec_bind_Ok in Hx as (tr12 & tr13 & ge & -> & He' & Hx).
  apply exec_bind_Ok in Hx as (tr14 & tr15 & [] & -> & Hg & Hx). apply exec_guard_or in Hg as [Hge ->].
  apply negb_true_iff in Hge as ->. apply exec_expired in He'.
  apply exec_bind_Ok in Hx as (tr16 & tr17 & allowed & -> & Ha & Hx).
  destruct allowed; simpl in Hx.
  2: { apply exec_bind_Ok in Hx as (? & ? & [] & _ & _ & Hx). apply exec_return_inv in Hx as [_ [=]]. }
  destruct (bool_decide (gr_client_id grant <> client_id) || _) eqn:Ecp.
  { apply exec_ret in Ha as [[=] _]. }
  apply exec_bind_Ok in Ha as (tr18 & tr19 & operations & -> & Hp & Hr).
  apply exec_ok_or in Hp as [Hp ->]. apply exec_ret in Hr as [Hop ->]. symmetry in Hop.
  bool_props. destruct Hacc as (?&?&?&?&?&?&?&?&?).
  exists s, lease, grant, account. split; [set_solver|]. split; [|split].
  - split; try done; [by apply dec_stable|by apply dec_stable|]. by exists operations.
  - eapply unexpired_in_mono; [exact He|]. intros sec Hs. simpl. set_solver.
  - eapply unexpired_in_mono; [exact He'|]. intros sec Hs. simpl. set_solver.
Qed.

(** A successful [authorize] that started after [conf0]: what it rested on, at
    configurations of the history. *)
Definition unexpired_during conf0 conf (expires_at : string) : Prop :=
  exists deadline conf1, parse_from_rfc3339 expires_at = Some deadline /\
    rtc broker_step conf0 conf1 /\ rtc broker_step conf1 conf /\
    (now_at (dm_readings (c_state conf1)) < deadline)%Z.

Lemma during_states conf0 conf tr sec :
  Forall (during broker_call conf0 conf) tr -> sec ∈ tr ->
  exists conf1, rtc broker_step conf0 conf1 /\ rtc broker_step conf1 conf /\ c_state conf1 = fst sec.
Proof.
  intros Htr Hs. rewrite Forall_forall in Htr. destruct (Htr _ Hs) as (c1 & c2 & ? & ? & ? & ->).
  exists c1. split; [done|]. split; [by eapply rtc_l|done].
Qed.

Lemma unexpired_in_during conf0 conf tr text :
  Forall (during broker_call conf0 conf) tr -> unexpired_in tr text -> unexpired_during conf0 conf text.
Proof.
  intros Htr (deadline & s & s' & Hp & Hs & Hlt). destruct (during_states _ _ _ _ Htr Hs) as (c1 & ? & ? & E).
  exists deadline, c1. simpl in E. by rewrite E.
Qed.

Lemma authorize_backed conf0 conf new token client_id purpose audience operation a :
  rtc broker_step conf0 conf -> c_log conf = c_log conf0 ++ new ->
  (Authorize token client_id purpose audience operation, Ok a) ∈ new ->
  (forall p, (Authorize token client_id purpose audience operation, p) ∉ c_threads conf0) ->
  exists conf1 lease grant account,
    rtc broker_step conf0 conf1 /\ rtc broker_step conf1 conf /\
    backing (dm_tables (c_state conf1)) token client_id purpose audience operation lease grant account /\
    unexpired_during conf0 conf (ls_expires_at lease) /\ unexpired_during conf0 conf (gr_expires_at grant).
Proof.
  intros Hs El Hin Hp. destruct (returned_exec _ _ _ _ _ _ Hs El Hin Hp) as (tr & Htr & He).
  apply exec_answer in He as ([] & He & _). apply authorize_exec in He as (s & l & g & acc & Hsec & Hb & Hle & Hge).
  destruct (during_states _ _ _ _ Htr Hsec) as (c1 & ? & ? & E). simpl in E.
  exists c1, l, g, acc. rewrite E. split_and!; try done; by eapply unexpired_in_during.
Qed.

(** What backs an authorization came of a request that was approved. *)
Lemma backed_origin conf token client_id purpose audience operation lease grant account :
  broker_reachable conf ->
  backing (dm_tables (c_state conf)) token client_id purpose audience operation lease grant account ->
  approved conf (gr_request_id grant) /\
  exists request operations,
    request ∈ vt_requests (dm_tables (c_state conf)) /\ rq_id request = gr_request_id grant /\
    rq_kind request = "access" /\
    rq_account_id request = Some (ac_id account) /\ rq_provider request = Some audience /\
    rq_client_id request = Some client_id /\ rq_purpose request = purpose /\
    parse_vec (rq_operations_json request) = Some operations /\ operation ∈ operations.
Proof.
  intros Hr Hb. split; [apply grants_are_approved; [done|by eapply bk_grant]|].
  apply reachable_settled in Hr as [Hok _].
  destruct (ok_origin _ _ Hok _ (bk_grant _ _ _ _ _ _ _ _ _ Hb)) as (r & Hrq & Hid & Hfrom).
  destruct Hfrom as (Hk & _ & Ha & Hp & Hc & Hpu & ops & Hops & Etext).
  destruct (bk_operation _ _ _ _ _ _ _ _ _ Hb) as (ops' & Hops' & Hop).
  assert (ops' = ops) as ->.
  { unfold parse_vec in Hops'. rewrite Etext in Hops'. unfold operations_text in Hops'.
    rewrite strings_round_trip in Hops'. congruence. }
  exists r, ops. pose proof (bk_of _ _ _ _ _ _ _ _ _ Hb).
  pose proof (bk_provider _ _ _ _ _ _ _ _ _ Hb). pose proof (bk_client _ _ _ _ _ _ _ _ _ Hb).
  pose proof (bk_purpose _ _ _ _ _ _ _ _ _ Hb). split_and!; try done; congruence.
Qed.

(** C4. Every authorization is backed: when an [authorize] that was not
    running in [conf0] has answered [Ok] after it, then between [conf0] and the
    answer the token had a lease with uses left, of the current generation,
    under a grant that was not revoked, of an account that was connected, for
    exactly this client, purpose, provider and operation; between them too the
    clock read before the deadlines of both; the grant came of an access
    request of this client that named all of that; and it was made by a call by
    which a user approves that request. *)
Theorem authorizations_are_backed conf0 conf new token client_id purpose audience operation a :
  broker_reachable conf0 ->
  (forall p, (Authorize token client_id purpose audience operation, p) ∉ c_threads conf0) ->
  rtc broker_step conf0 conf -> c_log conf = c_log conf0 ++ new ->
  (Authorize token client_id purpose audience operation, Ok a) ∈ new ->
  exists conf1 lease grant account,
    rtc broker_step conf0 conf1 /\ rtc broker_step conf1 conf /\
    backing (dm_tables (c_state conf1)) token client_id purpose audience operation lease grant account /\
    unexpired_during conf0 conf (ls_expires_at lease) /\
    unexpired_during conf0 conf (gr_expires_at grant) /\
    approved conf1 (gr_request_id grant) /\
    exists request operations,
    request ∈ vt_requests (dm_tables (c_state conf1)) /\ rq_id request = gr_request_id grant /\
    rq_kind request = "access" /\
    rq_account_id request = Some (ac_id account) /\ rq_provider request = Some audience /\
    rq_client_id request = Some client_id /\ rq_purpose request = purpose /\
    parse_vec (rq_operations_json request) = Some operations /\ operation ∈ operations.
Proof.
  intros Hr Hp Hs El Hin.
  destruct (authorize_backed _ _ _ _ _ _ _ _ _ Hs El Hin Hp)
    as (c1 & l & g & acc & H01 & H1 & Hb & Hle & Hge).
  assert (broker_reachable c1) as Hr1 by (unfold broker_reachable in *; by etransitivity).
  destruct (backed_origin _ _ _ _ _ _ _ _ _ Hr1 Hb) as [Ha Hreq].
  exists c1, l, g, acc. by split_and!.
Qed.

(** ** Tokens *)

(** The grant a token was issued for. *)
Definition issued_for conf (grant_id token : string) : Prop :=
  exists c lease, (c, Ok (ALease lease)) ∈ c_log conf /\ ol_token lease = token /\
    ((exists ttl, c = IssueLease grant_id ttl) \/ (exists ttl, c = IssueSingleUseLease grant_id ttl)).

(** A token is made of the identifier that the last section of its call took. *)
Definition issues (c : Call) s s' (r : Result BrokerError Answer) : Prop :=
  forall grant_id ttl lease, c = IssueLease grant_id ttl \/ c = IssueSingleUseLease grant_id ttl ->
    r = Ok (ALease lease) -> ol_token lease = token_of (uuid_simple (dm_uuids s)).

Ltac sections_of :=
  cbv beta iota zeta delta [broker_call done answer authorize query ok_or guard_or throw expired utc_now sql execute audit
       now_text mbind Task_bind mret Task_ret prog_bind finishing negb fst snd use_lease
       issue_lease issue_single_use_lease issue_lease_with_uses get_grant sql_fresh execute_fresh].

Lemma issue_lease_with_uses_issues c grant_id ttl uses :
  finishing (fun _ => True) (issues c) (answer ALease (issue_lease_with_uses grant_id ttl uses)).
Proof.
  sections_of. intros s _. destruct (find_by _ _ _) as [row|]; sections_of; [|by intros ? ? ? _ [=]].
  destruct (grant_from_row row) as [grant|]; sections_of; [|by intros ? ? ? _ [=]].
  destruct (parse_from_rfc3339 _) as [expiry|]; sections_of; [|by intros ? ? ? _ [=]].
  destruct (sg_revoked grant); sections_of; [by intros ? ? ? _ [=]|].
  intros s1 _. sections_of. destruct (bool_decide _); sections_of; [by intros ? ? ? _ [=]|].
  intros s2 _. sections_of. intros s3 _. sections_of.
  destruct (insert_lease _ _ _ _ _) as [[u t]|]; sections_of; [|by intros ? ? ? _ [=]].
  by intros ? ? lease _ [= <-].
Qed.
Lemma call_issues c : finishing daemon_ok (issues c) (broker_call c).
Proof.
  destruct c; try solve [apply finishing_any; by intros ? ? ? ? ? ? [[=]|[=]]].
  - eapply finishing_weaken; [|apply issue_lease_with_uses_issues]. done.
  - eapply finishing_weaken; [|apply issue_lease_with_uses_issues]. done.
Qed.

Lemma reachable_issues conf : broker_reachable conf -> all_finishing daemon_ok issues conf.
Proof.
  unfold broker_reachable. revert conf. apply rtc_ind_r.
  - by intros c p ?%not_elem_of_nil.
  - intros conf conf' Hr Hs IH. by apply (finishing_step broker_call daemon_ok issues call_issues _ _ Hs);
      [apply reachable_settled|].
Qed.

(** A token that is issued after [conf] is made of an identifier [conf] had not taken. *)
Lemma issued_later conf conf' grant_id token :
  broker_reachable conf -> rtc broker_step conf conf' -> issued_for conf' grant_id token ->
  issued_for conf grant_id token \/
  exists k, dm_uuids (c_state conf) <= k /\ token = token_of (uuid_simple k).
Proof.
  intros Hr Hs. revert conf' Hs. apply (rtc_ind_r (fun conf' => issued_for conf' grant_id token -> _)); [by left|].
  intros c1 c2 Hs1 Hs2 IH (c & lease & Hin & <- & Hc).
  assert (broker_reachable c1) as Hr1 by (unfold broker_reachable in *; by etransitivity).
  destruct (finishing_step broker_call daemon_ok issues call_issues _ _ Hs2) as [_ Hlog];
    [by apply reachable_settled|by apply reachable_issues|].
  destruct (Hlog _ _ Hin) as [Hin'|Hk]; [apply IH; by exists c, lease|right].
  exists (dm_uuids (c_state c1)). split.
  - destruct (broker_steps_settled _ _ Hs1 (reachable_settled _ Hr)) as [_ [[Hle _] _ _]]. done.
  - destruct Hc as [[ttl ->]|[ttl ->]]; eapply Hk; [by left|done|by right|done].
Qed.

(** What was issued for a grant is leased under it. *)
Lemma issued_leased conf grant_id token l :
  broker_reachable conf -> issued_for conf grant_id token ->
  l ∈ vt_leases (dm_tables (c_state conf)) -> ls_token_hash l = token_hash token -> ls_grant_id l = grant_id.
Proof.
  intros (_ & _ & Hpost)%reachable_settled (c & lease & Hiss & <- & Hc) Hl E.
  pose proof (Hpost _ _ Hiss) as Hp.
  destruct Hc as [[ttl ->]|[ttl ->]]; simpl in Hp; destruct Hp as (k & _ & _ & Hp); by apply (Hp l).
Qed.

(** C3. A revocation is final: once [revoke_grant] has answered [Ok], no
    [authorize] that starts later answers [Ok] for a token issued for the
    grant, whatever other calls run in between or at the same time, and whether
    the token is issued before the [authorize] starts, while it runs or after;
    one that answers [Ok] used a lease of another grant. *)
Theorem revocation_is_final conf0 conf new grant_id reason token client_id purpose audience operation a :
  broker_reachable conf0 -> (RevokeGrant grant_id reason, Ok Done) ∈ c_log conf0 ->
  (forall p, (Authorize token client_id purpose audience operation, p) ∉ c_threads conf0) ->
  rtc broker_step conf0 conf -> c_log conf = c_log conf0 ++ new ->
  (forall conf', rtc broker_step conf conf' -> issued_for conf' grant_id token ->
     (Authorize token client_id purpose audience operation, Ok a) ∉ new) /\
  ((Authorize token client_id purpose audience operation, Ok a) ∈ new ->
   exists conf1 lease grant account,
     rtc broker_step conf0 conf1 /\ rtc broker_step conf1 conf /\
     backing (dm_tables (c_state conf1)) token client_id purpose audience operation lease grant account /\
     ls_grant_id lease <> grant_id).
Proof.
  intros Hr Hrev Hp Hs El.
  assert ((Authorize token client_id purpose audience operation, Ok a) ∈ new ->
    (exists conf1 lease grant account,
     rtc broker_step conf0 conf1 /\ rtc broker_step conf1 conf /\
     backing (dm_tables (c_state conf1)) token client_id purpose audience operation lease grant account /\
     ls_grant_id lease <> grant_id) /\
    forall conf', rtc broker_step conf conf' -> ~ issued_for conf' grant_id token) as Hall.
  2: { split; [|by intros [? _]%Hall]. intros conf' Hs' Hiss [_ Hno]%Hall. by apply (Hno conf'). }
  intros Hin.
  destruct (authorize_backed _ _ _ _ _ _ _ _ _ Hs El Hin Hp) as (c1 & l & g & acc & H01 & H1 & Hb & _).
  assert (broker_reachable c1) as Hr1 by (unfold broker_reachable in *; by etransitivity).
  destruct (reachable_settled _ Hr) as (_ & _ & Hpost).
  destruct (broker_steps_settled _ _ H01 (reachable_settled _ Hr)) as [_ Hg].
  pose proof (Hpost _ _ Hrev) as Hret. simpl in Hret.
  destruct (retired_stable _ _ _ Hret Hg) as [_ Hret1].
  pose proof (bk_lease _ _ _ _ _ _ _ _ _ Hb) as Hl. pose proof (bk_token _ _ _ _ _ _ _ _ _ Hb) as Htok.
  assert (ls_grant_id l <> grant_id) as Hne.
  { intros E. apply (Hret1 g (bk_grant _ _ _ _ _ _ _ _ _ Hb)).
    - by rewrite (bk_under _ _ _ _ _ _ _ _ _ Hb).
    - apply (bk_unrevoked _ _ _ _ _ _ _ _ _ Hb). }
  split; [by exists c1, l, g, acc|]. intros conf' Hs' Hiss.
  destruct (issued_later c1 conf' grant_id token Hr1) as [Hiss1|(k & Hk & ->)]; [by etransitivity|done| |].
  - apply Hne. by eapply issued_leased.
  - apply reachable_settled in Hr1 as [Hok _]. destruct (ok_tokens _ _ Hok _ Hl) as (k' & Hk' & E).
    rewrite Htok in E. apply (inj (fun k => token_hash (token_of (uuid_simple k)))) in E. lia.
Qed.

(** ** Single use *)
Definition authorizes (token : string) (e : Call * Result BrokerError Answer) : bool :=
  match e with
  | (Authorize token' _ _ _ _, Ok _) => bool_decide (token' = token)
  | _ => false
  end.

Section SingleUse.
Context (grant_id token : string) (base : nat).

(** [n] uses so far, [base] of them at the start, and at most one is left. *)
Definition uses_left s (n : nat) : Prop :=
  leased single_use grant_id token s /\ (base <= n <= base + 1)%nat /\
  forall l, l ∈ vt_leases (dm_tables s) -> ls_token_hash l = token_hash token ->
    (Z.of_nat n + ls_remaining_uses l <= Z.of_nat base + 1)%Z.

Lemma uses_left_stable s s' n : uses_left s n -> daemon_grows s s' -> uses_left s' n.
Proof.
  intros (Hl & Hn & Hr) Hg. split; [by eapply leased_stable; [exact single_use_less|..]|]. split; [done|].
  intros l' Hl' E. destruct Hg as [[_ Hd] _ _]. destruct (Hd _ Hl') as [(l & Hin & Hs)|(k' & ? & E')].
  - destruct Hs as (Eh & _ & _ & _ & Hrem). assert (ls_token_hash l = token_hash token) as El by congruence.
    specialize (Hr l Hin El). lia.
  - destruct Hl as (k & ? & -> & _). rewrite E in E'.
    apply (inj (fun k => token_hash (token_of (uuid_simple k)))) in E' as ->. lia.
Qed.

Lemma use_lease_uses_left s n :
  leased single_use grant_id token s ->
  length (select_where (fun l => bool_decide (ls_token_hash l = token_hash token)
            && bool_decide (0 < ls_remaining_uses l)%Z) (vt_leases (dm_tables s))) <> 0 ->
  uses_left s n ->
  forall t, use_lease (token_hash token) (dm_tables s) = Some (length (select_where (fun l =>
      bool_decide (ls_token_hash l = token_hash token) && bool_decide (0 < ls_remaining_uses l)%Z)
      (vt_leases (dm_tables s))), t) ->
  leased single_use grant_id token (s <| dm_tables := t |>) -> uses_left (s <| dm_tables := t |>) (S n).
Proof.
  intros Hl Hne (_ & Hn & Hr) t [= <-] Hl'.
  destruct (select_where _ _) as [|l0 rows] eqn:Es; [done|].
  assert (l0 ∈ select_where (fun l => bool_decide (ls_token_hash l = token_hash token)
            && bool_decide (0 < ls_remaining_uses l)%Z) (vt_leases (dm_tables s))) as H0 by (rewrite Es; by left).
  apply elem_of_select_where in H0 as [H0 Hp0]. bool_props. specialize (Hr l0 H0) as Hr0.
  assert (n = base) as -> by (specialize (Hr0 ltac:(done)); lia).
  split; [done|]. split; [lia|]. simpl. intros l' (l & Hin & ->)%elem_of_update_where.
  destruct Hl as (k & _ & _ & Hl). case_bool_decide as E1; simpl.
  - specialize (Hr l Hin E1). destruct (Hl l Hin E1) as [_ Hs]. unfold single_use in Hs.
    case_bool_decide; simpl; lia.
  - by intros ?.
Qed.

Lemma authorize_counts client_id purpose audience operation :
  finishing (fun s => daemon_ok s /\ leased single_use grant_id token s)
    (fun s s' r => authorizes token (Authorize token client_id purpose audience operation, r) = true ->
       forall n, uses_left s n -> uses_left s' (S n))
    (broker_call (Authorize token client_id purpose audience operation)).
Proof.
  sections_of. intros s [Hok Hl]. sections_of.
  destruct (lease_authorization_record _ _ _) as [[lease grant]|] eqn:Hrec; sections_of; [|done].
  destruct (lease_authorization_record_Some _ _ _ _ _ Hrec) as (acc & Hin & Eh & _).
  destruct Hl as (k & _ & _ & Hl). destruct (Hl lease Hin Eh) as [_ Huses]. unfold single_use in Huses.
  case_bool_decide as E0; sections_of; [done|]. case_bool_decide as E1; sections_of; [|done].
  destruct (parse_from_rfc3339 (ls_expires_at lease)) as [d1|]; sections_of; [|done].
  intros s1 _. sections_of. case_bool_decide; sections_of; [done|].
  destruct (parse_from_rfc3339 (gr_expires_at grant)) as [d2|]; sections_of; [|done].
  intros s2 _. sections_of. case_bool_decide; sections_of; [done|].
  destruct (_ || _); sections_of.
  { intros s3 _. sections_of. by intros s4 _. }
  destruct (parse_vec _) as [operations|]; sections_of; [|done].
  case_bool_decide as Eop; sections_of; [|intros s3 _; sections_of; by intros s4 _].
  rewrite (bool_decide_true (0 < ls_remaining_uses lease)%Z) by lia. sections_of.
  intros s3 [Hok3 Hl3]. sections_of. case_bool_decide as Ech; sections_of; [done|]. intros _ n Hn.
  eapply use_lease_uses_left; [exact Hl3|exact Ech|exact Hn|reflexivity|].
  eapply leased_stable; [exact single_use_less|exact Hl3|].
  by eapply (use_lease_keeps (token_hash token)); [exact Hok3|reflexivity].
Qed.

(** The same for an [authorize] of any token. *)
Lemma authorize_counts_for token' client_id purpose audience operation :
  finishing (fun s => daemon_ok s /\ leased single_use grant_id token s)
    (fun s s' r => authorizes token (Authorize token' client_id purpose audience operation, r) = true ->
       forall n, uses_left s n -> uses_left s' (S n))
    (broker_call (Authorize token' client_id purpose audience operation)).
Proof.
  destruct (decide (token' = token)) as [->|Hne]; [apply authorize_counts|].
  apply finishing_any. intros s s' [a|e]; simpl; [|done]. by rewrite bool_decide_false.
Qed.
End SingleUse.

(** C10. A single-use lease works once: after [issue_single_use_lease] has
    answered with a token, at most one [authorize] of it answers [Ok], however
    many run at the same time. *)
Theorem single_use_leases_work_once conf0 conf new grant_id ttl lease :
  broker_reachable conf0 ->
  (IssueSingleUseLease grant_id ttl, Ok (ALease lease)) ∈ c_log conf0 ->
  (forall client purpose audience operation p,
     (Authorize (ol_token lease) client purpose audience operation, p) ∉ c_threads conf0) ->
  rtc broker_step conf0 conf -> c_log conf = c_log conf0 ++ new ->
  length (List.filter (authorizes (ol_token lease)) new) <= 1.
Proof.
  intros Hr Hiss Hp Hs El. pose proof (reachable_settled _ Hr) as Hset.
  destruct Hset as (Hok & Ht & Hpost). pose proof (Hpost _ _ Hiss) as Hl. simpl in Hl.
  set (token := ol_token lease) in *. set (base := length (List.filter (authorizes token) (c_log conf0))).
  assert (counting daemon_ok daemon_grows post (leased single_use grant_id token) (authorizes token)
            (uses_left grant_id token base) conf) as (_ & _ & Hj & _).
  { eapply (counting_steps broker_call daemon_ok daemon_grows post post_stable broker_call_ensures);
      [| | |exact Hs|].
    - intros s s' ? ?. eapply leased_stable; [exact single_use_less|done..].
    - intros s s' n. apply uses_left_stable.
    - intros c. destruct c; try by (apply finishing_any). apply authorize_counts_for.
    - split; [by apply reachable_settled|]. split; [done|]. split.
      + split; [done|]. split; [unfold count; lia|]. intros l Hin E.
        destruct Hl as (k & _ & _ & Hl). destruct (Hl l Hin E) as [_ Hu]. unfold single_use in Hu.
        unfold count. fold base. lia.
      + intros c p Hin. destruct c; try by (apply finishing_any). apply finishing_any.
        intros s s' r Hc. simpl in Hc. destruct r; [|done]. apply bool_decide_eq_true in Hc as ->.
        by destruct (Hp _ _ _ _ _ Hin). }
  destruct Hj as (_ & [_ Hj] & _). unfold count in Hj. rewrite El, List.filter_app, length_app in Hj.
  fold base in Hj. lia.
Qed.

End Safety.
