(* ===== verification/Egress.v ===== *)
(** Where the daemon sends requests: under every interleaving of its calls,
    only to what a provider of the catalog declares. *)
From S2P Require Import Prelude Text Substring Json Redaction Table Threads Network Catalog CatalogFacts Paths Vault Protocol Broker Adapters Execution Center Tools Service BrokerFacts CallFacts.

(** ** Destinations *)

(** The requests a profile accounts for: to its own endpoints, each with the
    method of the protocol, and to the origin of its audience. *)
Inductive destination {P : Parsers} (profile : AuthProfile) : HttpRequest -> Prop :=
| to_identity headers :
    destination profile (get_request_to (is_url (ap_identity profile)) headers)
| to_token url headers form :
    ap_token_url profile = Some url -> destination profile (post_form url headers form)
| to_device url headers form :
    ap_device_authorization_url profile = Some url -> destination profile (post_form url headers form)
| to_refresh lifecycle headers form :
    ap_oauth_lifecycle profile = Some lifecycle ->
    destination profile (post_form (ol_refresh_url lifecycle) headers form)
| to_revocation lifecycle headers form :
    ap_oauth_lifecycle profile = Some lifecycle ->
    destination profile (post_form (ol_revocation_url lifecycle) headers form)
| to_audience method url target headers body :
    url_parse url = Some target -> same_origin target (ap_audience profile) = true ->
    allowed_method method = true -> destination profile (mkHttpRequest method url headers body).

Section Egress.
Context {H : Host} {P : Parsers} {Net : Network} {Texts : CredentialTexts} {Sg : Signing}
  {D : Deployment}.

Definition declared (profile : AuthProfile) : Prop :=
  exists id provider, catalog_get catalog id = Some provider /\ profile ∈ ps_auth_profiles provider.
Definition permitted (request : HttpRequest) : Prop :=
  exists profile, declared profile /\ destination profile request.
(** A token URL and an identity of a profile of the catalog; a flow in
    progress was started for one. *)
Definition endpoints_declared (token_url : string) (identity : IdentitySpec) : Prop :=
  exists profile, declared profile /\ ap_token_url profile = Some token_url /\ ap_identity profile = identity.
Definition flow_declared (config : OAuthConfig) : Prop :=
  endpoints_declared (og_token_url config) (og_identity config).

Definition traffic_ok (s : Daemon) : Prop :=
  Forall permitted (dm_sent s) /\ map_Forall (fun _ pending => flow_declared (pd_config pending)) (dm_oauth s).
(** A section may add to what was sent, and takes nothing back. *)
Definition sends_more (s s' : Daemon) : Prop := dm_sent s `prefix_of` dm_sent s'.
#[export] Instance sends_more_po : PreOrder sends_more.
Proof. split; [by intros s; unfold sends_more|]. intros s1 s2 s3. unfold sends_more. apply transitivity. Qed.
Definition outbound_section (s s' : Daemon) : Prop := traffic_ok s' /\ sends_more s s'.
Notation outbound p := (guarantees traffic_ok outbound_section p).

Lemma declared_find id provider f profile :
  catalog_get catalog id = Some provider -> List.find f (ps_auth_profiles provider) = Some profile ->
  declared profile.
Proof.
  intros Hp [Hin _]%find_some. exists id, provider. split; [done|by apply list_elem_of_In].
Qed.

(** ** Sections *)
Lemma outbound_quiet {E A X} (section : Daemon -> X * Daemon) (rest : X -> Task Daemon E A) :
  (forall s, dm_sent (snd (section s)) = dm_sent s /\ dm_oauth (snd (section s)) = dm_oauth s) ->
  (forall x, outbound (rest x)) -> outbound (Atomic section rest).
Proof.
  intros Hq Hr s Hs. split; [|by apply Hr]. destruct (Hq s) as [E1 E2].
  unfold outbound_section, traffic_ok, sends_more. by rewrite E1, E2.
Qed.
Lemma utc_now_out {E} : outbound (utc_now (E:=E)).
Proof. by apply outbound_quiet. Qed.
Lemma new_uuid_out {E} : outbound (new_uuid (E:=E)).
Proof. by apply outbound_quiet. Qed.
Lemma fill_out {E} len : outbound (fill (E:=E) len).
Proof. by apply outbound_quiet. Qed.
Lemma query_out {E X} (f : Tables -> X) : outbound (query (E:=E) f).
Proof. by apply outbound_quiet. Qed.
Lemma execute_out {E X} (e : E) (q : Sql X) : outbound (execute e q).
Proof. apply outbound_quiet; [|done]. intros s. by destruct (q _) as [[x t]|]. Qed.
Lemma execute_fresh_out {E X} (e : E) (q : string -> Sql X) : outbound (execute_fresh e q).
Proof. apply outbound_quiet; [|done]. intros s. simpl. by destruct (q _ _) as [[x t]|]. Qed.
Lemma execute_timed_out {E X} (e : E) k (q : (nat -> string) -> Sql X) : outbound (execute_timed e k q).
Proof. apply outbound_quiet; [|done]. intros s. simpl. by destruct (q _ _) as [[x t]|]. Qed.
Lemma pipe_verify_out key envelope : outbound (pipe_verify key envelope).
Proof. apply outbound_quiet; [|done]. intros s. simpl. by destruct (verify _ _ _ _ _). Qed.
Lemma lift_result_out {A} f (r : Result string A) : outbound (lift_result f r).
Proof. by destruct r. Qed.

Lemma http_send_out {E} request : permitted request -> outbound (http_send (E:=E) request).
Proof.
  intros Hr s [H1 H2]. split; [|done]. split; [split; [|done]|by eexists].
  simpl. apply Forall_app. split; [done|]. by apply Forall_singleton.
Qed.
Lemma remember_flow_out {E} key pending :
  flow_declared (pd_config pending) -> outbound (remember_flow (E:=E) key pending).
Proof. intros Hp s [H1 H2]. split; [|done]. split; [split; [done|]|by unfold sends_more]. by apply map_Forall_insert_2. Qed.

Lemma bind_ok_or {E A B} (o : option A) (e : E) (k : A -> Task Daemon E B) :
  (forall a, o = Some a -> outbound (k a)) -> outbound (ok_or o e ≫= k).
Proof. destruct o as [a|]; intros Hk; [by apply Hk|done]. Qed.
Lemma bind_guard_or {E B} (b : bool) (e : E) (k : unit -> Task Daemon E B) :
  (b = true -> outbound (k tt)) -> outbound (guard_or b e ≫= k).
Proof. destruct b; intros Hk; [by apply Hk|done]. Qed.
Lemma bind_take_flow {E B} key (k : option PendingOAuth -> Task Daemon E B) :
  (forall o, (forall pending, o = Some pending -> flow_declared (pd_config pending)) -> outbound (k o)) ->
  outbound (take_flow key ≫= k).
Proof.
  intros Hk s [H1 H2]. split.
  - split; [split; [done|]|by unfold sends_more]. by apply map_Forall_delete.
  - apply Hk. intros pending Hp. by apply H2 in Hp.
Qed.
End Egress.
#[export] Hint Resolve utc_now_out new_uuid_out fill_out query_out execute_out execute_fresh_out
  execute_timed_out pipe_verify_out lift_result_out http_send_out remember_flow_out : sections.

(** [outbound]: what a program sends, by its shape; a program that is not
    known is opened, an option that was checked leaves its equation. *)
Ltac outbound_step := lazymatch goal with
  | |- guarantees _ _ (attempt _) => apply attempt_ok
  | |- guarantees _ _ (ignore _) => apply ignore_ok
  | |- guarantees _ _ (respond_with _ _ _) => apply respond_with_ok
  | |- guarantees _ _ (reply _ _) => apply reply_ok
  | |- guarantees _ _ (ok_or _ _ ≫= _) => apply bind_ok_or; intros ? ?
  | |- guarantees _ _ (guard_or _ _ ≫= _) => apply bind_guard_or; intros ?
  | |- guarantees _ _ (take_flow _ ≫= _) => apply bind_take_flow; intros ? ?
  | |- guarantees _ _ ((_ ≫= _) ≫= _) => apply guarantees_bind_bind
  | |- guarantees ?I ?G (mret ?a ≫= ?k) => change (guarantees I G (k a)); cbv beta
  | |- guarantees _ _ (throw _ ≫= _) => exact Logic.I
  | |- guarantees _ _ (match ?x with _ => _ end ≫= _) => destruct x eqn:?
  | |- guarantees _ _ (_ ≫= _) => apply guarantees_bind; [|intros ?]
  | |- guarantees _ _ (prog_bind _ _) => apply guarantees_prog_bind; [|intros ?]
  | |- guarantees _ _ (map_err _ _) => apply guarantees_map_err
  | |- guarantees _ _ (match ?x with _ => _ end) => destruct x eqn:?
  | |- guarantees _ _ (let _ := _ in _) => cbv zeta
  | |- guarantees _ _ ?p => first [solve [eauto with sections] | open_program p]
  end.
Ltac outbound := repeat outbound_step.

Section Programs.
Context {H : Host} {P : Parsers} {Net : Network} {Texts : CredentialTexts} {Sg : Signing}
  {D : Deployment}.
Notation outbound p := (guarantees traffic_ok outbound_section p).

(** ** What is permitted *)
Lemma permitted_identity profile headers :
  declared profile -> permitted (get_request_to (is_url (ap_identity profile)) headers).
Proof. intros Hd. exists profile. split; [done|constructor]. Qed.
Lemma permitted_token profile url headers form :
  declared profile -> ap_token_url profile = Some url -> permitted (post_form url headers form).
Proof. intros Hd Hu. exists profile. split; [done|by constructor]. Qed.
Lemma permitted_device profile url headers form :
  declared profile -> ap_device_authorization_url profile = Some url -> permitted (post_form url headers form).
Proof. intros Hd Hu. exists profile. split; [done|by constructor]. Qed.
Lemma permitted_endpoints url identity :
  endpoints_declared url identity ->
  (forall headers form, permitted (post_form url headers form)) /\
  (forall headers, permitted (get_request_to (is_url identity) headers)).
Proof.
  intros (profile & Hd & Hu & <-). split; intros; [by eapply permitted_token|by apply permitted_identity].
Qed.
Lemma permitted_lifecycle profile lifecycle headers form :
  declared profile -> ap_oauth_lifecycle profile = Some lifecycle ->
  permitted (post_form (ol_refresh_url lifecycle) headers form) /\
  permitted (post_form (ol_revocation_url lifecycle) headers form).
Proof. intros Hd Hl. split; exists profile; split; done || by constructor. Qed.
Lemma endpoints_of profile url :
  declared profile -> ap_token_url profile = Some url -> endpoints_declared url (ap_identity profile).
Proof. by exists profile. Qed.
Lemma permitted_audience id provider profile method url target headers body :
  catalog_get catalog id = Some provider -> url_parse url = Some target ->
  List.find (fun profile => same_origin target (ap_audience profile)) (ps_auth_profiles provider) = Some profile ->
  allowed_method method = true -> permitted (mkHttpRequest method url headers body).
Proof.
  intros Hp Hu Hf Hm. exists profile. split; [by eapply declared_find|].
  apply find_some in Hf as [_ Ho]. by eapply to_audience.
Qed.
Hint Resolve declared_find permitted_audience permitted_identity permitted_token permitted_device endpoints_of : sections.

(** ** Adapters *)
Lemma fetched_out {E} (network rejected invalid : E) request :
  permitted request -> outbound (fetched network rejected invalid request).
Proof. intros Hp. pose proof (http_send_out (E:=E) _ Hp). outbound. Qed.
Hint Resolve fetched_out : sections.

Lemma verify_credentials_out provider profile fields :
  declared profile -> outbound (verify_credentials provider profile fields).
Proof. intros Hd. outbound. Qed.
Lemma exchange_and_verify_out config code verifier uri :
  endpoints_declared (oa_token_url config) (oa_identity config) ->
  outbound (exchange_and_verify config code verifier uri).
Proof. intros [Hp Hi]%permitted_endpoints. outbound. Qed.
Lemma verify_token_out provider profile token :
  declared profile -> outbound (verify_token (token_config provider profile) token).
Proof. intros Hd. unfold verify_token. cbn [token_config ta_identity ta_header ta_prefix ta_provider]. outbound. Qed.
Lemma refresh_stored_out account_id config profile lifecycle :
  declared profile -> ap_oauth_lifecycle profile = Some lifecycle ->
  outbound (refresh_stored_oauth_credential account_id config lifecycle).
Proof.
  intros Hd Hl. assert (forall headers form, permitted (post_form (ol_refresh_url lifecycle) headers form)).
  { intros headers form. by apply (permitted_lifecycle profile). }
  outbound.
Qed.
Lemma revoke_oauth_out profile lifecycle credential :
  declared profile -> ap_oauth_lifecycle profile = Some lifecycle ->
  outbound (revoke_oauth_credential lifecycle credential).
Proof.
  intros Hd Hl. unfold revoke_oauth_credential. apply guarantees_bind; [|intros ?; outbound].
  apply http_send_out. by apply (permitted_lifecycle profile).
Qed.
Hint Resolve verify_credentials_out exchange_and_verify_out verify_token_out refresh_stored_out
  revoke_oauth_out : sections.

(** ** Execution *)
Lemma renewed_credential_out provider profile account_id :
  declared profile -> outbound (renewed_credential provider profile account_id).
Proof. intros Hd. outbound. Qed.
Hint Resolve renewed_credential_out : sections.
Lemma authentication_out provider profile account_id secret :
  declared profile -> outbound (authentication provider profile account_id secret).
Proof. intros Hd. outbound. Qed.
Hint Resolve authentication_out : sections.

Lemma execute_authenticated_out request : outbound (execute_authenticated catalog request).
Proof.
  unfold execute_authenticated. outbound.
Qed.
Hint Resolve execute_authenticated_out : sections.
Lemma execute_typed_operation_out request : outbound (execute_typed_operation catalog request).
Proof. outbound. Qed.
Hint Resolve execute_typed_operation_out : sections.

(** ** The account center *)
Lemma revoke_of_account_out account lifecycle credential :
  account_lifecycle catalog account = Some lifecycle -> outbound (revoke_oauth_credential lifecycle credential).
Proof.
  intros (a & _ & Ha)%bind_Some. apply bind_Some in Ha as (provider & Hp & Ha).
  apply bind_Some in Ha as (profile & Hf & Hl). by eapply revoke_oauth_out; [eapply declared_find|].
Qed.
Hint Resolve revoke_of_account_out : sections.
Lemma web_disconnect_out intent id : outbound (web_disconnect catalog intent id).
Proof. outbound. Qed.
Lemma profile_declared provider name p : profile catalog provider name = Some p -> declared p.
Proof. intros (spec & Hs & Hf)%bind_Some. by eapply declared_find. Qed.
Lemma token_profile_declared provider f p :
  (pack ← catalog_get catalog provider; List.find f (ps_auth_profiles pack)) = Some p -> declared p.
Proof. intros (spec & Hs & Hf)%bind_Some. by eapply declared_find. Qed.
Hint Resolve profile_declared token_profile_declared : sections.
Lemma web_connect_credential_out intent provider name fields :
  outbound (web_connect_credential catalog intent provider name fields).
Proof. outbound. Qed.
Lemma web_connect_token_out intent provider token : outbound (web_connect_token catalog intent provider token).
Proof. outbound. Qed.

Lemma oauth_config_declared provider p config :
  declared p -> oauth_config provider p = Some config -> flow_declared config.
Proof.
  intros Hd (c & _ & Ha)%bind_Some. apply bind_Some in Ha as (a & _ & Ha).
  apply bind_Some in Ha as (t & Ht & [= <-]). by exists p.
Qed.
Lemma device_config_declared provider p config :
  declared p -> device_config provider p = Some config ->
  endpoints_declared (df_token_url config) (df_identity config) /\
  forall headers form, permitted (post_form (df_device_url config) headers form).
Proof.
  intros Hd (c & _ & Ha)%bind_Some. apply bind_Some in Ha as (a & Hdev & Ha).
  apply bind_Some in Ha as (t & Ht & [= <-]). split; [by exists p|]. intros. by eapply permitted_device.
Qed.
Lemma start_oauth_out provider p : declared p -> outbound (start_oauth provider p).
Proof.
  intros Hd. unfold start_oauth. outbound. apply remember_flow_out. by eapply oauth_config_declared.
Qed.
Lemma exchange_of_flow_out provider client_id scopes config code verifier uri :
  flow_declared config ->
  outbound (exchange_and_verify (mkOAuthAdapterConfig provider client_id (og_token_url config)
    (og_identity config) scopes) code verifier uri).
Proof. intros Hf. by apply exchange_and_verify_out. Qed.
Hint Resolve exchange_of_flow_out : sections.
Lemma web_oauth_callback_out code state error : outbound (web_oauth_callback code state error).
Proof. outbound. Qed.
Lemma supersede_out now sessions : outbound (supersede now sessions).
Proof. induction sessions; cbn [supersede]; outbound. Qed.
Hint Resolve supersede_out start_oauth_out : sections.
Lemma web_start_device_out provider p config :
  declared p -> device_config provider p = Some config -> outbound (web_start_device config).
Proof. intros Hd Hc. destruct (device_config_declared _ _ _ Hd Hc) as [_ Hp]. outbound. Qed.
Hint Resolve web_start_device_out : sections.
Lemma declared_head id provider p :
  catalog_get catalog id = Some provider -> head (ps_auth_profiles provider) = Some p -> declared p.
Proof.
  intros Hp Hh. exists id, provider. split; [done|]. destruct (ps_auth_profiles provider); [done|].
  injection Hh as ->. by left.
Qed.
Hint Resolve declared_head : sections.
Lemma web_start_connection_out intent provider : outbound (web_start_connection catalog intent provider).
Proof. outbound. Qed.
Lemma poll_device_flow_out provider p config code :
  declared p -> device_config provider p = Some config -> outbound (poll_device_flow config code).
Proof. intros Hd Hc. destruct (device_config_declared _ _ _ Hd Hc) as [[Ht Hi]%permitted_endpoints _]. outbound. Qed.
Lemma session_config_declared session config :
  session_config catalog session = Some config ->
  exists p, declared p /\ device_config (as_provider session) p = Some config.
Proof.
  intros (spec & Hs & Ha)%bind_Some. apply bind_Some in Ha as (p & Hf & Hc).
  exists p. split; [by eapply declared_find|done].
Qed.
Lemma poll_round_out session now : outbound (poll_round catalog session now).
Proof.
  unfold poll_round. destruct (session_config catalog session) as [config|] eqn:Ec; [|outbound].
  destruct (session_config_declared _ _ Ec) as (p & Hd & Hc).
  pose proof (fun code => poll_device_flow_out _ _ _ code Hd Hc). outbound.
Qed.
Hint Resolve poll_round_out : sections.
Lemma device_worker_out session_id : outbound (device_worker catalog session_id).
Proof. outbound. Qed.
Hint Resolve web_disconnect_out web_connect_credential_out web_connect_token_out web_start_connection_out
  web_oauth_callback_out device_worker_out : sections.

(** ** Every call *)
Lemma broker_call_out c : outbound (broker_call c).
Proof. destruct c; cbn [broker_call]; outbound. Qed.

Lemma broker_steps_traffic conf conf' :
  rtc broker_step conf conf' -> settled traffic_ok sends_more (fun _ _ _ => True) conf ->
  settled traffic_ok sends_more (fun _ _ _ => True) conf' /\ sends_more (c_state conf) (c_state conf').
Proof.
  apply (settled_steps broker_call traffic_ok sends_more (fun _ _ _ => True)); [done|].
  intros c s _. apply guarantees_wp; [apply _|apply broker_call_out|done].
Qed.
Lemma reachable_traffic conf :
  broker_reachable conf -> settled traffic_ok sends_more (fun _ _ _ => True) conf.
Proof.
  intros Hr. apply (broker_steps_traffic _ _ Hr). split; [|split; by intros ? ? ?%not_elem_of_nil].
  split; [by constructor|apply map_Forall_empty].
Qed.

(** A target of the origin of a secure URL is as secure. *)
Lemma same_origin_secure url target audience :
  url_parse url = Some target -> same_origin target audience = true -> secure audience -> secure url.
Proof.
  unfold same_origin. intros Hu Ho (a & Ha & Hs). rewrite Ha in Ho. bool_props.
  exists target. split; [done|]. unfold secure_url, is_loopback in *. by rewrite H0, H2.
Qed.

Lemma destination_secure provider p request :
  profile_valid provider p -> destination p request -> secure (hr_url request).
Proof.
  intros [Ha Hi Hu _ _ _ _] [|url ?? E|url ?? E|l ?? E|l ?? E|]; simpl; try done;
    try (apply Hu, list_elem_of_omap; eexists; split; [|reflexivity]; rewrite ?E; set_solver).
  by eapply same_origin_secure.
Qed.

(** C9. The daemon only talks to the providers it was configured with:
    whatever calls have run, in whatever interleaving, every request it has
    sent goes to an endpoint that a profile of a provider of the catalog
    declares, by the method of the protocol, or to the origin of its audience
    by one of the five methods the proxy allows; and when the catalog was
    loaded from its documents, it goes there over TLS or within this machine. *)
Theorem requests_go_where_declared documents trusted conf request :
  from_documents_with_trust documents trusted = Ok catalog ->
  broker_reachable conf -> request ∈ dm_sent (c_state conf) ->
  exists id provider profile, catalog_get catalog id = Some provider /\
    profile ∈ ps_auth_profiles provider /\ destination profile request /\ secure (hr_url request).
Proof.
  intros Hc [[Hsent _] _]%reachable_traffic Hin. rewrite Forall_forall in Hsent.
  destruct (Hsent _ Hin) as (p & (id & provider & Hp & Hd) & Hdest).
  exists id, provider, p. split_and!; [done..|]. apply (destination_secure provider p); [|done].
  destruct (cv_providers _ _ (from_documents_valid _ _ _ Hc) _ _ Hp) as [_ Hv].
  by apply (pv_profiles _ Hv).
Qed.
End Programs.
