(* ===== verification/Agents.v ===== *)
(** What agents can and cannot do: the calls of the tools and of the pipe
    never approve a request, grant access or connect an account. *)
From S2P Require Import Prelude Text Substring Json Redaction Table Threads Network Catalog Paths Vault Protocol Broker Adapters Execution Center Tools Service BrokerFacts CallFacts.

(** The calls an agent can make. *)
Definition of_agent (c : Call) : Prop :=
  match c with CallTool _ | ExecuteTyped _ | ExecuteEnvelope _ => True | _ => False end.

(** ** Tables in which nobody has gained access *)

(** The grant as the user approved it. *)
Definition same_terms (g g' : GrantRow) : Prop :=
  gr_id g' = gr_id g /\ gr_request_id g' = gr_request_id g /\ gr_account_id g' = gr_account_id g /\
  gr_provider g' = gr_provider g /\ gr_client_id g' = gr_client_id g /\ gr_purpose g' = gr_purpose g /\
  gr_operations_json g' = gr_operations_json g /\ gr_expires_at g' = gr_expires_at g /\
  (gr_revoked_at g' = None -> gr_revoked_at g = None /\ gr_generation g' = gr_generation g).
Record no_new_access (t t' : Tables) : Prop := {
  na_accounts : vt_accounts t' = vt_accounts t;
  na_grants : forall g', g' ∈ vt_grants t' -> exists g, g ∈ vt_grants t /\ same_terms g g';
  na_requests : forall r', r' ∈ vt_requests t' -> rq_status r' = "approved" ->
    exists r, r ∈ vt_requests t /\ rq_id r = rq_id r' /\ rq_status r = "approved" }.

Lemma same_terms_refl g : same_terms g g.
Proof. by unfold same_terms. Qed.
Lemma same_terms_trans g1 g2 g3 : same_terms g1 g2 -> same_terms g2 g3 -> same_terms g1 g3.
Proof. unfold same_terms. intros (?&?&?&?&?&?&?&?&Hr1) (?&?&?&?&?&?&?&?&Hr2).
  split_and!; try congruence; intros Hn; destruct (Hr2 Hn) as [Hn2 ?], (Hr1 Hn2); split; congruence.
Qed.
#[export] Instance no_new_access_po : PreOrder no_new_access.
Proof.
  split.
  - intros t. split; [done| |by eauto]. intros g Hg. exists g. split; [done|apply same_terms_refl].
  - intros t1 t2 t3 [A1 G1 R1] [A2 G2 R2]. split; [congruence| |].
    + intros g3 (g2 & (g1 & Hg1 & H1)%G1 & H2)%G2. exists g1. split; [done|by eapply same_terms_trans].
    + intros r3 H3 E3. destruct (R2 _ H3 E3) as (r2 & H2 & I2 & E2). destruct (R1 _ H2 E2) as (r1 & H1 & I1 & E1).
      exists r1. split_and!; [done|congruence|done].
Qed.

(** A statement that leaves accounts, grants and requests alone. *)
Lemma no_new_access_same t t' :
  vt_accounts t' = vt_accounts t -> vt_grants t' = vt_grants t -> vt_requests t' = vt_requests t ->
  no_new_access t t'.
Proof.
  intros Ea Eg Er. split; [done| |rewrite Er; by eauto]. intros g. rewrite Eg. intros Hg.
  exists g. split; [done|apply same_terms_refl].
Qed.

Definition harmless {X} (q : Sql X) : Prop := forall t x t', q t = Some (x, t') -> no_new_access t t'.
Definition gains_nothing (s s' : Daemon) : Prop := no_new_access (dm_tables s) (dm_tables s').
#[export] Instance gains_nothing_po : PreOrder gains_nothing.
Proof. split; [by intros s; unfold gains_nothing|]. intros s1 s2 s3. unfold gains_nothing. apply transitivity. Qed.

Section Statements.
Context {H : Host}.
Notation humble p := (guarantees (fun _ => True) gains_nothing p).

Lemma humble_quiet {E A X} (section : Daemon -> X * Daemon) (rest : X -> Task Daemon E A) :
  (forall s, dm_tables (snd (section s)) = dm_tables s) -> (forall x, humble (rest x)) ->
  humble (Atomic section rest).
Proof. intros Hq Hr s _. split; [|by apply Hr]. unfold gains_nothing. by rewrite Hq. Qed.
Lemma utc_now_humble {E} : humble (utc_now (E:=E)).
Proof. by apply humble_quiet. Qed.
Lemma new_uuid_humble {E} : humble (new_uuid (E:=E)).
Proof. by apply humble_quiet. Qed.
Lemma fill_humble {E} len : humble (fill (E:=E) len).
Proof. by apply humble_quiet. Qed.
Lemma query_humble {E X} (f : Tables -> X) : humble (query (E:=E) f).
Proof. by apply humble_quiet. Qed.
Lemma execute_humble {E X} (e : E) (q : Sql X) : harmless q -> humble (execute e q).
Proof.
  intros Hq s _. split; [|done]. unfold gains_nothing. simpl. destruct (q _) as [[x t]|] eqn:Eq; [|done].
  by apply (Hq _ _ _ Eq).
Qed.
Lemma execute_fresh_humble {E X} (e : E) (q : string -> Sql X) :
  (forall uuid, harmless (q uuid)) -> humble (execute_fresh e q).
Proof.
  intros Hq s _. split; [|done]. unfold gains_nothing. simpl. destruct (q _ _) as [[x t]|] eqn:Eq; [|done].
  by apply (Hq _ _ _ _ Eq).
Qed.

Lemma insert_audit_harmless row : harmless (insert_audit row).
Proof. intros t x t' [= _ <-]. by apply no_new_access_same. Qed.
Lemma insert_request_harmless row : rq_status row <> "approved" -> harmless (insert_request row).
Proof.
  intros Hs t x t'. unfold insert_request, sql_insert.
  destruct (insert_row rq_id row (vt_requests t)) as [rows|] eqn:E; [|done]. intros [= _ <-].
  apply insert_row_Some in E as [-> _]. split; [done| |].
  - intros g Hg. exists g. split; [done|apply same_terms_refl].
  - intros r [Hr| ->%list_elem_of_singleton]%elem_of_app; [by eauto|done].
Qed.
Lemma insert_or_ignore_harmless row : rq_status row <> "approved" -> harmless (insert_or_ignore_request row).
Proof.
  intros Hs t x t'. unfold insert_or_ignore_request. destruct (existsb _ _); [by intros [= _ <-]|].
  by apply insert_request_harmless.
Qed.
Lemma set_request_status_harmless p status now : status <> "approved" -> harmless (set_request_status p status now).
Proof.
  intros Hs t x t' [= _ <-]. split; [done| |].
  - intros g Hg. exists g. split; [done|apply same_terms_refl].
  - intros r (r' & Hr & ->)%elem_of_update_where. destruct (p r'); [done|by eauto].
Qed.
Lemma revoke_rows_harmless p now : harmless (revoke_rows p now).
Proof.
  intros t x t' [= _ <-]. split; [done| |by eauto].
  intros g (g' & Hg & ->)%elem_of_update_where. exists g'. split; [done|].
  destruct (p g'); [|apply same_terms_refl]. by unfold same_terms.
Qed.
Lemma insert_lease_harmless hash grant_id expires_at uses : harmless (insert_lease hash grant_id expires_at uses).
Proof.
  intros t x t'. unfold insert_lease. destruct (find_by _ _ _) as [g|]; [|by intros [= _ <-]].
  unfold sql_insert. destruct (insert_row _ _ _); [|done]. intros [= _ <-]. by apply no_new_access_same.
Qed.
Lemma use_lease_harmless hash : harmless (use_lease hash).
Proof. intros t x t' [= _ <-]. by apply no_new_access_same. Qed.
Lemma update_credential_harmless account generation nonce text key :
  harmless (update_credential account generation nonce text key).
Proof. intros t x t' [= _ <-]. by apply no_new_access_same. Qed.
Lemma update_session_harmless session :
  humble (update_authorization_session session).
Proof. apply execute_humble. intros t x t' [= _ <-]. by apply no_new_access_same. Qed.
Lemma delete_secret_harmless session_id : humble (delete_authorization_secret session_id).
Proof. apply execute_humble. intros t x t' [= _ <-]. by apply no_new_access_same. Qed.
Lemma lift_result_humble {A} f (r : Result string A) : humble (lift_result f r).
Proof. by destruct r. Qed.
End Statements.
#[export] Hint Resolve utc_now_humble new_uuid_humble fill_humble query_humble insert_audit_harmless
  insert_request_harmless insert_or_ignore_harmless set_request_status_harmless revoke_rows_harmless
  insert_lease_harmless use_lease_harmless update_credential_harmless update_session_harmless
  delete_secret_harmless lift_result_humble : sections.

(** [humble]: a program of an agent, by its shape; programs are opened. *)
Ltac humble_step := lazymatch goal with
  | |- guarantees _ _ (execute _ _) => apply execute_humble; solve [eauto with sections]
  | |- guarantees _ _ (execute_fresh _ _) => apply execute_fresh_humble; intros ?; solve [eauto with sections]
  | |- guarantees _ _ (attempt _) => apply attempt_ok
  | |- guarantees _ _ (ignore _) => apply ignore_ok
  | |- guarantees _ _ (reply _ _) => apply reply_ok
  | |- guarantees _ _ (_ ≫= _) => apply guarantees_bind; [|intros ?]
  | |- guarantees _ _ (prog_bind _ _) => apply guarantees_prog_bind; [|intros ?]
  | |- guarantees _ _ (map_err _ _) => apply guarantees_map_err
  | |- guarantees _ _ (match ?x with _ => _ end) => destruct x
  | |- guarantees _ _ (let _ := _ in _) => cbv zeta
  | |- guarantees _ _ ?p => first [solve [eauto with sections] | open_program p]
  end.
Ltac humble := repeat humble_step.

Section Agents.
Context {H : Host} {P : Parsers} {Net : Network} {Texts : CredentialTexts} {Sg : Signing}
  {D : Deployment}.
Notation humble p := (guarantees (fun _ => True) gains_nothing p).

Lemma http_send_humble {E} request : humble (http_send (E:=E) request).
Proof. by apply humble_quiet. Qed.
Lemma pipe_verify_humble envelope : humble (pipe_verify client_key envelope).
Proof. apply humble_quiet; [|done]. intros s. simpl. by destruct (verify _ _ _ _ _). Qed.
Hint Resolve http_send_humble pipe_verify_humble : sections.
Lemma execute_authenticated_humble request : humble (execute_authenticated catalog request).
Proof. humble. Qed.
Hint Resolve execute_authenticated_humble : sections.
Lemma execute_typed_humble request : humble (execute_typed_operation catalog request).
Proof. humble. Qed.
Hint Resolve execute_typed_humble : sections.
Lemma run_tool_humble c : humble (run_tool catalog client_key c).
Proof. destruct c; cbn [run_tool]; humble. Qed.
Hint Resolve run_tool_humble : sections.
Lemma agent_call_humble c : of_agent c -> humble (broker_call c).
Proof. destruct c; try done; intros _; cbn [broker_call]; humble. Qed.

(** C8. Agents cannot approve themselves: from a configuration in which no
    call is in flight, whatever calls of the tools and of the pipe are started,
    in whatever number and interleaving, the accounts stay as they are, every
    grant was there before with the same terms, and none is back that was
    revoked, and every approved request had been approved before. *)
Theorem agents_cannot_approve (conf conf' : BrokerConf) :
  c_threads conf = [] -> rtc (step_of broker_call of_agent) conf conf' ->
  no_new_access (dm_tables (c_state conf)) (dm_tables (c_state conf')).
Proof.
  intros Ht Hs. apply (steps_of_guarantee broker_call of_agent gains_nothing conf conf' agent_call_humble Hs).
  rewrite Ht. by intros c p ?%not_elem_of_nil.
Qed.
End Agents.
