(* ===== verification/TypedFacts.v ===== *)
(** What a typed operation that has completed rests on: a user's approval, an
    operation of the catalog that only reads, and a request that was sent
    where its manifest says. *)
From S2P Require Import Prelude Text Substring Json Redaction Table Threads Network Catalog CatalogFacts Paths Vault Protocol ProtocolFacts Broker Adapters Execution Center Tools Service BrokerFacts CallFacts BrokerSafety Egress.

Section Typed.
Context {H : Host} {P : Parsers} {Net : Network} {Texts : CredentialTexts} {Sg : Signing}
  {D : Deployment} {Laws : HostLaws H}.
Implicit Types (tr : list (Daemon * Daemon)) (conf : BrokerConf) (request : TypedExecutionRequest).

(** ** Runs *)
Lemma exec_map_err {E E' A} (f : E -> E') (p : Task Daemon E A) tr a :
  exec (map_err f p) tr (Ok a) -> exec p tr (Ok a).
Proof.
  intros (tr1 & tr2 & [x|e] & -> & Hp & Hr)%exec_prog_bind; apply exec_return_inv in Hr as [-> [= ->]].
  by rewrite app_nil_r.
Qed.
Lemma exec_lift {E A} (r : Result E A) tr a : exec (lift r) tr (Ok a) -> r = Ok a /\ tr = [].
Proof. destruct r; intros [-> [= ->]]%exec_return_inv; done. Qed.
Lemma exec_reply {E A} (f : Result E A -> Answer) (p : Task Daemon E A) tr a :
  exec (reply f p) tr (Ok a) -> exists r, exec p tr r /\ a = f r.
Proof.
  intros (tr1 & tr2 & r & -> & Hp & Hr)%exec_prog_bind. apply exec_return_inv in Hr as [-> [= ->]].
  exists r. by rewrite app_nil_r.
Qed.
Lemma exec_http_send {E} sent tr (r : option HttpResponse) :
  exec (http_send (E:=E) sent) tr (Ok r) ->
  exists s, tr = [(s, s <| dm_sent ::= fun l => l ++ [sent] |>)] /\ r = respond (length (dm_sent s)) sent.
Proof.
  intros (s & tr' & -> & Hr)%exec_atomic_inv. apply exec_return_inv in Hr as [-> [= ->]]. by exists s.
Qed.

(** [run_to R a Ha]: the first part of the run [R] has given [a]; [R] is the rest. *)
Ltac run_to R a Ha := let tr1 := fresh "tr" in let tr2 := fresh "tr" in
  apply exec_bind_Ok in R as (tr1 & tr2 & a & -> & Ha & R).

(** A section the run is known to contain. *)
Ltac in_run := lazymatch goal with
  | |- _ ∈ _ :: _ => apply list_elem_of_here
  | |- _ ∈ _ ++ _ => apply elem_of_app; first [left; solve [in_run] | right; in_run]
  end.

(** The texts by which a header authenticates. *)
Inductive carries : Header -> string -> Prop :=
| carries_bearer token : carries (BearerAuth token) token
| carries_text name token : carries (HeaderText name ("Bearer " +:+ token)) token
| carries_username username password : carries (BasicAuth username password) username
| carries_password username password : carries (BasicAuth username password) password.

Lemma bearer_carries profile token secret : carries (bearer profile token) secret -> secret = token.
Proof.
  unfold bearer. destruct (ap_credential_header profile) as [name|]; inversion 1; subst; [by apply (inj (String.append ""))|done].
Qed.

(** They are all kept out of the answer. *)
Lemma authentication_exec provider profile account_id text tr header redactions secret :
  exec (authentication provider profile account_id text) tr (Ok (header, redactions)) ->
  carries header secret -> secret ∈ redactions.
Proof.
  unfold authentication. intros R Hc. destruct (ap_method profile).
  - run_to R credential Hcur. apply exec_ret in R as [[= -> ->] _]. apply bearer_carries in Hc as ->. set_solver.
  - apply exec_ret in R as [[= -> ->] _]. apply bearer_carries in Hc as ->. set_solver.
  - apply exec_ret in R as [[= -> ->] _]. apply bearer_carries in Hc as ->. set_solver.
  - run_to R envelope He. run_to R user Hu. run_to R pass Hp. apply exec_ret in R as [[= -> ->] _].
    inversion Hc; set_solver.
  - run_to R envelope He. run_to R client Hid. run_to R own Hs. run_to R endpoint Hurl. run_to R body Hb.
    run_to R token Htok. apply exec_ret in R as [[= -> ->] _]. inversion Hc; set_solver.
  - by apply exec_return_inv in R as [_ [=]].
Qed.

(** A run of [execute_authenticated] that has answered authorized its request,
    and sent it. *)
Lemma execute_authenticated_exec areq tr response :
  exec (execute_authenticated catalog areq) tr (Ok response) ->
  (exists tr1, exec (authorize (ar_lease areq) (ar_client_id areq) (ar_purpose areq) (ar_provider areq)
                       (ar_operation areq)) tr1 (Ok tt) /\ forall sec, sec ∈ tr1 -> sec ∈ tr) /\
  exists header body s s' n answer redactions, (s, s') ∈ tr /\
    (forall secret, carries header secret -> secret ∈ redactions) /\
    let sent := mkHttpRequest (ar_method areq) (ar_url areq) [header] body in
    sent ∈ dm_sent s' /\ respond n sent = Some answer /\
    rs_body response = sanitize redactions (default JNull (hp_json answer)).
Proof.
  unfold execute_authenticated. intros R. run_to R u Hauth. run_to R pack Hp. run_to R v Ho.
  run_to R target Ht. run_to R p Hf. run_to R w Hm. run_to R account_id Hid. run_to R secret Hs.
  run_to R text Htx. run_to R both Hau. destruct both as [header redactions]. run_to R sent Hsend.
  apply exec_http_send in Hsend as (s & -> & ->). run_to R got Ha. apply exec_ok_or in Ha as [Ha ->].
  apply exec_ret in R as [-> ->]. apply exec_map_err in Hauth. destruct u. split.
  - eexists. split; [exact Hauth|]. set_solver.
  - eexists header, _, s, _, _, got, redactions.
    split; [in_run|]. split; [intros secret'; by eapply authentication_exec|]. simpl. split; [apply elem_of_app; right; by left|done].
Qed.
(** What [typed_target] settles before anything is read or sent. *)
Definition targets request (method url : string) (schema : json) : Prop :=
  exists provider spec p path segment,
    catalog_get catalog (tr_provider request) = Some provider /\
    executable_operation catalog (tr_provider request) (tr_operation request) = Some spec /\
    po_risk spec = Read /\ p ∈ ps_auth_profiles provider /\ po_executor spec = Http (ap_id p) method path /\
    resolve_path (po_input_schema spec) path (tr_arguments request) = Some segment /\
    url = trim_end_slashes (ap_audience p) +:+ segment /\ schema = po_result_schema spec.

Lemma typed_target_Ok request method url schema :
  typed_target catalog request = Ok (method, url, schema) -> targets request method url schema.
Proof.
  unfold typed_target. intros (provider & Hp%some_or_Ok & R)%result_bind_Ok.
  apply result_bind_Ok in R as (spec & Hs%some_or_Ok & R).
  apply result_bind_Ok in R as ([] & Hr%fail_if_Ok & R). apply bool_decide_eq_false in Hr.
  destruct (po_executor spec) as [name m path|] eqn:Ex; [|done].
  apply result_bind_Ok in R as (segment & Hseg%some_or_Ok & R).
  apply result_bind_Ok in R as (p & Hf%some_or_Ok & [= <- <- <-]).
  apply find_some in Hf as [Hin Hid]. apply bool_decide_eq_true in Hid as <-.
  exists provider, spec, p, path, segment. split_and!; try done; [by destruct (po_risk spec)|].
  by apply list_elem_of_In.
Qed.

(** A run of [execute_typed_operation] that has completed. *)
Lemma execute_typed_exec request tr status result audit_id :
  exec (execute_typed_operation catalog request) tr (Ok (Completed status result audit_id)) ->
  exists method url schema token,
    targets request method url schema /\ validate_result schema result = Ok tt /\
    (exists tr1, exec (authorize token (tr_client_id request) (tr_purpose_class request)
       (tr_provider request) (tr_operation request)) tr1 (Ok tt) /\ forall sec, sec ∈ tr1 -> sec ∈ tr) /\
    exists header body s s' n got redactions, (s, s') ∈ tr /\
      (forall secret, carries header secret -> secret ∈ redactions) /\
      let sent := mkHttpRequest method url [header] body in
      sent ∈ dm_sent s' /\ respond n sent = Some got /\
      result = sanitize redactions (default JNull (hp_json got)).
Proof.
  unfold execute_typed_operation. intros R. run_to R target Ht. destruct target as [[method url] schema].
  apply exec_lift in Ht as [Ht%typed_target_Ok ->]. run_to R accounts Ha. run_to R chosen Hc.
  destruct chosen as [account|choices]; [|by apply exec_ret in R as [[=] _]].
  run_to R now Hn. run_to R grants Hg. destruct (List.find _ grants) as [grant|].
  2: { unfold ask_user in R. run_to R requests Hr. run_to R waiting Hw. by apply exec_ret in R as [[=] _]. }
  unfold run_granted in R. run_to R lease Hl. run_to R response Hx.
  apply exec_map_err, execute_authenticated_exec in Hx as [(tra & Hauth & Hsub) Hsent].
  run_to R u Hv. apply exec_lift in Hv as [Hv ->]. destruct u. run_to R uuid Hu. run_to R v Haudit.
  apply exec_ret in R as [[= -> -> ->] ->].
  exists method, url, schema, (ol_token lease). split_and!; [done..| |].
  - exists tra. split; [done|]. intros sec Hsec. apply Hsub in Hsec. set_solver.
  - destruct Hsent as (hs & body & s & s' & n & got & rd & Hin & Hrest). exists hs, body, s, s', n, got, rd.
    split; [set_solver|done].
Qed.

(** The two ways an outcome is answered: to a tool, and over the pipe. *)
Inductive answers request (outcome : TypedExecutionOutcome) : Call -> Answer -> Prop :=
| answers_tool : answers request outcome (ExecuteTyped request) (AOutcome (Ok outcome))
| answers_pipe envelope :
    ee_request envelope = request ->
    answers request outcome (ExecuteEnvelope envelope) (APipe (Ok outcome)).

(** Over the pipe the envelope was authentic when it was looked at. *)
Definition authenticated conf (call : Call) : Prop :=
  forall envelope, call = ExecuteEnvelope envelope ->
  exists conf1 issued_at, broker_reachable conf1 /\ rtc broker_step conf1 conf /\
    authentic client_key "codex-actions" (now_at (dm_readings (c_state conf1))) envelope issued_at.

Lemma verify_authentic envelope key client now seen request seen' :
  verify envelope key client now seen = (Ok request, seen') ->
  ee_request envelope = request /\ exists issued_at, authentic key client now envelope issued_at.
Proof.
  unfold verify. destruct (verify_parts _ _ _ _ _ _ _ _ _) as [t|] eqn:E; [|done].
  apply verify_parts_authentic in E. destruct (check_and_record _ _ _ _) as [[[]|] ?]; [|done].
  intros [= -> _]. split; [done|by exists t].
Qed.

(** The run of the operation in the run of the call. *)
Lemma answered_exec conf call request outcome answer :
  broker_reachable conf -> answers request outcome call answer -> (call, Ok answer) ∈ c_log conf ->
  authenticated conf call /\
  exists tr, Forall (during broker_call fresh_daemon conf) tr /\
    exec (execute_typed_operation catalog request) tr (Ok outcome).
Proof.
  intros Hr Ha Hin.
  destruct (returned_exec _ fresh_daemon conf (c_log conf) call (Ok answer) Hr (eq_refl _) Hin) as (tr & Htr & R).
  { by intros p ?%not_elem_of_nil. }
  destruct Ha as [|envelope <-]; apply exec_reply in R as (r & R & E); simplify_eq.
  - split; [done|]. by exists tr.
  - unfold execute_envelope in R. run_to R req Hv. apply exec_map_err in Hv, R.
    apply exec_atomic_inv in Hv as (s & trv & -> & Hv). simpl in Hv.
    destruct (verify _ _ _ _ _) as [got seen] eqn:Ev. apply exec_return_inv in Hv as [-> Eg]. simpl in Eg.
    subst got. apply verify_authentic in Ev as [<- Hau]. apply Forall_app in Htr as [Htr1 Htr2].
    split; [|by eexists]. intros e [= <-]. destruct Hau as [t Hau].
    apply Forall_inv in Htr1 as (c1 & c2 & H01 & H12 & H2 & E). injection E as -> _.
    exists c1, t. split; [done|]. split; [by eapply rtc_l|done].
Qed.

(** C7. A typed operation that completes was approved, only reads, and went
    where its manifest says: whenever the daemon has answered [Completed], to a
    tool or over the pipe, then (over the pipe the envelope was authentic;)
    the operation is an executable one of the catalog whose risk is to read;
    the arguments its schema admits were filled into its path, a request for
    the resulting URL under the audience of its profile, by its method, was
    sent, and the result is the answer to it, with every text by which
    the request authenticated redacted, and of the shape the manifest declares;
    and at some moment a lease under an unrevoked grant of a connected account
    backed exactly this client, purpose, provider and operation, the grant came of
    an access request of this client that named all of that, and it was made by a
    call by which a user approves that request. *)
Theorem typed_results_are_granted conf call answer request status result audit_id :
  broker_reachable conf -> answers request (Completed status result audit_id) call answer ->
  (call, Ok answer) ∈ c_log conf ->
  authenticated conf call /\
  (exists method url schema header body n got redactions,
     targets request method url schema /\ validate_result schema result = Ok tt /\
     (forall secret, carries header secret -> secret ∈ redactions) /\
     let sent := mkHttpRequest method url [header] body in
     sent ∈ dm_sent (c_state conf) /\ respond n sent = Some got /\
     result = sanitize redactions (default JNull (hp_json got))) /\
  exists conf1 token lease grant account decided operations,
    broker_reachable conf1 /\ rtc broker_step conf1 conf /\
    backing (dm_tables (c_state conf1)) token (tr_client_id request) (tr_purpose_class request)
      (tr_provider request) (tr_operation request) lease grant account /\
    approved conf1 (gr_request_id grant) /\
    decided ∈ vt_requests (dm_tables (c_state conf1)) /\ rq_id decided = gr_request_id grant /\
    rq_kind decided = "access" /\ rq_provider decided = Some (tr_provider request) /\
    rq_account_id decided = Some (ac_id account) /\ rq_client_id decided = Some (tr_client_id request) /\
    parse_vec (rq_operations_json decided) = Some operations /\ tr_operation request ∈ operations.
Proof.
  intros Hr Ha Hin. destruct (answered_exec _ _ _ _ _ Hr Ha Hin) as (Hau & tr & Htr & R).
  split; [done|]. apply execute_typed_exec in R as (method & url & schema & token & Ht & Hv & Hb & Hs).
  split.
  - destruct Hs as (header & body & s & s' & n & got & redactions & Hsec & Hhide & Hsent & Hn & Hres).
    exists method, url, schema, header, body, n, got, redactions. cbv zeta. split_and!; try done.
    rewrite Forall_forall in Htr. destruct (Htr _ Hsec) as (c1 & c2 & H01 & H12 & H2 & [= -> ->]).
    destruct (broker_steps_traffic c2 conf H2) as [_ [more Em]].
    { apply reachable_traffic. by eapply rtc_r. }
    rewrite Em. apply elem_of_app. by left.
  - destruct Hb as (tr1 & Hx & Hsub). apply authorize_exec in Hx as (s & l & g & acc & Hsec & Hb & _).
    destruct (during_states _ _ _ _ Htr (Hsub _ Hsec)) as (c1 & H01 & H1 & E). simpl in E. subst s.
    destruct (backed_origin _ _ _ _ _ _ _ _ _ H01 Hb) as (? & d & ops & ? & ? & ? & ? & ? & ? & ? & ? & ?).
    exists c1, token, l, g, acc, d, ops. by split_and!.
Qed.
End Typed.
