(* ===== verification/BrokerScenario.v ===== *)
(** A host, a network and a catalog in which the daemon evaluates, and
    concrete histories of the broker: one account, and the witnesses of the
    theorems about authorization. *)
From Stdlib Require Import Ascii.
From stdpp Require Import pretty.
From S2P Require Import Prelude Text Substring Concrete Json Redaction Table Threads Network Catalog Vault Protocol ProtocolFacts Broker Adapters Execution Center Tools Service BrokerFacts BrokerSafety.

(** A second passes per reading of the clock; encryption and hashing are the
    identity. *)
#[export] Instance demo_host : Host := {|
  now_at n := (Z.of_nat n * 1000000000)%Z;
  uuid_simple := numbered "";
  random_fill n len := repeat Ascii.zero len;
  to_rfc3339 := time_text;
  parse_from_rfc3339 := text_time;
  sha256_hex s := s;
  value_to_string v := match v with
                       | JArr l => strings_text (map (fun x => default "" (json_as_str x)) l)
                       | _ => "{}"
                       end;
  value_from_str _ := None;
  strings_from_str := text_strings None;
  aead_encrypt _ _ _ text := Some text;
  aead_decrypt _ _ _ text := Some text;
  protect key := Ok key;
  unprotect key := Ok key |}.

#[export] Instance demo_host_laws : HostLaws demo_host.
Proof.
  split; [apply _| |].
  - intros n m E. unfold token_hash, token_of in E. simpl in E. apply append_inj in E.
    by apply (inj (numbered "")).
  - intros l. simpl. rewrite map_map. simpl. rewrite map_id. apply text_strings_text.
Qed.

(** ** Signatures, credentials and URLs *)
#[export] Instance demo_signing : Signing := {|
  sha256 b := b;
  hmac_sha256 key message := Some (key ++ message);
  base64_encode := of_bytes;
  base64_decode s := Some (to_bytes s) |}.
#[export] Instance demo_signing_laws : SigningLaws demo_host demo_signing.
Proof.
  split; [intros b; simpl; by rewrite to_of_bytes|apply text_time_text|by intros; eexists].
Qed.

(** A credential is the list of its fields. *)
#[export] Instance demo_texts : CredentialTexts := {|
  oauth_credential_to_string c :=
    strings_text (oc_version c :: oc_access_token c :: oc_refresh_token c :: oc_expires_at c :: oc_scopes c);
  oauth_credential_from_str s :=
    match text_strings None s with
    | Some (version :: access :: refresh :: expires :: scopes) =>
        Some (mkOAuthCredential version access refresh scopes expires)
    | _ => None
    end;
  credential_envelope_from_str _ := None |}.

(** ** A provider with a device flow, and one with OAuth and with tokens *)
Definition demo_client : ClientRegistration := mkClientRegistration Public (Some "elegy") None.
Definition demo_identity : IdentitySpec := mkIdentitySpec "https://api.hub.example/user" ["/login"] [].
Definition device_profile : AuthProfile := {|
  ap_id := "device"; ap_method := DeviceAuthorization; ap_audience := "https://api.hub.example";
  ap_issuer := None; ap_authorization_url := None; ap_authorization_parameters := [];
  ap_token_url := Some "https://hub.example/token";
  ap_device_authorization_url := Some "https://hub.example/device";
  ap_identity := demo_identity; ap_client := demo_client; ap_scopes := ["read:user"];
  ap_credential_header := None; ap_creation_url := None; ap_credential_fields := [];
  ap_oauth_lifecycle := None |}.
Definition read_profile : ProviderOperation := {|
  po_description := "Read the profile."; po_risk := Read; po_scopes := ["read:user"];
  po_input_schema := JObj [("additionalProperties", JBool false)];
  po_result_schema := JObj [("type", JStr "object")];
  po_executor := Http "device" "GET" "/user" |}.
Definition hub : ProviderSpec := {|
  ps_schema_version := "elegy-account-provider/v2"; ps_id := "hub"; ps_display_name := "Hub";
  ps_version := "1.0.0"; ps_publisher := "elegy"; ps_browser_origins := ["https://hub.example"];
  ps_auth_profiles := [device_profile]; ps_operations := [("profile.read", Executable read_profile)] |}.

Definition oauth_profile : AuthProfile := {|
  ap_id := "oauth"; ap_method := OAuthPkce; ap_audience := "https://api.mail.example";
  ap_issuer := None; ap_authorization_url := Some "https://mail.example/authorize";
  ap_authorization_parameters := [("access_type", "offline")];
  ap_token_url := Some "https://mail.example/token"; ap_device_authorization_url := None;
  ap_identity := mkIdentitySpec "https://api.mail.example/me" ["/login"] []; ap_client := demo_client;
  ap_scopes := ["mail.read"]; ap_credential_header := None; ap_creation_url := None;
  ap_credential_fields := [];
  ap_oauth_lifecycle := Some (mkOAuthLifecycle "https://mail.example/token" "https://mail.example/revoke" None) |}.
Definition token_profile : AuthProfile := {|
  ap_id := "token"; ap_method := ApiToken; ap_audience := "https://api.mail.example";
  ap_issuer := None; ap_authorization_url := None; ap_authorization_parameters := [];
  ap_token_url := None; ap_device_authorization_url := None;
  ap_identity := mkIdentitySpec "https://api.mail.example/me" ["/login"] []; ap_client := demo_client;
  ap_scopes := []; ap_credential_header := None; ap_creation_url := None; ap_credential_fields := [];
  ap_oauth_lifecycle := None |}.
Definition read_inbox : ProviderOperation := {|
  po_description := "Read the inbox."; po_risk := Read; po_scopes := ["mail.read"];
  po_input_schema := JObj [("additionalProperties", JBool false)];
  po_result_schema := JObj [("type", JStr "object")];
  po_executor := Http "oauth" "GET" "/inbox" |}.
Definition mail : ProviderSpec := {|
  ps_schema_version := "elegy-account-provider/v3"; ps_id := "mail"; ps_display_name := "Mail";
  ps_version := "1.0.0"; ps_publisher := "elegy"; ps_browser_origins := [];
  ps_auth_profiles := [oauth_profile; token_profile]; ps_operations := [("inbox.read", Executable read_inbox)] |}.

(** The host of an [https] URL is what stands before the next slash. *)
Fixpoint before_slash (l : bytes) : bytes :=
  match l with
  | [] => []
  | c :: l' => if bool_decide (c = "/"%char) then [] else c :: before_slash l'
  end.
#[export] Instance demo_parsers : Parsers := {|
  url_parse s := rest ← strip_prefix (to_bytes "https://") (to_bytes s);
                 Some (mkUrl "https" (Some (of_bytes (before_slash rest))) (Some 443%Z));
  provider_from_str s := match s with "hub" => Some hub | "mail" => Some mail | _ => None end;
  env_var _ := None |}.

#[export] Instance demo_deployment : Deployment := {|
  catalog := mkProviderCatalog (<["hub" := hub]> (<["mail" := mail]> ∅)) {[ "hub"; "mail" ]};
  client_key := to_bytes "key" |}.

(** ** What the providers answer, by URL; the token endpoints name their tokens
    after the number of the request. *)
#[export] Instance demo_network : Network := {|
  respond n request :=
    match hr_url request with
    | "https://hub.example/device" => Some (mkHttpResponse 200 (Some (JObj
        [("device_code", JStr (numbered "device-" n)); ("user_code", JStr (numbered "CODE-" n));
         ("verification_uri", JStr "https://hub.example/activate"); ("interval", JInt 1)])))
    | "https://hub.example/token" | "https://mail.example/token" => Some (mkHttpResponse 200 (Some (JObj
        [("access_token", JStr (numbered "access-" n)); ("refresh_token", JStr (numbered "refresh-" n));
         ("scope", JStr "mail.read"); ("expires_in", JInt 100)])))
    | "https://mail.example/revoke" => Some (mkHttpResponse 200 None)
    | _ => Some (mkHttpResponse 200 (Some (JObj [("login", JStr "owner"); ("request", JInt (Z.of_nat n))])))
    end;
  header_name_valid _ := true;
  header_value_valid _ := true |}.

(** ** Histories *)
(** One call after the other. *)
Fixpoint drain (fuel : nat) (conf : BrokerConf) : BrokerConf :=
  match fuel with
  | O => conf
  | S n => match advance 0 conf with Some conf' => drain n conf' | None => conf end
  end.
Definition call (c : Call) (conf : BrokerConf) : BrokerConf := drain 60 (start broker_call c conf).
Definition calls (cs : list Call) (conf : BrokerConf) : BrokerConf := fold_left (fun k c => call c k) cs conf.

Lemma drain_steps fuel conf : rtc broker_step conf (drain fuel conf).
Proof.
  revert conf. induction fuel as [|n IH]; intros conf; simpl; [done|].
  destruct (advance 0 conf) as [conf'|] eqn:E; [|done].
  eapply rtc_l; [by eapply step_advance|apply IH].
Qed.
Lemma call_steps c conf : rtc broker_step conf (call c conf).
Proof. eapply rtc_l; [apply step_start|apply drain_steps]. Qed.
Lemma calls_steps cs conf : rtc broker_step conf (calls cs conf).
Proof.
  revert conf. induction cs as [|c cs IH]; intros conf; [done|].
  etransitivity; [apply call_steps|apply IH].
Qed.

(** An account, a request that the user approves, a lease of each kind. *)
Definition new_request : NewAccessRequest :=
  mkNewAccessRequest "acct_0" "client" "read mail" ["mail.read"] 60.
Definition granted_conf : BrokerConf :=
  calls [StoreAccount "google" "owner" "oauth_pkce" []; RequestAccess new_request;
         ApproveAccess "access_1"] fresh_daemon.
Definition use (token : string) : Call := Authorize token "client" "read mail" "google" "mail.read".
Definition issued_conf : BrokerConf := calls [IssueLease "grant_2" 10; IssueSingleUseLease "grant_2" 10] granted_conf.
Definition used_conf : BrokerConf := calls [use "ela_3"; use "ela_4"; use "ela_4"] issued_conf.
Definition revoked_conf : BrokerConf := calls [use "ela_3"; RevokeGrant "grant_2" "no longer needed"] issued_conf.

Lemma reachable_calls cs : broker_reachable (calls cs fresh_daemon).
Proof. apply calls_steps. Qed.
Lemma granted_reachable : broker_reachable granted_conf.
Proof. apply reachable_calls. Qed.
Lemma issued_reachable : broker_reachable issued_conf.
Proof. unfold broker_reachable. etransitivity; [apply granted_reachable|apply calls_steps]. Qed.

(** Logs are compared by evaluation; no call is in flight between [calls]. *)
Lemma in_log (conf : BrokerConf) i e : c_log conf !! i = Some e -> e ∈ c_log conf.
Proof. apply list_elem_of_lookup_2. Qed.
Lemma nothing_in_flight (conf : BrokerConf) c p : c_threads conf = [] -> (c, p) ∉ c_threads conf.
Proof. intros ->. apply not_elem_of_nil. Qed.
Lemma revoked_reachable : broker_reachable revoked_conf.
Proof. unfold broker_reachable. etransitivity; [apply issued_reachable|apply calls_steps]. Qed.

Lemma authorizations_are_backed_witness :
  exists conf1 lease grant account,
    rtc broker_step issued_conf conf1 /\ rtc broker_step conf1 used_conf /\
    backing (dm_tables (c_state conf1)) "ela_4" "client" "read mail" "google" "mail.read" lease grant account /\
    unexpired_during issued_conf used_conf (ls_expires_at lease) /\
    approved conf1 (gr_request_id grant).
Proof.
  destruct (authorizations_are_backed issued_conf used_conf (drop 5 (c_log used_conf))
              "ela_4" "client" "read mail" "google" "mail.read" Done)
    as (c1 & l & g & acc & H0 & H1 & Hb & Hl & _ & Ha & _).
  - apply issued_reachable.
  - intros p. apply nothing_in_flight. vm_compute. reflexivity.
  - apply calls_steps.
  - vm_compute. reflexivity.
  - apply list_elem_of_lookup_2 with 1. vm_compute. reflexivity.
  - exists c1, l, g, acc. split; [exact H0|]. split; [exact H1|]. split; [exact Hb|].
    split; [exact Hl|exact Ha].
Defined.

Lemma revocation_is_final_witness :
  (use "ela_3", Ok Done) ∉ drop 7 (c_log (calls [use "ela_3"; use "ela_3"] revoked_conf)).
Proof.
  destruct (revocation_is_final revoked_conf (calls [use "ela_3"; use "ela_3"] revoked_conf)
              (drop 7 (c_log (calls [use "ela_3"; use "ela_3"] revoked_conf)))
              "grant_2" "no longer needed" "ela_3" "client" "read mail" "google" "mail.read" Done)
    as [Hno _].
  - apply revoked_reachable.
  - apply in_log with 6. vm_compute. reflexivity.
  - intros p. apply nothing_in_flight. vm_compute. reflexivity.
  - apply calls_steps.
  - vm_compute. reflexivity.
  - apply (Hno (calls [use "ela_3"; use "ela_3"] revoked_conf)); [apply rtc_refl|].
    exists (IssueLease "grant_2" 10), (mkOpaqueLease "ela_3" "607000000000").
    split; [apply in_log with 3; vm_compute; reflexivity|]. split; [reflexivity|]. left. by exists 10%Z.
Defined.

Lemma single_use_leases_work_once_witness :
  length (List.filter (authorizes "ela_4") (drop 5 (c_log used_conf))) <= 1.
Proof.
  apply (single_use_leases_work_once issued_conf used_conf (drop 5 (c_log used_conf)) "grant_2" 10
           (mkOpaqueLease "ela_4" "609000000000")).
  - apply issued_reachable.
  - apply in_log with 4. vm_compute. reflexivity.
  - intros ? ? ? ? p. apply nothing_in_flight. vm_compute. reflexivity.
  - apply calls_steps.
  - vm_compute. reflexivity.
Defined.

(** ** Races *)
Definition requested_conf : BrokerConf :=
  calls [StoreAccount "google" "owner" "oauth_pkce" []; RequestAccess new_request] fresh_daemon.
(** An approval that has checked the request, the request cancelled, and the
    approval going on. *)
Definition race : list (Call + nat) :=
  [inl (ApproveAccess "access_1"); inr 0; inr 0; inr 0; inl (CancelRequest "access_1");
   inr 1; inr 1; inr 1; inr 1; inr 1; inr 0; inr 0; inr 0; inr 0;
   inl (IssueLease "grant_2" 10); inr 0; inr 0; inr 0; inr 0;
   inl (use "ela_3"); inr 0; inr 0; inr 0].
Definition answered_Ok (e : Call * Result BrokerError Answer) : bool :=
  match snd e with Ok _ => true | Err _ => false end.
Definition raced_conf : BrokerConf := default requested_conf (play broker_call race requested_conf).

Lemma requested_reachable : broker_reachable requested_conf.
Proof. apply reachable_calls. Qed.
Lemma raced_reachable : broker_reachable raced_conf.
Proof. exact (transitivity requested_reachable (play_default broker_call race requested_conf)). Qed.

(** A request that the user has cancelled can still be granted: in a
    reachable configuration the cancellation has answered [Ok], the request is
    cancelled, and after that its grant is approved and a lease under it
    authorizes the operation. *)
Theorem cancelled_requests_can_be_granted :
  broker_reachable raced_conf /\
  map (fun r => rq_status r) (vt_requests (dm_tables (c_state raced_conf))) = ["cancelled"] /\
  map fst (drop 2 (c_log raced_conf))
    = [CancelRequest "access_1"; ApproveAccess "access_1"; IssueLease "grant_2" 10; use "ela_3"] /\
  forallb answered_Ok (c_log raced_conf) = true.
Proof.
  split; [exact raced_reachable|]. split_and!; vm_compute; reflexivity.
Qed.

(** A lease whose grant was checked before the account was disabled and that
    is stored after it. *)
Definition late_lease : list (Call + nat) :=
  [inl (IssueLease "grant_2" 10); inr 0; inr 0; inr 0;
   inl (BeginProviderDisconnect "acct_0"); inr 1; inr 1; inr 1; inr 0;
   inl (CompleteProviderDisconnect "acct_0"); inr 0].
Definition late_conf : BrokerConf := default granted_conf (play broker_call late_lease granted_conf).

Lemma late_reachable : broker_reachable late_conf.
Proof. exact (transitivity granted_reachable (play_default broker_call late_lease granted_conf)). Qed.

(** A disconnect can be blocked by a lease in flight: in a reachable
    configuration [begin_provider_disconnect] has answered [Ok], having
    deleted the leases of the account, and [complete_provider_disconnect]
    fails on the lease that was stored after it and leaves the account. *)
Theorem late_leases_block_disconnect :
  broker_reachable late_conf /\
  map (fun e => (fst e, answered_Ok e)) (drop 3 (c_log late_conf))
    = [(BeginProviderDisconnect "acct_0", true); (IssueLease "grant_2" 10, true);
       (CompleteProviderDisconnect "acct_0", false)] /\
  map ac_id (vt_accounts (dm_tables (c_state late_conf))) = ["acct_0"].
Proof.
  split; [exact late_reachable|]. split_and!; vm_compute; reflexivity.
Qed.
