(* ===== verification/ServiceScenario.v ===== *)
(** Histories of the whole daemon: a device is authorized, an agent asks, the
    user approves, the operation runs; and the witnesses of the theorems about
    traffic and typed operations. *)
From S2P Require Import Prelude Text Substring Concrete Json Redaction Table Threads Network Catalog CatalogFacts Paths Vault Protocol ProtocolFacts Broker Adapters Execution Center Tools Service BrokerFacts BrokerSafety Egress Agents TypedFacts BrokerScenario.

Definition typed_request : TypedExecutionRequest :=
  mkTypedExecutionRequest "codex-actions" "coding" "hub" "profile.read" None (JObj []).
Definition user_action : option string := Some "user-action".
Definition connected_conf : BrokerConf :=
  calls [WebStartConnection user_action "hub"; DeviceWorker "auth_0"] fresh_daemon.
Definition demo_envelope : ExecutionEnvelope := {|
  ee_schema_version := PROTOCOL_VERSION; ee_issued_at := "1000000000"; ee_nonce := "nonce-1";
  ee_request := typed_request; ee_signature := "key{}" |}.
Definition completed_conf : BrokerConf :=
  calls [ExecuteTyped typed_request; WebApprove user_action "access_2"; ExecuteEnvelope demo_envelope;
         ExecuteEnvelope demo_envelope] connected_conf.

Lemma connected_reachable : broker_reachable connected_conf.
Proof. apply reachable_calls. Qed.
Lemma completed_reachable : broker_reachable completed_conf.
Proof. exact (transitivity connected_reachable (calls_steps _ _)). Qed.

(** The envelope is what [sign] makes, and its second delivery was refused. *)
Example demo_envelope_signed : sign typed_request client_key 1000000000 "nonce-1" = Ok demo_envelope.
Proof. reflexivity. Qed.
Example demo_replay :
  last (c_log completed_conf) = Some (ExecuteEnvelope demo_envelope, Ok (APipe (Err (PipeProtocol Replay)))).
Proof. vm_compute. reflexivity. Qed.

(** ** Witnesses *)
Lemma requests_go_where_declared_witness :
  exists id provider profile, catalog_get catalog id = Some provider /\
    profile ∈ ps_auth_profiles provider /\
    destination profile (mkHttpRequest "GET" "https://api.hub.example/user" [BearerAuth "access-1"] NoBody) /\
    secure "https://api.hub.example/user".
Proof.
  apply (requests_go_where_declared ["hub"; "mail"] true completed_conf
           (mkHttpRequest "GET" "https://api.hub.example/user" [BearerAuth "access-1"] NoBody)).
  - vm_compute. reflexivity.
  - apply completed_reachable.
  - apply list_elem_of_lookup_2 with 3. vm_compute. reflexivity.
Defined.

Lemma typed_results_are_granted_witness :
  authenticated completed_conf (ExecuteEnvelope demo_envelope) /\
  exists token lease grant account conf1, rtc broker_step conf1 completed_conf /\
    backing (dm_tables (c_state conf1)) token "codex-actions" "coding" "hub" "profile.read" lease grant account.
Proof.
  destruct (typed_results_are_granted completed_conf (ExecuteEnvelope demo_envelope)
    (APipe (Ok (Completed 200 (JObj [("login", JStr "owner"); ("request", JInt 3)]) "audit_5")))
    typed_request 200 (JObj [("login", JStr "owner"); ("request", JInt 3)]) "audit_5") as (Hau & _ & Hb).
  - apply completed_reachable.
  - constructor. reflexivity.
  - apply in_log with 4. vm_compute. reflexivity.
  - split; [exact Hau|]. destruct Hb as (c1 & token & l & g & a & _ & _ & _ & Hs & Hb & _).
    exists token, l, g, a, c1. split; [exact Hs|exact Hb].
Defined.

Lemma envelopes_are_accepted_once_witness :
  accepted client_key "codex-actions" ∅ [(demo_envelope, 1); (demo_envelope, 2)]%Z = [(demo_envelope, 1%Z)] /\
  NoDup (map stamp (accepted client_key "codex-actions" ∅ [(demo_envelope, 1); (demo_envelope, 2)]%Z)).
Proof.
  split; [vm_compute; reflexivity|].
  apply (envelopes_are_accepted_once client_key "codex-actions" [(demo_envelope, 1); (demo_envelope, 2)]%Z).
  simpl. repeat constructor; lia.
Defined.

Lemma signed_envelopes_verify_witness :
  exists e seen', sign typed_request client_key 1000000000 "nonce-1" = Ok e /\
    verify e client_key "codex-actions" 5000000000 ∅ = (Ok typed_request, seen') /\
    fst (verify e client_key "codex-actions" 5000000000 seen') = Err Replay.
Proof.
  apply (signed_envelopes_verify typed_request client_key 1000000000 "nonce-1" 5000000000 ∅).
  - vm_compute. split; discriminate.
  - discriminate.
  - reflexivity.
Defined.

(** An agent asks for access, looks at the request, and asks for the operation. *)
Definition begging_conf : BrokerConf :=
  calls [CallTool (AccountRequestAccess "acct_1" "coding" ["profile.read"] None);
         CallTool (AccountRequestStatus "access_2"); ExecuteTyped typed_request] connected_conf.

Lemma drain_of_agent fuel conf : rtc (step_of broker_call of_agent) conf (drain fuel conf).
Proof.
  revert conf. induction fuel as [|n IH]; intros conf; simpl; [done|].
  destruct (advance 0 conf) as [conf'|] eqn:E; [|done].
  eapply rtc_l; [by eapply step_of_advance|apply IH].
Qed.
Lemma calls_of_agent cs conf :
  Forall of_agent cs -> rtc (step_of broker_call of_agent) conf (calls cs conf).
Proof.
  intros Hcs. revert conf. induction Hcs as [|c cs Hc _ IH]; intros conf; [done|].
  eapply rtc_l; [by apply step_of_start|]. etransitivity; [apply drain_of_agent|apply IH].
Qed.
Example begging_is_pending :
  map (fun r => rq_status r) (vt_requests (dm_tables (c_state begging_conf))) = ["awaiting_user"; "awaiting_user"].
Proof. vm_compute. reflexivity. Qed.

Lemma agents_cannot_approve_witness :
  no_new_access (dm_tables (c_state connected_conf)) (dm_tables (c_state begging_conf)).
Proof.
  apply (agents_cannot_approve connected_conf begging_conf).
  - vm_compute. reflexivity.
  - apply calls_of_agent. repeat constructor.
Defined.

(** ** A session that was superseded *)

(** The worker has loaded the secret of the session; another connection is
    started; the worker goes on. *)
Definition overtaken : list (Call + nat) :=
  [inl (DeviceWorker "auth_0"); inr 0; inr 0; inr 0; inl (WebStartConnection user_action "hub")]
  ++ repeat (inr 1) 9 ++ repeat (inr 0) 10.
Definition started_conf : BrokerConf := calls [WebStartConnection user_action "hub"] fresh_daemon.
Definition overtaken_conf : BrokerConf := default started_conf (play broker_call overtaken started_conf).

(** A device authorization that the user has superseded can still
    connect: in a reachable configuration a new connection has been started,
    which closed the session [auth_0], and after that the worker of [auth_0]
    has stored an account and has overwritten the session's status. *)
Theorem superseded_sessions_can_connect :
  broker_reachable overtaken_conf /\
  map fst (drop 1 (c_log overtaken_conf)) = [WebStartConnection user_action "hub"; DeviceWorker "auth_0"] /\
  forallb answered_Ok (c_log overtaken_conf) = true /\
  map (fun s => (as_id s, as_status s)) (vt_sessions (dm_tables (c_state overtaken_conf)))
    = [("auth_0", "connected"); ("auth_1", "waiting_for_user")] /\
  map ac_id (vt_accounts (dm_tables (c_state overtaken_conf))) = ["acct_2"].
Proof.
  split; [exact (transitivity (reachable_calls _) (play_default broker_call overtaken started_conf))|].
  split_and!; vm_compute; reflexivity.
Qed.

(** ** An account that cannot be disconnected *)
Definition token_conf : BrokerConf :=
  calls [WebConnectToken user_action "mail" "tok"; WebDisconnect user_action "acct_0";
         WebDisconnect user_action "acct_0"] fresh_daemon.

(** An account that was connected with a token, at a provider that also
    has OAuth, cannot be disconnected in the account center: in a reachable
    configuration both attempts have failed on the credential, which is no
    OAuth credential, and the account is left with its revocation pending. *)
Theorem token_accounts_stay_connected :
  broker_reachable token_conf /\
  map (fun a => (ac_auth_method a, ac_status a)) (vt_accounts (dm_tables (c_state token_conf)))
    = [("api_token", "revocation_pending")] /\
  map snd (drop 1 (c_log token_conf))
    = repeat (Ok (AWeb (web 502 "stored_oauth_credential_invalid"))) 2.
Proof. split; [apply reachable_calls|]. split; vm_compute; reflexivity. Qed.
