(* ===== verification/Provisioning.v ===== *)
(** The provisioning of an account ([ProvisioningSaga],
    [elegy-accountd/src/lib.rs]): a state machine with a checkpoint at which a
    human must act. *)
From S2P Require Import Prelude Text Threads.

Inductive CheckpointKind :=
| Captcha | Mfa | Terms | Payment | IdentityVerification | AmbiguousPlan | UnexpectedPage.
#[export] Instance CheckpointKind_eq_dec : EqDecision CheckpointKind.
Proof. solve_decision. Defined.
Record HumanCheckpoint := mkHumanCheckpoint { hc_kind : CheckpointKind; hc_instructions : string }.

Inductive ProvisioningState :=
| Requested | Preflight | WaitingHuman | Verifying | Connected | Failed | Cancelled.
#[export] Instance ProvisioningState_eq_dec : EqDecision ProvisioningState.
Proof. solve_decision. Defined.

Inductive SagaError := InvalidTransition | HumanRequired.

Record ProvisioningSaga := mkProvisioningSaga {
  sa_id : string; sa_provider : string; sa_purpose : string; sa_state : ProvisioningState;
  sa_checkpoint : option HumanCheckpoint }.
#[export] Instance eta_ProvisioningSaga : Eta ProvisioningSaga := fun r =>
  mkProvisioningSaga (sa_id r) (sa_provider r) (sa_purpose r) (sa_state r) (sa_checkpoint r).

(** [ProvisioningSaga::requested]; the identifier is a prefix of a SHA-256
    digest, a parameter here. *)
Definition requested (digest_hex : string -> string -> string -> string)
    (request_key provider purpose : string) : ProvisioningSaga :=
  mkProvisioningSaga ("saga_" +:+ String.substring 0 24 (digest_hex request_key provider purpose))
    provider purpose Requested None.

(** Every method either fails and leaves the saga as it is, or moves it on. *)
Definition start (saga : ProvisioningSaga) : Result SagaError ProvisioningSaga :=
  if bool_decide (sa_state saga <> Requested) then Err InvalidTransition
  else Ok (saga <| sa_state := Preflight |>).

Definition require_human (kind : CheckpointKind) (instructions : string) (saga : ProvisioningSaga)
    : Result SagaError ProvisioningSaga :=
  if bool_decide (sa_state saga <> Preflight) && bool_decide (sa_state saga <> Verifying)
  then Err InvalidTransition
  else Ok (saga <| sa_checkpoint := Some (mkHumanCheckpoint kind instructions) |>
                <| sa_state := WaitingHuman |>).

Definition is_waiting_for_human (saga : ProvisioningSaga) : bool :=
  bool_decide (sa_state saga = WaitingHuman).

Definition automated_resume (saga : ProvisioningSaga) : Result SagaError ProvisioningSaga :=
  if bool_decide (sa_state saga = WaitingHuman) then Err HumanRequired else Err InvalidTransition.

Definition human_resume (saga : ProvisioningSaga) : Result SagaError ProvisioningSaga :=
  if bool_decide (sa_state saga <> WaitingHuman) then Err InvalidTransition
  else Ok (saga <| sa_checkpoint := None |> <| sa_state := Verifying |>).

Definition complete (saga : ProvisioningSaga) : Result SagaError ProvisioningSaga :=
  if bool_decide (sa_state saga <> Verifying) then Err InvalidTransition
  else Ok (saga <| sa_state := Connected |>).

Definition cancel (saga : ProvisioningSaga) : Result SagaError ProvisioningSaga :=
  if bool_decide (sa_state saga = Connected) || bool_decide (sa_state saga = Cancelled)
  then Err InvalidTransition
  else Ok (saga <| sa_checkpoint := None |> <| sa_state := Cancelled |>).

(** ** Histories *)
Inductive SagaOp :=
| Start | RequireHuman (kind : CheckpointKind) (instructions : string) | AutomatedResume
| HumanResume | Complete | Cancel.
#[export] Instance SagaOp_eq_dec : EqDecision SagaOp.
Proof. solve_decision. Defined.

Definition saga_op (op : SagaOp) : ProvisioningSaga -> Result SagaError ProvisioningSaga :=
  match op with
  | Start => start
  | RequireHuman kind instructions => require_human kind instructions
  | AutomatedResume => automated_resume
  | HumanResume => human_resume
  | Complete => complete
  | Cancel => cancel
  end.

(** The saga after an operation, failed or not, and after several. *)
Definition saga_after (saga : ProvisioningSaga) (op : SagaOp) : ProvisioningSaga :=
  match saga_op op saga with Ok saga' => saga' | Err _ => saga end.
Definition saga_run (saga : ProvisioningSaga) (ops : list SagaOp) : ProvisioningSaga :=
  fold_left saga_after ops saga.

(** The state alone follows this table. *)
Definition next_state (s : ProvisioningState) (op : SagaOp) : ProvisioningState :=
  match s, op with
  | Requested, Start => Preflight
  | (Preflight | Verifying), RequireHuman _ _ => WaitingHuman
  | WaitingHuman, HumanResume => Verifying
  | Verifying, Complete => Connected
  | (Connected | Cancelled), _ => s
  | _, Cancel => Cancelled
  | _, _ => s
  end.

Lemma saga_after_state saga op : sa_state (saga_after saga op) = next_state (sa_state saga) op.
Proof. destruct saga as [? ? ? [] ?], op; reflexivity. Qed.

Lemma saga_run_app saga ops ops' : saga_run saga (ops ++ ops') = saga_run (saga_run saga ops) ops'.
Proof. apply fold_left_app. Qed.

(** The checkpoint is there exactly while a human is waited for. *)
Definition checkpoint_ok (saga : ProvisioningSaga) : Prop :=
  is_Some (sa_checkpoint saga) <-> sa_state saga = WaitingHuman.

Lemma saga_after_checkpoint saga op : checkpoint_ok saga -> checkpoint_ok (saga_after saga op).
Proof.
  unfold checkpoint_ok. destruct saga as [? ? ? s [c|]]; simpl; intros [H1 H2].
  - assert (s = WaitingHuman) as -> by (apply H1; by eexists).
    destruct op; simpl; split; intros; by eauto.
  - assert (s <> WaitingHuman) as Hs by (intros E; by destruct (H2 E)).
    destruct s, op; simpl; split; intros; by eauto.
Qed.

Lemma saga_run_checkpoint saga ops : checkpoint_ok saga -> checkpoint_ok (saga_run saga ops).
Proof.
  revert saga. induction ops as [|op ops IH]; intros saga Hs; [done|]. by apply IH, saga_after_checkpoint.
Qed.

(** While no human resumes, a waiting saga waits or is cancelled, and a saga
    that has not got past its checkpoint does not get past it. *)
Definition before_human (s : ProvisioningState) : Prop := s <> Verifying /\ s <> Connected.

Lemma before_human_run saga ops :
  HumanResume ∉ ops -> before_human (sa_state saga) -> before_human (sa_state (saga_run saga ops)).
Proof.
  revert saga. induction ops as [|op ops IH]; intros saga Hn Hb; [done|].
  apply not_elem_of_cons in Hn as [Hop Hn]. apply IH; [done|]. rewrite saga_after_state.
  unfold before_human in *. destruct (sa_state saga), op; simpl; naive_solver.
Qed.

Lemma waiting_run saga ops :
  HumanResume ∉ ops -> sa_state saga = WaitingHuman ->
  sa_state (saga_run saga ops) = WaitingHuman \/ sa_state (saga_run saga ops) = Cancelled.
Proof.
  intros Hn Hw. assert (sa_state saga = WaitingHuman \/ sa_state saga = Cancelled) as Hs by by left.
  clear Hw. revert saga Hs. induction ops as [|op ops IH]; intros saga Hs; [done|].
  apply not_elem_of_cons in Hn as [Hop Hn]. apply IH; [done|]. rewrite saga_after_state.
  destruct Hs as [-> | ->], op; simpl; naive_solver.
Qed.

Lemma final_run saga ops :
  sa_state saga = Connected \/ sa_state saga = Cancelled ->
  sa_state (saga_run saga ops) = sa_state saga.
Proof.
  revert saga. induction ops as [|op ops IH]; intros saga Hs; [done|]. simpl.
  assert (sa_state (saga_after saga op) = sa_state saga) as E.
  { rewrite saga_after_state. by destruct Hs as [-> | ->]. }
  change (sa_state (saga_run (saga_after saga op) ops) = sa_state saga).
  rewrite IH; [done|]. by rewrite E.
Qed.

(** C32. No account is connected without a human: in every history of a
    requested saga that ends connected, a human resumed it after the last
    checkpoint it stopped at; a checkpoint is shown exactly while the saga
    waits for a human; and a connected or cancelled saga stays so. *)
Theorem no_account_without_a_human digest key provider purpose ops :
  let saga := requested digest key provider purpose in
  (sa_state (saga_run saga ops) = Connected ->
     HumanResume ∈ ops /\
     forall ops1 ops2, ops = ops1 ++ ops2 -> sa_state (saga_run saga ops1) = WaitingHuman ->
       HumanResume ∈ ops2) /\
  (is_Some (sa_checkpoint (saga_run saga ops)) <-> sa_state (saga_run saga ops) = WaitingHuman) /\
  (forall more, sa_state (saga_run saga ops) = Connected \/ sa_state (saga_run saga ops) = Cancelled ->
     sa_state (saga_run saga (ops ++ more)) = sa_state (saga_run saga ops)).
Proof.
  intros saga. split; [|split].
  - intros Hc. split.
    + destruct (decide (HumanResume ∈ ops)) as [?|Hn]; [done|exfalso].
      destruct (before_human_run saga ops Hn) as [_ Hb]; [by split|done].
    + intros ops1 ops2 -> Hw. destruct (decide (HumanResume ∈ ops2)) as [?|Hn]; [done|exfalso].
      rewrite saga_run_app in Hc. destruct (waiting_run _ _ Hn Hw) as [E|E]; congruence.
  - apply saga_run_checkpoint. split; [by intros [? ?]|done].
  - intros more Hf. rewrite saga_run_app. by apply final_run.
Qed.
