(* ===== verification/Floats.v ===== *)
(** The floating-point arithmetic of the memory plugin: Rust's [f32] and [f64].

    A number is a [spec_float] of the Standard Library, an operation the IEEE
    754 one in the precision of its type, rounding to nearest, ties to even.
    All NaNs are one value.  What is proved of a rounding is a bound: the
    nearest number to one that is at most 1 is at most 1 ([rounds_below_one]),
    and no rounding of a positive number is negative or a NaN. *)
From Stdlib Require Import SpecFloat.
From S2P Require Import Prelude.

Notation float := spec_float.

(** ** Numbers *)
Definition is_nan (x : float) : bool := match x with S754_nan => true | _ => false end.
(** [f32::is_finite]. *)
Definition is_finite (x : float) : bool :=
  match x with S754_zero _ | S754_finite _ _ _ => true | _ => false end.

Definition flt (x y : float) : bool := SFltb x y.
Definition fle (x y : float) : bool := SFleb x y.
(** [partial_cmp(..).unwrap_or(Equal)]. *)
Definition fcmp (x y : float) : comparison := default Eq (SFcompare x y).
(** [f32::min], [f32::max] (the other argument for a NaN) and [f32::clamp]. *)
Definition fmin (x y : float) : float :=
  if is_nan x then y else if flt y x then y else x.
Definition fmax (x y : float) : float :=
  if is_nan x then y else if flt x y then y else x.
Definition clamp (x lo hi : float) : float :=
  let y := if flt x lo then lo else x in if flt hi y then hi else y.

Definition fzero : float := S754_zero false.

(** *** [f32] *)
Module F32.
Definition is_f32 (x : float) : bool := valid_binary 24 128 x.
Definition add (x y : float) : float := SFadd 24 128 x y.
Definition sub (x y : float) : float := SFsub 24 128 x y.
Definition mul (x y : float) : float := SFmul 24 128 x y.
Definition div (x y : float) : float := SFdiv 24 128 x y.
(** [n as f32]. *)
Definition of_Z (n : Z) : float := binary_normalize 24 128 n 0 false.
(** A decimal literal of the source: [n / d] to the nearest. *)
Definition lit (n d : Z) : float := div (of_Z n) (of_Z d).
Definition one : float := of_Z 1.
(** [x as f32] of an [f64]. *)
Definition of_f64 (x : float) : float :=
  match x with S754_finite s m e => binary_round 24 128 s m e | x => x end.
End F32.

(** *** [f64] *)
Module F64.
Definition add (x y : float) : float := SFadd 53 1024 x y.
Definition mul (x y : float) : float := SFmul 53 1024 x y.
Definition div (x y : float) : float := SFdiv 53 1024 x y.
Definition opp (x : float) : float := SFopp x.
(** [n as f64]. *)
Definition of_Z (n : Z) : float := binary_normalize 53 1024 n 0 false.
Definition lit (n d : Z) : float := div (of_Z n) (of_Z d).
(** [f64::from(x)]: exact, and so a number of the longer mantissa. *)
Definition of_f32 (x : float) : float :=
  match x with S754_finite s m e => binary_round 53 1024 s m e | x => x end.
End F64.

Example lit_tenth : F32.lit 1 10 = S754_finite false 13421773 (-27).
Proof. vm_compute. reflexivity. Qed.

(** ** Comparison *)
Lemma pos_compare_antisym p q : Pos.compare_cont Eq q p = CompOpp (Pos.compare_cont Eq p q).
Proof. apply (Pos.compare_antisym p q). Qed.

Lemma SFcompare_antisym x y : SFcompare y x = CompOpp <$> SFcompare x y.
Proof.
  destruct x as [sx|sx| |sx mx ex], y as [sy|sy| |sy my ey]; try destruct sx; try destruct sy; try done;
    cbn [SFcompare fmap option_fmap option_map]; rewrite (Z.compare_antisym ex ey);
    destruct (ex ?= ey)%Z; simpl; try done; by rewrite pos_compare_antisym, ?CompOpp_involutive.
Qed.
Lemma SFcompare_nan x y : SFcompare x y = None <-> is_nan x = true \/ is_nan y = true.
Proof. destruct x as [[]|[]| |[] mx ex], y as [[]|[]| |[] my ey]; simpl; split; intros H; (by auto) || (by destruct H). Qed.

Lemma fle_not_flt x y : fle x y = true -> flt y x = false.
Proof. unfold fle, flt, SFleb, SFltb. rewrite (SFcompare_antisym x y). by destruct (SFcompare x y) as [[]|]. Qed.
Lemma fcmp_antisym x y : fcmp y x = CompOpp (fcmp x y).
Proof. unfold fcmp. rewrite (SFcompare_antisym x y). by destruct (SFcompare x y) as [[]|]. Qed.

(** Two numbers in the order of their values: by sign, exponent and mantissa. *)
Definition frank (x : float) : option (Z * Z * Z) :=
  match x with
  | S754_nan => None
  | S754_infinity true => Some (-2, 0, 0)%Z
  | S754_finite true m e => Some (-1, - e, Z.neg m)%Z
  | S754_zero _ => Some (0, 0, 0)%Z
  | S754_finite false m e => Some (1, e, Z.pos m)%Z
  | S754_infinity false => Some (2, 0, 0)%Z
  end.
Definition lex_cmp (a b : Z * Z * Z) : comparison :=
  let '(a1, a2, a3) := a in let '(b1, b2, b3) := b in
  match (a1 ?= b1)%Z with Eq => match (a2 ?= b2)%Z with Eq => (a3 ?= b3)%Z | c => c end | c => c end.

Lemma SFcompare_rank x y : SFcompare x y = (a ← frank x; b ← frank y; Some (lex_cmp a b)).
Proof.
  destruct x as [[]|[]| |[] mx ex], y as [[]|[]| |[] my ey]; try done;
    cbn [frank mbind option_bind]; unfold lex_cmp; cbn [Z.compare Pos.compare Pos.compare_cont CompOpp].
  rewrite Z.compare_opp, (Z.compare_antisym ex ey). cbn [SFcompare].
  by destruct (ex ?= ey)%Z.
Qed.

Lemma lex_le_trans a b c : lex_cmp a b <> Gt -> lex_cmp b c <> Gt -> lex_cmp a c <> Gt.
Proof.
  destruct a as [[a1 a2] a3], b as [[b1 b2] b3], c as [[c1 c2] c3]. unfold lex_cmp.
  destruct (Z.compare_spec a1 b1), (Z.compare_spec b1 c1), (Z.compare_spec a1 c1); try lia; try done;
  destruct (Z.compare_spec a2 b2), (Z.compare_spec b2 c2), (Z.compare_spec a2 c2); try lia; try done;
  destruct (Z.compare_spec a3 b3), (Z.compare_spec b3 c3), (Z.compare_spec a3 c3); try lia; done.
Qed.

Lemma fcmp_le_trans x y z :
  is_nan y = false -> fcmp x y <> Gt -> fcmp y z <> Gt -> fcmp x z <> Gt.
Proof.
  unfold fcmp. rewrite !SFcompare_rank. intros Hy.
  destruct (frank y) as [b|] eqn:Ey; [|by destruct y as [[]|[]| |[]]].
  destruct (frank x), (frank z); simpl; try done. apply lex_le_trans.
Qed.

(** ** The unit interval

    [unit_value x]: [x] is a finite number between 0 and 1, and its mantissa
    is one of 24 bits.  A valid [f32] that the code's test accepts is. *)
Definition unit_value (x : float) : Prop :=
  match x with
  | S754_zero _ => True
  | S754_finite false m e => (e <= 0 /\ Zpos m <= 2 ^ (- e) /\ Zpos m < 2 ^ 24)%Z
  | _ => False
  end.

(** ** Shifting to the right *)
Section Shift.
Implicit Types r : shr_record.
Open Scope Z_scope.

Definition inexact r : bool := shr_r r || shr_s r.

Lemma shr_1_halves r : 0 <= shr_m r -> shr_m (shr_1 r) = shr_m r / 2.
Proof.
  destruct r as [[|[p|p|]|p] a b]; simpl; intros H; try done.
  - by rewrite Pos2Z.inj_xI, Z.mul_comm, Z.div_add_l by done.
  - by rewrite Pos2Z.inj_xO, Z.mul_comm, Z.div_mul by done.
Qed.
Lemma shr_1_inexact r :
  0 <= shr_m r -> inexact (shr_1 r) = true -> inexact r = true \/ 2 * shr_m (shr_1 r) < shr_m r.
Proof.
  unfold inexact. destruct r as [[|[p|p|]|p] a b]; simpl; intros H; try done; destruct a, b; simpl; auto; lia.
Qed.

Lemma iter_pos_iter {A} (f : A -> A) n x : SpecFloat.iter_pos f n x = Nat.iter (Pos.to_nat n) f x.
Proof.
  revert x. induction n as [n IH|n IH|]; intros x; [| |done].
  - cbn [SpecFloat.iter_pos]. rewrite !IH, Pos2Nat.inj_xI. replace (S (2 * Pos.to_nat n))%nat with
      (Pos.to_nat n + (Pos.to_nat n + 1))%nat by lia. by rewrite !Nat.iter_add.
  - cbn [SpecFloat.iter_pos]. rewrite !IH, Pos2Nat.inj_xO. replace (2 * Pos.to_nat n)%nat with
      (Pos.to_nat n + Pos.to_nat n)%nat by lia. by rewrite !Nat.iter_add.
Qed.

Lemma iter_shr n r :
  0 <= shr_m r ->
  let r' := Nat.iter n shr_1 r in
  shr_m r' = shr_m r / 2 ^ Z.of_nat n /\
  (inexact r' = true -> inexact r = true \/ 2 ^ Z.of_nat n * shr_m r' < shr_m r).
Proof.
  intros H. induction n as [|n [IH1 IH2]]; cbv zeta in *.
  - split; [by rewrite Z.div_1_r|by left].
  - change (Nat.iter (S n) shr_1 r) with (shr_1 (Nat.iter n shr_1 r)).
    set (q := Nat.iter n shr_1 r) in *.
    assert (0 < 2 ^ Z.of_nat n) as Hp by (apply Z.pow_pos_nonneg; lia).
    assert (0 <= shr_m q) as Hq by (rewrite IH1; by apply Z.div_pos).
    rewrite Nat2Z.inj_succ, Z.pow_succ_r by lia. split.
    + rewrite shr_1_halves by done. rewrite IH1, Z.div_div by lia. f_equal. lia.
    + intros [Hi|Hi]%shr_1_inexact; [|right|done].
      * destruct (IH2 Hi) as [?|Hs]; [by left|right]. rewrite shr_1_halves by done.
        pose proof (Z.mul_div_le (shr_m q) 2 ltac:(lia)).
        nia.
      * assert (2 ^ Z.of_nat n * shr_m q <= shr_m r) by (rewrite IH1; apply Z.mul_div_le; lia).
        nia.
Qed.

Lemma digits2_pos_size m : digits2_pos m = Pos.size m.
Proof. induction m; simpl; congruence. Qed.
Lemma digits_lt n : 0 <= n -> n < 2 ^ Zdigits2 n.
Proof.
  destruct n as [|p|p]; simpl; [done| |lia]. intros _. rewrite digits2_pos_size.
  change (2 ^ Zpos (Pos.size p)) with (Z.pow 2 (Zpos (Pos.size p))). rewrite <- Pos2Z.inj_pow.
  apply Pos.size_gt.
Qed.
Lemma digits_le n : 0 < n -> 2 ^ (Zdigits2 n - 1) <= n.
Proof.
  destruct n as [|p|p]; simpl; [done| |lia]. intros _. rewrite digits2_pos_size.
  pose proof (Pos.size_le p) as H. assert (Zpos (2 ^ Pos.size p) <= 2 * Zpos p) as H' by exact H.
  rewrite Pos2Z.inj_pow in H'.
  replace (Zpos (Pos.size p)) with (Z.succ (Zpos (Pos.size p) - 1)) in H' by lia.
  rewrite Z.pow_succ_r in H' by lia. lia.
Qed.
End Shift.

Lemma pos_iter_xO m n : (Zpos (Pos.iter xO m n) = Zpos m * 2 ^ Zpos n)%Z.
Proof.
  induction n as [|n IH] using Pos.peano_ind; [simpl; lia|].
  rewrite Pos.iter_succ, Pos2Z.inj_succ, Z.pow_succ_r by lia.
  change (Zpos (Pos.iter xO m n)~0) with (2 * Zpos (Pos.iter xO m n))%Z. rewrite IH. lia.
Qed.

(** ** Rounding *)
Section Rounding.
Context (prec emax : Z).
Open Scope Z_scope.

Lemma shr_fexp_spec m e l r e' :
  0 <= m -> shr_fexp prec emax m e l = (r, e') ->
  let k := Z.max 0 (fexp prec emax (Zdigits2 m + e) - e) in
  e' = e + k /\ shr_m r = m / 2 ^ k /\
  (inexact r = true -> l <> loc_Exact \/ 2 ^ k * shr_m r < m).
Proof.
  intros Hm H. unfold shr_fexp, shr in H.
  assert (forall l, shr_m (shr_record_of_loc m l) = m) as Hs by (by intros [|[]]).
  assert (inexact (shr_record_of_loc m l) = true -> l <> loc_Exact) as Hi by (by destruct l).
  destruct (fexp prec emax (Zdigits2 m + e) - e) as [|n|n] eqn:E; injection H as <- <-; cbv zeta.
  - rewrite Z.max_id, Z.div_1_r, Hs. split_and!; [lia|done|]. intros ?. left. by apply Hi.
  - rewrite Z.max_r, iter_pos_iter by lia.
    destruct (iter_shr (Pos.to_nat n) (shr_record_of_loc m l)) as [H1 H2]; [by rewrite Hs|].
    rewrite positive_nat_Z, Hs in H1, H2. split_and!; [done|done|].
    intros [?|?]%H2; [left; by apply Hi|by right].
  - rewrite Z.max_l, Z.div_1_r, Hs by lia. split_and!; [lia|done|]. intros ?. left. by apply Hi.
Qed.

Lemma loc_exact r : loc_of_shr_record r = loc_Exact <-> inexact r = false.
Proof. by destruct r as [m [] []]. Qed.

Lemma round_nearest_even_le m l :
  m <= round_nearest_even m l <= m + 1 /\ (l = loc_Exact -> round_nearest_even m l = m).
Proof. destruct l as [|[]]; simpl; repeat case_match; split; intros; try lia; done. Qed.

(** A rounding of a number that is not negative is not negative and no NaN. *)
Definition nonneg (x : float) : Prop :=
  match x with
  | S754_zero _ | S754_infinity false | S754_finite false _ _ => True
  | _ => False
  end.

Lemma round_aux_nonneg m e l : 0 <= m -> nonneg (binary_round_aux prec emax false m e l).
Proof.
  intros Hm. unfold binary_round_aux.
  destruct (shr_fexp prec emax m e l) as [r e'] eqn:E1.
  apply shr_fexp_spec in E1 as (_ & E1 & _); [|done].
  assert (0 <= shr_m r) as H1 by (rewrite E1; apply Z.div_pos; [done|apply Z.pow_pos_nonneg; lia]).
  destruct (shr_fexp prec emax (round_nearest_even _ _) e' loc_Exact) as [r2 e2] eqn:E2.
  pose proof (round_nearest_even_le (shr_m r) (loc_of_shr_record r)) as [H2 _].
  apply shr_fexp_spec in E2 as (_ & E2 & _); [|lia].
  assert (0 <= shr_m r2) as H3 by (rewrite E2; apply Z.div_pos; [lia|apply Z.pow_pos_nonneg; lia]).
  destruct (shr_m r2) as [|p|p]; simpl; [done|by case_match|lia].
Qed.
Lemma round_nonneg m e : nonneg (binary_round prec emax false m e).
Proof. unfold binary_round. destruct (shl_align _ _ _). by apply round_aux_nonneg. Qed.

(** What is left of a mantissa fits into [prec] bits. *)
Lemma shift_fits m e :
  0 <= m -> 0 <= prec -> m / 2 ^ Z.max 0 (fexp prec emax (Zdigits2 m + e) - e) < 2 ^ prec.
Proof.
  intros Hm Hp. set (d := Zdigits2 m). set (f := fexp prec emax (d + e)).
  assert (d - prec <= f - e) as Hf by (unfold f, fexp; lia).
  apply Z.div_lt_upper_bound; [apply Z.pow_pos_nonneg; lia|]. rewrite <- Z.pow_add_r by lia.
  eapply Z.lt_le_trans; [by apply digits_lt|]. apply Z.pow_le_mono_r; fold d; lia.
Qed.

Lemma round_aux_fits m e l s' m' e' :
  0 <= m -> 0 <= prec -> binary_round_aux prec emax false m e l = S754_finite s' m' e' -> Zpos m' < 2 ^ prec.
Proof.
  intros Hm Hp. unfold binary_round_aux.
  destruct (shr_fexp prec emax m e l) as [r e1] eqn:E1.
  apply shr_fexp_spec in E1 as (_ & E1 & _); [|done].
  assert (0 <= shr_m r) as H1 by (rewrite E1; apply Z.div_pos; [done|apply Z.pow_pos_nonneg; lia]).
  destruct (shr_fexp prec emax (round_nearest_even _ _) e1 loc_Exact) as [r2 e2] eqn:E2.
  pose proof (round_nearest_even_le (shr_m r) (loc_of_shr_record r)) as [H2 _].
  apply shr_fexp_spec in E2 as (_ & E2 & _); [|lia].
  destruct (shr_m r2) as [|p|p]; [done| |done]. case_match; [|done]. intros [= <- <- <-].
  rewrite E2. apply shift_fits; lia.
Qed.

(** A rounding of at most 1 is at most 1, with a mantissa of [prec] bits. *)
Context (Hprec : 1 < prec) (Hemax : 3 - emax - prec <= - prec) (Hmax : prec <= emax).

Lemma shift_bounds m e :
  0 <= m -> e <= 0 -> m <= 2 ^ (- e) ->
  let k := Z.max 0 (fexp prec emax (Zdigits2 m + e) - e) in
  e + k <= 0 /\ m <= 2 ^ k * 2 ^ (- (e + k)) /\ m / 2 ^ k < 2 ^ prec.
Proof.
  intros Hm He Hle. cbv zeta.
  assert (Zdigits2 m + e <= 1) as Hd.
  { destruct (Z.eq_dec m 0) as [->|]; [simpl; lia|].
    assert (Zdigits2 m - 1 <= - e); [|lia]. apply (Z.pow_le_mono_r_iff 2); [lia|lia|].
    etrans; [apply digits_le; lia|done]. }
  assert (fexp prec emax (Zdigits2 m + e) <= 0) as Hf by (unfold fexp, emin; lia).
  split_and!.
  - lia.
  - destruct (Z.max_spec 0 (fexp prec emax (Zdigits2 m + e) - e)) as [[? E]|[? E]]; rewrite E; clear E.
    + rewrite <- Z.pow_add_r by lia. etrans; [exact Hle|]. apply Z.pow_le_mono_r; lia.
    + rewrite Z.add_0_r. lia.
  - apply shift_fits; lia.
Qed.

Lemma round_aux_below_one m e :
  0 <= m -> e <= 0 -> m <= 2 ^ (- e) ->
  match binary_round_aux prec emax false m e loc_Exact with
  | S754_zero _ => True
  | S754_finite false m' e' => e' <= 0 /\ Zpos m' <= 2 ^ (- e') /\ Zpos m' < 2 ^ prec
  | _ => False
  end.
Proof.
  intros Hm He Hle. unfold binary_round_aux.
  destruct (shr_fexp prec emax m e loc_Exact) as [r e'] eqn:E1.
  apply shr_fexp_spec in E1 as (-> & E1 & Hi); [|done].
  destruct (shift_bounds m e Hm He Hle) as (He1 & Hle1 & Hb1).
  set (k := Z.max 0 (fexp prec emax (Zdigits2 m + e) - e)) in *.
  assert (0 < 2 ^ k) as Hk by (apply Z.pow_pos_nonneg; lia).
  assert (0 <= shr_m r) as H1 by (rewrite E1; apply Z.div_pos; lia).
  assert (shr_m r <= 2 ^ (- (e + k))) as Hr by (rewrite E1; apply Z.div_le_upper_bound; lia).
  set (m2 := round_nearest_even _ _).
  assert (0 <= m2 /\ m2 <= 2 ^ (- (e + k))) as [H2 Hm2].
  { pose proof (round_nearest_even_le (shr_m r) (loc_of_shr_record r)) as [H Hex]. fold m2 in H, Hex.
    split; [lia|]. destruct (inexact r) eqn:Ei.
    - destruct (Hi eq_refl) as [?|Hlt]; [done|]. assert (shr_m r < 2 ^ (- (e + k))); [|lia].
      apply (Z.mul_lt_mono_pos_l (2 ^ k)); lia.
    - apply loc_exact in Ei. rewrite Hex by done. done. }
  destruct (shr_fexp prec emax m2 (e + k) loc_Exact) as [r2 e2] eqn:E2.
  apply shr_fexp_spec in E2 as (-> & E2 & _); [|done].
  destruct (shift_bounds m2 (e + k) H2 He1 Hm2) as (He2 & Hle2 & Hb2).
  set (k2 := Z.max 0 (fexp prec emax (Zdigits2 m2 + (e + k)) - (e + k))) in *.
  assert (0 < 2 ^ k2) as Hk2 by (apply Z.pow_pos_nonneg; lia).
  assert (0 <= shr_m r2) as H3 by (rewrite E2; apply Z.div_pos; lia).
  destruct (shr_m r2) as [|p|p]; [done| |lia].
  destruct (Z.leb_spec (e + k + k2) (emax - prec)); [|lia].
  split_and!; [lia|rewrite E2; apply Z.div_le_upper_bound; lia|by rewrite E2].
Qed.
Lemma round_below_one m e :
  e <= 0 -> Zpos m <= 2 ^ (- e) ->
  match binary_round prec emax false m e with
  | S754_zero _ => True
  | S754_finite false m' e' => e' <= 0 /\ Zpos m' <= 2 ^ (- e') /\ Zpos m' < 2 ^ prec
  | _ => False
  end.
Proof.
  intros He Hm. unfold binary_round, shl_align.
  destruct (fexp prec emax (Zpos (digits2_pos m) + e) - e) as [|n|n] eqn:E;
    [by apply round_aux_below_one..|].
  replace (fexp prec emax (Zpos (digits2_pos m) + e)) with (e - Zpos n) by lia.
  apply round_aux_below_one; [lia|lia|].
  rewrite pos_iter_xO. replace (- (e - Zpos n)) with (- e + Zpos n) by lia.
  rewrite Z.pow_add_r by lia. apply Z.mul_le_mono_nonneg_r; [|done]. apply Z.pow_nonneg. lia.
Qed.
End Rounding.

Lemma round_unit m e :
  (e <= 0 -> Zpos m <= 2 ^ (- e) -> unit_value (binary_round 24 128 false m e))%Z.
Proof.
  intros He Hm. pose proof (round_below_one 24 128 ltac:(lia) ltac:(lia) ltac:(lia) m e He Hm) as H.
  by destruct (binary_round _ _ _ _ _) as [| | |[] m' e'].
Qed.

Definition fits (x : float) : Prop :=
  match x with S754_finite _ m _ => (Zpos m < 2 ^ 24)%Z | _ => True end.

Lemma unit_value_nonneg x : unit_value x -> nonneg x /\ fits x.
Proof. destruct x as [| | |[] m e]; simpl; [done..|]. by intros (_ & _ & ?). Qed.
Lemma unit_value_zero : unit_value fzero.
Proof. done. Qed.
Lemma unit_value_one : unit_value F32.one.
Proof. vm_compute. split_and!; congruence. Qed.

Lemma one_eq : F32.one = S754_finite false 8388608 (-23).
Proof. vm_compute. reflexivity. Qed.

(** What the code's test accepts of an [f32]. *)
Lemma f32_fits x : F32.is_f32 x = true -> fits x.
Proof.
  destruct x as [s|s| |s m e]; try done. intros H. apply andb_true_iff in H as [Hc _].
  apply Z.eqb_eq in Hc. pose proof (digits_lt (Zpos m) ltac:(lia)) as Hd. unfold Zdigits2 in Hd.
  eapply Z.lt_le_trans; [exact Hd|]. apply Z.pow_le_mono_r; [lia|]. unfold fexp in Hc. lia.
Qed.

(** The numbers that are not above 1. *)
Lemma unit_value_le_one x : nonneg x -> fits x -> flt F32.one x = false -> unit_value x.
Proof.
  rewrite one_eq. destruct x as [s|[]| |[] m e]; try done. intros _ Hm.
  unfold flt, SFltb. cbn [SFcompare]. unfold unit_value.
  destruct (Z.compare_spec (-23) e) as [<-|He|He]; [|done|].
  - change (Pos.compare_cont Eq 8388608 m) with (8388608 ?= m)%positive.
    intros Hc. assert (~ (8388608 < m)%positive) as Hlt.
    { intros Hlt%Pos.compare_lt_iff. by rewrite Hlt in Hc. }
    assert (Zpos m <= 8388608)%Z by lia.
    split_and!; [lia|lia|exact Hm].
  - intros _. split_and!; [lia| |exact Hm].
    transitivity (2 ^ 24)%Z; [by apply Z.lt_le_incl|]. apply Z.pow_le_mono_r; lia.
Qed.
Lemma unit_value_accepted x :
  F32.is_f32 x = true -> is_finite x = true -> fle fzero x = true -> fle x F32.one = true -> unit_value x.
Proof.
  intros Hv Hf H0 H1. apply unit_value_le_one; [|by apply f32_fits|by apply fle_not_flt].
  by destruct x as [s|s| |[] m e].
Qed.
Lemma unit_value_min_one y : nonneg y -> fits y -> unit_value (fmin y F32.one).
Proof.
  intros Hn Hf. unfold fmin. destruct (is_nan y) eqn:E; [apply unit_value_one|].
  destruct (flt F32.one y) eqn:El; [apply unit_value_one|by apply unit_value_le_one].
Qed.

Lemma shl_align_value m e e' m' e2 :
  (e' <= e)%Z -> shl_align m e e' = (m', e2) -> e2 = e' /\ (Zpos m' = Zpos m * 2 ^ (e - e'))%Z.
Proof.
  intros He. unfold shl_align. destruct (e' - e)%Z as [|n|n] eqn:E; [|lia|]; intros [= <- <-].
  - split; [lia|]. replace (e - e')%Z with 0%Z by lia. lia.
  - split; [done|]. replace (e - e')%Z with (Zpos n) by lia. apply pos_iter_xO.
Qed.
Lemma round_fits m e s' m' e' :
  binary_round 24 128 false m e = S754_finite s' m' e' -> (Zpos m' < 2 ^ 24)%Z.
Proof. unfold binary_round. destruct (shl_align _ _ _). by apply round_aux_fits. Qed.

Lemma add_nonneg x c :
  unit_value x -> unit_value c -> nonneg (F32.add x c) /\ fits (F32.add x c).
Proof.
  destruct x as [[]| | |[] mx ex]; try done; destruct c as [[]| | |[] mc ec]; try done; intros Hx Hc;
    try (by split); try (by apply unit_value_nonneg).
  unfold F32.add, SFadd. cbv zeta. simpl.
  destruct (binary_round _ _ _ _ _) as [| | |s m e] eqn:E;
    pose proof (round_nonneg 24 128 (fst (shl_align mx ex (Z.min ex ec)) + fst (shl_align mc ec (Z.min ex ec)))
      (Z.min ex ec)) as Hn; rewrite E in Hn; (split; [done|]); try done.
  by eapply round_fits.
Qed.


Lemma round_neg_max m e : exists s, fmax (binary_round 24 128 true m e) fzero = S754_zero s.
Proof.
  unfold binary_round. destruct (shl_align _ _ _). unfold binary_round_aux.
  destruct (shr_fexp _ _ _ _ _). destruct (shr_fexp _ _ _ _ _).
  destruct (shr_m _); [by eexists| |by exists false]. by case_match; exists false.
Qed.

Lemma unit_value_sub_max x c : unit_value x -> unit_value c -> unit_value (fmax (F32.sub x c) fzero).
Proof.
  destruct x as [sx| | |[] mx ex]; try done; destruct c as [sc| | |[] mc ec]; try done; intros Hx Hc;
    try (by destruct sx, sc); try (by destruct sx).
  unfold F32.sub, SFsub. cbv zeta. unfold cond_Zopp.
  destruct (shl_align mx ex (Z.min ex ec)) as [mx' e1] eqn:E1.
  destruct (shl_align mc ec (Z.min ex ec)) as [mc' e2] eqn:E2.
  apply shl_align_value in E1 as [-> E1]; [|lia]. apply shl_align_value in E2 as [-> E2]; [|lia].
  cbn [fst]. destruct Hx as (Hx1 & Hx2 & _).
  destruct (Zpos mx' - Zpos mc')%Z as [|p|p] eqn:E; cbn [binary_normalize]; [done| |].
  - assert (unit_value (binary_round 24 128 false p (Z.min ex ec))) as H.
    { apply round_unit; [lia|]. transitivity (Zpos mx'); [lia|]. rewrite E1.
      replace (- Z.min ex ec)%Z with (- ex + (ex - Z.min ex ec))%Z by lia.
      rewrite Z.pow_add_r by lia. apply Z.mul_le_mono_nonneg_r; [apply Z.pow_nonneg; lia|lia]. }
    unfold fmax. repeat case_match; done.
  - by destruct (round_neg_max p (Z.min ex ec)) as [s ->].
Qed.

Lemma unit_value_min x c : unit_value x -> unit_value c -> unit_value (fmin x c).
Proof. intros. unfold fmin. by repeat case_match. Qed.
Lemma unit_value_add_min x c : unit_value x -> unit_value c -> unit_value (fmin (F32.add x c) F32.one).
Proof. intros ? ?. by apply unit_value_min_one; apply add_nonneg. Qed.

(** A product of two such numbers, as [f64]: not a NaN. *)
Lemma of_f32_unit x : unit_value x -> nonneg (F64.of_f32 x) /\ is_finite (F64.of_f32 x) = true.
Proof.
  destruct x as [| | |[] m e]; try done. intros (He & Hm & _). simpl.
  pose proof (round_below_one 53 1024 ltac:(lia) ltac:(lia) ltac:(lia) m e He Hm) as H.
  by destruct (binary_round _ _ _ _ _) as [| | |[]].
Qed.
Lemma mul_unit_not_nan x y :
  unit_value x -> unit_value y -> is_nan (F64.mul (F64.of_f32 x) (F64.of_f32 y)) = false.
Proof.
  intros [Hx Fx]%of_f32_unit [Hy Fy]%of_f32_unit.
  destruct (F64.of_f32 x) as [| | |[] mx ex], (F64.of_f32 y) as [| | |[] my ey]; try done.
  unfold F64.mul, SFmul. simpl xorb.
  pose proof (round_aux_nonneg 53 1024 (Zpos (mx * my)) (ex + ey) loc_Exact ltac:(lia)) as H.
  by destruct (binary_round_aux _ _ _ _ _ _).
Qed.
