(* ===== verification/Memories.v ===== *)
(** The data of the memory plugin ([plugins/memory/src/types.rs], [error.rs]),
    the texts of its database ([storage/sqlite_store.rs]), and what the crate
    calls and does not define.

    A time is a number of nanoseconds: the texts that the database keeps,
    [to_rfc3339] of UTC times, sort as the times do.  An identifier is the text
    of a UUID, which sorts as the UUID does. *)
From S2P Require Import Prelude Text Substring Threads Floats.

(** ** Enums *)
Inductive MemoryScope := Session | Workspace | User | Agent.
Inductive MemoryType := Fact | Preference | Decision | Procedure | Observation.
Inductive ProvenanceLevel := UserStated | AgentObserved | Consolidated | Imported | AgentInferred.
Inductive SensitivityLevel := Low | Medium | High | Critical.
Inductive MemoryState := Active | Dormant | Deleted.
Inductive ResolutionStatus := Unresolved | ResolvedByUser | ResolvedBySystem | Dismissed.
Inductive CorrectionDisposition := Applied | Archived | Merged | Contradicting.

#[export] Instance MemoryScope_eq : EqDecision MemoryScope.
Proof. solve_decision. Defined.
#[export] Instance MemoryType_eq : EqDecision MemoryType.
Proof. solve_decision. Defined.
#[export] Instance ProvenanceLevel_eq : EqDecision ProvenanceLevel.
Proof. solve_decision. Defined.
#[export] Instance SensitivityLevel_eq : EqDecision SensitivityLevel.
Proof. solve_decision. Defined.
#[export] Instance MemoryState_eq : EqDecision MemoryState.
Proof. solve_decision. Defined.
#[export] Instance ResolutionStatus_eq : EqDecision ResolutionStatus.
Proof. solve_decision. Defined.
#[export] Instance CorrectionDisposition_eq : EqDecision CorrectionDisposition.
Proof. solve_decision. Defined.

(** *** Scopes, from the narrowest to the broadest *)
Definition scope_rank (s : MemoryScope) : Z :=
  match s with Session => 0 | Workspace => 1 | User => 2 | Agent => 3 end.
Definition next_scope (s : MemoryScope) : option MemoryScope :=
  match s with
  | Session => Some Workspace | Workspace => Some User | User => Some Agent | Agent => None
  end.
Definition visible_scopes (s : MemoryScope) : list MemoryScope :=
  match s with
  | Session => [Session; Workspace; User; Agent]
  | Workspace => [Workspace; User; Agent]
  | User => [User; Agent]
  | Agent => [Agent]
  end.
Definition can_promote_to (s target : MemoryScope) : bool := (scope_rank s <? scope_rank target)%Z.

Lemma next_scope_rank s s' : next_scope s = Some s' -> scope_rank s' = (scope_rank s + 1)%Z.
Proof. by destruct s; intros [= <-]. Qed.
Lemma visible_scopes_spec s s' : s' ∈ visible_scopes s <-> (scope_rank s <= scope_rank s')%Z.
Proof. destruct s, s'; simpl; split; intros H; set_solver || lia. Qed.

(** *** Trust and sensitivity *)
Definition base_reliability (p : ProvenanceLevel) : float :=
  match p with
  | UserStated => F32.one
  | AgentObserved => F32.lit 8 10
  | Consolidated => F32.lit 7 10
  | Imported => F32.lit 6 10
  | AgentInferred => F32.lit 5 10
  end.
Definition sensitivity_ord (l : SensitivityLevel) : Z :=
  match l with Low => 0 | Medium => 1 | High => 2 | Critical => 3 end.

(** ** Texts of the database *)
Definition scope_to_db (s : MemoryScope) : string :=
  match s with Session => "session" | Workspace => "workspace" | User => "user" | Agent => "agent" end.
Definition memory_type_to_db (t : MemoryType) : string :=
  match t with
  | Fact => "fact" | Preference => "preference" | Decision => "decision"
  | Procedure => "procedure" | Observation => "observation"
  end.
Definition provenance_to_db (p : ProvenanceLevel) : string :=
  match p with
  | UserStated => "user_stated" | AgentObserved => "agent_observed" | Consolidated => "consolidated"
  | Imported => "imported" | AgentInferred => "agent_inferred"
  end.
Definition state_to_db (s : MemoryState) : string :=
  match s with Active => "active" | Dormant => "dormant" | Deleted => "deleted" end.

(** ** Records *)
Notation MemoryId := string (only parsing).

Record Memory := mkMemory {
  m_id : MemoryId; m_content : string; m_summary : option string; m_scope : MemoryScope;
  m_memory_type : MemoryType; m_provenance : ProvenanceLevel;
  m_importance_score : float; m_reliability_score : float;
  m_sensitivity : SensitivityLevel; m_state : MemoryState; m_tags : list string;
  m_status : option string; m_custom_metadata : gmap string string;
  m_access_count : Z; m_corroboration_count : Z; m_embedding_stale : bool;
  m_created_at : Z; m_updated_at : Z; m_last_accessed_at : option Z;
  m_tenant_id : option string; m_user_id : option string; m_agent_id : option string }.
#[export] Instance eta_Memory : Eta Memory := fun r =>
  mkMemory (m_id r) (m_content r) (m_summary r) (m_scope r) (m_memory_type r) (m_provenance r)
    (m_importance_score r) (m_reliability_score r) (m_sensitivity r) (m_state r) (m_tags r)
    (m_status r) (m_custom_metadata r) (m_access_count r) (m_corroboration_count r)
    (m_embedding_stale r) (m_created_at r) (m_updated_at r) (m_last_accessed_at r)
    (m_tenant_id r) (m_user_id r) (m_agent_id r).

Record MemoryCandidate := mkMemoryCandidate {
  mc_content : string; mc_summary : option string; mc_memory_type : MemoryType;
  mc_provenance : ProvenanceLevel; mc_importance_score : float; mc_sensitivity : SensitivityLevel;
  mc_tags : list string; mc_custom_metadata : gmap string string; mc_embedding : option (list float) }.

Record ScoredMemory := mkScoredMemory { sm_memory : Memory; sm_score : float; sm_similarity : float }.

Record ScopeConfig := mkScopeConfig {
  sc_decay_lambda_base : float; sc_similarity_weight : float; sc_recency_weight : float;
  sc_access_weight : float; sc_priority_weight : float; sc_memory_context_ratio : float;
  sc_response_reserve : Z; sc_salience_threshold : float; sc_novelty_doubt_threshold : float;
  sc_merge_similarity_threshold : float; sc_duplicate_similarity_threshold : float;
  sc_agent_inferred_importance_threshold : float }.
Definition default_scope_config : ScopeConfig :=
  mkScopeConfig (F32.lit 10 100) (F32.lit 4 10) (F32.lit 25 100) (F32.lit 5 100) (F32.lit 2 10)
    (F32.lit 10 100) 4096 (F32.lit 2 10) (F32.lit 80 100) (F32.lit 85 100) (F32.lit 99 100)
    (F32.lit 5 10).

Record MemoryVersion := mkMemoryVersion {
  mv_id : string; mv_memory_id : MemoryId; mv_version_number : Z; mv_content : string;
  mv_changed_by : string; mv_change_reason : string; mv_changed_at : Z }.
Record MemoryLink := mkMemoryLink {
  ml_id : string; ml_source_id : MemoryId; ml_target_id : MemoryId; ml_relation_type : string;
  ml_weight : float; ml_created_at : Z }.
Record ContradictionEntry := mkContradictionEntry {
  ce_id : string; ce_memory_a_id : MemoryId; ce_memory_b_id : MemoryId; ce_detected_at : Z;
  ce_description : string; ce_resolution_status : ResolutionStatus; ce_resolved_at : option Z;
  ce_resolution_note : option string }.
#[export] Instance eta_ContradictionEntry : Eta ContradictionEntry := fun r =>
  mkContradictionEntry (ce_id r) (ce_memory_a_id r) (ce_memory_b_id r) (ce_detected_at r)
    (ce_description r) (ce_resolution_status r) (ce_resolved_at r) (ce_resolution_note r).
Record CorrectionRecord := mkCorrectionRecord {
  cr_id : string; cr_memory_id : MemoryId; cr_previous_content : string;
  cr_corrected_content : string; cr_corrected_by : string; cr_reason : string;
  cr_disposition : CorrectionDisposition; cr_related_memory_id : option MemoryId;
  cr_corrected_at : Z }.
Record RetrievalFeedback := mkRetrievalFeedback {
  rf_id : string; rf_memory_id : MemoryId; rf_relevant : bool; rf_query_text : option string;
  rf_recorded_at : Z }.
Record PurgeReport := mkPurgeReport {
  pr_memories_deleted : Z; pr_versions_deleted : Z; pr_links_deleted : Z;
  pr_contradictions_deleted : Z; pr_embeddings_deleted : Z }.
Record GraphNode := mkGraphNode {
  gn_memory : Memory; gn_depth : Z; gn_incoming_links : list MemoryLink }.
Record GraphTraversalResult := mkGraphTraversalResult {
  gt_start_id : MemoryId; gt_max_depth : Z; gt_nodes : list GraphNode }.
Record ShareConfig := mkShareConfig {
  sh_max_sensitivity : SensitivityLevel; sh_min_reliability : float;
  sh_type_filter : option (list MemoryType); sh_tag_filter : option (list string) }.

(** A change of an optional field, and of a memory's metadata. *)
Inductive OptionalFieldUpdate (T : Type) := Set_ (value : T) | Clear.
Arguments Set_ {T}.
Arguments Clear {T}.
Record MetadataUpdate := mkMetadataUpdate {
  mu_tags : option (list string); mu_status : option (OptionalFieldUpdate string);
  mu_custom_metadata : option (gmap string string); mu_importance_score : option float;
  mu_reliability_score : option float; mu_state : option MemoryState }.
Record MemoryFilter := mkMemoryFilter {
  mf_scope : option MemoryScope; mf_state : option MemoryState;
  mf_memory_types : option (list MemoryType); mf_provenance_levels : option (list ProvenanceLevel);
  mf_tags : option (list string); mf_status : option string; mf_tenant_id : option string;
  mf_user_id : option string; mf_agent_id : option string; mf_limit : option nat }.

(** ** Errors *)
Inductive StoreError :=
| NotFound (id : MemoryId)
| Sqlite (message : string)
| Serialization (message : string)
| Migration (message : string)
| Validation (message : string).
Inductive EmbeddingError :=
| Provider (message : string)
| DimensionMismatch (expected actual : nat).

(** ** What the gate decides *)
Inductive GateDecision :=
| Accept (similar_to : option MemoryId) (similarity : option float)
| Archive
| Merge (target_id : MemoryId) (enriched_content : string) (promote_to : option MemoryScope)
| Contradiction (conflicting_id : MemoryId) (description : string)
| Reject (reason : string).
Inductive GateError :=
| GateStore (e : StoreError)
| GateEmbedding (e : EmbeddingError)
| InvalidCandidate (message : string).

(** ** What the crate does not define

    The Unicode tables behind [char] and [str::to_lowercase] (a character is
    the text of its bytes); the clock, UUIDs and SHA-256; serde's text of a list of strings;
    the parsing and printing of decimal fractions and [f64::exp]; SQLite's count of
    pages and the search of sqlite-vec (the rows of [vec_memories] nearest to
    a vector, with their distances); the embedding and language models. *)
Class MemoryHost := {
  is_alphanumeric : string -> bool;
  is_alphabetic : string -> bool;
  is_lowercase : string -> bool;
  is_uppercase : string -> bool;
  to_lowercase : string -> string;
  utc_now : nat -> Z;
  timestamp_text : Z -> string;
  new_uuid : nat -> string;
  uuid_parses : string -> bool;
  sha256_text : string -> string;
  sha256_prefix : string -> Z;
  json_text : list string -> string;
  parse_f32 : string -> option float;
  fixed6 : float -> string;
  exp64 : float -> float;
  pages : nat -> Z * Z * Z;
  vec_native : bool;
  vec_match : list (Z * bytes) -> bytes -> Z -> list (Z * option float);
  embedding_model : option (string * (nat -> string -> Result EmbeddingError (list float)));
  language_model : option (nat -> string -> option string)
}.

Section Characters.
Context `{MemoryHost}.

(** [str::chars]: the bytes of a text, a new character at every byte that
    does not continue one. *)
Definition continues_char (c : Ascii.ascii) : bool :=
  let n := Ascii.nat_of_ascii c in (128 <=? n)%nat && (n <? 192)%nat.
Fixpoint char_bytes (l : bytes) : list bytes :=
  match l with
  | [] => []
  | c :: l' =>
      match char_bytes l' with
      | (c' :: piece) :: pieces =>
          if continues_char c' then (c :: c' :: piece) :: pieces
          else [c] :: (c' :: piece) :: pieces
      | pieces => [c] :: pieces
      end
  end.
Definition chars (s : string) : list string := map of_bytes (char_bytes (to_bytes s)).
Definition text_of (cs : list string) : string := foldr String.append "" cs.

Definition is_ascii_digit (c : string) : bool :=
  match to_bytes c with [b] => is_digit b | _ => false end.
Definition is_ascii_alphabetic (c : string) : bool :=
  match to_bytes c with [b] => is_lower (ascii_lower b) | _ => false end.

Fixpoint join (sep : string) (l : list string) : string :=
  match l with [] => "" | [x] => x | x :: l' => x +:+ sep +:+ join sep l' end.

(** [normalize_for_merge] of [gate.rs], [normalize_shared_import_content] of the store. *)
Definition normalize_for_merge (content : string) : string :=
  to_lowercase (join " " (split_whitespace content)).
Definition normalize_shared_import_content (text : string) : string := normalize_for_merge text.

(** The parts of a compound word: a boundary before an upper-case letter that
    follows a lower-case one or starts a capitalized part, and between letters and digits. *)
Definition has_boundary (previous c : string) (next : option string) : bool :=
  (is_lowercase previous && is_uppercase c)
  || (is_uppercase previous && is_uppercase c
      && match next with Some n => is_lowercase n | None => false end)
  || (is_ascii_digit previous && is_alphabetic c)
  || (is_alphabetic previous && is_ascii_digit c).
Fixpoint compound_parts (previous : option string) (current : string) (cs : list string) : list string :=
  match cs with
  | [] => if decide (current = "") then [] else [current]
  | c :: cs' =>
      let boundary := match previous with Some p => has_boundary p c (head cs') | None => false end in
      if boundary && bool_decide (current <> "") then current :: compound_parts (Some c) c cs'
      else compound_parts (Some c) (current +:+ c) cs'
  end.
Definition split_compound_search_term (token : string) : list string :=
  match compound_parts None "" (chars token) with
  | (_ :: _ :: _) as parts => parts
  | _ => []
  end.
Definition split_compound_word (token : string) : option string :=
  match split_compound_search_term token with [] => None | parts => Some (join " " parts) end.

(** The maximal runs of letters, digits and underscores, empty ones included. *)
Fixpoint word_tokens (token : string) (cs : list string) : list string :=
  match cs with
  | [] => [token]
  | c :: cs' =>
      if is_alphanumeric c || bool_decide (c = "_") then word_tokens (token +:+ c) cs'
      else token :: word_tokens "" cs'
  end.

Definition collect_compound_word_expansion (expansions : list string) (token : string) : list string :=
  match split_compound_word token with
  | Some e => if decide (e ∈ expansions) then expansions else expansions ++ [e]
  | None => expansions
  end.
Definition expand_compound_words (text : string) : string :=
  fold_left (fun acc e => acc +:+ " " +:+ e)
    (fold_left collect_compound_word_expansion (word_tokens "" (chars text)) []) text.
End Characters.
