(* ===== verification/MemoryDb.v ===== *)
(** The database of the memory plugin ([plugins/memory/src/storage/schema.rs],
    and the helpers of [sqlite_store.rs]): its tables, a monad for the code that
    runs on one connection, and the rows that several operations read and write.

    Foreign keys are on: deleting a memory deletes the rows that refer to it,
    and a row that refers to no memory is not inserted.  [memories_fts] is an
    FTS5 index with external content: an entry is inserted and deleted by its
    values, and a rebuild reads the columns of [memories].  Deleting values
    that are not the entry's has no defined effect on the index; here it leaves
    it as it is. *)
From Stdlib Require Import Ascii.
From S2P Require Import Prelude Text Substring Table Threads Floats Memories.

Record FtsFields := mkFtsFields { fts_content : string; fts_summary : option string; fts_tags : string }.
#[export] Instance FtsFields_eq : EqDecision FtsFields.
Proof. solve_decision. Defined.

Record MemoryRow := mkMemoryRow { mr_rowid : Z; mr_memory : Memory }.
Record EmbeddingRow := mkEmbeddingRow {
  er_memory_id : MemoryId; er_vec_rowid : Z; er_content_sha256 : option string }.
Record PromotionRow := mkPromotionRow {
  po_id : string; po_memory_id : MemoryId; po_from_scope : MemoryScope; po_to_scope : MemoryScope;
  po_reason : string; po_trigger_session_id : option string; po_promoted_at : Z }.
Record SessionAccessRow := mkSessionAccessRow {
  sa_memory_id : MemoryId; sa_session_id : string; sa_first_accessed_at : Z; sa_last_accessed_at : Z }.
#[export] Instance eta_SessionAccessRow : Eta SessionAccessRow := fun r =>
  mkSessionAccessRow (sa_memory_id r) (sa_session_id r) (sa_first_accessed_at r) (sa_last_accessed_at r).

Record MemoryDb := mkMemoryDb {
  db_memories : list MemoryRow;
  db_fts : list (Z * FtsFields);
  db_embeddings : list EmbeddingRow;
  db_vectors : list (Z * bytes);
  db_links : list MemoryLink;
  db_versions : list MemoryVersion;
  db_promotions : list PromotionRow;
  db_accesses : list SessionAccessRow;
  db_contradictions : list ContradictionEntry;
  db_corrections : list CorrectionRecord;
  db_feedback : list RetrievalFeedback;
  db_config : list (string * string) }.
#[export] Instance eta_MemoryDb : Eta MemoryDb := fun r =>
  mkMemoryDb (db_memories r) (db_fts r) (db_embeddings r) (db_vectors r) (db_links r) (db_versions r)
    (db_promotions r) (db_accesses r) (db_contradictions r) (db_corrections r) (db_feedback r)
    (db_config r).

(** The database, and how many times the clock, the source of UUIDs and the
    models have been asked. *)
Record MemoryWorld := mkMemoryWorld {
  mw_db : MemoryDb; mw_clock : nat; mw_uuids : nat; mw_calls : nat }.
#[export] Instance eta_MemoryWorld : Eta MemoryWorld := fun r =>
  mkMemoryWorld (mw_db r) (mw_clock r) (mw_uuids r) (mw_calls r).

(** ** Code on a connection

    A statement that fails changes nothing; what was executed before stays,
    unless it belongs to a [transaction], which is rolled back. *)
Definition Conn (A : Type) := MemoryWorld -> Result StoreError A * MemoryWorld.
#[export] Instance Conn_ret : MRet Conn := fun A a w => (Ok a, w).
#[export] Instance Conn_bind : MBind Conn := fun A B k m w =>
  match m w with (Ok a, w') => k a w' | (Err e, w') => (Err e, w') end.

Definition raise {A} (e : StoreError) : Conn A := fun w => (Err e, w).
Definition query {A} (f : MemoryDb -> A) : Conn A := fun w => (Ok (f (mw_db w)), w).
Definition execute (f : MemoryDb -> MemoryDb) : Conn unit := fun w => (Ok tt, w <| mw_db ::= f |>).
Definition lift {A} (r : Result StoreError A) : Conn A := fun w => (r, w).
Definition some_or_raise {A} (o : option A) (e : StoreError) : Conn A :=
  match o with Some a => mret a | None => raise e end.
Definition check (b : bool) (e : StoreError) : Conn unit := if b then mret tt else raise e.
Fixpoint for_rows {A} (l : list A) (f : A -> Conn unit) : Conn unit :=
  match l with [] => mret tt | x :: l' => _ ← f x; for_rows l' f end.

Definition transaction {A} (m : Conn A) : Conn A := fun w =>
  match m w with
  | (Ok a, w') => (Ok a, w')
  | (Err e, w') => (Err e, w' <| mw_db := mw_db w |>)
  end.

(** ** Rows *)
Section Rows.
Context `{MemoryHost}.

Definition now : Conn Z := fun w => (Ok (utc_now (mw_clock w)), w <| mw_clock ::= S |>).
Definition fresh_uuid : Conn string := fun w => (Ok (new_uuid (mw_uuids w)), w <| mw_uuids ::= S |>).

Definition row_id (r : MemoryRow) : MemoryId := m_id (mr_memory r).
Definition find_row (db : MemoryDb) (id : MemoryId) : option MemoryRow :=
  find_by row_id id (db_memories db).
Definition find_memory (db : MemoryDb) (id : MemoryId) : option Memory :=
  mr_memory <$> find_row db id.

Definition require_memory (id : MemoryId) : Conn (option Memory) := query (fun db => find_memory db id).
Definition require_memory_or_not_found (id : MemoryId) : Conn Memory :=
  m ← require_memory id; some_or_raise m (NotFound id).
Definition require_memory_rowid (id : MemoryId) : Conn Z :=
  r ← query (fun db => mr_rowid <$> find_row db id); some_or_raise r (NotFound id).

(** [persist_memory]: every column of the row with the memory's id. *)
Definition set_memory (m : Memory) (r : MemoryRow) : MemoryRow := mkMemoryRow (mr_rowid r) m.
Definition persist_memory (m : Memory) : Conn unit :=
  execute (fun db => db <| db_memories ::=
    update_where (fun r => bool_decide (row_id r = m_id m)) (set_memory m) |>).
(** An [UPDATE] of some columns. *)
Definition update_memory (id : MemoryId) (f : Memory -> Memory) : Conn unit :=
  execute (fun db => db <| db_memories ::=
    update_where (fun r => bool_decide (row_id r = id)) (fun r => set_memory (f (mr_memory r)) r) |>).

(** A new row has the rowid after the largest. *)
Definition next_rowid {R} (rowid : R -> Z) (l : list R) : Z := (max_or_zero rowid l + 1)%Z.
Definition insert_memory (m : Memory) : Conn unit := fun w =>
  let db := mw_db w in
  match insert_row row_id (mkMemoryRow (next_rowid mr_rowid (db_memories db)) m) (db_memories db) with
  | Some l => (Ok tt, w <| mw_db := db <| db_memories := l |> |>)
  | None => (Err (Sqlite "UNIQUE constraint failed: memories.id"), w)
  end.

(** A row that refers to the memories [ids]. *)
Definition references_exist (ids : list MemoryId) (db : MemoryDb) : bool :=
  forallb (fun id => bool_decide (is_Some (find_memory db id))) ids.
Definition foreign_key_error : StoreError := Sqlite "FOREIGN KEY constraint failed".
Definition insert_referring (ids : list MemoryId) (f : MemoryDb -> MemoryDb) : Conn unit :=
  ok ← query (references_exist ids); _ ← check ok foreign_key_error; execute f.

(** [DELETE FROM memories WHERE p], with what [ON DELETE CASCADE] deletes. *)
Definition delete_memories (p : Memory -> bool) (db : MemoryDb) : MemoryDb :=
  let gone id := existsb (fun r => bool_decide (row_id r = id) && p (mr_memory r)) (db_memories db) in
  db <| db_memories ::= delete_where (fun r => p (mr_memory r)) |>
     <| db_embeddings ::= delete_where (fun r => gone (er_memory_id r)) |>
     <| db_links ::= delete_where (fun r => gone (ml_source_id r) || gone (ml_target_id r)) |>
     <| db_versions ::= delete_where (fun r => gone (mv_memory_id r)) |>
     <| db_promotions ::= delete_where (fun r => gone (po_memory_id r)) |>
     <| db_accesses ::= delete_where (fun r => gone (sa_memory_id r)) |>
     <| db_contradictions ::= delete_where (fun r => gone (ce_memory_a_id r) || gone (ce_memory_b_id r)) |>
     <| db_corrections ::= delete_where (fun r => gone (cr_memory_id r)) |>
     <| db_feedback ::= delete_where (fun r => gone (rf_memory_id r)) |>.

(** *** The search index *)
Definition indexed_fts_fields (m : Memory) : FtsFields :=
  mkFtsFields (expand_compound_words (m_content m)) (expand_compound_words <$> m_summary m)
    (expand_compound_words (join " " (m_tags m))).
Fixpoint remove_one {A} `{EqDecision A} (x : A) (l : list A) : list A :=
  match l with [] => [] | y :: l' => if decide (x = y) then l' else y :: remove_one x l' end.
Definition delete_fts_entry (rowid : Z) (m : Memory) : Conn unit :=
  execute (fun db => db <| db_fts ::= remove_one (rowid, indexed_fts_fields m) |>).
Definition sync_fts_entry (rowid : Z) (previous : option Memory) (m : Memory) : Conn unit :=
  _ ← match previous with Some p => delete_fts_entry rowid p | None => mret tt end;
  execute (fun db => db <| db_fts ::= fun l => l ++ [(rowid, indexed_fts_fields m)] |>).
(** [INSERT INTO memories_fts(memories_fts) VALUES('rebuild')]: the columns as
    [memories] has them, the tags as JSON. *)
Definition stored_fts_fields (m : Memory) : FtsFields :=
  mkFtsFields (m_content m) (m_summary m) (json_text (m_tags m)).
Definition rebuild_fts : Conn unit :=
  execute (fun db => db <| db_fts :=
    map (fun r => (mr_rowid r, stored_fts_fields (mr_memory r))) (db_memories db) |>).

(** *** Versions *)
Definition versions_of (id : MemoryId) (db : MemoryDb) : list MemoryVersion :=
  select_where (fun v => bool_decide (mv_memory_id v = id)) (db_versions db).
Definition load_next_version_number (id : MemoryId) : Conn Z :=
  n ← query (fun db => max_or_zero mv_version_number (versions_of id db) + 1)%Z;
  _ ← check (n <? 2 ^ 32)%Z (Serialization "next version number does not fit into u32");
  mret n.
Definition insert_version (v : MemoryVersion) : Conn unit :=
  insert_referring [mv_memory_id v] (fun db => db <| db_versions ::= fun l => l ++ [v] |>).
Definition insert_memory_version_row (id : MemoryId) (previous_content : string) (changed_at : Z)
    (changed_by change_reason : string) : Conn unit :=
  n ← load_next_version_number id;
  u ← fresh_uuid;
  insert_version (mkMemoryVersion u id n previous_content changed_by change_reason changed_at).

(** *** Links, contradictions *)
Definition record_link_row (source target : MemoryId) (relation : string) : Conn unit :=
  u ← fresh_uuid;
  t ← now;
  taken ← query (fun db => existsb (fun l => bool_decide (ml_source_id l = source)
    && bool_decide (ml_target_id l = target) && bool_decide (ml_relation_type l = relation)) (db_links db));
  if taken : bool then mret tt
  else insert_referring [source; target] (fun db => db <| db_links ::= fun l =>
         l ++ [mkMemoryLink u source target relation F32.one t] |>).
(** [ORDER BY created_at]. *)
Definition load_links (db : MemoryDb) (id : MemoryId) : list MemoryLink :=
  order_by (asc_Z ml_created_at)
    (select_where (fun l => bool_decide (ml_source_id l = id) || bool_decide (ml_target_id l = id)) (db_links db)).

Definition lower_reliability (m : Memory) (t : Z) : Conn unit :=
  update_memory (m_id m) (fun r =>
    r <| m_reliability_score := fmax (F32.sub (m_reliability_score m) (F32.lit 3 10)) fzero |>
      <| m_updated_at := t |>).
Definition record_contradiction_row (a b : MemoryId) (description : string) : Conn unit :=
  memory_a ← require_memory_or_not_found a;
  memory_b ← require_memory_or_not_found b;
  t ← now;
  u ← fresh_uuid;
  _ ← insert_referring [a; b] (fun db => db <| db_contradictions ::= fun l =>
        l ++ [mkContradictionEntry u a b t (trim description) Unresolved None None] |>);
  let trust m := base_reliability (m_provenance m) in
  if flt (trust memory_b) (trust memory_a) then lower_reliability memory_b t
  else if flt (trust memory_a) (trust memory_b) then lower_reliability memory_a t
  else mret tt.

(** *** Configuration *)
Definition load_config_value (key : string) (db : MemoryDb) : option string :=
  snd <$> find_by fst key (db_config db).
Definition set_config_value (key value : string) (db : MemoryDb) : MemoryDb :=
  db <| db_config ::= fun l =>
    match find_by fst key l with
    | Some _ => update_where (fun r => bool_decide (fst r = key)) (fun r => (fst r, value)) l
    | None => l ++ [(key, value)]
    end |>.

(** [str::parse] of an unsigned integer: an optional sign and digits, below [2^w]. *)
Fixpoint digits_value (acc : Z) (l : bytes) : option Z :=
  match l with
  | [] => Some acc
  | c :: l' => if is_digit c then digits_value (acc * 10 + (Z.of_nat (Ascii.nat_of_ascii c) - 48))%Z l' else None
  end.
Definition parse_unsigned (w : Z) (s : string) : option Z :=
  let l := match to_bytes s with "+"%char :: l => l | l => l end in
  n ← match l with [] => None | _ => digits_value 0 l end;
  if (n <? 2 ^ w)%Z then Some n else None.

Definition invalid_config (key value : string) : StoreError :=
  Serialization ("invalid " +:+ key +:+ " config `" +:+ value +:+ "`").
Definition load_parsed {A} (parse : string -> option A) (key : string) (default : A) : Conn A :=
  v ← query (load_config_value key);
  match v with
  | Some raw => some_or_raise (parse raw) (invalid_config key raw)
  | None => mret default
  end.
Definition load_f32_config (key : string) (default : float) : Conn float := load_parsed parse_f32 key default.
Definition load_u32_config (key : string) (default : Z) : Conn Z := load_parsed (parse_unsigned 32) key default.
Definition load_embedding_dimensions : Conn Z := load_parsed (parse_unsigned 64) "embedding_dimensions" 768%Z.

Definition load_scope_config : Conn ScopeConfig :=
  let d := default_scope_config in
  similarity_weight ← load_f32_config "similarity_weight" (sc_similarity_weight d);
  recency_weight ← load_f32_config "recency_weight" (sc_recency_weight d);
  access_weight ← load_f32_config "access_weight" (sc_access_weight d);
  priority_weight ← load_f32_config "priority_weight" (sc_priority_weight d);
  memory_context_ratio ← load_f32_config "memory_context_ratio" (sc_memory_context_ratio d);
  decay_lambda_base ← load_f32_config "decay_lambda_base" (sc_decay_lambda_base d);
  response_reserve ← load_u32_config "response_reserve" (sc_response_reserve d);
  salience_threshold ← load_f32_config "salience_threshold" (sc_salience_threshold d);
  novelty_doubt_threshold ← load_f32_config "novelty_doubt_threshold" (sc_novelty_doubt_threshold d);
  merge_similarity_threshold ← load_f32_config "merge_similarity_threshold" (sc_merge_similarity_threshold d);
  duplicate_similarity_threshold ←
    load_f32_config "duplicate_similarity_threshold" (sc_duplicate_similarity_threshold d);
  agent_inferred ← load_f32_config "agent_inferred_importance_threshold"
    (sc_agent_inferred_importance_threshold d);
  mret (mkScopeConfig decay_lambda_base similarity_weight recency_weight access_weight priority_weight
    memory_context_ratio response_reserve salience_threshold novelty_doubt_threshold
    merge_similarity_threshold duplicate_similarity_threshold agent_inferred).

(** *** Selections *)
(** [load_search_memories]: [ORDER BY updated_at DESC, rowid DESC]. *)
Definition newest_first (a b : MemoryRow) : comparison :=
  then_by (fun a b => Z.compare (m_updated_at (mr_memory b)) (m_updated_at (mr_memory a)))
    (fun a b => Z.compare (mr_rowid b) (mr_rowid a)) a b.
Definition load_search_memories (scopes : list MemoryScope) (state : MemoryState)
    (type_filter : option (list MemoryType)) (agent_id : option string) (db : MemoryDb) : list Memory :=
  map mr_memory (order_by newest_first (select_where (fun r =>
    let m := mr_memory r in
    bool_decide (m_scope m ∈ scopes) && bool_decide (m_state m = state)
    && match type_filter with Some ts => bool_decide (m_memory_type m ∈ ts) | None => true end
    && match agent_id with Some a => bool_decide (m_agent_id m = Some a) | None => true end)
    (db_memories db))).
Definition count_memories_by_state (scope : MemoryScope) (state : MemoryState) (db : MemoryDb) : Z :=
  Z.of_nat (length (select_where (fun r => bool_decide (m_scope (mr_memory r) = scope)
    && bool_decide (m_state (mr_memory r) = state)) (db_memories db))).
End Rows.

(** ** Calls

    [Conn] code in one piece is a section of a program ([Threads]): a
    statement or a transaction.  [with_connection] locks the mutex around the
    connection of its [SqliteMemoryStore] while [operation] runs.  That mutex
    belongs to one store and its clones, which have one scope; another store on
    the same file, of this process or of another one, has its own connection
    and its own mutex. *)
Definition MTask (A : Type) := Task MemoryWorld StoreError A.
Definition section {A} (m : Conn A) : MTask A := Atomic m Return.

Class Locking := with_connection : forall {A}, MTask A -> MTask A.
(** Every call is one of the same store: what [with_connection] runs is one section. *)
Definition one_store : Locking := fun A p => Atomic (run p) Return.
(** Calls of any number of stores, of any scopes, on one file: those of other
    stores may come in between the statements and transactions of a call. *)
Definition many_stores : Locking := fun A p => p.
