(* ===== verification/Embeddings.v ===== *)
(** Embeddings in the database ([encode_embedding], [decode_embedding] of
    [plugins/memory/src/storage/sqlite_store.rs]): the bits of an [f32], four
    bytes each from the lowest, and the similarity of two vectors
    ([similarity.rs]).  What is encoded decodes to itself. *)
From Stdlib Require Import Ascii.
From Stdlib Require Import SpecFloat.
From S2P Require Import Prelude Text Threads Floats Memories.
#[local] Open Scope Z_scope.

(** [f32::to_bits] and [f32::from_bits]; a NaN is the quiet one. *)
Definition sign_bit (s : bool) : Z := if s then 2 ^ 31 else 0.
Definition to_bits (x : float) : Z :=
  match x with
  | S754_zero s => sign_bit s
  | S754_infinity s => sign_bit s + 255 * 2 ^ 23
  | S754_nan => 255 * 2 ^ 23 + 2 ^ 22
  | S754_finite s m e =>
      if Zpos m <? 2 ^ 23 then sign_bit s + Zpos m
      else sign_bit s + (e + 150) * 2 ^ 23 + (Zpos m - 2 ^ 23)
  end.
Definition from_bits (w : Z) : float :=
  let s := 2 ^ 31 <=? w in
  let e := (w / 2 ^ 23) mod 256 in
  let m := w mod 2 ^ 23 in
  if e =? 255 then (if m =? 0 then S754_infinity s else S754_nan)
  else if e =? 0 then match m with Zpos p => S754_finite s p (-149) | _ => S754_zero s end
  else match 2 ^ 23 + m with Zpos p => S754_finite s p (e - 150) | _ => S754_nan end.

(** [f32::to_le_bytes] and [f32::from_le_bytes]. *)
Definition byte_of (n : Z) : ascii := ascii_of_N (Z.to_N (n mod 256)).
Definition of_byte (c : ascii) : Z := Z.of_N (N_of_ascii c).
Definition to_le_bytes (x : float) : bytes :=
  let w := to_bits x in [byte_of w; byte_of (w / 2 ^ 8); byte_of (w / 2 ^ 16); byte_of (w / 2 ^ 24)].
Definition from_le_bytes (a b c d : ascii) : float :=
  from_bits (of_byte a + of_byte b * 2 ^ 8 + of_byte c * 2 ^ 16 + of_byte d * 2 ^ 24).

Definition encode_embedding (embedding : list float) : bytes := concat (map to_le_bytes embedding).

(** [chunks_exact(4)]. *)
Fixpoint decode_chunks (l : bytes) : list float :=
  match l with
  | a :: b :: c :: d :: l' => from_le_bytes a b c d :: decode_chunks l'
  | _ => []
  end.
Definition decode_embedding (l : bytes) (expected_dimensions : Z) : Result StoreError (list float) :=
  let n := Z.of_nat (length l) in
  if negb (n mod 4 =? 0) then Err (Serialization "embedding blob length is not aligned to f32 components")
  else if negb (n / 4 =? expected_dimensions) then Err (Serialization "stored embedding dimension mismatch")
  else Ok (decode_chunks l).

(** [cosine_similarity]: sums from the left, then the quotient in [0, 1]. *)
Definition f32_epsilon : float := S754_finite false 8388608 (-46).
Definition dot (left right : list float) : float :=
  fold_left (fun acc p => F32.add acc (F32.mul (fst p) (snd p))) (zip left right) fzero.
Definition cosine_similarity (left right : list float) : Result StoreError float :=
  if negb (length left =? length right)%nat then
    Err (Validation "cosine similarity requires equal vector dimensions")
  else if (length left =? 0)%nat then Err (Validation "cosine similarity requires non-empty vectors")
  else
    let dot_product := dot left right in
    let left_norm := dot left left in
    let right_norm := dot right right in
    if fle left_norm f32_epsilon || fle right_norm f32_epsilon then Ok fzero
    else Ok (clamp (F32.div dot_product (F32.mul (SFsqrt 24 128 left_norm) (SFsqrt 24 128 right_norm)))
               fzero F32.one).

Example cosine_example :
  cosine_similarity [F32.one; fzero] [F32.lit 8 10; F32.lit 6 10] = Ok (F32.lit 8 10).
Proof. vm_compute. reflexivity. Qed.

(** ** Encoding and decoding *)
Lemma of_byte_of n : of_byte (byte_of n) = n mod 256.
Proof.
  unfold of_byte, byte_of. pose proof (Z.mod_pos_bound n 256 ltac:(lia)).
  rewrite N_ascii_embedding by lia. lia.
Qed.

Lemma le_bytes_value w : 0 <= w < 2 ^ 32 ->
  of_byte (byte_of w) + of_byte (byte_of (w / 2 ^ 8)) * 2 ^ 8 + of_byte (byte_of (w / 2 ^ 16)) * 2 ^ 16
    + of_byte (byte_of (w / 2 ^ 24)) * 2 ^ 24 = w.
Proof.
  intros Hw. rewrite !of_byte_of.
  assert (w / 2 ^ 24 = w / 2 ^ 8 / 2 ^ 8 / 2 ^ 8) as E3 by (rewrite !Z.div_div by lia; done).
  assert (w / 2 ^ 16 = w / 2 ^ 8 / 2 ^ 8) as E2 by (rewrite !Z.div_div by lia; done).
  rewrite E3, E2. change (2 ^ 8) with 256 in *.
  assert (0 <= w / 256 / 256 / 256 < 256) as Hc.
  { rewrite !Z.div_div by lia. split; [apply Z.div_pos; lia|apply Z.div_lt_upper_bound; lia]. }
  rewrite (Z.mod_small (w / 256 / 256 / 256)) by lia. clear E2 E3.
  pose proof (Z.div_mod w 256 ltac:(lia)). pose proof (Z.div_mod (w / 256) 256 ltac:(lia)).
  pose proof (Z.div_mod (w / 256 / 256) 256 ltac:(lia)). lia.
Qed.

(** What the fields of a valid [f32] are. *)
Lemma f32_fields s m e :
  F32.is_f32 (S754_finite s m e) = true ->
  (Zpos m < 2 ^ 23 /\ e = -149) \/ (2 ^ 23 <= Zpos m < 2 ^ 24 /\ -149 <= e <= 104).
Proof.
  unfold F32.is_f32, valid_binary, bounded. rewrite andb_true_iff. intros [Hc He].
  apply Z.eqb_eq in Hc. apply Z.leb_le in He. unfold fexp, emin in Hc.
  pose proof (digits_lt (Zpos m) ltac:(lia)) as H1. pose proof (digits_le (Zpos m) ltac:(lia)) as H2.
  unfold Zdigits2 in H1, H2. set (d := Zpos (digits2_pos m)) in *.
  assert (d <= 24) as Hd by lia.
  assert (2 ^ d <= 2 ^ 24) by (apply Z.pow_le_mono_r; lia).
  destruct (Z.eq_dec d 24) as [E|E].
  - right. rewrite E in H2. split; [|lia]. split; [exact H2|lia].
  - left. assert (2 ^ d <= 2 ^ 23) by (apply Z.pow_le_mono_r; lia). split; lia.
Qed.

Lemma to_bits_range x : F32.is_f32 x = true -> 0 <= to_bits x < 2 ^ 32.
Proof.
  destruct x as [s|s| |s m e]; try (by destruct s); [done|]. intros H%f32_fields. unfold to_bits.
  destruct (Z.ltb_spec (Zpos m) (2 ^ 23)); destruct s; simpl sign_bit; lia.
Qed.

Lemma fields_of (s : bool) e m : 0 <= m < 2 ^ 23 -> 0 <= e < 256 ->
  let w := sign_bit s + e * 2 ^ 23 + m in
  (2 ^ 31 <=? w) = s /\ (w / 2 ^ 23) mod 256 = e /\ w mod 2 ^ 23 = m.
Proof.
  intros Hm He. cbv zeta.
  assert (sign_bit s = (if s then 256 else 0) * 2 ^ 23) as E by (by destruct s). split_and!.
  - destruct s; simpl sign_bit; [apply Z.leb_le|apply Z.leb_gt]; lia.
  - rewrite E, <- Z.mul_add_distr_r, Z.add_comm, Z.div_add, Z.div_small by lia.
    rewrite Z.add_0_l. destruct s; [|by apply Z.mod_small].
    rewrite Z.add_comm, <- (Z.mul_1_l 256) at 1. rewrite Z.mod_add by lia. by apply Z.mod_small.
  - rewrite E, <- Z.mul_add_distr_r, Z.add_comm, Z.mod_add by lia. by apply Z.mod_small.
Qed.

Lemma from_to_bits x : F32.is_f32 x = true -> from_bits (to_bits x) = x.
Proof.
  destruct x as [s|s| |s m e]; intros H; try (destruct s; reflexivity); [reflexivity|].
  apply f32_fields in H as [[Hm ->]|[Hm He]]; unfold to_bits.
  - destruct (Z.ltb_spec (Zpos m) (2 ^ 23)); [|lia].
    destruct (fields_of s 0 (Zpos m)) as (E1 & E2 & E3); [lia|lia|].
    rewrite Z.mul_0_l, Z.add_0_r in E1, E2, E3. unfold from_bits. rewrite E1, E2, E3. done.
  - destruct (Z.ltb_spec (Zpos m) (2 ^ 23)); [lia|].
    destruct (fields_of s (e + 150) (Zpos m - 2 ^ 23)) as (E1 & E2 & E3); [lia|lia|].
    unfold from_bits. rewrite E1, E2, E3. cbv zeta.
    destruct (Z.eqb_spec (e + 150) 255); [lia|]. destruct (Z.eqb_spec (e + 150) 0); [lia|].
    replace (2 ^ 23 + (Zpos m - 2 ^ 23)) with (Zpos m) by lia. by replace (e + 150 - 150) with e by lia.
Qed.

Lemma from_to_le_bytes x :
  F32.is_f32 x = true ->
  match to_le_bytes x with [a; b; c; d] => from_le_bytes a b c d | _ => x end = x.
Proof.
  intros H. cbn [to_le_bytes]. unfold from_le_bytes.
  rewrite le_bytes_value by (by apply to_bits_range). by apply from_to_bits.
Qed.

(** C40. A stored embedding is read back as it was: for every vector of
    [f32]s, the bytes that [encode_embedding] makes of it decode, under its own
    dimension, to the same vector. *)
Theorem embeddings_round_trip (embedding : list float)
    (Hf : Forall (fun x => F32.is_f32 x = true) embedding) :
  decode_embedding (encode_embedding embedding) (Z.of_nat (length embedding)) = Ok embedding.
Proof.
  assert (length (encode_embedding embedding) = (length embedding * 4)%nat) as El.
  { clear Hf. unfold encode_embedding. induction embedding as [|x l IH]; [done|].
    cbn [map concat to_le_bytes app]. cbn [length]. rewrite IH. lia. }
  unfold decode_embedding. rewrite El, Nat2Z.inj_mul, Z.mod_mul, Z.div_mul, !Z.eqb_refl by lia.
  cbn [negb]. f_equal. clear El. induction Hf as [|x l Hx _ IH]; [done|].
  unfold encode_embedding in *. cbn [map concat]. pose proof (from_to_le_bytes x Hx) as E.
  cbn [to_le_bytes app decode_chunks] in *. by rewrite E, IH.
Qed.
Lemma embeddings_round_trip_witness :
  decode_embedding (encode_embedding [F32.lit 1 10; S754_zero true; F32.of_Z (-3); S754_infinity false]) 4
    = Ok [F32.lit 1 10; S754_zero true; F32.of_Z (-3); S754_infinity false].
Proof.
  apply (embeddings_round_trip [F32.lit 1 10; S754_zero true; F32.of_Z (-3); S754_infinity false]).
  repeat constructor; vm_compute; reflexivity.
Defined.
