(* ===== verification/Forgetting.v ===== *)
(** What the memory plugin forgets first and what it learns from feedback:
    recency decay ([plugins/memory/src/decay.rs]), the eviction policies
    ([forgetting.rs]), and the retrieval weights derived from feedback
    ([learn_from_samples] and its helpers in [storage/sqlite_store.rs]). *)
From Stdlib Require Import SpecFloat.
From S2P Require Import Prelude Text Substring Table Threads Floats Memories MemoryDb.

Section Forgetting.
Context `{MemoryHost}.

(** ** Decay *)
(** [Duration::num_seconds] and [num_days] round towards zero. *)
Definition num_seconds (d : Z) : Z := Z.quot d 1000000000.
Definition num_days (d : Z) : Z := Z.quot d (86400 * 1000000000).
Definition elapsed_days (t reference_time : Z) : float :=
  F64.div (F64.of_Z (Z.max (num_seconds (t - reference_time)) 0)) (F64.of_Z 86400).
Definition reference_time (m : Memory) : Z := default (m_updated_at m) (m_last_accessed_at m).

Definition retention_with_lambda (m : Memory) (t : Z) (decay_lambda_base : float) : float :=
  exp64 (F64.mul (F64.opp (F64.of_f32 (fmax decay_lambda_base fzero))) (elapsed_days t (reference_time m))).
Definition retention (m : Memory) (t : Z) (config : ScopeConfig) : float :=
  retention_with_lambda m t (sc_decay_lambda_base config).

Definition type_decay_multiplier (t : MemoryType) : float :=
  match t with
  | Procedure => F64.lit 7 10 | Fact => F64.lit 8 10 | Decision => F64.lit 85 100
  | Preference => F64.lit 9 10 | Observation => F64.lit 12 10
  end.
Definition adaptive_retention (m : Memory) (t : Z) (config : ScopeConfig)
    (total_memories recent_writes_30d : Z) : float :=
  let activity_rate := F64.div (F64.of_Z recent_writes_30d) (F64.of_Z (Z.max total_memories 1)) in
  let effective_lambda :=
    F64.mul (F64.mul (F64.of_f32 (fmax (sc_decay_lambda_base config) fzero))
               (type_decay_multiplier (m_memory_type m)))
      (F64.add (F64.of_Z 1) (F64.mul (F64.lit 5 10) activity_rate)) in
  let decay := exp64 (F64.mul (F64.opp effective_lambda) (elapsed_days t (reference_time m))) in
  let access_boost := F64.add (F64.of_Z 1) (F64.mul (F64.lit 2 10) (F64.of_Z (m_access_count m))) in
  F64.mul (F64.mul (F64.of_f32 (m_importance_score m)) decay) access_boost.

(** ** Policies *)
Inductive ForgettingPolicy := ImportanceReliability | Fifo | Lru | PriorityDecay | RandomDrop.
Record RetentionContext := mkRetentionContext {
  rc_now : Z; rc_scope_config : ScopeConfig; rc_total_memories : Z; rc_recent_writes_30d : Z }.

Definition retention_score (policy : ForgettingPolicy) (m : Memory) (context : RetentionContext) : float :=
  match policy with
  | ImportanceReliability =>
      F64.mul (F64.of_f32 (m_importance_score m)) (F64.of_f32 (m_reliability_score m))
  | Fifo => F64.of_Z (m_created_at m / 1000000000)
  | Lru => F64.of_Z (reference_time m / 1000000000)
  | PriorityDecay =>
      adaptive_retention m (rc_now context) (rc_scope_config context) (rc_total_memories context)
        (rc_recent_writes_30d context)
  | RandomDrop => F64.div (F64.of_Z (sha256_prefix (m_id m))) (F64.of_Z (2 ^ 64 - 1))
  end.
Definition policy_name (policy : ForgettingPolicy) : string :=
  match policy with
  | ImportanceReliability => "importance-reliability" | Fifo => "fifo" | Lru => "lru"
  | PriorityDecay => "priority-decay" | RandomDrop => "random-drop"
  end.
Definition forgetting_policy_from_name (name : string) : Result StoreError ForgettingPolicy :=
  some_or (find (fun p => bool_decide (policy_name p = name))
    [ImportanceReliability; Fifo; Lru; PriorityDecay; RandomDrop])
    (Serialization ("unknown forgetting_policy `" +:+ name +:+ "`")).
Definition resolve_configured_forgetting_policy : Conn ForgettingPolicy :=
  name ← query (load_config_value "forgetting_policy");
  match name with
  | Some name => lift (forgetting_policy_from_name name)
  | None => mret ImportanceReliability
  end.

Definition retention_context_for (t : Z) (config : ScopeConfig) (candidates : list Memory) : RetentionContext :=
  mkRetentionContext t config (Z.of_nat (length candidates))
    (Z.of_nat (length (List.filter
      (fun m => t - 30 * 86400 * 1000000000 <=? m_created_at m)%Z candidates))).
(** The memories to evict first, equal scores by identifier. *)
Definition eviction_order (policy : ForgettingPolicy) (context : RetentionContext) (a b : Memory) : comparison :=
  then_by (fun a b => fcmp (retention_score policy a context) (retention_score policy b context))
    (asc_str m_id) a b.

(** ** Learning *)
Record LearnedWeightValues := mkLearnedWeightValues {
  lw_similarity : float; lw_recency : float; lw_access : float; lw_priority : float }.
Definition weights_of_config (c : ScopeConfig) : LearnedWeightValues :=
  mkLearnedWeightValues (F64.of_f32 (sc_similarity_weight c)) (F64.of_f32 (sc_recency_weight c))
    (F64.of_f32 (sc_access_weight c)) (F64.of_f32 (sc_priority_weight c)).
Definition default_weights : LearnedWeightValues := weights_of_config default_scope_config.

Definition sub64 (x y : float) : float := SFsub 53 1024 x y.
Definition sum64 (l : list float) : float := fold_left F64.add l fzero.
Definition f64_epsilon : float := S754_finite false (2 ^ 52) (-104).
Definition floors : list float := replicate 4 (F64.lit 5 100).
Definition ceilings : list float := [F64.lit 70 100; F64.lit 45 100; F64.lit 5 100; F64.lit 45 100].
Definition map3 (f : float -> float -> float -> float) (values floors ceilings : list float) : list float :=
  zip_with (fun v b => f v (fst b) (snd b)) values (zip floors ceilings).

(** One of the eight rounds: [inl] when the values add up, [None] when nothing
    is left to move. *)
Definition normalize_round (values : list float) : option (list float + list float) :=
  let delta := sub64 (F64.of_Z 1) (sum64 values) in
  if fle (SFabs delta) (F64.lit 1 1000000000) then Some (inl values)
  else if flt fzero delta then
    let slack := sum64 (map3 (fun v lo hi => fmax (sub64 hi v) fzero) values floors ceilings) in
    if fle slack f64_epsilon then None
    else Some (inr (map3 (fun v lo hi =>
           let local_slack := fmax (sub64 hi v) fzero in
           if fle local_slack f64_epsilon then v
           else fmin (F64.add v (F64.mul delta (F64.div local_slack slack))) hi) values floors ceilings))
  else
    let reducible := sum64 (map3 (fun v lo hi => fmax (sub64 v lo) fzero) values floors ceilings) in
    if fle reducible f64_epsilon then None
    else Some (inr (map3 (fun v lo hi =>
           let local_reducible := fmax (sub64 v lo) fzero in
           if fle local_reducible f64_epsilon then v
           else fmax (sub64 v (F64.mul (F64.opp delta) (F64.div local_reducible reducible))) lo)
           values floors ceilings)).
Fixpoint normalize_rounds (n : nat) (values : list float) : list float + list float :=
  match n with
  | O => inr values
  | S n' => match normalize_round values with
            | Some (inl vs) => inl vs
            | Some (inr vs) => normalize_rounds n' vs
            | None => inr values
            end
  end.
Definition normalize_weight_vector_with_bounds (values : list float) : option (list float) :=
  if negb (forallb is_finite values) then None
  else match normalize_rounds 8 (map3 clamp values floors ceilings) with
       | inl vs => Some vs
       | inr vs => if fle (SFabs (sub64 (sum64 vs) (F64.of_Z 1))) (F64.lit 1 1000000) then Some vs else None
       end.
Definition clamp_weights (w : LearnedWeightValues) : LearnedWeightValues :=
  match normalize_weight_vector_with_bounds [lw_similarity w; lw_recency w; lw_access w; lw_priority w] with
  | Some [a; b; c; d] => mkLearnedWeightValues a b c d
  | _ => default_weights
  end.
Definition with_multipliers (w : LearnedWeightValues) (s r a p : float) : LearnedWeightValues :=
  clamp_weights (mkLearnedWeightValues (F64.mul (lw_similarity w) s) (F64.mul (lw_recency w) r)
    (F64.mul (lw_access w) a) (F64.mul (lw_priority w) p)).
Definition blend (w other : LearnedWeightValues) (factor : float) : LearnedWeightValues :=
  let factor := clamp factor fzero (F64.of_Z 1) in
  let mix x y := F64.add (F64.mul x (sub64 (F64.of_Z 1) factor)) (F64.mul y factor) in
  clamp_weights (mkLearnedWeightValues (mix (lw_similarity w) (lw_similarity other))
    (mix (lw_recency w) (lw_recency other)) (mix (lw_access w) (lw_access other))
    (mix (lw_priority w) (lw_priority other))).

(** *** Samples *)
Record RetrievalFeedbackSample := mkRetrievalFeedbackSample {
  fs_relevant : bool; fs_similarity_signal : float; fs_recency_signal : float;
  fs_access_signal : float; fs_priority_signal : float }.

Definition tokenize_learning_text (text : string) : list string :=
  remove_dups (List.filter (fun t => (2 <=? String.length t)%nat)
    (word_tokens "" (chars (to_lowercase text)))).
Definition compute_feedback_similarity_signal (query_text : option string) (content : string)
    (summary : option string) (tags : list string) : float :=
  let query_text := trim (default "" query_text) in
  if decide (query_text = "") then fzero
  else
    let memory_text := match summary with
      | Some s => content +:+ " " +:+ s +:+ " " +:+ join " " tags
      | None => content +:+ " " +:+ join " " tags end in
    if contains (to_bytes (to_lowercase query_text)) (to_bytes (to_lowercase memory_text)) then F64.of_Z 1
    else
      let query_tokens := tokenize_learning_text query_text in
      let memory_tokens := tokenize_learning_text memory_text in
      if (length query_tokens =? 0)%nat || (length memory_tokens =? 0)%nat then fzero
      else
        let shared := length (List.filter (fun t => bool_decide (t ∈ memory_tokens)) query_tokens) in
        let overlap := F64.of_Z (Z.of_nat shared) in
        let coverage := F64.div overlap (F64.of_Z (Z.of_nat (length query_tokens))) in
        let union := F64.of_Z (Z.of_nat (length query_tokens + length memory_tokens - shared)) in
        let jaccard := if fle union f64_epsilon then fzero else F64.div overlap union in
        clamp (F64.add (F64.mul (F64.lit 7 10) coverage) (F64.mul (F64.lit 3 10) jaccard)) fzero (F64.of_Z 1).
Definition compute_feedback_recency_signal (m : Memory) (recorded_at : Z) (config : ScopeConfig) : float :=
  retention_with_lambda m recorded_at (sc_decay_lambda_base config).
(** [compute_access_signal]: saturates, half of it at eight accesses. *)
Definition compute_access_signal (access_count : Z) : float :=
  let n := F32.of_Z access_count in
  if fle n fzero then fzero else F32.div n (F32.add n (F32.of_Z 8)).

Definition feedback_sample (config : ScopeConfig) (f : RetrievalFeedback) (m : Memory) : RetrievalFeedbackSample :=
  let similarity := compute_feedback_similarity_signal (rf_query_text f) (m_content m) (m_summary m) (m_tags m) in
  mkRetrievalFeedbackSample (rf_relevant f) similarity
    (compute_feedback_recency_signal m (rf_recorded_at f) config)
    (F64.of_f32 (compute_access_signal (m_access_count m)))
    (F64.mul similarity (F64.of_f32
       (F32.mul (fmax (m_importance_score m) fzero) (fmax (m_reliability_score m) fzero)))).
(** The feedback on memories that exist, [ORDER BY recorded_at, id]. *)
Definition load_feedback_learning_samples (config : ScopeConfig) (db : MemoryDb) : list RetrievalFeedbackSample :=
  omap (fun f => feedback_sample config f <$> find_memory db (rf_memory_id f))
    (order_by (then_by (asc_Z rf_recorded_at) (asc_str rf_id)) (db_feedback db)).

(** *** Weights from samples *)
Definition mean (l : list float) : float :=
  match l with [] => fzero | _ => F64.div (sum64 l) (F64.of_Z (Z.of_nat (length l))) end.
Definition standard_deviation (l : list float) : float :=
  if (length l <=? 1)%nat then fzero
  else let average := mean l in
       SFsqrt 53 1024 (F64.div (sum64 (map (fun v => let d := sub64 v average in F64.mul d d) l))
         (F64.of_Z (Z.of_nat (length l)))).
Definition feature_separation (samples : list RetrievalFeedbackSample)
    (selector : RetrievalFeedbackSample -> float) : float :=
  let relevant := map selector (List.filter fs_relevant samples) in
  let irrelevant := map selector (List.filter (fun s => negb (fs_relevant s)) samples) in
  let spread := fmax (standard_deviation (map selector samples)) (F64.lit 5 100) in
  clamp (F64.div (sub64 (mean relevant) (mean irrelevant)) spread) (F64.of_Z (-2)) (F64.of_Z 2).
Definition learning_confidence (sample_size relevant irrelevant : Z) : float :=
  let balance := if (relevant =? 0)%Z || (irrelevant =? 0)%Z then fzero
    else SFsqrt 53 1024 (F64.div (F64.of_Z (Z.min relevant irrelevant)) (F64.of_Z (Z.max relevant irrelevant))) in
  let sample_progress := if (sample_size <=? 12)%Z then fzero
    else clamp (F64.div (F64.of_Z (sample_size - 12)) (F64.of_Z (48 - 12))) fzero (F64.of_Z 1) in
  clamp (F64.mul (F64.add (F64.lit 35 100) (F64.mul (F64.lit 65 100) sample_progress)) balance)
    fzero (F64.of_Z 1).
Definition feature_multiplier (signal : float) : float :=
  clamp (F64.add (F64.of_Z 1) (F64.mul (F64.lit 45 100) signal)) (F64.lit 3 10) (F64.lit 25 10).

(** The effective weights of [learn_from_samples]; the default ones until there
    are enough samples of both kinds that some signal separates. *)
Definition learn_from_samples (samples : list RetrievalFeedbackSample) : LearnedWeightValues :=
  let sample_size := Z.of_nat (length samples) in
  let relevant := Z.of_nat (length (List.filter fs_relevant samples)) in
  let irrelevant := (sample_size - relevant)%Z in
  if (sample_size <? 12)%Z then default_weights
  else if (relevant <? 3)%Z || (irrelevant <? 3)%Z then default_weights
  else
    let similarity := feature_separation samples fs_similarity_signal in
    let recency := feature_separation samples fs_recency_signal in
    let access := feature_separation samples fs_access_signal in
    let priority := feature_separation samples fs_priority_signal in
    let strongest := fmax (fmax (fmax (SFabs similarity) (SFabs recency)) (SFabs access)) (SFabs priority) in
    if flt strongest (F64.lit 10 100) then default_weights
    else blend default_weights
           (with_multipliers default_weights (feature_multiplier similarity) (feature_multiplier recency)
              (feature_multiplier access) (feature_multiplier priority))
           (learning_confidence sample_size relevant irrelevant).

Definition compute_learned_weights : Conn LearnedWeightValues :=
  config ← load_scope_config;
  query (fun db => learn_from_samples (load_feedback_learning_samples config db)).
Definition persist_learned_weights (w : LearnedWeightValues) : Conn unit :=
  execute (fun db =>
    set_config_value "similarity_weight" (fixed6 (lw_similarity w))
      (set_config_value "recency_weight" (fixed6 (lw_recency w))
        (set_config_value "priority_weight" (fixed6 (lw_priority w))
          (set_config_value "access_weight" (fixed6 (lw_access w)) db)))).
End Forgetting.
