(* ===== verification/MemoryStore.v ===== *)
(** [SqliteMemoryStore] ([plugins/memory/src/storage/sqlite_store.rs]): storing,
    reading and updating memories and their embeddings, listing them and
    searching them by vector.

    An operation is a program of sections: each statement outside of a
    transaction and each transaction.  What [with_connection] runs holds the
    mutex of the store ([Locking], in [MemoryDb]). *)
From S2P Require Import Prelude Text Substring Table Threads Floats Memories MemoryDb Embeddings Forgetting.

Section Store.
Context `{MemoryHost} `{Locking} (scope : MemoryScope).

Definition locked {A} (m : Conn A) : MTask A := with_connection (section m).
Definition u32 (n : Z) : Z := (n mod 2 ^ 32)%Z.

(** ** Validation *)
Definition validate_unit_interval (field : string) (value : float) : Result StoreError unit :=
  if is_finite value && (fle fzero value && fle value F32.one) then Ok tt
  else Err (Validation (field +:+ " must be a finite value in the inclusive range 0.0..=1.0")).
Definition validate_memory_for_store (m : Memory) : Result StoreError unit :=
  _ ← fail_if (negb (bool_decide (m_scope m = scope)))
        (Validation ("memory scope " +:+ scope_to_db (m_scope m) +:+ " does not match store scope "
           +:+ scope_to_db scope));
  _ ← fail_if (bool_decide (trim (m_content m) = "")) (Validation "memory content must not be empty");
  _ ← validate_unit_interval "importance_score" (m_importance_score m);
  validate_unit_interval "reliability_score" (m_reliability_score m).
Definition of_result {A} (r : Result StoreError A) : MTask A := Return r.

(** ** Embeddings *)
Inductive EmbeddingTask := Document | Query.
Definition model_requires_nomic_task_prefix (model_id : string) : bool :=
  match strip_prefix (to_bytes "nomic-embed-text") (to_bytes (to_ascii_lowercase (trim model_id))) with
  | Some suffix => bool_decide (suffix = []) || starts_with (to_bytes ":") suffix
  | None => false
  end.
Definition prepare_embedding_input (model_id : string) (task : EmbeddingTask) (text : string) : string :=
  let trimmed := trim text in
  if decide (trimmed = "") then trimmed
  else if model_requires_nomic_task_prefix model_id then
    match task with Document => "search_document: " | Query => "search_query: " end +:+ trimmed
  else trimmed.
(** A call of the model, outside of the lock. *)
Definition generate_embedding (text : string) (task : EmbeddingTask) :
    Prog MemoryWorld (Result EmbeddingError (option (list float))) :=
  let trimmed := trim text in
  if decide (trimmed = "") then Return (Ok None)
  else match embedding_model with
       | None => Return (Ok None)
       | Some (model_id, embed) =>
           Atomic (fun w => (embed (mw_calls w) (prepare_embedding_input model_id task trimmed),
                             w <| mw_calls ::= S |>))
             (fun r => Return (e ← r; Ok (Some e)))
       end.

Definition vec_rowid_of (id : MemoryId) (db : MemoryDb) : option Z :=
  er_vec_rowid <$> find_by er_memory_id id (db_embeddings db).
Definition upsert_encoded_embedding (id : MemoryId) (encoded : bytes) (sha : string) : Conn unit :=
  existing ← query (vec_rowid_of id);
  _ ← match existing with
      | Some rowid => execute (fun db =>
          db <| db_vectors ::= update_where (fun r => bool_decide (fst r = rowid)) (fun r => (fst r, encoded)) |>
             <| db_embeddings ::= update_where (fun r => bool_decide (er_memory_id r = id))
                  (fun r => mkEmbeddingRow (er_memory_id r) (er_vec_rowid r) (Some sha)) |>)
      | None =>
          rowid ← query (fun db => next_rowid fst (db_vectors db));
          _ ← execute (fun db => db <| db_vectors ::= fun l => l ++ [(rowid, encoded)] |>);
          insert_referring [id] (fun db => db <| db_embeddings ::= fun l =>
            l ++ [mkEmbeddingRow id rowid (Some sha)] |>)
      end;
  update_memory id (fun m => m <| m_embedding_stale := false |>).
Definition decode_or_raise (encoded : bytes) (dimensions : Z) : Conn (list float) :=
  lift (decode_embedding encoded dimensions).

(** The newest fresh vector of the scope made of the same content. *)
Definition load_cached_embedding_blob (sha : string) (db : MemoryDb) : option bytes :=
  let newest (a b : Memory * bytes) := then_by (fun a b => Z.compare (m_updated_at (fst b)) (m_updated_at (fst a)))
    (fun a b => Z.compare (m_created_at (fst b)) (m_created_at (fst a))) a b in
  snd <$> head (order_by newest (omap (fun e =>
    m ← find_memory db (er_memory_id e);
    v ← find (fun v => bool_decide (fst v = er_vec_rowid e)) (db_vectors db);
    if bool_decide (er_content_sha256 e = Some sha) && bool_decide (m_scope m = scope)
       && negb (m_embedding_stale m)
    then Some (m, snd v) else None) (db_embeddings db))).
Definition reuse_cached_embedding (id : MemoryId) (sha : string) : MTask bool :=
  blob ← locked (query (load_cached_embedding_blob sha));
  match blob with
  | None => mret false
  | Some encoded => locked (transaction (
      _ ← require_memory_or_not_found id;
      dimensions ← load_embedding_dimensions;
      _ ← decode_or_raise encoded dimensions;
      _ ← upsert_encoded_embedding id encoded sha;
      mret true))
  end.
Definition store_embedding (id : MemoryId) (embedding : list float) : MTask unit :=
  _ ← guard_or (negb (bool_decide (embedding = []))) (Validation "embedding vector must not be empty");
  locked (transaction (
    m ← require_memory_or_not_found id;
    dimensions ← load_embedding_dimensions;
    _ ← check (Z.of_nat (length embedding) =? dimensions)%Z (Validation "embedding dimension mismatch");
    upsert_encoded_embedding id (encode_embedding embedding) (sha256_text (m_content m)))).

(** ** Storing *)
Definition insert_stored_memory (m : Memory) : Conn MemoryId :=
  transaction (
    _ ← insert_memory m;
    rowid ← require_memory_rowid (m_id m);
    _ ← sync_fts_entry rowid None m;
    mret (m_id m)).

(** Once the memory is stored no failure to embed it is reported. *)
Definition store (m0 : Memory) : MTask MemoryId :=
  let attempt := bool_decide (is_Some embedding_model) && negb (bool_decide (trim (m_content m0) = "")) in
  let m := if attempt then m0 <| m_embedding_stale := true |> else m0 in
  _ ← of_result (validate_memory_for_store m);
  id ← locked (insert_stored_memory m);
  let stored : MTask MemoryId := Return (Ok id) in
  if negb attempt then stored
  else prog_bind (reuse_cached_embedding id (sha256_text (m_content m))) (fun reused =>
    match reused with
    | Ok true => stored
    | _ => prog_bind (generate_embedding (m_content m) Document) (fun embedding =>
        match embedding with
        | Ok (Some embedding) => prog_bind (store_embedding id embedding) (fun _ => stored)
        | _ => stored
        end)
    end).

Definition insert_memory_without_embedding (m : Memory) : MTask unit :=
  _ ← of_result (validate_memory_for_store m);
  _ ← locked (insert_stored_memory m);
  mret tt.

(** ** Updating *)
Definition update_content (id : MemoryId) (new_content changed_by reason : string) : MTask unit :=
  let trimmed_content := trim new_content in
  _ ← guard_or (bool_decide (trimmed_content <> "")) (Validation "memory content must not be empty");
  _ ← guard_or (bool_decide (trim changed_by <> "")) (Validation "changed_by must not be empty");
  locked (transaction (
    m ← require_memory_or_not_found id;
    if decide (m_content m = trimmed_content) then mret tt
    else
      rowid ← require_memory_rowid id;
      changed_at ← now;
      _ ← insert_memory_version_row id (m_content m) changed_at (trim changed_by) reason;
      let m' := m <| m_content := trimmed_content |> <| m_embedding_stale := true |>
                  <| m_updated_at := changed_at |> in
      _ ← persist_memory m';
      sync_fts_entry rowid (Some m) m')).

Definition updated_status (u : option (OptionalFieldUpdate string)) (status : option string) : option string :=
  match u with Some (Set_ v) => Some v | Some Clear => None | None => status end.
Definition check_score (field : string) (value : option float) : Conn unit :=
  match value with
  | Some v => lift (validate_unit_interval field v)
  | None => mret tt
  end.
Definition updates_nothing (u : MetadataUpdate) : bool :=
  match u with mkMetadataUpdate None None None None None None => true | _ => false end.
Definition update_metadata (id : MemoryId) (u : MetadataUpdate) : MTask unit :=
  locked (transaction (
    m ← require_memory_or_not_found id;
    rowid ← require_memory_rowid id;
    _ ← check_score "importance_score" (mu_importance_score u);
    _ ← check_score "reliability_score" (mu_reliability_score u);
    if updates_nothing u then mret tt
    else
      t ← now;
      let m' := m <| m_tags := default (m_tags m) (mu_tags u) |>
                  <| m_status := updated_status (mu_status u) (m_status m) |>
                  <| m_custom_metadata := default (m_custom_metadata m) (mu_custom_metadata u) |>
                  <| m_importance_score := default (m_importance_score m) (mu_importance_score u) |>
                  <| m_reliability_score := default (m_reliability_score m) (mu_reliability_score u) |>
                  <| m_state := default (m_state m) (mu_state u) |> <| m_updated_at := t |> in
      _ ← persist_memory m';
      sync_fts_entry rowid (Some m) m')).

Definition transition_state (id : MemoryId) (target_state : MemoryState) : MTask unit :=
  locked (transaction (
    m ← require_memory_or_not_found id;
    _ ← check (negb (bool_decide (m_state m = Deleted)))
          (Validation ("memory " +:+ id +:+ " is logically deleted and cannot transition to "
             +:+ state_to_db target_state));
    if decide (m_state m = target_state) then mret tt
    else t ← now; persist_memory (m <| m_state := target_state |> <| m_updated_at := t |>))).
Definition make_dormant (id : MemoryId) : MTask unit := transition_state id Dormant.
Definition reactivate (id : MemoryId) : MTask unit := transition_state id Active.

(** ** Reading *)
Definition touch (id : MemoryId) (access_count t : Z) : Conn unit :=
  update_memory id (fun m => m <| m_access_count := access_count |> <| m_last_accessed_at := Some t |>).
Definition get (id : MemoryId) : MTask (option Memory) :=
  locked (transaction (
    m ← require_memory id;
    match m with
    | None => mret None
    | Some m =>
        let n := (m_access_count m + 1)%Z in
        _ ← check (n <? 2 ^ 32)%Z (Validation "access_count overflow");
        t ← now;
        _ ← touch id n t;
        mret (Some (m <| m_access_count := n |> <| m_last_accessed_at := Some t |>))
    end)).
Definition get_raw (id : MemoryId) : MTask (option Memory) := locked (require_memory id).

Definition option_is {A} `{EqDecision A} (wanted : option A) (actual : option A) : bool :=
  match wanted with Some a => bool_decide (actual = Some a) | None => true end.
Definition matches_filter (f : MemoryFilter) (m : Memory) : bool :=
  match mf_memory_types f with Some l => bool_decide (m_memory_type m ∈ l) | None => true end
  && match mf_provenance_levels f with Some l => bool_decide (m_provenance m ∈ l) | None => true end
  && match mf_tags f with Some l => forallb (fun t => bool_decide (t ∈ m_tags m)) l | None => true end.
Definition list_memories (f : MemoryFilter) : MTask (list Memory) :=
  if decide (mf_limit f = Some 0) then mret []
  else locked (query (fun db =>
    let rows := order_by (asc_Z (fun r => m_created_at (mr_memory r))) (select_where (fun r =>
      let m := mr_memory r in
      bool_decide (m_scope m = default scope (mf_scope f)) && option_is (mf_state f) (Some (m_state m))
      && option_is (mf_status f) (m_status m) && option_is (mf_tenant_id f) (m_tenant_id m)
      && option_is (mf_user_id f) (m_user_id m) && option_is (mf_agent_id f) (m_agent_id m)) (db_memories db)) in
    let found := List.filter (matches_filter f) (map mr_memory rows) in
    match mf_limit f with Some n => take n found | None => found end)).
Definition get_stale_embeddings (limit : nat) : MTask (list MemoryId) :=
  if decide (limit = 0) then mret []
  else locked (query (fun db =>
    take limit (map row_id (order_by (then_by (asc_Z (fun r => m_updated_at (mr_memory r)))
                                        (asc_Z (fun r => m_created_at (mr_memory r))))
      (select_where (fun r => bool_decide (m_scope (mr_memory r) = scope) && m_embedding_stale (mr_memory r))
         (db_memories db)))))).

(** *** Similar memories

    [vec_native] tells which of the two strategies the table allows: the
    search of sqlite-vec for the [pool_limit] nearest vectors, whose memories
    are filtered afterwards, or a comparison with every vector. *)
Definition vector_filter (scopes : list MemoryScope) (state : MemoryState) (m : Memory) : bool :=
  bool_decide (m_scope m ∈ scopes) && bool_decide (m_state m = state) && negb (m_embedding_stale m).
Definition memory_of_vector (db : MemoryDb) (rowid : Z) : option Memory :=
  e ← find (fun e => bool_decide (er_vec_rowid e = rowid)) (db_embeddings db);
  find_memory db (er_memory_id e).
Definition similar_enough (threshold similarity : float) : bool :=
  fle threshold similarity && flt fzero similarity.
Definition via_knn (scopes : list MemoryScope) (state : MemoryState) (embedding : list float)
    (threshold : float) (pool_limit : Z) (db : MemoryDb) : list (Memory * float) :=
  omap (fun '(rowid, distance) =>
    m ← memory_of_vector db rowid;
    distance ← distance;
    let similarity := F32.of_f64 (clamp (sub64 (F64.of_Z 1) distance) (F64.of_Z (-1)) (F64.of_Z 1)) in
    if vector_filter scopes state m && similar_enough threshold similarity
    then Some (m, similarity) else None)
    (vec_match (db_vectors db) (encode_embedding embedding) pool_limit).
Fixpoint score_vectors (embedding : list float) (dimensions : Z) (threshold : float)
    (rows : list (Memory * bytes)) : Result StoreError (list (Memory * float)) :=
  match rows with
  | [] => mret []
  | (m, encoded) :: rows =>
      stored ← decode_embedding encoded dimensions;
      similarity ← cosine_similarity embedding stored;
      rest ← score_vectors embedding dimensions threshold rows;
      mret (if similar_enough threshold similarity then (m, similarity) :: rest else rest)
  end.
Definition via_scan (scopes : list MemoryScope) (state : MemoryState) (embedding : list float)
    (dimensions : Z) (threshold : float) (db : MemoryDb) : Result StoreError (list (Memory * float)) :=
  score_vectors embedding dimensions threshold (omap (fun r =>
    let m := mr_memory r in
    e ← find_by er_memory_id (m_id m) (db_embeddings db);
    v ← find (fun v => bool_decide (fst v = er_vec_rowid e)) (db_vectors db);
    if vector_filter scopes state m then Some (m, snd v) else None) (db_memories db)).
Definition best_first (a b : ScoredMemory) : comparison :=
  then_by (fun a b => fcmp (sm_similarity b) (sm_similarity a))
    (then_by (fun a b => Z.compare (m_updated_at (sm_memory b)) (m_updated_at (sm_memory a)))
      (fun a b => String.compare (m_id (sm_memory b)) (m_id (sm_memory a)))) a b.
Definition validate_similarity_threshold (threshold : float) : Result StoreError unit :=
  if is_finite threshold && (fle fzero threshold && fle threshold F32.one) then Ok tt
  else Err (Validation "similarity threshold must be a finite value in the inclusive range 0.0..=1.0").
Definition validate_query_embedding (embedding : list float) (dimensions : Z) : Conn unit :=
  _ ← check (negb (bool_decide (embedding = []))) (Validation "embedding vector must not be empty");
  check (Z.of_nat (length embedding) =? dimensions)%Z (Validation "embedding dimension mismatch").
Definition find_similar (embedding : list float) (threshold : float) (limit : nat) : MTask (list ScoredMemory) :=
  if decide (limit = 0) then mret []
  else
    _ ← of_result (validate_similarity_threshold threshold);
    locked (
      dimensions ← load_embedding_dimensions;
      _ ← validate_query_embedding embedding dimensions;
      scores ←
        (if vec_native : bool
         then query (via_knn (visible_scopes scope) Active embedding threshold (Z.of_nat limit))
         else r ← query (via_scan (visible_scopes scope) Active embedding dimensions threshold); lift r);
      mret (take limit (order_by best_first
        (map (fun '(m, similarity) => mkScoredMemory m similarity similarity) scores)))).
End Store.
