(* ===== verification/MemoryCuration.v ===== *)
(** [SqliteMemoryStore], continued ([plugins/memory/src/storage/sqlite_store.rs]):
    deleting and purging, contradictions, links and their traversal,
    corroboration, rollback, promotion, the budget, feedback. *)
From stdpp Require Import pretty.
From S2P Require Import Prelude Text Substring Table Threads Floats Memories MemoryDb Embeddings Forgetting MemoryStore.

Section Curation.
Context `{MemoryHost} `{Locking} (scope : MemoryScope).

(** ** Deleting *)
Definition delete_vector (rowid : option Z) : Conn unit :=
  match rowid with
  | Some rowid => execute (fun db => db <| db_vectors ::= delete_where (fun r => bool_decide (fst r = rowid)) |>)
  | None => mret tt
  end.
Definition hard_delete (id : MemoryId) : MTask unit :=
  locked (transaction (
    m ← require_memory_or_not_found id;
    rowid ← require_memory_rowid id;
    vec_rowid ← query (vec_rowid_of id);
    _ ← delete_fts_entry rowid m;
    _ ← delete_vector vec_rowid;
    execute (delete_memories (fun m' => bool_decide (m_id m' = m_id m))))).

(** The rows of [memories] that satisfy [p], and what belongs to them: counted,
    deleted table by table, and the index rebuilt ([purge_user], [purge_scope]
    of both traits). *)
Definition selected (p : Memory -> bool) (db : MemoryDb) (id : MemoryId) : bool :=
  existsb (fun r => bool_decide (row_id r = id) && p (mr_memory r)) (db_memories db).
Definition count_where {R} (p : R -> bool) (l : list R) : Z := Z.of_nat (length (select_where p l)).
Definition purge_report (p : Memory -> bool) (db : MemoryDb) : PurgeReport :=
  let gone := selected p db in
  mkPurgeReport (count_where (fun r => p (mr_memory r)) (db_memories db))
    (count_where (fun v => gone (mv_memory_id v)) (db_versions db))
    (count_where (fun l => gone (ml_source_id l) || gone (ml_target_id l)) (db_links db))
    (count_where (fun c => gone (ce_memory_a_id c) || gone (ce_memory_b_id c)) (db_contradictions db))
    (count_where (fun e => gone (er_memory_id e)) (db_embeddings db)).
Definition purge_dependents (p : Memory -> bool) (db : MemoryDb) : MemoryDb :=
  let gone := selected p db in
  let vectors := map er_vec_rowid (select_where (fun e => gone (er_memory_id e)) (db_embeddings db)) in
  db <| db_contradictions ::= delete_where (fun c => gone (ce_memory_a_id c) || gone (ce_memory_b_id c)) |>
     <| db_links ::= delete_where (fun l => gone (ml_source_id l) || gone (ml_target_id l)) |>
     <| db_versions ::= delete_where (fun v => gone (mv_memory_id v)) |>
     <| db_vectors ::= delete_where (fun v => bool_decide (fst v ∈ vectors)) |>
     <| db_embeddings ::= delete_where (fun e => gone (er_memory_id e)) |>.
Definition purge_where (p : Memory -> bool) : Conn PurgeReport :=
  transaction (
    report ← query (purge_report p);
    _ ← execute (purge_dependents p);
    _ ← execute (delete_memories p);
    _ ← rebuild_fts;
    mret report).
Definition purge_user (user_id : string) : MTask PurgeReport :=
  let user_id := trim user_id in
  _ ← guard_or (bool_decide (user_id <> "")) (Validation "user_id must not be empty");
  locked (purge_where (fun m => bool_decide (m_user_id m = Some user_id))).
Definition purge_scope (s : MemoryScope) : MTask PurgeReport :=
  locked (purge_where (fun m => bool_decide (m_scope m = s))).
Definition purge_all : MTask PurgeReport :=
  locked (transaction (
    report ← query (fun db => mkPurgeReport (Z.of_nat (length (db_memories db)))
      (Z.of_nat (length (db_versions db))) (Z.of_nat (length (db_links db)))
      (Z.of_nat (length (db_contradictions db))) (Z.of_nat (length (db_embeddings db))));
    _ ← execute (fun db => db <| db_contradictions := [] |> <| db_links := [] |> <| db_versions := [] |>
          <| db_embeddings := [] |> <| db_vectors := [] |>);
    _ ← execute (delete_memories (fun _ => true));
    _ ← rebuild_fts;
    mret report)).

(** ** Contradictions *)
Definition record_contradiction (a b : MemoryId) (description : string) : MTask unit :=
  _ ← guard_or (bool_decide (a <> b)) (Validation "a contradiction requires two distinct memory ids");
  _ ← guard_or (bool_decide (trim description <> "")) (Validation "contradiction description must not be empty");
  locked (transaction (record_contradiction_row a b description)).
Definition update_contradiction_status (contradiction_id : string) (status : ResolutionStatus)
    (note : option string) : MTask unit :=
  let trimmed_id := trim contradiction_id in
  _ ← guard_or (bool_decide (trimmed_id <> "")) (Validation "contradiction id must not be empty");
  locked (transaction (
    let normalized_note := n ← note; if bool_decide (trim n <> "") then Some (trim n) else None in
    resolved_at ← (if decide (status = Unresolved) then mret None else t ← now; mret (Some t));
    found ← query (fun db => existsb (fun c => bool_decide (ce_id c = trimmed_id)) (db_contradictions db));
    _ ← execute (fun db => db <| db_contradictions ::=
          update_where (fun c => bool_decide (ce_id c = trimmed_id))
            (fun c => c <| ce_resolution_status := status |> <| ce_resolved_at := resolved_at |>
                        <| ce_resolution_note := normalized_note |>) |>);
    check found (Validation ("contradiction not found: " +:+ trimmed_id)))).
Definition list_contradictions (status : option ResolutionStatus) : MTask (list ContradictionEntry) :=
  locked (query (fun db =>
    let visible id := match find_memory db id with
      | Some m => bool_decide (m_scope m ∈ visible_scopes scope) | None => false end in
    order_by (then_by (fun a b => Z.compare (ce_detected_at b) (ce_detected_at a)) (asc_str ce_id))
      (select_where (fun c => visible (ce_memory_a_id c) && visible (ce_memory_b_id c)
        && match status with Some s => bool_decide (ce_resolution_status c = s) | None => true end)
        (db_contradictions db)))).

(** ** Versions and corrections *)
Definition list_versions (id : MemoryId) : MTask (list MemoryVersion) :=
  locked (
    _ ← require_memory_or_not_found id;
    query (fun db => order_by (then_by (fun a b => Z.compare (mv_version_number b) (mv_version_number a))
      (then_by (fun a b => Z.compare (mv_changed_at b) (mv_changed_at a)) (desc_str mv_id)))
      (versions_of id db))).
Definition list_corrections (memory_id : option MemoryId) (limit : nat) : MTask (list CorrectionRecord) :=
  if decide (limit = 0) then mret []
  else locked (
    _ ← match memory_id with
        | Some id => _ ← require_memory_or_not_found id; mret tt
        | None => mret tt
        end;
    query (fun db => take limit (order_by (then_by (fun a b => Z.compare (cr_corrected_at b) (cr_corrected_at a))
      (desc_str cr_id)) (select_where (fun c => option_is memory_id (Some (cr_memory_id c))) (db_corrections db))))).

Definition version_content (id : MemoryId) (version_number : Z) (db : MemoryDb) : option string :=
  mv_content <$> find (fun v => bool_decide (mv_memory_id v = id)
    && (mv_version_number v =? version_number)%Z) (db_versions db).
Definition rollback_to_version (id : MemoryId) (version_number : Z) : MTask unit :=
  with_connection (
    content ← section (
      c ← query (version_content id version_number);
      some_or_raise c (Validation ("version " +:+ pretty version_number +:+ " not found for memory " +:+ id)));
    section (transaction (
      m ← require_memory_or_not_found id;
      if decide (m_content m = content) then mret tt
      else
        rowid ← require_memory_rowid id;
        t ← now;
        _ ← insert_memory_version_row id (m_content m) t "system:rollback"
              ("rollback to version " +:+ pretty version_number);
        let m' := m <| m_content := content |> <| m_embedding_stale := true |> <| m_updated_at := t |> in
        _ ← persist_memory m';
        sync_fts_entry rowid (Some m) m'))).

(** ** Links *)
Definition record_link (source target : MemoryId) (relation_type : string) : MTask unit :=
  _ ← guard_or (bool_decide (source <> target)) (Validation "link source and target must be different memories");
  let relation := trim relation_type in
  _ ← guard_or (bool_decide (relation <> "")) (Validation "relation_type must not be empty");
  locked (record_link_row source target relation).
Definition list_links (id : MemoryId) : MTask (list MemoryLink) := locked (query (fun db => load_links db id)).
Definition delete_link (link_id : string) : MTask bool :=
  let trimmed := trim link_id in
  _ ← guard_or (bool_decide (trimmed <> "")) (Validation "link_id must not be empty");
  locked (
    found ← query (fun db => existsb (fun l => bool_decide (ml_id l = trimmed)) (db_links db));
    _ ← execute (fun db => db <| db_links ::= delete_where (fun l => bool_decide (ml_id l = trimmed)) |>);
    mret found).

Definition corroborate (source target : MemoryId) : MTask unit :=
  _ ← guard_or (bool_decide (source <> target))
        (Validation "corroboration source and target must be different memories");
  locked (transaction (
    _ ← require_memory_or_not_found source;
    m ← require_memory_or_not_found target;
    t ← now;
    let cap := F32.add (base_reliability (m_provenance m)) (F32.lit 2 10) in
    _ ← persist_memory (m <| m_corroboration_count := u32 (m_corroboration_count m + 1) |>
          <| m_reliability_score := fmin (F32.add (m_reliability_score m) (F32.lit 5 100)) cap |>
          <| m_updated_at := t |>);
    record_link_row source target "corroborates")).

(** *** Traversal: breadth first *)
Definition neighbor_id (current : MemoryId) (l : MemoryLink) : MemoryId :=
  if decide (ml_source_id l = current) then ml_target_id l else ml_source_id l.
Record Traversal := mkTraversal {
  tr_visited : list MemoryId; tr_queue : list (MemoryId * Z); tr_nodes : list GraphNode }.
(** The links of one memory, in their order: a statement looks each neighbour up. *)
Fixpoint visit_links (filter : option string) (current : MemoryId) (depth : Z) (links : list MemoryLink)
    (t : Traversal) : MTask Traversal :=
  match links with
  | [] => mret t
  | l :: links =>
      let id := neighbor_id current l in
      if negb (option_is filter (Some (ml_relation_type l))) then visit_links filter current depth links t
      else if decide (id ∈ tr_visited t) then visit_links filter current depth links t
      else
        neighbor ← section (require_memory id);
        visit_links filter current depth links
          match neighbor with
          | Some m => mkTraversal (id :: tr_visited t) (tr_queue t ++ [(id, depth + 1)%Z])
                        (tr_nodes t ++ [mkGraphNode m (depth + 1) [l]])
          | None => mkTraversal (id :: tr_visited t) (tr_queue t) (tr_nodes t)
          end
  end.
(** The loop over the queue, which takes from its front and appends to its end.
    It is written as two, so that it is seen to end: [pop_level] takes the [n]
    entries that the queue had, [walk] does so for each depth up to
    [max_depth].  The queue is then empty ([MemoryOutcomes.walk_empties_the_queue]),
    whatever others do to the database meanwhile. *)
Fixpoint pop_level (max_depth : Z) (filter : option string) (n : nat) (t : Traversal) : MTask Traversal :=
  match n, tr_queue t with
  | S n, (current, depth) :: queue =>
      let t := mkTraversal (tr_visited t) queue (tr_nodes t) in
      if (max_depth <=? depth)%Z then pop_level max_depth filter n t
      else
        links ← section (query (fun db => load_links db current));
        t ← visit_links filter current depth links t;
        pop_level max_depth filter n t
  | _, _ => mret t
  end.
Fixpoint walk (max_depth : Z) (filter : option string) (levels : nat) (t : Traversal) : MTask Traversal :=
  match levels with
  | O => mret t
  | S levels => t ← pop_level max_depth filter (length (tr_queue t)) t; walk max_depth filter levels t
  end.
Definition traverse_links (start_id : MemoryId) (max_depth : Z) (filter : option string) :
    MTask GraphTraversalResult :=
  with_connection (
    start ← section (require_memory_or_not_found start_id);
    t ← walk max_depth filter (S (Z.to_nat max_depth))
          (mkTraversal [start_id] [(start_id, 0%Z)] [mkGraphNode start 0 []]);
    mret (mkGraphTraversalResult start_id max_depth (tr_nodes t))).

(** ** Promotion *)
Definition record_promotion (m : Memory) (to_scope : MemoryScope) (reason changed_by : string)
    (trigger_session_id : option string) : Conn Memory :=
  if decide (m_scope m = to_scope) then mret m
  else
    t ← now;
    _ ← insert_memory_version_row (m_id m) (m_content m) t changed_by
          ("scope promotion: " +:+ scope_to_db (m_scope m) +:+ " -> " +:+ scope_to_db to_scope
             +:+ " (" +:+ reason +:+ ")");
    u ← fresh_uuid;
    _ ← insert_referring [m_id m] (fun db => db <| db_promotions ::= fun l =>
          l ++ [mkPromotionRow u (m_id m) (m_scope m) to_scope reason trigger_session_id t] |>);
    let m' := m <| m_scope := to_scope |> <| m_updated_at := t |> in
    _ ← persist_memory m';
    rowid ← require_memory_rowid (m_id m);
    _ ← sync_fts_entry rowid (Some m) m';
    mret m'.

Definition promote_memory_to (id : MemoryId) (to_scope : MemoryScope) (changed_by reason : string)
    (trigger_session_id : option string) : MTask (option Memory) :=
  with_connection (
    _ ← section load_scope_config;
    section (transaction (
      m ← require_memory id;
      match m with
      | None => mret None
      | Some m =>
          if decide (m_scope m = to_scope) then mret (Some m)
          else
            _ ← check (can_promote_to (m_scope m) to_scope)
                  (Validation ("cannot promote memory " +:+ m_id m +:+ " from " +:+ scope_to_db (m_scope m)
                     +:+ " to " +:+ scope_to_db to_scope));
            m' ← record_promotion m to_scope reason changed_by trigger_session_id;
            mret (Some m')
      end))).

Definition distinct_sessions (id : MemoryId) (db : MemoryDb) : Z :=
  Z.of_nat (length (remove_dups (map sa_session_id
    (select_where (fun a => bool_decide (sa_memory_id a = id)) (db_accesses db))))).
(** Three sessions, two corroborations, or seven days of keeping its weight. *)
Definition promotion_target (m : Memory) (config : ScopeConfig) : Conn (option MemoryScope) :=
  match next_scope (m_scope m) with
  | None => mret None
  | Some next =>
      sessions ← query (distinct_sessions (m_id m));
      if bool_decide (m_scope m = Session) && (3 <=? sessions)%Z then mret (Some Workspace)
      else if (2 <=? m_corroboration_count m)%Z then mret (Some next)
      else
        t ← now;
        if (7 <=? num_days (t - m_updated_at m))%Z then
          t ← now;
          mret (if fle (F64.lit 4 10) (F64.mul (F64.of_f32 (m_importance_score m)) (retention m t config))
                then Some next else None)
        else mret None
  end.
Fixpoint promote_each (config : ScopeConfig) (trigger_session_id : option string) (reason : string)
    (memories : list Memory) : MTask (list Memory) :=
  match memories with
  | [] => mret []
  | m :: memories =>
      target ← section (promotion_target m config);
      match target with
      | None => promote_each config trigger_session_id reason memories
      | Some to_scope =>
          promoted ← section (transaction (
            latest ← require_memory (m_id m);
            match latest with
            | None => mret None
            | Some latest =>
                m' ← record_promotion latest to_scope reason "system:promotion" trigger_session_id;
                mret (Some m')
            end));
          rest ← promote_each config trigger_session_id reason memories;
          mret (match promoted with Some m' => m' :: rest | None => rest end)
      end
  end.
Definition recently_updated (a b : Memory) : comparison :=
  then_by (fun a b => Z.compare (m_updated_at b) (m_updated_at a)) (desc_str m_id) a b.
Definition run_promotion_pass (limit : option nat) (trigger_session_id : option string) : MTask (list Memory) :=
  with_connection (
    config ← section load_scope_config;
    memories ← section (query (load_search_memories (visible_scopes scope) Active None None));
    let memories := order_by recently_updated memories in
    let memories := match limit with Some n => take n memories | None => memories end in
    promote_each config trigger_session_id "automatic promotion pass" memories).

(** ** The budget *)
Definition budget_default : Z :=
  match scope with Workspace => 500 | User => 1000 | Agent => 200 | Session => 0 end.
Definition live_storage_bytes : Conn Z := fun w =>
  let '(page_count, page_size, freelist_count) := pages (mw_calls w) in
  (Ok (Z.max 0 (page_count - freelist_count) * page_size)%Z, w <| mw_calls ::= S |>).

(** The first phase of [run_enforce_budget], which runs it when the budget is
    not 0. *)
Definition demote_excess (policy : ForgettingPolicy) (budget_active_max : Z) : MTask Z :=
  active ← section (query (count_memories_by_state scope Active));
  if (active <=? budget_active_max)%Z then mret 0%Z
  else
    active_memories ← section (query (load_search_memories [scope] Active None None));
    config ← section load_scope_config;
    t ← section now;
    let context := retention_context_for t config active_memories in
    let sorted := order_by (eviction_order policy context) active_memories in
    let to_demote := take (Z.to_nat (active - budget_active_max)) sorted in
    _ ← section (transaction (for_rows to_demote (fun m =>
          persist_memory (m <| m_state := Dormant |> <| m_updated_at := t |>))));
    mret (Z.of_nat (length to_demote)).

Definition delete_dormant (m : Memory) : Conn unit :=
  transaction (
    rowid ← require_memory_rowid (m_id m);
    vec_rowid ← query (vec_rowid_of (m_id m));
    _ ← delete_fts_entry rowid m;
    _ ← delete_vector vec_rowid;
    let is_it id := bool_decide (id = m_id m) in
    _ ← execute (fun db => db
          <| db_embeddings ::= delete_where (fun e => is_it (er_memory_id e)) |>
          <| db_versions ::= delete_where (fun v => is_it (mv_memory_id v)) |>
          <| db_links ::= delete_where (fun l => is_it (ml_source_id l) || is_it (ml_target_id l)) |>
          <| db_contradictions ::=
               delete_where (fun c => is_it (ce_memory_a_id c) || is_it (ce_memory_b_id c)) |>);
    execute (delete_memories (fun m' => is_it (m_id m')))).
Fixpoint delete_until (cap_bytes : Z) (memories : list Memory) : MTask Z :=
  match memories with
  | [] => mret 0%Z
  | m :: memories =>
      _ ← section (delete_dormant m);
      live ← section live_storage_bytes;
      if (live <=? cap_bytes)%Z then mret 1%Z
      else n ← delete_until cap_bytes memories; mret (n + 1)%Z
  end.
(** The second phase. *)
Definition delete_excess (policy : ForgettingPolicy) (cap_bytes : Z) : MTask Z :=
  live ← section live_storage_bytes;
  if (live <=? cap_bytes)%Z then mret 0%Z
  else
    dormant_memories ← section (query (load_search_memories [scope] Dormant None None));
    config ← section load_scope_config;
    t ← section now;
    let context := retention_context_for t config dormant_memories in
    delete_until cap_bytes (order_by (eviction_order policy context) dormant_memories).

Definition run_enforce_budget (policy : ForgettingPolicy) : MTask (Z * Z) :=
  budget_active_max ← section (load_parsed (parse_unsigned 64) "budget_active_max" budget_default);
  storage_cap_mb ← section (load_parsed (parse_unsigned 64) "storage_cap_mb" 512%Z);
  dormant_count ← (if (0 <? budget_active_max)%Z then demote_excess policy budget_active_max else mret 0%Z);
  let cap_bytes := ((storage_cap_mb * 1024 * 1024) mod 2 ^ 64)%Z in
  deleted_count ← delete_excess policy cap_bytes;
  mret (dormant_count, deleted_count).
Definition enforce_budget : MTask (Z * Z) :=
  with_connection (
    policy ← section resolve_configured_forgetting_policy;
    run_enforce_budget policy).
Definition enforce_budget_with_policy (policy : ForgettingPolicy) : MTask (Z * Z) :=
  with_connection (run_enforce_budget policy).

(** ** Feedback *)
Definition record_feedback (memory_id : MemoryId) (query_text : string) (was_relevant : bool) :
    MTask RetrievalFeedback :=
  with_connection (
    m ← section (require_memory_or_not_found memory_id);
    section (transaction (
      u ← fresh_uuid;
      t ← now;
      let feedback := mkRetrievalFeedback u memory_id was_relevant (Some query_text) t in
      _ ← insert_referring [memory_id] (fun db => db <| db_feedback ::= fun l => l ++ [feedback] |>);
      _ ← persist_memory (if was_relevant then m <| m_access_count := u32 (m_access_count m + 1) |>
            else m <| m_importance_score := fmax (F32.sub (m_importance_score m) (F32.lit 2 100)) fzero |>);
      weights ← compute_learned_weights;
      _ ← persist_learned_weights weights;
      mret feedback))).
Definition mark_consolidation_run : MTask unit :=
  locked (t ← now; execute (set_config_value "last_consolidation_at" (timestamp_text t))).
End Curation.
