(* ===== verification/SalienceGate.v ===== *)
(** The salience gate ([plugins/memory/src/gate.rs]): whether a candidate is
    stored, archived, merged into a memory, reported as a contradiction of one,
    or rejected.

    The gate asks its store for the most similar memory ([SimilarStore]), a
    language model whether two texts agree, and otherwise two heuristics over
    words for a contradiction of technologies or of numbers. *)
From Stdlib Require Import Ascii.
From S2P Require Import Prelude Text Substring Table Threads Floats Memories MemoryDb Embeddings Forgetting MemoryStore.

(** ** Words of two texts *)
Section Words.
Context `{MemoryHost}.

Definition subject_fillers : list string :=
  ["a"; "an"; "and"; "are"; "avec"; "de"; "des"; "du"; "en"; "est"; "et"; "in"; "is"; "la"; "le"; "les";
   "the"; "use"; "uses"; "using"; "with"].
Definition is_subject_filler (token : string) : bool := bool_decide (token ∈ subject_fillers).
Definition is_searchable_term_filler (token : string) : bool :=
  is_subject_filler token || bool_decide (token = "tout").

Fixpoint drop_underscores (l : bytes) : bytes :=
  match l with c :: l' => if decide (c = "_"%char) then drop_underscores l' else l | [] => [] end.
Definition trim_underscores (s : string) : string :=
  of_bytes (rev (drop_underscores (rev (drop_underscores (to_bytes s))))).
Definition normalize_searchable_term (token : string) : option string :=
  let normalized := to_lowercase (trim_underscores token) in
  if (String.length normalized <? 2)%nat || is_searchable_term_filler normalized then None
  else Some normalized.
Definition collect_searchable_terms (token : string) : list string :=
  match normalize_searchable_term token with
  | None => []
  | Some t => t :: omap normalize_searchable_term (split_compound_search_term token)
  end.
Definition searchable_terms (content : string) : list string :=
  remove_dups (concat (map collect_searchable_terms (word_tokens "" (chars content)))).

Definition candidate_is_clearly_more_detailed (existing candidate : string) : bool :=
  (length (chars existing) * 6 / 5 <? length (chars candidate))%nat.
Definition count_in (l l' : list string) : nat := length (List.filter (fun t => bool_decide (t ∈ l')) l).
Definition candidate_adds_material_search_terms (existing candidate : string) : bool :=
  let old := searchable_terms existing in
  let new := searchable_terms candidate in
  if (length old =? 0)%nat || (length new <=? length old)%nat then false
  else
    let overlap := count_in old new in
    let added := (length new - overlap)%nat in
    let removed := (length old - overlap)%nat in
    (0 <? added)%nat && (removed <? added)%nat && (length old <=? overlap * 2)%nat.

(** *** Facts about technologies and numbers *)
Definition keeps_token (c : string) : bool :=
  is_alphanumeric c || bool_decide (c ∈ ["#"; "+"; "."; "%"; "-"]).
Fixpoint heuristic_tokens_from (current : string) (cs : list string) : list string :=
  match cs with
  | [] => if decide (current = "") then [] else [current]
  | c :: cs' =>
      if keeps_token c then heuristic_tokens_from (current +:+ to_ascii_lowercase c) cs'
      else if decide (current = "") then heuristic_tokens_from "" cs'
      else current :: heuristic_tokens_from "" cs'
  end.
Definition heuristic_tokens (content : string) : list string := heuristic_tokens_from "" (chars content).

(** [reversed]: the tokens before a position, the nearest first. *)
Definition subject_from_prefix (reversed : list string) : option string :=
  match take 3 (List.filter (fun t => negb (is_subject_filler t)) reversed) with
  | [] => None
  | subject_tokens => Some (join " " (rev subject_tokens))
  end.

Definition languages : list (string * string) :=
  [(".net", ".net"); ("asp.net", "asp.net"); ("c#", "c#"); ("csharp", "c#"); ("f#", "f#"); ("go", "go");
   ("golang", "go"); ("java", "java"); ("javascript", "javascript"); ("kotlin", "kotlin"); ("php", "php");
   ("python", "python"); ("ruby", "ruby"); ("rust", "rust"); ("swift", "swift"); ("typescript", "typescript")].
Definition frameworks : list (string * string) :=
  [("actix", "actix"); ("angular", "angular"); ("axum", "axum"); ("django", "django"); ("fastapi", "fastapi");
   ("flask", "flask"); ("grpc", "grpc"); ("react", "react"); ("tauri", "tauri"); ("vue", "vue")].
Definition storages : list (string * string) :=
  [("mssql", "mssql"); ("mysql", "mysql"); ("postgres", "postgres"); ("postgresql", "postgres");
   ("redis", "redis"); ("sqlite", "sqlite")].
Definition canonical_technology_value (token : string) : option (string * string) :=
  match find_by fst token languages, find_by fst token frameworks, find_by fst token storages with
  | Some v, _, _ => Some (snd v, "language")
  | None, Some v, _ => Some (snd v, "framework")
  | None, None, Some v => Some (snd v, "storage")
  | None, None, None => None
  end.

Record TechnologyFact := mkTechnologyFact { tf_subject : string; tf_category : string; tf_values : list string }.
Record NumericFact := mkNumericFact { nf_subject : string; nf_value : string }.

(** Every (subject, category, value) of the verbs of a text. *)
Fixpoint technology_entries (reversed rest : list string) : list (string * string * string) :=
  match rest with
  | [] => []
  | t :: rest' =>
      (if bool_decide (t ∈ ["is"; "are"; "est"; "uses"; "use"; "using"]) then
         match subject_from_prefix reversed with
         | Some subject => map (fun v => (subject, snd v, fst v)) (omap canonical_technology_value (take 8 rest'))
         | None => []
         end
       else []) ++ technology_entries (t :: reversed) rest'
  end.
Definition key_leb (a b : string * string) : bool :=
  leb_by (then_by (asc_str fst) (asc_str snd)) a b.
(** The facts in the order of the [BTreeMap]: by subject, then category. *)
Definition extract_technology_facts (content : string) : list TechnologyFact :=
  let entries := technology_entries [] (heuristic_tokens content) in
  let keys := dedup_by (fun a b => bool_decide (a = b)) (sort_by key_leb (map fst entries)) in
  map (fun k => mkTechnologyFact (fst k) (snd k)
    (sorted_dedup (map snd (List.filter (fun e => bool_decide (fst e = k)) entries)))) keys.

Definition subset (l l' : list string) : bool := forallb (fun v => bool_decide (v ∈ l')) l.
Definition disjoint_values (l l' : list string) : bool := forallb (fun v => negb (bool_decide (v ∈ l'))) l.
Definition technology_values_for_subject (facts : list TechnologyFact) (subject : string) : list string :=
  sorted_dedup (concat (map tf_values (List.filter (fun f => bool_decide (tf_subject f = subject)) facts))).
Definition technology_conflict (existing candidate : TechnologyFact) : bool :=
  bool_decide (tf_subject existing = tf_subject candidate)
  && bool_decide (tf_category existing = tf_category candidate)
  && negb (subset (tf_values existing) (tf_values candidate) || subset (tf_values candidate) (tf_values existing))
  && disjoint_values (tf_values existing) (tf_values candidate).
Fixpoint first_pair {A B} (p : A -> B -> bool) (l : list A) (l' : list B) : option (A * B) :=
  match l with
  | [] => None
  | a :: l => match find (p a) l' with Some b => Some (a, b) | None => first_pair p l l' end
  end.
Definition detect_technology_contradiction (existing candidate : string) : option string :=
  let old := extract_technology_facts existing in
  let new := extract_technology_facts candidate in
  '(a, b) ← first_pair technology_conflict old new;
  Some ("Conflicting technology values detected for " +:+ tf_subject a +:+ ": "
    +:+ join ", " (technology_values_for_subject old (tf_subject a)) +:+ " vs "
    +:+ join ", " (technology_values_for_subject new (tf_subject b))).

Definition is_digit_or_dot (c : ascii) : bool := is_digit c || bool_decide (c = "."%char).
Definition is_plain_numeric_token (token : bytes) : bool :=
  negb (bool_decide (token = [])) && forallb is_digit_or_dot token.
Definition is_unit_token (token : bytes) : bool :=
  negb (bool_decide (token = []))
  && forallb (fun c => is_lower (ascii_lower c) || bool_decide (c = "%"%char)) token.
Fixpoint split_number (l : bytes) : bytes * bytes :=
  match l with
  | c :: l' => if is_digit_or_dot c then let '(n, u) := split_number l' in (c :: n, u) else ([], l)
  | [] => ([], [])
  end.
Definition split_inline_numeric_value (token : string) : option (string * string) :=
  let '(number, unit) := split_number (to_bytes token) in
  if is_plain_numeric_token number && is_unit_token unit then Some (of_bytes number, of_bytes unit) else None.
(** The value at the head of the tokens, and whether it takes two of them. *)
Definition normalize_numeric_value (rest : list string) : option (string * bool) :=
  match rest with
  | [] => None
  | t :: rest' =>
      match split_inline_numeric_value t with
      | Some (number, unit) => Some (number +:+ unit, false)
      | None =>
          match rest' with
          | unit :: _ =>
              if is_plain_numeric_token (to_bytes t) && is_unit_token (to_bytes unit)
              then Some (t +:+ unit, true) else None
          | [] => None
          end
      end
  end.
Fixpoint numeric_facts (reversed rest : list string) : list NumericFact :=
  match rest with
  | [] => []
  | t :: rest' =>
      match normalize_numeric_value rest with
      | None => numeric_facts (t :: reversed) rest'
      | Some (value, two) =>
          (match subject_from_prefix reversed with Some s => [mkNumericFact s value] | None => [] end)
          ++ match two, rest' with
             | true, u :: rest'' => numeric_facts (u :: t :: reversed) rest''
             | _, _ => numeric_facts (t :: reversed) rest'
             end
      end
  end.
Definition extract_numeric_facts (content : string) : list NumericFact := numeric_facts [] (heuristic_tokens content).
Definition numeric_conflict (a b : NumericFact) : bool :=
  bool_decide (nf_subject a = nf_subject b) && bool_decide (nf_value a <> nf_value b).
Definition detect_numeric_contradiction (existing candidate : string) : option string :=
  '(a, b) ← first_pair numeric_conflict (extract_numeric_facts existing) (extract_numeric_facts candidate);
  Some ("Conflicting numeric values detected for " +:+ nf_subject a +:+ ": " +:+ nf_value a +:+ " vs " +:+ nf_value b).
Definition contradiction_description (existing candidate : string) : option string :=
  match detect_technology_contradiction existing candidate with
  | Some d => Some d
  | None => detect_numeric_contradiction existing candidate
  end.

(** *** Merging *)
Definition merge_content (existing candidate : string) (similarity : float) : string :=
  let existing := trim existing in
  let candidate := trim candidate in
  let normalized_existing := normalize_for_merge existing in
  let normalized_candidate := normalize_for_merge candidate in
  if fle (F32.lit 95 100) similarity then candidate
  else if decide (normalized_existing = normalized_candidate) then existing
  else if contains (to_bytes normalized_existing) (to_bytes normalized_candidate)
          || candidate_is_clearly_more_detailed existing candidate
          || candidate_adds_material_search_terms existing candidate then candidate
  else existing.
End Words.

(** ** The verdict of a language model *)
Inductive LlmContradictionVerdict := Agree | Contradict (description : string) | Unrelated.
Definition newline : string := String (ascii_of_nat 10) "".
Definition build_contradiction_prompt (existing candidate : string) : string :=
  "You are a fact-checking agent. Determine if these two memories contradict each other." +:+ newline +:+ newline +:+
  "Rules:" +:+ newline +:+
  "- A contradiction means they make incompatible claims about the same subject." +:+ newline +:+
  "- Additive information (one has more detail) is NOT a contradiction." +:+ newline +:+
  "- Rephrasing the same fact is NOT a contradiction." +:+ newline +:+
  "- Respond ONLY with one of: AGREE, CONTRADICT, or UNRELATED." +:+ newline +:+
  "- If CONTRADICT, add a brief explanation after a colon." +:+ newline +:+ newline +:+
  "Memory A:" +:+ newline +:+ existing +:+ newline +:+ newline +:+
  "Memory B:" +:+ newline +:+ candidate +:+ newline +:+ newline +:+ "Verdict:".
Definition ascii_upper (c : ascii) : ascii :=
  let n := nat_of_ascii c in
  if (97 <=? n)%nat && (n <=? 122)%nat then ascii_of_nat (n - 32) else c.
Definition no_details : string := "llm contradiction check flagged incompatible claims".
Definition parse_contradiction_response (response : string) : option LlmContradictionVerdict :=
  let trimmed := trim response in
  let uppercase := map_string ascii_upper trimmed in
  if decide (trimmed = "") then None
  else if decide (uppercase = "AGREE") then Some Agree
  else if decide (uppercase = "UNRELATED") then Some Unrelated
  else if starts_with (to_bytes "CONTRADICT") (to_bytes uppercase) then
    let description := match split_on ":"%char (to_bytes trimmed) with
      | _ :: (_ :: _) as pieces =>
          trim (of_bytes (drop (S (length (hd [] (split_on ":"%char (to_bytes trimmed))))) (to_bytes trimmed)))
      | _ => no_details end in
    Some (Contradict (if decide (description = "") then no_details else description))
  else None.

(** ** The gate *)
Class SimilarStore := {
  similar_scope : MemoryScope;
  similar : list float -> float -> nat -> MTask (list ScoredMemory) }.

Section Gate.
Context `{MemoryHost} `{SimilarStore} (config : ScopeConfig)
  (model : option (nat -> string -> option string)).

Definition GTask (A : Type) := Task MemoryWorld GateError A.

Definition validate_candidate (c : MemoryCandidate) : Result GateError unit :=
  _ ← fail_if (bool_decide (trim (mc_content c) = "")) (InvalidCandidate "candidate content must not be empty");
  _ ← fail_if (negb (fle fzero (mc_importance_score c) && fle (mc_importance_score c) F32.one)
               || negb (is_finite (mc_importance_score c)))
        (InvalidCandidate "candidate importance_score must be finite and within 0.0..=1.0");
  fail_if (match mc_embedding c with Some [] => true | _ => false end)
    (InvalidCandidate "candidate embedding must not be empty when provided").

Definition unit_clamp (x : float) : float := clamp x fzero F32.one.
Definition merge_threshold : float := unit_clamp (sc_merge_similarity_threshold config).
Definition novelty_floor : float := fmin (unit_clamp (sc_novelty_doubt_threshold config)) merge_threshold.
Definition should_merge (similarity : float) : bool := fle merge_threshold similarity.
Definition is_likely_duplicate (similarity : float) : bool :=
  fle novelty_floor similarity && flt similarity merge_threshold.

Definition llm_contradiction_verdict (existing candidate : string) :
    Prog MemoryWorld (option LlmContradictionVerdict) :=
  match model with
  | None => Return None
  | Some complete =>
      Atomic (fun w => (complete (mw_calls w) (build_contradiction_prompt existing candidate),
                        w <| mw_calls ::= S |>))
        (fun response => Return (r ← response; parse_contradiction_response r))
  end.

Definition novelty_embedding (c : MemoryCandidate) : Prog MemoryWorld (option (list float)) :=
  match mc_embedding c with
  | Some e => Return (Some e)
  | None => prog_bind (generate_embedding (mc_content c) Document) (fun r =>
      Return (match r with
              | Ok (Some []) => None
              | Ok e => e
              | Err _ => None
              end))
  end.

(** What the most similar memory decides: a decision, or the likely duplicate
    to mention. *)
Definition promotes_to (best : ScoredMemory) : option MemoryScope :=
  if (scope_rank (m_scope (sm_memory best)) <? scope_rank similar_scope)%Z then Some similar_scope else None.
Definition merge_decision (c : MemoryCandidate) (best : ScoredMemory) : GateDecision :=
  Merge (m_id (sm_memory best)) (merge_content (m_content (sm_memory best)) (mc_content c) (sm_similarity best))
    (promotes_to best).
Definition judge_match (c : MemoryCandidate) (best : ScoredMemory) :
    Prog MemoryWorld (GateDecision + option (MemoryId * float)) :=
  let existing := sm_memory best in
  if (scope_rank similar_scope <? scope_rank (m_scope existing))%Z then
    Return (inl (Reject ("near-duplicate already exists in higher scope " +:+ scope_to_db (m_scope existing)
      +:+ " (" +:+ m_id existing +:+ ")")))
  else if should_merge (sm_similarity best) then
    prog_bind (llm_contradiction_verdict (m_content existing) (mc_content c)) (fun verdict =>
      Return (inl (match verdict with
        | Some Agree => merge_decision c best
        | Some (Contradict description) => Contradiction (m_id existing) description
        | Some Unrelated => Accept None None
        | None =>
            match contradiction_description (m_content existing) (mc_content c) with
            | Some description => Contradiction (m_id existing) description
            | None => merge_decision c best
            end
        end)))
  else Return (inr (if is_likely_duplicate (sm_similarity best)
                    then Some (m_id existing, sm_similarity best) else None)).

Definition judge_salience (c : MemoryCandidate) (likely_duplicate : option (MemoryId * float)) : GateDecision :=
  if flt (mc_importance_score c) (sc_salience_threshold config) then Archive
  else if bool_decide (mc_provenance c = AgentInferred)
          && flt (mc_importance_score c) (sc_agent_inferred_importance_threshold config) then Archive
  else Accept (fst <$> likely_duplicate) (snd <$> likely_duplicate).

Definition evaluate_internal (c : MemoryCandidate) (excluded_id : option MemoryId) : GTask GateDecision :=
  _ ← (Return (validate_candidate c) : GTask unit);
  prog_bind (novelty_embedding c) (fun embedding =>
    match embedding with
    | None => Return (Ok (judge_salience c None))
    | Some embedding =>
        matches ← map_err GateStore
          (similar embedding novelty_floor (if excluded_id : option MemoryId then 2 else 1));
        match find (fun s => negb (bool_decide (excluded_id = Some (m_id (sm_memory s))))) matches with
        | None => Return (Ok (judge_salience c None))
        | Some best => prog_bind (judge_match c best) (fun judged =>
            Return (Ok (match judged with
                        | inl decision => decision
                        | inr likely_duplicate => judge_salience c likely_duplicate
                        end)))
        end
    end).
Definition evaluate (c : MemoryCandidate) : GTask GateDecision := evaluate_internal c None.
Definition evaluate_excluding (c : MemoryCandidate) (excluded_id : MemoryId) : GTask GateDecision :=
  evaluate_internal c (Some excluded_id).
End Gate.

(** [SqliteMemoryStore] as the gate's store. *)
Definition sqlite_similar `{MemoryHost} `{Locking} (scope : MemoryScope) : SimilarStore :=
  {| similar_scope := scope; similar := find_similar scope |}.
