(* ===== verification/MemoryReview.v ===== *)
(** What enters the memory store through a review
    ([plugins/memory/src/storage/sqlite_store.rs]): corrections by the user,
    memories shared by other agents, and the quarantine of memories that look
    poisoned.  With it every call of the store is defined, and [memory_call]
    makes them one type. *)
From S2P Require Import Prelude Text Substring Table Threads Floats Memories MemoryDb Embeddings Forgetting MemoryStore MemoryCuration SalienceGate.

Section Review.
Context `{MemoryHost} `{Locking} (scope : MemoryScope).

(** The gate of the store: no language model. *)
Definition gate_error (label : string) (e : GateError) : StoreError :=
  match e with
  | GateStore e => e
  | GateEmbedding _ => Validation (label +:+ " gate evaluation failed: embedding error")
  | InvalidCandidate m => Validation (label +:+ " gate evaluation failed: invalid candidate: " +:+ m)
  end.
(** [Iterator::max_by_key]: the last of the largest. *)
Definition max_by_scope (l : list Memory) : option Memory :=
  fold_left (fun best m => match best with
    | Some b => if (scope_rank (m_scope b) <=? scope_rank (m_scope m))%Z then Some m else Some b
    | None => Some m
    end) l None.
(** The visible active memories with the same words. *)
Definition exact_matches (keep : Memory -> bool) (content : string) (db : MemoryDb) : option Memory :=
  max_by_scope (List.filter (fun m => keep m && bool_decide
      (normalize_shared_import_content (m_content m) = normalize_shared_import_content content))
    (load_search_memories (visible_scopes scope) Active None None db)).

(** ** Corrections *)
Definition exact_correction_duplicate_decision (excluded_id : MemoryId) (content : string) :
    MTask (option GateDecision) :=
  if decide (normalize_shared_import_content content = "") then mret None
  else
    m ← locked (query (exact_matches (fun m => negb (bool_decide (m_id m = excluded_id))) content));
    mret (match m with Some m => Some (Merge (m_id m) (m_content m) None) | None => None end).
Definition correction_candidate (m : Memory) (content : string) : MemoryCandidate :=
  mkMemoryCandidate content (m_summary m) (m_memory_type m) (m_provenance m) (m_importance_score m)
    (m_sensitivity m) (m_tags m) (m_custom_metadata m) None.
Definition load_config : MTask ScopeConfig := locked load_scope_config.
Definition evaluate_correction_decision (id : MemoryId) (m : Memory) (content : string) : MTask GateDecision :=
  exact ← exact_correction_duplicate_decision id content;
  match exact with
  | Some decision => mret decision
  | None =>
      config ← load_config;
      map_err (gate_error "correction")
        (evaluate_excluding (H0 := sqlite_similar scope) config None (correction_candidate m content) id)
  end.

Definition raised (m : Memory) : float := fmin (F32.add (m_reliability_score m) (F32.lit 1 10)) F32.one.
(** What a merge does to its target; the content to embed anew, if it changed. *)
Definition merge_correction (id target_id : MemoryId) (enriched_content corrected_by reason : string) (t : Z) :
    Conn (option (MemoryId * string)) :=
  target ← require_memory_or_not_found target_id;
  rowid ← require_memory_rowid target_id;
  let changed := bool_decide (m_content target <> enriched_content) in
  _ ← (if changed then insert_memory_version_row target_id (m_content target) t corrected_by
         ("merged from correction on " +:+ id +:+ ": " +:+ reason) else mret tt);
  let target' := if changed then target <| m_content := enriched_content |> <| m_embedding_stale := true |>
                                        <| m_updated_at := t |> else target in
  let target' := target' <| m_reliability_score := raised target |> in
  _ ← persist_memory target';
  _ ← sync_fts_entry rowid (Some target) target';
  mret (if changed then Some (target_id, enriched_content) else None).

Definition disposition_of (d : GateDecision) : CorrectionDisposition :=
  match d with
  | Accept _ _ | Reject _ => Applied
  | Archive => Archived
  | Merge _ _ _ => Merged
  | Contradiction _ _ => Contradicting
  end.
Definition related_memory (d : GateDecision) : option MemoryId :=
  match d with
  | Accept similar_to _ => similar_to
  | Merge target_id _ _ => Some target_id
  | Contradiction conflicting_id _ => Some conflicting_id
  | Archive | Reject _ => None
  end.
Definition apply_correction (id : MemoryId) (content corrected_by reason : string) (decision : GateDecision) :
    Conn (CorrectionRecord * option (MemoryId * string)) :=
  transaction (
    m ← require_memory_or_not_found id;
    rowid ← require_memory_rowid id;
    correction_id ← fresh_uuid;
    t ← now;
    _ ← insert_memory_version_row id (m_content m) t corrected_by ("user correction: " +:+ reason);
    let m' := m <| m_content := content |> <| m_reliability_score := raised m |>
                <| m_embedding_stale := true |> <| m_updated_at := t |> in
    refresh ←
      match decision with
      | Merge target_id enriched_content _ => merge_correction id target_id enriched_content corrected_by reason t
      | Reject why => raise (Validation ("correction rejected by safety gate: " +:+ why))
      | _ => mret None
      end;
    let m' := match decision with Archive | Merge _ _ _ => m' <| m_state := Dormant |> | _ => m' end in
    _ ← persist_memory m';
    _ ← sync_fts_entry rowid (Some m) m';
    _ ← match decision with
        | Contradiction conflicting_id description => record_contradiction_row conflicting_id id description
        | _ => mret tt
        end;
    let record := mkCorrectionRecord correction_id id (m_content m) content corrected_by reason
      (disposition_of decision) (related_memory decision) t in
    _ ← insert_referring [id] (fun db => db <| db_corrections ::= fun l => l ++ [record] |>);
    mret (record, refresh)).

Definition refresh_embedding_after_content_change (id : MemoryId) (content : string) : MTask unit :=
  let trimmed := trim content in
  if decide (trimmed = "") then mret tt
  else
    reused ← reuse_cached_embedding scope id (sha256_text trimmed);
    if reused : bool then mret tt
    else prog_bind (generate_embedding trimmed Document) (fun embedding =>
      match embedding with
      | Ok (Some embedding) => prog_bind (store_embedding id embedding) (fun r =>
          match r with
          | Ok _ | Err (Validation _) => Return (Ok tt)
          | Err e => Return (Err e)
          end)
      | _ => Return (Ok tt)
      end).

Definition correct_memory (id : MemoryId) (corrected_content corrected_by : string) (reason : option string) :
    MTask CorrectionRecord :=
  let content := trim corrected_content in
  _ ← guard_or (bool_decide (content <> "")) (Validation "corrected content must not be empty");
  let corrected_by := trim corrected_by in
  _ ← guard_or (bool_decide (corrected_by <> "")) (Validation "corrected_by must not be empty");
  m ← locked (require_memory_or_not_found id);
  _ ← guard_or (bool_decide (trim (m_content m) <> content))
        (Validation "corrected content must differ from the current memory content");
  decision ← evaluate_correction_decision id m content;
  let reason := trim (default "" reason) in
  r ← locked (apply_correction id content corrected_by reason decision);
  _ ← refresh_embedding_after_content_change id content;
  _ ← match snd r with
      | Some (target_id, enriched) => refresh_embedding_after_content_change target_id enriched
      | None => mret tt
      end;
  mret (fst r).

(** ** Sharing *)
Definition sanitized (m : Memory) : Memory :=
  m <| m_provenance := Imported |> <| m_tenant_id := None |> <| m_user_id := None |> <| m_agent_id := None |>.
Definition export_for_sharing (config : ShareConfig) : MTask (list Memory) :=
  locked (query (fun db =>
    map sanitized (List.filter (fun m =>
        (sensitivity_ord (m_sensitivity m) <=? sensitivity_ord (sh_max_sensitivity config))%Z
        && fle (sh_min_reliability config) (m_reliability_score m)
        && match sh_tag_filter config with
           | Some required => forallb (fun t => bool_decide (t ∈ m_tags m)) required
           | None => true
           end)
      (load_search_memories [scope] Active (sh_type_filter config) None db)))).

Definition shared_candidate (m : Memory) : MemoryCandidate :=
  mkMemoryCandidate (m_content m) (m_summary m) (m_memory_type m) Imported (m_importance_score m)
    (m_sensitivity m) (m_tags m) (m_custom_metadata m) None.
Definition exact_shared_import_duplicate_decision (source : Memory) : MTask (option GateDecision) :=
  if decide (normalize_shared_import_content (m_content source) = "") then mret None
  else
    m ← locked (query (exact_matches (fun _ => true) (m_content source)));
    mret (match m with
          | Some m => Some (if (scope_rank scope <? scope_rank (m_scope m))%Z
                            then Reject "near-duplicate already exists in a higher visible scope"
                            else Accept (Some (m_id m)) (Some F32.one))
          | None => None
          end).

Inductive SharedImportDisposition :=
| ImportReview (reason : string) (related : option MemoryId)
| ImportQuarantine (reason : string) (related : option MemoryId)
| ImportSkip (reason : string).
Definition shared_import_disposition (d : GateDecision) : SharedImportDisposition :=
  match d with
  | Accept (Some id) _ => ImportQuarantine "near-duplicate shared memory requires review" (Some id)
  | Accept None _ | Archive => ImportReview "shared memory imported as dormant review-only entry" None
  | Merge target_id _ _ =>
      ImportQuarantine "shared memory would have merged with an existing memory; quarantined instead" (Some target_id)
  | Contradiction conflicting_id _ =>
      ImportQuarantine "shared memory contradicts an existing memory and was quarantined" (Some conflicting_id)
  | Reject reason => ImportSkip ("skipped shared memory: " +:+ reason)
  end.
Definition prepare_shared_import_memory (source : Memory) (id : MemoryId) (t : Z)
    (status disposition reason : string) (related : option MemoryId) : Memory :=
  let metadata := <["shared_import_original_id" := m_id source]>
    (<["shared_import_reason" := reason]> (<["shared_import_disposition" := disposition]>
      (<["shared_import_source" := "cross_agent"]> (m_custom_metadata source)))) in
  source <| m_id := id |> <| m_scope := scope |> <| m_provenance := Imported |>
    <| m_reliability_score := fmin (m_reliability_score source) (F32.lit 6 10) |>
    <| m_embedding_stale := true |> <| m_state := Dormant |> <| m_status := Some status |>
    <| m_tenant_id := None |> <| m_user_id := None |> <| m_agent_id := None |>
    <| m_created_at := t |> <| m_updated_at := t |> <| m_last_accessed_at := None |>
    <| m_access_count := 0%Z |>
    <| m_custom_metadata := match related with
       | Some r => <["shared_import_referenced_memory_id" := r]> metadata | None => metadata end |>.
(** The clock and the source of UUIDs, outside of the database. *)
Definition outside {A} (m : Conn A) : MTask A := section m.
Definition import_as (source : Memory) (status disposition reason : string) (related : option MemoryId) :
    MTask MemoryId :=
  t ← outside now;
  id ← outside fresh_uuid;
  let imported := prepare_shared_import_memory source id t status disposition reason related in
  _ ← insert_memory_without_embedding scope imported;
  mret id.

Inductive SharedImportAction := ReviewAction | QuarantineAction | SkipAction.
Record SharedImportOutcome := mkSharedImportOutcome {
  so_memory_id : option MemoryId; so_disposition : SharedImportAction; so_reason : string;
  so_related_memory_id : option MemoryId }.
Definition shared_decision (config : ScopeConfig) (source : Memory) : MTask GateDecision :=
  gate_decision ← map_err (gate_error "shared import")
    (evaluate (H0 := sqlite_similar scope) config None (shared_candidate source));
  exact ← exact_shared_import_duplicate_decision source;
  mret (default gate_decision exact).
Definition import_one (config : ScopeConfig) (source : Memory) : MTask SharedImportOutcome :=
  decision ← shared_decision config source;
  match shared_import_disposition decision with
  | ImportSkip reason => mret (mkSharedImportOutcome None SkipAction reason None)
  | ImportReview reason related =>
      id ← import_as source "shared_review" "review" reason related;
      mret (mkSharedImportOutcome (Some id) ReviewAction reason related)
  | ImportQuarantine reason related =>
      id ← import_as source "quarantined" "quarantine" reason related;
      _ ← match decision with
          | Contradiction conflicting_id description =>
              locked (transaction (record_contradiction_row conflicting_id id description))
          | _ => mret tt
          end;
      mret (mkSharedImportOutcome (Some id) QuarantineAction reason related)
  end.
Fixpoint import_each (config : ScopeConfig) (memories : list Memory) : MTask (list SharedImportOutcome) :=
  match memories with
  | [] => mret []
  | m :: memories =>
      o ← import_one config m;
      rest ← import_each config memories;
      mret (o :: rest)
  end.
Definition import_shared_with_report (memories : list Memory) : MTask (list SharedImportOutcome) :=
  config ← load_config;
  import_each config memories.
Definition import_shared (memories : list Memory) : MTask (list MemoryId) :=
  outcomes ← import_shared_with_report memories;
  mret (omap so_memory_id outcomes).

(** ** Quarantine *)
Inductive PoisoningAlertType := FrequencyAnomaly | TrustMismatch | BulkOverwrite | MassContradiction.
Record PoisoningAlert := mkPoisoningAlert {
  pa_id : string; pa_alert_type : PoisoningAlertType; pa_memory_ids : list MemoryId }.
Definition display_poisoning_alert_type (t : PoisoningAlertType) : string :=
  match t with
  | FrequencyAnomaly => "frequency_anomaly" | TrustMismatch => "trust_mismatch"
  | BulkOverwrite => "bulk_overwrite" | MassContradiction => "mass_contradiction"
  end.
Record PoisoningConfig := mkPoisoningConfig {
  pc_frequency_hourly_threshold : Z; pc_frequency_scope_ratio : float; pc_frequency_burst_ratio : float;
  pc_frequency_burst_min_hourly : Z; pc_trust_mismatch_importance_threshold : float;
  pc_trust_mismatch_count_threshold : Z; pc_trust_mismatch_scope_ratio : float;
  pc_bulk_overwrite_count_threshold : Z; pc_bulk_overwrite_scope_ratio : float;
  pc_mass_contradiction_per_memory_threshold : Z; pc_mass_contradiction_scope_ratio : float;
  pc_remediation_reliability_ceiling : float }.
Definition load_poisoning_config : Conn PoisoningConfig :=
  hourly ← load_u32_config "poison_frequency_hourly_threshold" 50%Z;
  scope_ratio ← load_f32_config "poison_frequency_scope_ratio" (F32.lit 30 100);
  burst_ratio ← load_f32_config "poison_frequency_burst_ratio" (F32.lit 25 100);
  burst_min ← load_u32_config "poison_frequency_burst_min_hourly" 12%Z;
  importance ← load_f32_config "poison_trust_mismatch_importance_threshold" (F32.lit 80 100);
  mismatch_count ← load_u32_config "poison_trust_mismatch_count_threshold" 5%Z;
  mismatch_ratio ← load_f32_config "poison_trust_mismatch_scope_ratio" (F32.lit 10 100);
  overwrite_count ← load_u32_config "poison_bulk_overwrite_count_threshold" 20%Z;
  overwrite_ratio ← load_f32_config "poison_bulk_overwrite_scope_ratio" (F32.lit 15 100);
  mass_count ← load_u32_config "poison_mass_contradiction_per_memory_threshold" 3%Z;
  mass_ratio ← load_f32_config "poison_mass_contradiction_scope_ratio" (F32.lit 5 100);
  ceiling ← load_f32_config "poison_remediation_reliability_ceiling" (F32.lit 60 100);
  mret (mkPoisoningConfig hourly scope_ratio burst_ratio burst_min importance mismatch_count mismatch_ratio
    overwrite_count overwrite_ratio mass_count mass_ratio ceiling).
Definition is_low_trust_memory (m : Memory) (ceiling : float) : bool :=
  fle (m_reliability_score m) ceiling || fle (base_reliability (m_provenance m)) ceiling.
Inductive RemediationDisposition := Quarantined | Skipped.

Definition alerts_about (id : MemoryId) (alerts : list PoisoningAlert) : list PoisoningAlert :=
  List.filter (fun a => bool_decide (id ∈ pa_memory_ids a)) alerts.
Definition quarantined (m : Memory) (alerts : list PoisoningAlert) (t : Z) : Memory :=
  m <| m_state := Dormant |> <| m_status := Some "quarantined" |> <| m_updated_at := t |>
    <| m_custom_metadata ::= fun md =>
       <["poisoning_remediation" := "dormant quarantine"]>
         (<["poisoning_alert_ids" := join "," (sorted_dedup (map pa_id alerts))]>
           (<["poisoning_alert_types" :=
              join "," (sorted_dedup (map (fun a => display_poisoning_alert_type (pa_alert_type a)) alerts))]>
             (<["poisoning_quarantined_at" := timestamp_text t]> md))) |>.
Fixpoint remediate_each (ceiling : float) (t : Z) (alerts : list PoisoningAlert) (ids : list MemoryId) :
    Conn (list (MemoryId * RemediationDisposition)) :=
  match ids with
  | [] => mret []
  | id :: ids =>
      found ← require_memory id;
      disposition ←
        match found with
        | Some m =>
            if bool_decide (m_state m = Active) && is_low_trust_memory m ceiling then
              let m' := quarantined m (alerts_about id alerts) t in
              _ ← persist_memory m';
              rowid ← require_memory_rowid id;
              _ ← sync_fts_entry rowid (Some m) m';
              mret Quarantined
            else mret Skipped
        | None => mret Skipped
        end;
      rest ← remediate_each ceiling t alerts ids;
      mret ((id, disposition) :: rest)
  end.
(** The actions, in the order of the memories' identifiers. *)
Definition remediate_poisoning (alerts : list PoisoningAlert) :
    MTask (list (MemoryId * RemediationDisposition)) :=
  locked (transaction (
    config ← load_poisoning_config;
    t ← now;
    remediate_each (pc_remediation_reliability_ceiling config) t alerts (sorted_dedup (concat (map pa_memory_ids alerts))))).
End Review.

(** * The calls of the memory store as one type, and its histories: the sections
    of any number of calls, interleaved ([Threads]).  A call names the scope of
    the store it is made on; stores of several scopes share one database. *)
Inductive MemoryCall :=
| Store_ (m : Memory)
| UpdateContent (id : MemoryId) (new_content changed_by reason : string)
| UpdateMetadata (id : MemoryId) (u : MetadataUpdate)
| MakeDormant (id : MemoryId)
| Reactivate (id : MemoryId)
| Get (id : MemoryId)
| GetRaw (id : MemoryId)
| ListMemories (f : MemoryFilter)
| FindSimilar (embedding : list float) (threshold : float) (limit : nat)
| StoreEmbedding (id : MemoryId) (embedding : list float)
| GetStaleEmbeddings (limit : nat)
| HardDelete (id : MemoryId)
| PurgeUser (user_id : string)
| PurgeScope (s : MemoryScope)
| PurgeAll
| RecordContradiction (a b : MemoryId) (description : string)
| UpdateContradictionStatus (id : string) (status : ResolutionStatus) (note : option string)
| ListContradictions (status : option ResolutionStatus)
| ListVersions (id : MemoryId)
| ListCorrections (id : option MemoryId) (limit : nat)
| RollbackToVersion (id : MemoryId) (version_number : Z)
| RecordLink (source target : MemoryId) (relation : string)
| ListLinks (id : MemoryId)
| DeleteLink (id : string)
| Corroborate (source target : MemoryId)
| TraverseLinks (start : MemoryId) (max_depth : Z) (filter : option string)
| PromoteMemoryTo (id : MemoryId) (to_scope : MemoryScope) (changed_by reason : string) (session : option string)
| RunPromotionPass (limit : option nat) (session : option string)
| EnforceBudget
| EnforceBudgetWithPolicy (policy : ForgettingPolicy)
| RecordFeedback (id : MemoryId) (query_text : string) (was_relevant : bool)
| MarkConsolidationRun
| EvaluateCandidate (c : MemoryCandidate)
| CorrectMemory (id : MemoryId) (corrected_content corrected_by : string) (reason : option string)
| ExportForSharing (config : ShareConfig)
| ImportShared (memories : list Memory)
| RemediatePoisoning (alerts : list PoisoningAlert).

Section Calls.
Context `{MemoryHost} `{Locking}.

(** What is kept of a call's result: its error. *)
Definition finish {A} (p : MTask A) : Prog MemoryWorld (option StoreError) :=
  prog_bind p (fun r => Return (match r with Ok _ => None | Err e => Some e end)).

Definition memory_call (call : MemoryScope * MemoryCall) : Prog MemoryWorld (option StoreError) :=
  let scope := fst call in
  match snd call with
  | Store_ m => finish (store scope m)
  | UpdateContent id c by_ reason => finish (update_content id c by_ reason)
  | UpdateMetadata id u => finish (update_metadata id u)
  | MakeDormant id => finish (make_dormant id)
  | Reactivate id => finish (reactivate id)
  | Get id => finish (get id)
  | GetRaw id => finish (get_raw id)
  | ListMemories f => finish (list_memories scope f)
  | FindSimilar e t n => finish (find_similar scope e t n)
  | StoreEmbedding id e => finish (store_embedding id e)
  | GetStaleEmbeddings n => finish (get_stale_embeddings scope n)
  | HardDelete id => finish (hard_delete id)
  | PurgeUser u => finish (purge_user u)
  | PurgeScope s => finish (purge_scope s)
  | PurgeAll => finish purge_all
  | RecordContradiction a b d => finish (record_contradiction a b d)
  | UpdateContradictionStatus id s note => finish (update_contradiction_status id s note)
  | ListContradictions s => finish (list_contradictions scope s)
  | ListVersions id => finish (list_versions id)
  | ListCorrections id n => finish (list_corrections id n)
  | RollbackToVersion id n => finish (rollback_to_version id n)
  | RecordLink a b r => finish (record_link a b r)
  | ListLinks id => finish (list_links id)
  | DeleteLink id => finish (delete_link id)
  | Corroborate a b => finish (corroborate a b)
  | TraverseLinks id n f => finish (traverse_links id n f)
  | PromoteMemoryTo id s by_ reason t => finish (promote_memory_to id s by_ reason t)
  | RunPromotionPass n t => finish (run_promotion_pass scope n t)
  | EnforceBudget => finish (enforce_budget scope)
  | EnforceBudgetWithPolicy p => finish (enforce_budget_with_policy scope p)
  | RecordFeedback id q r => finish (record_feedback id q r)
  | MarkConsolidationRun => finish mark_consolidation_run
  | EvaluateCandidate c => finish (
      config ← load_config;
      map_err (gate_error "candidate") (evaluate (H0 := sqlite_similar scope) config language_model c))
  | CorrectMemory id c by_ reason => finish (correct_memory scope id c by_ reason)
  | ExportForSharing config => finish (export_for_sharing scope config)
  | ImportShared l => finish (import_shared scope l)
  | RemediatePoisoning alerts => finish (remediate_poisoning alerts)
  end.

Definition MemoryConf := Conf (S := MemoryWorld) (C := MemoryScope * MemoryCall) (R := option StoreError).
Definition memory_step : MemoryConf -> MemoryConf -> Prop := step memory_call.
End Calls.
