(* ===== verification/MemoryFacts.v ===== *)
(** Reasoning about code on a connection and about the calls made of it: what
    a successful run did ([conn_inv]), and what holds of the database whatever
    a run does ([safe], [sound]); then the invariant of the database, [db_ok],
    which every statement keeps. *)
From S2P Require Import Prelude Text Table Threads Floats Memories MemoryDb Embeddings Forgetting MemoryStore MemoryCuration SalienceGate MemoryReview.

(** ** Successful runs *)
Section Inversion.
Implicit Types w : MemoryWorld.

Lemma conn_bind_Ok {A B} (m : Conn A) (k : A -> Conn B) w b w2 :
  (m ≫= k) w = (Ok b, w2) <-> exists a w1, m w = (Ok a, w1) /\ k a w1 = (Ok b, w2).
Proof. unfold mbind, Conn_bind. destruct (m w) as [[a|e] w1]; split; naive_solver. Qed.
Lemma conn_ret_Ok {A} (a b : A) w w' : mret (M:=Conn) a w = (Ok b, w') <-> b = a /\ w' = w.
Proof. unfold mret, Conn_ret. naive_solver. Qed.
Lemma raise_Ok {A} e (b : A) w w' : raise e w = (Ok b, w') <-> False.
Proof. done. Qed.
Lemma query_Ok {A} (f : MemoryDb -> A) b w w' : query f w = (Ok b, w') <-> b = f (mw_db w) /\ w' = w.
Proof. unfold query. naive_solver. Qed.
Lemma execute_Ok f u w w' : execute f w = (Ok u, w') <-> w' = w <| mw_db ::= f |>.
Proof. unfold execute. destruct u. naive_solver. Qed.
Lemma some_or_raise_Ok {A} (o : option A) e b w w' :
  some_or_raise o e w = (Ok b, w') <-> o = Some b /\ w' = w.
Proof. unfold some_or_raise, mret, Conn_ret, raise. destruct o; naive_solver. Qed.
Lemma check_Ok c e u w w' : check c e w = (Ok u, w') <-> c = true /\ w' = w.
Proof. unfold check, mret, Conn_ret, raise. destruct c, u; naive_solver. Qed.
Lemma lift_Ok {A} (r : Result StoreError A) b w w' : lift r w = (Ok b, w') <-> r = Ok b /\ w' = w.
Proof. unfold lift. naive_solver. Qed.
Lemma transaction_Ok {A} (m : Conn A) b w w' : transaction m w = (Ok b, w') <-> m w = (Ok b, w').
Proof. unfold transaction. destruct (m w) as [[a|e] w1]; naive_solver. Qed.
Lemma now_Ok `{MemoryHost} b w w' :
  now w = (Ok b, w') <-> b = utc_now (mw_clock w) /\ w' = w <| mw_clock ::= S |>.
Proof. unfold now. naive_solver. Qed.
Lemma fresh_uuid_Ok `{MemoryHost} b w w' :
  fresh_uuid w = (Ok b, w') <-> b = new_uuid (mw_uuids w) /\ w' = w <| mw_uuids ::= S |>.
Proof. unfold fresh_uuid. naive_solver. Qed.
Lemma insert_referring_Ok ids f u w w' :
  insert_referring ids f w = (Ok u, w') <-> references_exist ids (mw_db w) = true /\ w' = w <| mw_db ::= f |>.
Proof.
  unfold insert_referring. rewrite conn_bind_Ok. split.
  - intros (a & w1 & [-> ->]%query_Ok & (b & w2 & [Hc ->]%check_Ok & ->%execute_Ok)%conn_bind_Ok). done.
  - intros [Hr ->]. eexists _, w. split; [by apply query_Ok|]. apply conn_bind_Ok.
    exists tt, w. split; [by apply check_Ok|by apply execute_Ok].
Qed.
End Inversion.

Ltac conn_step := match goal with
  | H : (let '(_, _) := ?p in _) _ = (Ok _, _) |- _ => destruct p
  | H : (_ ≫= _) _ = (Ok _, _) |- _ =>
      let a := fresh "a" in let w := fresh "w" in let R := fresh "R" in
      apply (proj1 (conn_bind_Ok _ _ _ _ _)) in H; destruct H as (a & w & R & H)
  | H : mret _ _ = (Ok _, _) |- _ => apply (proj1 (conn_ret_Ok _ _ _ _)) in H; destruct H; subst
  | H : raise _ _ = (Ok _, _) |- _ => destruct (proj1 (raise_Ok _ _ _ _) H)
  | H : query _ _ = (Ok _, _) |- _ => apply (proj1 (query_Ok _ _ _ _)) in H; destruct H; subst
  | H : execute _ _ = (Ok _, _) |- _ => apply (proj1 (execute_Ok _ _ _ _)) in H; subst
  | H : some_or_raise _ _ _ = (Ok _, _) |- _ =>
      apply (proj1 (some_or_raise_Ok _ _ _ _ _)) in H; destruct H; subst
  | H : check _ _ _ = (Ok _, _) |- _ => apply (proj1 (check_Ok _ _ _ _ _)) in H; destruct H; subst
  | H : lift _ _ = (Ok _, _) |- _ => apply (proj1 (lift_Ok _ _ _ _)) in H; destruct H; subst
  | H : transaction _ _ = (Ok _, _) |- _ => apply (proj1 (transaction_Ok _ _ _ _)) in H
  | H : now _ = (Ok _, _) |- _ => apply (proj1 (now_Ok _ _ _)) in H; destruct H; subst
  | H : fresh_uuid _ = (Ok _, _) |- _ => apply (proj1 (fresh_uuid_Ok _ _ _)) in H; destruct H; subst
  | H : insert_referring _ _ _ = (Ok _, _) |- _ =>
      apply (proj1 (insert_referring_Ok _ _ _ _ _)) in H; destruct H; subst
  end.
Ltac conn_inv := repeat conn_step.

Lemma in_take {A} n (l : list A) x : x ∈ take n l -> x ∈ l.
Proof. intros Hx. rewrite <- (take_drop n l). by apply elem_of_app; left. Qed.

(** ** What every run keeps

    [safe P m]: whatever [m] returns, the database it leaves is in [P] if the
    one it found was. *)
Definition safe {A} (P : MemoryDb -> Prop) (m : Conn A) : Prop :=
  forall w, P (mw_db w) -> P (mw_db (snd (m w))).

Create HintDb safe.

Section Safe.
Context (P : MemoryDb -> Prop).

Lemma safe_bind {A B} (m : Conn A) (k : A -> Conn B) :
  safe P m -> (forall a, safe P (k a)) -> safe P (m ≫= k).
Proof.
  intros Hm Hk w Hw. pose proof (Hm w Hw) as H. unfold mbind, Conn_bind.
  destruct (m w) as [[a|e] w1]; [by apply Hk|done].
Qed.
Lemma safe_ret {A} (a : A) : safe P (mret a).
Proof. by intros w Hw. Qed.
Lemma safe_raise {A} e : safe P (raise (A:=A) e).
Proof. by intros w Hw. Qed.
Lemma safe_query {A} (f : MemoryDb -> A) : safe P (query f).
Proof. by intros w Hw. Qed.
Lemma safe_lift {A} (r : Result StoreError A) : safe P (lift r).
Proof. by intros w Hw. Qed.
Lemma safe_some_or_raise {A} (o : option A) e : safe P (some_or_raise o e).
Proof. by destruct o; intros w Hw. Qed.
Lemma safe_check b e : safe P (check b e).
Proof. by destruct b; intros w Hw. Qed.
Lemma safe_check_bind {A} b e (k : unit -> Conn A) : (b = true -> safe P (k tt)) -> safe P (check b e ≫= k).
Proof. destruct b; intros Hk w Hw; [by apply Hk|done]. Qed.
Lemma safe_now `{MemoryHost} : safe P now.
Proof. by intros w Hw. Qed.
Lemma safe_fresh_uuid `{MemoryHost} : safe P fresh_uuid.
Proof. by intros w Hw. Qed.
Lemma safe_execute f : (forall db, P db -> P (f db)) -> safe P (execute f).
Proof. intros Hf w Hw. by apply Hf. Qed.
Lemma safe_insert_referring ids f :
  (forall db, references_exist ids db = true -> P db -> P (f db)) -> safe P (insert_referring ids f).
Proof.
  intros Hf w Hw. unfold insert_referring, query, mbind, Conn_bind, check. simpl.
  destruct (references_exist ids (mw_db w)) eqn:E; [by apply Hf|done].
Qed.
Lemma safe_for_rows {A} (l : list A) f : (forall x, x ∈ l -> safe P (f x)) -> safe P (for_rows l f).
Proof.
  induction l as [|x l IH]; intros Hf; simpl; [apply safe_ret|].
  apply safe_bind; [apply Hf; by left|]. intros _. apply IH. intros y Hy. apply Hf. by right.
Qed.
Lemma safe_transaction {A} (m : Conn A) : safe P m -> safe P (transaction m).
Proof. intros Hm w Hw. pose proof (Hm w Hw) as H. unfold transaction. by destruct (m w) as [[a|e] w1]. Qed.
End Safe.
#[export] Hint Resolve safe_ret safe_raise safe_query safe_lift safe_some_or_raise safe_check safe_now
  safe_fresh_uuid safe_transaction : safe.

Ltac conn_safe_step := lazymatch goal with
  | |- safe _ (_ ≫= _) => apply safe_bind; [|intros ?]
  | |- safe _ (match ?x with _ => _ end) => destruct x
  | |- safe _ (let _ := _ in _) => cbv zeta
  | |- safe _ (transaction _) => apply safe_transaction
  | |- safe _ (for_rows _ _) => apply safe_for_rows; intros ? ?
  | |- safe _ _ => solve [eauto with safe]
  end.
Ltac conn_safe := repeat conn_safe_step.

(** Reading the configuration changes nothing. *)
Lemma safe_load_parsed {A} P (parse : string -> option A) key d : safe P (load_parsed parse key d).
Proof. unfold load_parsed. conn_safe. Qed.
#[export] Hint Resolve safe_load_parsed : safe.
Lemma safe_load_scope_config `{MemoryHost} P : safe P load_scope_config.
Proof. unfold load_scope_config, load_f32_config, load_u32_config. conn_safe. Qed.
Lemma safe_load_embedding_dimensions P : safe P load_embedding_dimensions.
Proof. apply safe_load_parsed. Qed.
#[export] Hint Resolve safe_load_scope_config safe_load_embedding_dimensions : safe.

(** [sound P p]: every section of [p] keeps [P]. *)
Definition inside (P : MemoryDb -> Prop) : MemoryWorld -> Prop := fun w => P (mw_db w).
Definition sound {R} (P : MemoryDb -> Prop) (p : Prog MemoryWorld R) : Prop :=
  guarantees (inside P) (fun _ w => inside P w) p.

Lemma sound_section {A} P (m : Conn A) : safe P m -> sound P (section m).
Proof. intros Hm w Hw. split; [by apply Hm|done]. Qed.

(** What the two ways to lock have in common. *)
Class LawfulLocking (L : Locking) : Prop := {
  sound_with_connection P A (p : MTask A) : sound P p -> sound P (with_connection p);
  run_with_connection A (p : MTask A) w : run (with_connection p) w = run p w }.

Lemma sound_run {R} P (p : Prog MemoryWorld R) w : sound P p -> inside P w -> inside P (snd (run p w)).
Proof.
  revert w. induction p as [r|X section rest IH]; intros w Hp Hw; simpl; [done|].
  destruct (Hp w Hw) as [H1 H2]. by apply IH.
Qed.
#[export] Instance one_store_lawful : LawfulLocking one_store.
Proof.
  split; [intros P A p Hp w Hw; split; [by apply sound_run|done]|]. intros A p w. cbn. by destruct (run p w).
Qed.
#[export] Instance many_stores_lawful : LawfulLocking many_stores.
Proof. by split. Qed.

(** A task that runs alone. *)
Lemma run_prog_bind {R R'} (p : Prog MemoryWorld R) (k : R -> Prog MemoryWorld R') w :
  run (prog_bind p k) w = run (k (fst (run p w))) (snd (run p w)).
Proof. revert w. induction p as [r|X section rest IH]; intros w; [done|apply IH]. Qed.
Lemma run_bind {A B} (p : MTask A) (k : A -> MTask B) w :
  run (p ≫= k) w = match run p w with (Ok a, w') => run (k a) w' | (Err e, w') => (Err e, w') end.
Proof. unfold mbind, Task_bind. rewrite run_prog_bind. by destruct (run p w) as [[a|e] w']. Qed.
Lemma run_section {A} (m : Conn A) w : run (section m) w = m w.
Proof. cbn. by destruct (m w). Qed.
Lemma run_guard_or {E} b (e : E) (w : MemoryWorld) : run (guard_or b e) w = ((if b then Ok tt else Err e), w).
Proof. by destruct b. Qed.
Lemma transaction_Ok_eq {A} (m : Conn A) w a w' : m w = (Ok a, w') -> transaction m w = (Ok a, w').
Proof. intros E. unfold transaction. by rewrite E. Qed.

Create HintDb sound.
Section Sound.
Context (P : MemoryDb -> Prop).
Lemma sound_bind {E A B} (p : Task MemoryWorld E A) (k : A -> Task MemoryWorld E B) :
  sound P p -> (forall a, sound P (k a)) -> sound P (p ≫= k).
Proof. apply guarantees_bind. Qed.
Lemma sound_prog_bind {R R'} (p : Prog MemoryWorld R) (k : R -> Prog MemoryWorld R') :
  sound P p -> (forall r, sound P (k r)) -> sound P (prog_bind p k).
Proof. apply guarantees_prog_bind. Qed.
Lemma sound_return {R} (r : R) : sound P (Return r).
Proof. done. Qed.
Lemma sound_ret {E A} (a : A) : sound P (mret a : Task MemoryWorld E A).
Proof. done. Qed.
Lemma sound_guard_or {E} b (e : E) : sound P (guard_or b e).
Proof. by destruct b. Qed.
Lemma sound_map_err {E E' A} (f : E -> E') (p : Task MemoryWorld E A) : sound P p -> sound P (map_err f p).
Proof. apply guarantees_map_err. Qed.
(** Asking a model changes no database. *)
Lemma sound_ask {X R} (f : MemoryWorld -> X) (rest : X -> Prog MemoryWorld R) :
  (forall x, sound P (rest x)) -> sound P (Atomic (fun w => (f w, w <| mw_calls ::= S |>)) rest).
Proof. intros Hr w Hw. split; [done|apply Hr]. Qed.
Lemma sound_with `{L : Locking} `{!LawfulLocking L} {A} (p : MTask A) : sound P p -> sound P (with_connection p).
Proof. apply sound_with_connection. Qed.
End Sound.
#[export] Hint Resolve sound_return sound_ret sound_guard_or : sound.

Ltac sound_step := lazymatch goal with
  | |- sound _ (_ ≫= _) => apply sound_bind; [|intros ?]
  | |- sound _ (prog_bind _ _) => apply sound_prog_bind; [|intros ?]
  | |- sound _ (map_err _ _) => apply sound_map_err
  | |- sound _ (with_connection _) => apply sound_with
  | |- LawfulLocking _ => typeclasses eauto
  | |- sound _ (section _) => apply sound_section; conn_safe
  | |- sound _ (Return _) => exact I
  | |- sound _ (Atomic (fun w => (_, w <| mw_calls ::= S |>)) _) => apply sound_ask; intros ?
  | |- sound _ (match ?x with _ => _ end) => destruct x
  | |- sound _ (let _ := _ in _) => cbv zeta
  | |- sound _ _ => solve [eauto with sound]
  end.
Ltac sound := repeat sound_step.

(** * The invariant of the memory database: keys are unique, every row refers to
    memories that exist, and the versions of a memory are numbered from 1
    without a gap.  Every section of every call keeps it, however the calls of
    one or several stores interleave. *)
Definition ids (db : MemoryDb) : list MemoryId := map row_id (db_memories db).
(** Every column that the schema declares to refer to [memories]
    ([REFERENCES memories(id)] in [schema.rs]).  [memory_corrections] has such a
    column, [memory_id]; its [related_memory_id] is declared without one, and
    may name a memory that is gone ([MemoryScenario.corrections_outlive_what_they_name]). *)
Definition referenced (db : MemoryDb) : list MemoryId :=
  map er_memory_id (db_embeddings db)
  ++ map ml_source_id (db_links db) ++ map ml_target_id (db_links db)
  ++ map mv_memory_id (db_versions db) ++ map po_memory_id (db_promotions db)
  ++ map sa_memory_id (db_accesses db)
  ++ map ce_memory_a_id (db_contradictions db) ++ map ce_memory_b_id (db_contradictions db)
  ++ map cr_memory_id (db_corrections db) ++ map rf_memory_id (db_feedback db).
Definition link_key (l : MemoryLink) : MemoryId * MemoryId * string :=
  (ml_source_id l, ml_target_id l, ml_relation_type l).
Definition version_numbers (id : MemoryId) (db : MemoryDb) : list Z :=
  map mv_version_number (versions_of id db).

Record db_ok (db : MemoryDb) : Prop := {
  ok_ids : NoDup (ids db);
  ok_rowids : NoDup (map mr_rowid (db_memories db));
  ok_references : forall id, id ∈ referenced db -> id ∈ ids db;
  ok_versions : forall id, version_numbers id db = seqZ 1 (Z.of_nat (length (versions_of id db)));
  ok_links : NoDup (map link_key (db_links db)) }.

Lemma NoDup_select {R K} (key : R -> K) p l : NoDup (map key l) -> NoDup (map key (select_where p l)).
Proof.
  induction l as [|r l IH]; [done|]. cbn. rewrite NoDup_cons. intros [Hr Hl].
  destruct (p r); [cbn; rewrite NoDup_cons|by apply IH]. split; [|by apply IH].
  intros (r' & E & [Hr' _]%elem_of_select_where)%list_elem_of_fmap. apply Hr. rewrite E.
  apply list_elem_of_fmap. by exists r'.
Qed.
Lemma map_delete_elem {R} (key : R -> MemoryId) (p : R -> bool) l id :
  id ∈ map key (delete_where p l) -> exists r, id = key r /\ p r = false /\ key r ∈ map key l.
Proof.
  intros (r & -> & [Hr Hp]%elem_of_delete_where)%list_elem_of_fmap. exists r. split_and!; [done|done|].
  apply list_elem_of_fmap. by exists r.
Qed.
Lemma delete_where_sub {R} (key : R -> MemoryId) p l id : id ∈ map key (delete_where p l) -> id ∈ map key l.
Proof. by intros (r & -> & _ & Hr)%map_delete_elem. Qed.
Ltac sub_referenced := let id := fresh in let Hid := fresh in
  intros id; unfold referenced; cbn; rewrite !elem_of_app; intros Hid; destruct_or! Hid;
  try apply delete_where_sub in Hid; tauto.

Ltac in_referenced := unfold referenced; cbn; rewrite ?map_app, ?elem_of_app; cbn;
  rewrite ?elem_of_cons, ?elem_of_nil; tauto.

Section Facts.
Context `{MemoryHost}.

(** ** Memories *)
Lemma find_memory_Some db id m : find_memory db id = Some m -> m_id m = id /\ exists r, r ∈ db_memories db /\ mr_memory r = m.
Proof.
  unfold find_memory, find_row. intros (r & Hr & ->)%fmap_Some. apply find_by_Some in Hr as [Hr <-].
  split; [done|by exists r].
Qed.
Lemma find_memory_ext db db' id : db_memories db = db_memories db' -> find_memory db id = find_memory db' id.
Proof. intros E. unfold find_memory, find_row. by rewrite E. Qed.
Lemma find_memory_is_Some db id : is_Some (find_memory db id) <-> id ∈ ids db.
Proof.
  unfold find_memory, find_row, ids. rewrite fmap_is_Some. split.
  - intros [r [Hr <-]%find_by_Some]. apply list_elem_of_fmap. by exists r.
  - intros (r & -> & Hr)%list_elem_of_fmap.
    destruct (find_by row_id (row_id r) (db_memories db)) eqn:E; [done|].
    rewrite find_by_None in E. by destruct (E r Hr).
Qed.
Lemma find_memory_elem db r :
  NoDup (ids db) -> r ∈ db_memories db -> find_memory db (row_id r) = Some (mr_memory r).
Proof. intros Hn Hr. unfold find_memory, find_row. by rewrite (find_by_elem row_id _ r). Qed.
Lemma references_exist_spec l db : references_exist l db = true <-> forall id, id ∈ l -> id ∈ ids db.
Proof.
  unfold references_exist. rewrite forallb_forall. split.
  - intros Hl id Hid. apply find_memory_is_Some. apply (bool_decide_eq_true_1 _). apply Hl. by apply list_elem_of_In.
  - intros Hl id Hid. apply bool_decide_eq_true. apply find_memory_is_Some, Hl. by apply list_elem_of_In.
Qed.

(** The memory with an identifier after an [UPDATE]. *)
Lemma find_memory_update db p g id :
  (forall r, p r = true -> row_id (g r) = row_id r) ->
  find_memory (db <| db_memories ::= update_where p g |>) id =
    (fun r => mr_memory (if p r then g r else r)) <$> find_row db id.
Proof.
  intros Hg. unfold find_memory, find_row. simpl. set (g' := fun r => if p r then g r else r).
  assert (update_where p g (db_memories db) = update_where (fun _ => true) g' (db_memories db)) as -> by done.
  rewrite find_by_update_where.
  - unfold g'. by destruct (find_by _ _ _).
  - intros r. unfold g'. destruct (p r) eqn:E; [by apply Hg|done].
Qed.
Lemma ids_update db p g :
  (forall r, p r = true -> row_id (g r) = row_id r) ->
  ids (db <| db_memories ::= update_where p g |>) = ids db.
Proof.
  intros Hg. unfold ids, update_where. simpl. rewrite map_map. apply map_ext. intros r.
  destruct (p r) eqn:E; [by apply Hg|done].
Qed.
Lemma rowids_update p g (l : list MemoryRow) :
  (forall r, p r = true -> mr_rowid (g r) = mr_rowid r) -> map mr_rowid (update_where p g l) = map mr_rowid l.
Proof.
  intros Hg. unfold update_where. rewrite map_map. apply map_ext. intros r. destruct (p r) eqn:E; [by apply Hg|done].
Qed.

Lemma find_memory_persist db m id :
  find_memory (db <| db_memories ::= update_where (fun r => bool_decide (row_id r = m_id m)) (set_memory m) |>) id =
    (fun m0 => if decide (id = m_id m) then m else m0) <$> find_memory db id.
Proof.
  rewrite find_memory_update.
  2:{ intros r Hr. apply bool_decide_eq_true in Hr. unfold row_id at 1. simpl. done. }
  unfold find_memory. destruct (find_row db id) as [r|] eqn:E; [|done]. simpl. f_equal.
  apply find_by_Some in E as [_ <-]. by case_bool_decide; case_decide.
Qed.
Lemma find_memory_update_memory db id0 f id :
  (forall m, m_id (f m) = m_id m) ->
  find_memory (db <| db_memories ::= update_where (fun r => bool_decide (row_id r = id0))
      (fun r => set_memory (f (mr_memory r)) r) |>) id =
    (fun m0 => if decide (id = id0) then f m0 else m0) <$> find_memory db id.
Proof.
  intros Hf. rewrite find_memory_update by (intros r _; apply Hf).
  unfold find_memory. destruct (find_row db id) as [r|] eqn:E; [|done]. simpl. f_equal.
  apply find_by_Some in E as [_ <-]. by case_bool_decide; case_decide.
Qed.

(** ** Statements keep the invariant *)
Lemma versions_of_same db db' id : db_versions db' = db_versions db -> versions_of id db' = versions_of id db.
Proof. intros E. unfold versions_of. by rewrite E. Qed.

Lemma db_ok_frame db db' :
  db_ok db -> ids db' = ids db -> map mr_rowid (db_memories db') = map mr_rowid (db_memories db) ->
  (forall id, id ∈ referenced db' -> id ∈ referenced db \/ id ∈ ids db) ->
  (forall id, versions_of id db' = versions_of id db \/ versions_of id db' = []) ->
  NoDup (map link_key (db_links db')) -> db_ok db'.
Proof.
  intros [H1 H2 H3 H4 H5] Ei Er Hr Hv Hl. split; [by rewrite Ei|by rewrite Er| | |done].
  - intros id Hid. rewrite Ei. destruct (Hr id Hid); [by apply H3|done].
  - intros id. unfold version_numbers. destruct (Hv id) as [->| ->]; [apply H4|done].
Qed.

Lemma ok_update p g db :
  (forall r, p r = true -> row_id (g r) = row_id r /\ mr_rowid (g r) = mr_rowid r) ->
  db_ok db -> db_ok (db <| db_memories ::= update_where p g |>).
Proof.
  intros Hg Hok. apply (db_ok_frame db); [done| | | | |apply Hok].
  - apply ids_update. intros r Hr. by apply Hg.
  - apply rowids_update. intros r Hr. by apply Hg.
  - intros id Hid. by left.
  - intros id. by left.
Qed.
Lemma safe_persist_memory m : safe db_ok (persist_memory m).
Proof.
  apply safe_execute. intros db. apply ok_update. intros r Hr. apply bool_decide_eq_true in Hr.
  by split.
Qed.
Lemma safe_update_memory id f : (forall m, m_id (f m) = m_id m) -> safe db_ok (update_memory id f).
Proof. intros Hf. apply safe_execute. intros db. apply ok_update. intros r _. split; [apply Hf|done]. Qed.

Lemma max_or_zero_lt {R} (col : R -> Z) l : (max_or_zero col l + 1)%Z ∉ map col l.
Proof.
  intros (r & E & Hr)%list_elem_of_fmap. pose proof (max_or_zero_ge col l r Hr). lia.
Qed.
Lemma safe_insert_memory m : safe db_ok (insert_memory m).
Proof.
  intros w Hw. unfold insert_memory. destruct (insert_row _ _ _) as [l|] eqn:E; [|done].
  simpl. set (db := mw_db w) in *. pose proof E as Hn. apply insert_row_NoDup in Hn; [|apply Hw].
  apply insert_row_Some in E as [-> Hr]. destruct Hw as [H1 H2 H3 H4 H5]. split; [done| | |done|done].
  - simpl. rewrite map_app. apply NoDup_app. split_and!; [done| |apply NoDup_singleton].
    intros x Hx ->%list_elem_of_singleton. by apply max_or_zero_lt in Hx.
  - intros id Hid. unfold ids. simpl. rewrite map_app. apply elem_of_app. left. by apply H3.
Qed.

Lemma safe_fts f : safe db_ok (execute (fun db => db <| db_fts ::= f |>)).
Proof. apply safe_execute. intros db Hok. by apply (db_ok_frame db); auto; apply Hok. Qed.
Lemma safe_delete_fts_entry rowid m : safe db_ok (delete_fts_entry rowid m).
Proof. apply safe_fts. Qed.
Lemma safe_sync_fts_entry rowid p m : safe db_ok (sync_fts_entry rowid p m).
Proof. apply safe_bind; [destruct p; [apply safe_fts|apply safe_ret]|]. intros _. apply safe_fts. Qed.
Lemma safe_rebuild_fts : safe db_ok rebuild_fts.
Proof. apply safe_execute. intros db Hok. by apply (db_ok_frame db); auto; apply Hok. Qed.
Lemma ok_config key value db : db_ok db -> db_ok (set_config_value key value db).
Proof. intros Hok. by apply (db_ok_frame db); auto; apply Hok. Qed.
Lemma safe_set_config key value : safe db_ok (execute (set_config_value key value)).
Proof. apply safe_execute, ok_config. Qed.

(** ** Rows that refer to memories *)
Definition same_rows (db db' : MemoryDb) : Prop := db_memories db' = db_memories db /\ db_versions db' = db_versions db.
Lemma db_ok_same_rows db db' :
  db_ok db -> same_rows db db' ->
  (forall id, id ∈ referenced db' -> id ∈ referenced db \/ id ∈ ids db) ->
  NoDup (map link_key (db_links db')) -> db_ok db'.
Proof.
  intros Hok [Em Ev] Hr Hl. apply (db_ok_frame db); [done|by unfold ids; rewrite Em|by rewrite Em|done| |done].
  intros id. left. by apply versions_of_same.
Qed.
Lemma safe_insert_row l f :
  (forall db, same_rows db (f db) /\ db_links (f db) = db_links db) ->
  (forall db id, id ∈ referenced (f db) -> id ∈ referenced db \/ id ∈ l) ->
  safe db_ok (insert_referring l f).
Proof.
  intros Hf Hr. apply safe_insert_referring. intros db Hl Hok. rewrite references_exist_spec in Hl.
  destruct (Hf db) as [Hs Hlinks].
  apply (db_ok_same_rows db); [done|done| |rewrite Hlinks; apply Hok]. intros id [?|?]%Hr; [by left|right; by apply Hl].
Qed.

Lemma max_version_number l :
  map mv_version_number l = seqZ 1 (Z.of_nat (length l)) -> max_or_zero mv_version_number l = Z.of_nat (length l).
Proof.
  intros E.
  assert (forall v, v ∈ l -> (1 <= mv_version_number v <= Z.of_nat (length l))%Z) as Hv.
  { intros v Hv. cut (mv_version_number v ∈ seqZ 1 (Z.of_nat (length l))); [rewrite elem_of_seqZ; lia|].
    rewrite <- E. apply list_elem_of_fmap. by exists v. }
  destruct l as [|v0 l0] eqn:El; [done|]. rewrite <- El in *.
  assert (0 < length l) by (rewrite El; simpl; lia).
  cut (Z.of_nat (length l) ∈ map mv_version_number l).
  - intros (v & Ev & Hin)%list_elem_of_fmap. pose proof (max_or_zero_ge mv_version_number l v Hin).
    destruct (max_or_zero_in mv_version_number l) as [|(v' & Hin' & Ev')]; [lia|]. specialize (Hv v' Hin'). lia.
  - rewrite E. apply elem_of_seqZ. lia.
Qed.
Lemma versions_of_app id db v :
  versions_of id (db <| db_versions ::= fun l => l ++ [v] |>) =
    versions_of id db ++ (if decide (mv_memory_id v = id) then [v] else []).
Proof.
  unfold versions_of, select_where. cbn. rewrite List.filter_app. f_equal. cbn. by case_bool_decide; case_decide.
Qed.
Lemma ok_insert_version db v :
  references_exist [mv_memory_id v] db = true ->
  mv_version_number v = (Z.of_nat (length (versions_of (mv_memory_id v) db)) + 1)%Z ->
  db_ok db -> db_ok (db <| db_versions ::= fun l => l ++ [v] |>).
Proof.
  rewrite references_exist_spec. intros Hr Hn [H1 H2 H3 H4 H5]. split; [done|done| | |done].
  - intros id Hid. cut (id ∈ referenced db \/ id = mv_memory_id v).
    { intros [?| ->]; [by apply H3|apply Hr; by left]. }
    revert Hid. in_referenced.
  - intros id. unfold version_numbers. rewrite versions_of_app, map_app, length_app. specialize (H4 id). unfold version_numbers in H4. rewrite H4.
    case_decide as Hd; cbn; [|by rewrite app_nil_r, Nat.add_0_r].
    rewrite Nat2Z.inj_add, seqZ_app by lia. f_equal. change (Z.of_nat 1) with 1%Z. rewrite seqZ_cons by lia. f_equal. rewrite Hn, Hd. lia.
Qed.
Lemma safe_insert_memory_version_row id c t b r : safe db_ok (insert_memory_version_row id c t b r).
Proof.
  intros w Hw. unfold insert_memory_version_row, load_next_version_number, insert_version, insert_referring.
  unfold query, fresh_uuid, check, execute, raise, mret, Conn_ret, mbind, Conn_bind. cbn.
  destruct (_ <? _)%Z; [|done]. cbn. destruct (bool_decide _) eqn:Er; [|done]. cbn.
  apply (ok_insert_version _ (mkMemoryVersion _ id _ c b r t)); [|cbn|done].
  - unfold references_exist. cbn. by rewrite Er.
  - by rewrite max_version_number by apply Hw.
Qed.

Lemma safe_record_link_row a b r : safe db_ok (record_link_row a b r).
Proof.
  intros w Hw. unfold record_link_row, insert_referring.
  unfold query, fresh_uuid, now, check, execute, raise, mret, Conn_ret, mbind, Conn_bind. cbn -[references_exist].
  destruct (existsb _ _) eqn:Ee; [done|]. cbn -[references_exist].
  destruct (references_exist [a; b] (mw_db w)) eqn:Er; [|done]. cbn -[references_exist].
  rewrite references_exist_spec in Er.
  apply (db_ok_same_rows (mw_db w)); [done|done| |].
  - intros id. specialize (Er id). rewrite !elem_of_cons, elem_of_nil in Er. revert Er. in_referenced.
  - cbn. rewrite map_app. apply NoDup_app. split_and!; [apply Hw| |apply NoDup_singleton].
    intros k (l & -> & Hl)%list_elem_of_fmap Ek%list_elem_of_singleton. injection Ek as E1 E2 E3.
    rewrite <- not_true_iff_false in Ee. apply Ee. apply existsb_exists. exists l.
    split; [by apply list_elem_of_In|]. by rewrite !bool_decide_true.
Qed.
Lemma safe_record_contradiction_row a b d : safe db_ok (record_contradiction_row a b d).
Proof.
  unfold record_contradiction_row, require_memory_or_not_found, require_memory, lower_reliability. conn_safe.
  - apply safe_insert_row; [done|]. intros db id. in_referenced.
  - by apply safe_update_memory.
  - by apply safe_update_memory.
Qed.

(** ** Deletions *)
Lemma versions_of_delete_memory id gone l :
  select_where (fun v => bool_decide (mv_memory_id v = id)) (delete_where (fun v => gone (mv_memory_id v)) l) =
    if gone id : bool then [] else select_where (fun v => bool_decide (mv_memory_id v = id)) l.
Proof.
  unfold select_where, delete_where. induction l as [|v l IH]; [by destruct (gone id)|]. cbn.
  destruct (gone (mv_memory_id v)) eqn:E; cbn; [rewrite IH|]; case_bool_decide as Hd; cbn; rewrite ?IH.
  - by rewrite <- Hd, E.
  - done.
  - by rewrite <- Hd, E.
  - done.
Qed.

(** Deleting all that belongs to some of the memories, and the memories or not. *)
Lemma ok_delete_dependents db db' gone :
  db_memories db' = db_memories db ->
  db_versions db' = delete_where (fun v => gone (mv_memory_id v)) (db_versions db) ->
  (forall id, id ∈ referenced db' -> id ∈ referenced db) ->
  NoDup (map link_key (db_links db')) ->
  db_ok db -> db_ok db'.
Proof.
  intros Em Ev Hr Hl Hok. apply (db_ok_frame db); [done|by unfold ids; rewrite Em|by rewrite Em| | |done].
  - intros id Hid. left. by apply Hr.
  - intros id. unfold versions_of. rewrite Ev, versions_of_delete_memory. destruct (gone id); [by right|by left].
Qed.
Lemma versions_of_delete_memories p db id :
  versions_of id (delete_memories p db) = if selected p db id then [] else versions_of id db.
Proof. apply versions_of_delete_memory. Qed.
Lemma selected_true p db id :
  selected p db id = true <-> exists r, r ∈ db_memories db /\ row_id r = id /\ p (mr_memory r) = true.
Proof.
  unfold selected. rewrite existsb_exists. split.
  - intros (r & Hr%list_elem_of_In & [Hid%bool_decide_eq_true Hp]%andb_prop). eauto.
  - intros (r & Hr & Hid & Hp). exists r. split; [by apply list_elem_of_In|]. by rewrite Hp, bool_decide_true.
Qed.
Lemma ok_delete_memories p db : db_ok db -> db_ok (delete_memories p db).
Proof.
  intros [H1 H2 H3 H4 H5].
  set (gone := selected p db).
  assert (forall id, id ∈ ids db -> gone id = false -> id ∈ ids (delete_memories p db)) as Hstay.
  { intros id (r & -> & Hr)%list_elem_of_fmap Hg. apply list_elem_of_fmap. exists r. split; [done|].
    apply elem_of_delete_where. split; [done|]. apply not_true_iff_false in Hg. apply not_true_iff_false.
    intros Hp. apply Hg, selected_true. eauto. }
  split.
  - by apply NoDup_select.
  - by apply NoDup_select.
  - intros id Hid. cut (gone id = false /\ id ∈ referenced db).
    { intros [Hg Hin]. apply Hstay; [by apply H3|done]. }
    revert Hid. unfold referenced. cbn. rewrite !elem_of_app.
    intros Hid. destruct_or! Hid; apply map_delete_elem in Hid as (r & -> & Hg & Hin);
      try apply orb_false_iff in Hg as [Hg Hg']; (split; [done|tauto]).
  - intros id. unfold version_numbers. rewrite versions_of_delete_memories.
    destruct (selected p db id); [done|apply H4].
  - by apply NoDup_select.
Qed.
Lemma safe_delete_memories p : safe db_ok (execute (delete_memories p)).
Proof. apply safe_execute, ok_delete_memories. Qed.
Lemma safe_delete_vector v : safe db_ok (delete_vector v).
Proof.
  destruct v; [|apply safe_ret]. apply safe_execute. intros db Hok. apply (db_ok_same_rows db); [done|done|by left|apply Hok].
Qed.
Lemma ok_purge_dependents p db : db_ok db -> db_ok (purge_dependents p db).
Proof.
  intros Hok. apply (ok_delete_dependents db _ (selected p db)); [done|done| | |done].
  - sub_referenced.
  - apply NoDup_select, Hok.
Qed.
Lemma safe_purge_dependents p : safe db_ok (execute (purge_dependents p)).
Proof. apply safe_execute, ok_purge_dependents. Qed.
Lemma safe_vectors f : safe db_ok (execute (fun db => db <| db_vectors ::= f |>)).
Proof. apply safe_execute. intros db Hok. by apply (db_ok_same_rows db); [..|by left|apply Hok]. Qed.
Lemma safe_upsert_encoded_embedding id e sha : safe db_ok (upsert_encoded_embedding id e sha).
Proof.
  unfold upsert_encoded_embedding. conn_safe.
  - apply safe_execute. intros db Hok. apply (db_ok_same_rows db); [done|done| |apply Hok].
    intros id'. unfold referenced. cbn -[update_where]. rewrite keys_update_where by done. by left.
  - apply safe_vectors.
  - apply safe_insert_row; [done|]. intros db id'. in_referenced.
  - by apply safe_update_memory.
Qed.
Lemma safe_persist_learned_weights w : safe db_ok (persist_learned_weights w).
Proof. apply safe_execute. intros db Hok. by repeat apply ok_config. Qed.
End Facts.
#[export] Hint Resolve safe_persist_memory safe_update_memory safe_insert_memory safe_fts safe_delete_fts_entry
  safe_sync_fts_entry safe_rebuild_fts safe_set_config safe_insert_memory_version_row safe_record_link_row
  safe_record_contradiction_row safe_delete_memories safe_delete_vector safe_purge_dependents
  safe_upsert_encoded_embedding safe_persist_learned_weights : safe.

(** A traversal only reads. *)
Section Traversals.
Context (P : MemoryDb -> Prop).
Lemma sound_visit_links filter current d ls t : sound P (visit_links filter current d ls t).
Proof.
  revert t. induction ls as [|l ls IH]; intros t; cbn [visit_links]; [apply sound_ret|].
  cbv zeta. destruct (negb _); [apply IH|]. case_decide; [apply IH|].
  apply sound_bind; [apply sound_section, safe_query|intros [m|]; apply IH].
Qed.
Lemma sound_pop_level max_depth filter n t : sound P (pop_level max_depth filter n t).
Proof.
  revert t. induction n as [|n IH]; intros t; cbn [pop_level]; [apply sound_ret|].
  destruct (tr_queue t) as [|[current d] queue]; [apply sound_ret|]. cbv zeta. destruct (_ <=? _)%Z; [apply IH|].
  apply sound_bind; [apply sound_section, safe_query|]. intros links.
  apply sound_bind; [apply sound_visit_links|]. intros t'. apply IH.
Qed.
Lemma sound_walk max_depth filter levels t : sound P (walk max_depth filter levels t).
Proof.
  revert t. induction levels as [|levels IH]; intros t; cbn [walk]; [apply sound_ret|].
  apply sound_bind; [apply sound_pop_level|intros a; apply IH].
Qed.
End Traversals.
#[export] Hint Resolve sound_walk : sound.
