(* ===== verification/MemoryInvariant.v ===== *)
(** Every call of the memory store keeps the invariant of the database
    ([MemoryFacts]), and so does every history of calls, of one store or
    of several. *)
From S2P Require Import Prelude Text Table Threads Floats Memories MemoryDb Embeddings Forgetting MemoryStore MemoryCuration SalienceGate MemoryReview MemoryFacts.

Section Invariant.
Context `{MemoryHost} `{L : Locking} `{!LawfulLocking L} (scope : MemoryScope).

Lemma sound_locked {A} (m : Conn A) : safe db_ok m -> sound db_ok (locked m).
Proof. intros Hm. by apply sound_with, sound_section. Qed.
Lemma safe_require_memory id : safe db_ok (require_memory id).
Proof. apply safe_query. Qed.
Lemma safe_require_memory_or_not_found id : safe db_ok (require_memory_or_not_found id).
Proof. unfold require_memory_or_not_found, require_memory. conn_safe. Qed.
Lemma safe_require_memory_rowid id : safe db_ok (require_memory_rowid id).
Proof. unfold require_memory_rowid. conn_safe. Qed.
Hint Resolve safe_require_memory safe_require_memory_or_not_found safe_require_memory_rowid : safe.
Lemma sound_of_result {A} (r : Result StoreError A) : sound db_ok (of_result r).
Proof. done. Qed.
Hint Resolve sound_of_result : sound.

(** ** Storing and updating *)
Lemma sound_reuse_cached_embedding id sha : sound db_ok (reuse_cached_embedding scope id sha).
Proof.
  unfold reuse_cached_embedding, decode_or_raise. sound; apply sound_locked; conn_safe.
Qed.
Lemma sound_store_embedding id e : sound db_ok (store_embedding id e).
Proof. unfold store_embedding. sound. apply sound_locked. conn_safe. Qed.
Lemma sound_generate_embedding text task : sound db_ok (generate_embedding text task).
Proof. unfold generate_embedding. sound. Qed.
Hint Resolve sound_reuse_cached_embedding sound_store_embedding sound_generate_embedding : sound.
Lemma safe_insert_stored_memory m : safe db_ok (insert_stored_memory m).
Proof. unfold insert_stored_memory. conn_safe. Qed.
Lemma sound_store m : sound db_ok (store scope m).
Proof. unfold store. sound. apply sound_locked, safe_insert_stored_memory. Qed.
Ltac call_sound := repeat first [sound_step | apply sound_locked; conn_safe].
Lemma sound_insert_memory_without_embedding m : sound db_ok (insert_memory_without_embedding scope m).
Proof. unfold insert_memory_without_embedding. call_sound. apply safe_insert_stored_memory. Qed.
Hint Resolve sound_store sound_insert_memory_without_embedding : sound.
Lemma sound_update_content id c b r : sound db_ok (update_content id c b r).
Proof. unfold update_content. call_sound. Qed.
Lemma safe_check_score f v : safe db_ok (check_score f v).
Proof. unfold check_score. conn_safe. Qed.
Hint Resolve safe_check_score : safe.
Lemma sound_update_metadata id u : sound db_ok (update_metadata id u).
Proof. unfold update_metadata. call_sound. Qed.
Lemma sound_transition_state id s : sound db_ok (transition_state id s).
Proof. unfold transition_state. call_sound. Qed.
Lemma sound_get id : sound db_ok (get id).
Proof. unfold get, touch. call_sound. Qed.
Lemma sound_find_similar e t n : sound db_ok (find_similar scope e t n).
Proof. unfold find_similar, validate_query_embedding. call_sound. Qed.
Hint Resolve sound_update_content sound_update_metadata sound_transition_state sound_get sound_find_similar : sound.

(** ** Curation *)
Lemma sound_hard_delete id : sound db_ok (hard_delete id).
Proof. unfold hard_delete. call_sound. Qed.
Lemma safe_purge_where p : safe db_ok (purge_where p).
Proof. unfold purge_where. conn_safe. Qed.
Lemma safe_purge_all_dependents : safe db_ok (execute (fun db => db
  <| db_contradictions := [] |> <| db_links := [] |> <| db_versions := [] |>
  <| db_embeddings := [] |> <| db_vectors := [] |>)).
Proof.
  apply safe_execute. intros db Hok.
  apply (ok_delete_dependents db _ (fun _ => true)); [done| | |apply NoDup_nil_2|done].
  - cbn. unfold delete_where. by induction (db_versions db).
  - intros id. unfold referenced. cbn. rewrite !elem_of_app. tauto.
Qed.
Lemma sound_purge_all : sound db_ok purge_all.
Proof.
  unfold purge_all. call_sound. apply safe_purge_all_dependents.
Qed.
Lemma sound_rollback_to_version id n : sound db_ok (rollback_to_version id n).
Proof. unfold rollback_to_version. call_sound. Qed.
Lemma safe_record_promotion m s r b t : safe db_ok (record_promotion m s r b t).
Proof. unfold record_promotion. conn_safe. apply safe_insert_row; [done|]. intros db id. in_referenced. Qed.
Hint Resolve safe_record_promotion : safe.
Lemma sound_promote_memory_to id s b r t : sound db_ok (promote_memory_to id s b r t).
Proof. unfold promote_memory_to. call_sound. Qed.
Lemma safe_promotion_target m c : safe db_ok (promotion_target m c).
Proof. unfold promotion_target. conn_safe. Qed.
Hint Resolve safe_promotion_target : safe.
Lemma sound_promote_each c t r l : sound db_ok (promote_each c t r l).
Proof. induction l as [|m l IH]; cbn [promote_each]; call_sound. Qed.
Hint Resolve sound_promote_each : sound.
Lemma sound_run_promotion_pass n t : sound db_ok (run_promotion_pass scope n t).
Proof. unfold run_promotion_pass. call_sound. Qed.

Lemma safe_live_storage_bytes : safe db_ok live_storage_bytes.
Proof. intros w Hw. unfold live_storage_bytes. by destruct (pages _) as [[]]. Qed.
Lemma safe_purge_dormant id : safe db_ok (execute (fun db => db
  <| db_embeddings ::= delete_where (fun e => bool_decide (er_memory_id e = id)) |>
  <| db_versions ::= delete_where (fun v => bool_decide (mv_memory_id v = id)) |>
  <| db_links ::= delete_where (fun l => bool_decide (ml_source_id l = id) || bool_decide (ml_target_id l = id)) |>
  <| db_contradictions ::= delete_where (fun c =>
       bool_decide (ce_memory_a_id c = id) || bool_decide (ce_memory_b_id c = id)) |>)).
Proof.
  apply safe_execute. intros db Hok.
  apply (ok_delete_dependents db _ (fun id' => bool_decide (id' = id))); [done|done| | |done].
  - sub_referenced.
  - apply NoDup_select, Hok.
Qed.
Lemma safe_delete_dormant m : safe db_ok (delete_dormant m).
Proof. unfold delete_dormant. conn_safe. apply safe_purge_dormant. Qed.
Hint Resolve safe_live_storage_bytes safe_delete_dormant : safe.
Lemma sound_delete_until n l : sound db_ok (delete_until n l).
Proof. induction l as [|m l IH]; cbn [delete_until]; call_sound. Qed.
Hint Resolve sound_delete_until : sound.
Lemma sound_demote_excess p n : sound db_ok (demote_excess scope p n).
Proof. unfold demote_excess. call_sound. Qed.
Lemma sound_delete_excess p n : sound db_ok (delete_excess scope p n).
Proof. unfold delete_excess. call_sound. Qed.
Hint Resolve sound_demote_excess sound_delete_excess : sound.
Lemma sound_run_enforce_budget p : sound db_ok (run_enforce_budget scope p).
Proof. unfold run_enforce_budget. call_sound. Qed.
Hint Resolve sound_run_enforce_budget : sound.
Lemma safe_resolve_configured_forgetting_policy : safe db_ok resolve_configured_forgetting_policy.
Proof. unfold resolve_configured_forgetting_policy. conn_safe. Qed.
Hint Resolve safe_resolve_configured_forgetting_policy : safe.
Lemma safe_compute_learned_weights : safe db_ok compute_learned_weights.
Proof. unfold compute_learned_weights. conn_safe. Qed.
Hint Resolve safe_compute_learned_weights : safe.
Lemma sound_record_feedback id q r : sound db_ok (record_feedback id q r).
Proof. unfold record_feedback. call_sound. apply safe_insert_row; [done|]. intros db id'. in_referenced. Qed.

(** ** The gate and reviews *)
Lemma sound_novelty_embedding c : sound db_ok (novelty_embedding c).
Proof. unfold novelty_embedding. call_sound. Qed.
Lemma sound_judge_match `{SimilarStore} config model c s : sound db_ok (judge_match config model c s).
Proof. unfold judge_match, llm_contradiction_verdict. call_sound. Qed.
Hint Resolve sound_novelty_embedding sound_judge_match : sound.
Lemma sound_evaluate config model c excluded :
  sound db_ok (evaluate_internal (H0 := sqlite_similar scope) config model c excluded).
Proof. unfold evaluate_internal. call_sound. Qed.
Lemma sound_load_config : sound db_ok load_config.
Proof. unfold load_config. call_sound. Qed.
Hint Resolve sound_evaluate sound_load_config : sound.
Lemma safe_merge_correction id t c b r n : safe db_ok (merge_correction id t c b r n).
Proof. unfold merge_correction. conn_safe. Qed.
Hint Resolve safe_merge_correction : safe.
Lemma safe_apply_correction id c b r d : safe db_ok (apply_correction id c b r d).
Proof. unfold apply_correction. conn_safe; apply safe_insert_row; done || (intros db id'; in_referenced). Qed.
Hint Resolve safe_apply_correction : safe.
Lemma sound_refresh_embedding id c : sound db_ok (refresh_embedding_after_content_change scope id c).
Proof. unfold refresh_embedding_after_content_change. call_sound. Qed.
Hint Resolve sound_refresh_embedding : sound.
Lemma sound_correct_memory id c b r : sound db_ok (correct_memory scope id c b r).
Proof.
  unfold correct_memory, evaluate_correction_decision, exact_correction_duplicate_decision, evaluate_excluding.
  call_sound.
Qed.
Lemma sound_import_as m s d r o : sound db_ok (import_as scope m s d r o).
Proof. unfold import_as, outside. call_sound. Qed.
Hint Resolve sound_import_as : sound.
Lemma sound_import_one config m : sound db_ok (import_one scope config m).
Proof.
  unfold import_one, shared_decision, exact_shared_import_duplicate_decision, evaluate. call_sound.
Qed.
Hint Resolve sound_import_one : sound.
Lemma sound_import_each config l : sound db_ok (import_each scope config l).
Proof. induction l as [|m l IH]; cbn [import_each]; call_sound. Qed.
Hint Resolve sound_import_each : sound.
Lemma safe_remediate_each ceiling t alerts l : safe db_ok (remediate_each ceiling t alerts l).
Proof. induction l as [|m l IH]; cbn [remediate_each]; conn_safe. Qed.
Hint Resolve safe_remediate_each : safe.
Lemma sound_remediate_poisoning alerts : sound db_ok (remediate_poisoning alerts).
Proof. unfold remediate_poisoning, load_poisoning_config, load_f32_config, load_u32_config. call_sound. Qed.

(** ** Every call *)
Hint Resolve sound_hard_delete safe_purge_where sound_purge_all sound_rollback_to_version sound_promote_memory_to
  sound_run_promotion_pass sound_record_feedback sound_correct_memory sound_remediate_poisoning : sound safe.
Lemma sound_finish {A} (p : MTask A) : sound db_ok p -> sound db_ok (finish p).
Proof. intros Hp. apply sound_prog_bind; [done|]. by intros [a|e]. Qed.
Lemma safe_update_contradictions p f :
  (forall c, ce_memory_a_id (f c) = ce_memory_a_id c /\ ce_memory_b_id (f c) = ce_memory_b_id c) ->
  safe db_ok (execute (fun db => db <| db_contradictions ::= update_where p f |>)).
Proof.
  intros Hf. apply safe_execute. intros db Hok. apply (db_ok_same_rows db); [done|done| |apply Hok].
  intros id'. unfold referenced. cbn -[update_where]. rewrite !keys_update_where by apply Hf. by left.
Qed.
Lemma safe_delete_links p : safe db_ok (execute (fun db => db <| db_links ::= delete_where p |>)).
Proof.
  apply safe_execute. intros db Hok. apply (db_ok_same_rows db); [done|done| |apply NoDup_select, Hok].
  intros id' Hid. left. revert id' Hid. sub_referenced.
Qed.
Lemma memory_call_sound call : sound db_ok (memory_call (scope, call)).
Proof.
  destruct call; apply sound_finish; cbn [fst snd]; try solve [eauto with sound];
    unfold make_dormant, reactivate, get_raw, list_memories, get_stale_embeddings, purge_user, purge_scope,
      record_contradiction, update_contradiction_status, list_contradictions, list_versions, list_corrections,
      record_link, list_links, delete_link, corroborate, traverse_links, enforce_budget,
      enforce_budget_with_policy, mark_consolidation_run, export_for_sharing, import_shared,
      import_shared_with_report, evaluate; call_sound.
  - by apply safe_update_contradictions.
  - apply safe_delete_links.
Qed.
End Invariant.

(** ** Histories *)
Definition empty_db (config : list (string * string)) : MemoryDb := mkMemoryDb [] [] [] [] [] [] [] [] [] [] [] config.
Definition fresh_store (config : list (string * string)) : MemoryConf := mkConf (mkMemoryWorld (empty_db config) 0 0 0) [] [].
Lemma empty_db_ok config : db_ok (empty_db config).
Proof. split; [apply NoDup_nil_2|apply NoDup_nil_2| |done|apply NoDup_nil_2]. by intros id ?%not_elem_of_nil. Qed.

Section Histories.
Context `{MemoryHost} `{L : Locking} `{!LawfulLocking L}.

Definition memory_reachable (conf : MemoryConf) : Prop := exists config, rtc memory_step (fresh_store config) conf.
(** A step after which the database still has the memory [id], while only calls
    of stores of [scope] are started. *)
Definition of_store (scope : MemoryScope) (call : MemoryScope * MemoryCall) : Prop := fst call = scope.
Definition step_with (scope : MemoryScope) (id : MemoryId) (conf conf' : MemoryConf) : Prop :=
  step_of memory_call (of_store scope) conf conf' /\ is_Some (find_memory (mw_db (c_state conf')) id).

Lemma reachable_ok conf : memory_reachable conf -> db_ok (mw_db (c_state conf)).
Proof.
  intros [config Hs]. assert (Reflexive (fun _ _ : MemoryWorld => True)) as Hr by (intros ?; exact Logic.I).
  apply (kept_steps memory_call (inside db_ok) (fun _ _ => True)) in Hs as [Hok _].
  - done.
  - intros [scope call]. eapply guarantees_weaken; [|apply memory_call_sound]. done.
  - split; [apply empty_db_ok|]. by intros c p ?%not_elem_of_nil.
Qed.
End Histories.
