(* ===== verification/MemoryScores.v ===== *)
(** The scores of memories: importance and reliability are numbers between 0
    and 1 along every history of calls that do not corroborate, of one store
    or of several. *)
From S2P Require Import Prelude Text Table Threads Floats Memories MemoryDb Embeddings Forgetting MemoryStore MemoryCuration SalienceGate MemoryReview MemoryFacts MemoryInvariant.

Definition unit_scored (m : Memory) : Prop :=
  unit_value (m_importance_score m) /\ unit_value (m_reliability_score m).
Definition scored (db : MemoryDb) : Prop := forall r, r ∈ db_memories db -> unit_scored (mr_memory r).
(** The scores that a caller gives are numbers of type [f32]. *)
Definition f32_scores (m : Memory) : Prop :=
  F32.is_f32 (m_importance_score m) = true /\ F32.is_f32 (m_reliability_score m) = true.
Definition f32_option (x : option float) : Prop := forall v, x = Some v -> F32.is_f32 v = true.
Definition well_typed (call : MemoryCall) : Prop :=
  match call with
  | Store_ m => f32_scores m
  | UpdateMetadata _ u => f32_option (mu_importance_score u) /\ f32_option (mu_reliability_score u)
  | ImportShared l => forall m, m ∈ l -> f32_scores m
  | _ => True
  end.
Definition corroborates (call : MemoryCall) : bool := match call with Corroborate _ _ => true | _ => false end.

(** ** Statements *)
Lemma unit_scored_ext m m' :
  m_importance_score m' = m_importance_score m -> m_reliability_score m' = m_reliability_score m ->
  unit_scored m -> unit_scored m'.
Proof. unfold unit_scored. by intros -> ->. Qed.
Lemma scored_found db id m : scored db -> find_memory db id = Some m -> unit_scored m.
Proof. intros Hs (_ & r & Hr & <-)%find_memory_Some. by apply Hs. Qed.
Lemma scored_same db db' : db_memories db' = db_memories db -> scored db -> scored db'.
Proof. unfold scored. by intros ->. Qed.
Lemma scored_update db p f :
  (forall r, unit_scored (mr_memory r) -> unit_scored (mr_memory (f r))) ->
  scored db -> scored (db <| db_memories ::= update_where p f |>).
Proof.
  intros Hf Hs r (r0 & Hr & ->)%elem_of_update_where. destruct (p r0); [apply Hf|]; by apply Hs.
Qed.
Lemma scored_execute f : (forall db, db_memories (f db) = db_memories db) -> safe scored (execute f).
Proof. intros Hf. apply safe_execute. intros db. by apply scored_same. Qed.
Lemma scored_referring l f : (forall db, db_memories (f db) = db_memories db) -> safe scored (insert_referring l f).
Proof. intros Hf. apply safe_insert_referring. intros db _. by apply scored_same. Qed.
Lemma scored_persist m : unit_scored m -> safe scored (persist_memory m).
Proof. intros Hm. apply safe_execute. intros db. by apply scored_update. Qed.
Lemma scored_update_memory id f :
  (forall m, unit_scored m -> unit_scored (f m)) -> safe scored (update_memory id f).
Proof. intros Hf. apply safe_execute. intros db. apply scored_update. intros r. apply Hf. Qed.
Lemma scored_insert m : unit_scored m -> safe scored (insert_memory m).
Proof.
  intros Hm w Hw. unfold insert_memory. destruct (insert_row _ _ _) as [l|] eqn:E; [|done].
  apply insert_row_Some in E as [-> _]. intros r [Hr| ->%list_elem_of_singleton]%elem_of_app; [by apply Hw|done].
Qed.
Lemma scored_delete p : safe scored (execute (delete_memories p)).
Proof. apply safe_execute. intros db Hs r [Hr _]%elem_of_delete_where. by apply Hs. Qed.

(** *** Reading a memory *)
Lemma scored_require_memory {A} id (k : option Memory -> Conn A) :
  (forall m, unit_scored m -> safe scored (k (Some m))) -> safe scored (k None) ->
  safe scored (require_memory id ≫= k).
Proof.
  intros Hs Hn w Hw. unfold require_memory, query, mbind, Conn_bind.
  destruct (find_memory (mw_db w) id) as [m|] eqn:E; [|by apply Hn]. apply Hs; [by eapply scored_found|done].
Qed.
Lemma scored_require {A} id (k : Memory -> Conn A) :
  (forall m, unit_scored m -> safe scored (k m)) -> safe scored (require_memory_or_not_found id ≫= k).
Proof.
  intros Hs w Hw.
  unfold require_memory_or_not_found, require_memory, query, some_or_raise, mret, Conn_ret, raise, mbind, Conn_bind.
  destruct (find_memory (mw_db w) id) as [m|] eqn:E; [|done]. cbn. apply Hs; [by eapply scored_found|done].
Qed.
Lemma scored_check_score {A} field value (k : unit -> Conn A) :
  ((forall v, value = Some v -> F32.is_f32 v = true -> unit_value v) -> safe scored (k tt)) ->
  safe scored (check_score field value ≫= k).
Proof.
  intros Hk. unfold check_score. destruct value as [v|]; [|by apply Hk].
  unfold validate_unit_interval. destruct (is_finite v && _) eqn:E; [|by intros w Hw].
  apply Hk. intros v' [= <-] Hv. rewrite !andb_true_iff in E. destruct E as (? & ? & ?). by apply unit_value_accepted.
Qed.
Lemma unit_scored_default x y (v : option float) :
  unit_value x -> (forall z, v = Some z -> F32.is_f32 z = true -> unit_value z) -> f32_option v ->
  y = default x v -> unit_value y.
Proof. intros Hx Hv Hf ->. destruct v as [z|]; [|done]. cbn. apply Hv; [done|by apply Hf]. Qed.

Ltac unit_scored := lazymatch goal with
  | H : unit_scored ?m |- unit_scored _ => by apply (unit_scored_ext m)
  end.
Ltac scored_step := lazymatch goal with
  | |- safe scored (require_memory_or_not_found _ ≫= _) => apply scored_require; intros ? ?
  | |- safe scored (require_memory _ ≫= _) => apply scored_require_memory; [intros ? ?|]
  | |- safe scored (persist_memory _) => apply scored_persist; try unit_scored
  | |- safe scored (update_memory _ _) => apply scored_update_memory; intros ? ?; try unit_scored
  | |- safe scored (execute (delete_memories _)) => apply scored_delete
  | |- safe scored (execute _) => apply scored_execute; by intros ?
  | |- safe scored (insert_referring _ _) => apply scored_referring; by intros ?
  | |- safe scored (delete_vector ?v) => destruct v; unfold delete_vector
  | |- safe scored (if ?x then _ else _) => destruct x
  | _ => conn_safe_step
  end.
Ltac scored := repeat scored_step.

(** ** Calls *)
Section Scores.
Context `{MemoryHost} `{L : Locking} `{!LawfulLocking L} (scope : MemoryScope).
Lemma unit_lit_2_100 : unit_value (F32.lit 2 100).
Proof. vm_compute. split_and!; congruence. Qed.
Lemma unit_lit_3_10 : unit_value (F32.lit 3 10).
Proof. vm_compute. split_and!; congruence. Qed.
Lemma unit_lit_1_10 : unit_value (F32.lit 1 10).
Proof. vm_compute. split_and!; congruence. Qed.
Lemma f32_lit_6_10 : F32.is_f32 (F32.lit 6 10) = true.
Proof. by vm_compute. Qed.
Lemma raised_unit m : unit_scored m -> unit_value (raised m).
Proof. intros [_ Hr]. by apply unit_value_add_min; [|apply unit_lit_1_10]. Qed.

Lemma scored_locked {A} (m : Conn A) : safe scored m -> sound scored (locked m).
Proof. intros Hm. by apply sound_with, sound_section. Qed.
Lemma scored_of_result {A} (r : Result StoreError A) : sound scored (of_result r).
Proof. done. Qed.
(** A section whose result the rest writes back. *)
Lemma scored_section_then {A B} (m : Conn A) (k : A -> MTask B) :
  safe scored m -> (forall w a w', scored (mw_db w) -> m w = (Ok a, w') -> sound scored (k a)) ->
  sound scored (section m ≫= k).
Proof.
  intros Hm Hk w Hw. split; [by apply Hm|]. pose proof (Hk w) as Hk'.
  destruct (m w) as [[a|e] w1]; [|done]. by eapply Hk'.
Qed.
Lemma scored_validated {B} m (k : unit -> MTask B) :
  f32_scores m -> (unit_scored m -> sound scored (k tt)) -> sound scored (of_result (validate_memory_for_store scope m) ≫= k).
Proof.
  intros [Hi Hr] Hk. unfold validate_memory_for_store, fail_if, validate_unit_interval.
  destruct (negb _); [done|]. destruct (bool_decide _); [done|]. cbn.
  destruct (is_finite (m_importance_score m) && _) eqn:E1; [|done]. cbn.
  destruct (is_finite (m_reliability_score m) && _) eqn:E2; [|done]. cbn. apply Hk.
  rewrite !andb_true_iff in E1, E2. destruct E1 as (? & ? & ?), E2 as (? & ? & ?). split; by apply unit_value_accepted.
Qed.
Hint Resolve scored_of_result : sound.
Ltac call_scored := repeat first
  [ lazymatch goal with
    | |- sound _ (section _) => apply sound_section; scored
    | |- sound _ (locked _) => apply scored_locked; scored
    | |- sound _ (_ ≫= _) => apply sound_bind; [|intros ?]
    | |- sound _ (prog_bind _ _) => apply sound_prog_bind; [|intros ?]
    end
  | sound_step ].

(** *** Storing, updating, reading *)
Lemma scored_sync_fts_entry rowid p m : safe scored (sync_fts_entry rowid p m).
Proof. unfold sync_fts_entry, delete_fts_entry. scored. Qed.
Lemma scored_delete_fts_entry rowid m : safe scored (delete_fts_entry rowid m).
Proof. unfold delete_fts_entry. scored. Qed.
Lemma scored_require_rowid id : safe scored (require_memory_rowid id).
Proof. unfold require_memory_rowid. scored. Qed.
Lemma scored_upsert id e sha : safe scored (upsert_encoded_embedding id e sha).
Proof. unfold upsert_encoded_embedding. scored. Qed.
Lemma scored_version id c t b r : safe scored (insert_memory_version_row id c t b r).
Proof. unfold insert_memory_version_row, load_next_version_number, insert_version. scored. Qed.
Lemma scored_lower_reliability m t : unit_scored m -> safe scored (lower_reliability m t).
Proof.
  intros Hm. apply scored_update_memory. intros m' [Hi _]. split; [done|]. cbn -[fmax fzero F32.sub F32.lit].
  apply unit_value_sub_max; [by destruct Hm|apply unit_lit_3_10].
Qed.
Lemma scored_contradiction a b d : safe scored (record_contradiction_row a b d).
Proof. unfold record_contradiction_row. scored; by apply scored_lower_reliability. Qed.
Lemma scored_link a b r : safe scored (record_link_row a b r).
Proof. unfold record_link_row. scored. Qed.
Hint Resolve scored_sync_fts_entry scored_delete_fts_entry scored_require_rowid scored_upsert scored_version
  scored_contradiction scored_link : safe.
Lemma scored_reuse id sha : sound scored (reuse_cached_embedding scope id sha).
Proof. unfold reuse_cached_embedding, decode_or_raise. call_scored. Qed.
Lemma scored_store_embedding id e : sound scored (store_embedding id e).
Proof. unfold store_embedding. call_scored. Qed.
Lemma scored_generate_embedding text task : sound scored (generate_embedding text task).
Proof. unfold generate_embedding. call_scored. Qed.
Hint Resolve scored_reuse scored_store_embedding scored_generate_embedding : sound.
Lemma scored_insert_stored m : unit_scored m -> safe scored (insert_stored_memory m).
Proof. intros Hm. unfold insert_stored_memory. scored. by apply scored_insert. Qed.
Lemma scored_store m : f32_scores m -> sound scored (store scope m).
Proof.
  intros Hm. unfold store. cbv zeta. apply scored_validated; [by case_match|]. intros Hu.
  call_scored. by apply scored_insert_stored.
Qed.
Lemma scored_insert_without_embedding m :
  f32_scores m -> sound scored (insert_memory_without_embedding scope m).
Proof.
  intros Hm. unfold insert_memory_without_embedding. apply scored_validated; [done|]. intros Hu.
  call_scored. by apply scored_insert_stored.
Qed.
Lemma scored_update_content id c b r : sound scored (update_content id c b r).
Proof. unfold update_content. call_scored. Qed.
Lemma scored_update_metadata id u :
  f32_option (mu_importance_score u) -> f32_option (mu_reliability_score u) -> sound scored (update_metadata id u).
Proof.
  intros Hi Hr. unfold update_metadata. apply scored_locked, safe_transaction. apply scored_require. intros m Hm.
  apply safe_bind; [auto with safe|]. intros rowid. apply scored_check_score. intros Vi.
  apply scored_check_score. intros Vr. scored. destruct Hm as [Hmi Hmr].
  split; [by eapply unit_scored_default; [exact Hmi|exact Vi|done|]|by eapply unit_scored_default; [exact Hmr|exact Vr|done|]].
Qed.
Lemma scored_transition id s : sound scored (transition_state id s).
Proof. unfold transition_state. call_scored. Qed.
Lemma scored_get id : sound scored (get id).
Proof. unfold get, touch. call_scored. Qed.
Lemma scored_find_similar e t n : sound scored (find_similar scope e t n).
Proof. unfold find_similar, validate_query_embedding. call_scored. Qed.
Hint Resolve scored_update_content scored_transition scored_get scored_find_similar : sound.

(** *** Curation *)
Lemma scored_purge_where p : safe scored (purge_where p).
Proof. unfold purge_where, rebuild_fts. scored. Qed.
Lemma scored_hard_delete id : sound scored (hard_delete id).
Proof. unfold hard_delete. call_scored. Qed.
Lemma scored_purge_all : sound scored purge_all.
Proof. unfold purge_all, rebuild_fts. call_scored. Qed.
Lemma scored_rollback id n : sound scored (rollback_to_version id n).
Proof. unfold rollback_to_version. call_scored. Qed.
Lemma scored_promotion m s r b t : unit_scored m -> safe scored (record_promotion m s r b t).
Proof. intros Hm. unfold record_promotion. scored. Qed.
Lemma scored_promote_memory_to id s b r t : sound scored (promote_memory_to id s b r t).
Proof. unfold promote_memory_to. call_scored. by apply scored_promotion. Qed.
Lemma scored_promote_each c t r l : sound scored (promote_each c t r l).
Proof.
  induction l as [|m l IH]; cbn [promote_each]; call_scored.
  - unfold promotion_target. scored.
  - by apply scored_promotion.
Qed.
Hint Resolve scored_promote_each : sound.
Lemma scored_run_promotion_pass n t : sound scored (run_promotion_pass scope n t).
Proof. unfold run_promotion_pass. call_scored. Qed.
Lemma scored_search db scopes state types agent m :
  scored db -> m ∈ load_search_memories scopes state types agent db -> unit_scored m.
Proof. intros Hs (r & -> & [Hr _]%elem_of_order_by%elem_of_select_where)%list_elem_of_fmap. by apply Hs. Qed.
Lemma scored_demote_excess p n : sound scored (demote_excess scope p n).
Proof.
  unfold demote_excess. apply sound_bind; [apply sound_section; scored|]. intros active.
  destruct (active <=? n)%Z; [done|]. apply scored_section_then; [scored|]. intros w memories w' Hw [-> ->]%query_Ok.
  call_scored. match goal with Hm : ?x ∈ take _ _ |- _ => rename x into m; rename Hm into Hin end.
  apply in_take, elem_of_order_by in Hin. apply (unit_scored_ext m); [done|done|]. by eapply scored_search.
Qed.
Lemma scored_live_storage_bytes : safe scored live_storage_bytes.
Proof. intros w Hw. unfold live_storage_bytes. by destruct (pages _) as [[]]. Qed.
Hint Resolve scored_live_storage_bytes : safe.
Lemma scored_delete_until n l : sound scored (delete_until n l).
Proof. induction l as [|m l IH]; cbn [delete_until]; unfold delete_dormant; call_scored. Qed.
Hint Resolve scored_delete_until scored_demote_excess : sound.
Lemma scored_run_enforce_budget p : sound scored (run_enforce_budget scope p).
Proof. unfold run_enforce_budget, delete_excess. call_scored. Qed.
Hint Resolve scored_run_enforce_budget : sound.
Lemma scored_record_feedback id q r : sound scored (record_feedback id q r).
Proof.
  unfold record_feedback. apply sound_with; [typeclasses eauto|]. apply scored_section_then.
  { unfold require_memory_or_not_found, require_memory. scored. }
  intros w m w' Hw Hm. unfold require_memory_or_not_found, require_memory in Hm. conn_inv.
  assert (unit_scored m) as [Hi Hr] by by eapply scored_found.
  apply sound_section. unfold compute_learned_weights, persist_learned_weights. scored.
  destruct r; split; try done. by apply unit_value_sub_max; [|apply unit_lit_2_100].
Qed.

(** *** The gate and reviews *)
Lemma scored_evaluate config model c excluded :
  sound scored (evaluate_internal (H0 := sqlite_similar scope) config model c excluded).
Proof. unfold evaluate_internal, novelty_embedding, judge_match, llm_contradiction_verdict. call_scored. Qed.
Lemma scored_load_config : sound scored load_config.
Proof. unfold load_config. call_scored. Qed.
Hint Resolve scored_evaluate scored_load_config : sound.
Lemma scored_merge_correction id t c b r n : safe scored (merge_correction id t c b r n).
Proof.
  unfold merge_correction. scored. match goal with Hm : unit_scored _ |- _ =>
    pose proof (raised_unit _ Hm); destruct Hm end. by case_bool_decide; split.
Qed.
Hint Resolve scored_merge_correction : safe.
Lemma scored_apply_correction id c b r d : safe scored (apply_correction id c b r d).
Proof.
  unfold apply_correction. scored. match goal with Hm : unit_scored _ |- _ =>
    pose proof (raised_unit _ Hm); destruct Hm end. by destruct d; split.
Qed.
Hint Resolve scored_apply_correction : safe.
Lemma scored_refresh id c : sound scored (refresh_embedding_after_content_change scope id c).
Proof. unfold refresh_embedding_after_content_change. call_scored. Qed.
Hint Resolve scored_refresh : sound.
Lemma scored_correct_memory id c b r : sound scored (correct_memory scope id c b r).
Proof.
  unfold correct_memory, evaluate_correction_decision, exact_correction_duplicate_decision, evaluate_excluding,
    require_memory_or_not_found, require_memory. call_scored.
Qed.
Lemma f32_fmin x y : F32.is_f32 x = true -> F32.is_f32 y = true -> F32.is_f32 (fmin x y) = true.
Proof. intros Hx Hy. unfold fmin. by repeat case_match. Qed.
Lemma scored_import_as m s d r o : f32_scores m -> sound scored (import_as scope m s d r o).
Proof.
  intros [Hi Hr]. unfold import_as, outside. call_scored. apply scored_insert_without_embedding.
  split; [done|]. apply f32_fmin; [done|apply f32_lit_6_10].
Qed.
Lemma scored_import_each config l : (forall m, m ∈ l -> f32_scores m) -> sound scored (import_each scope config l).
Proof.
  induction l as [|m l IH]; intros Hl; cbn [import_each]; [done|].
  pose proof (fun s d r o => scored_import_as m s d r o (Hl m (list_elem_of_here _ _))) as Hm.
  assert (sound scored (import_each scope config l)) as Hrest by (apply IH; intros m' Hm'; apply Hl; by right).
  unfold import_one, shared_decision, exact_shared_import_duplicate_decision, evaluate. call_scored.
Qed.
Lemma scored_remediate_each ceiling t alerts l : safe scored (remediate_each ceiling t alerts l).
Proof. induction l as [|m l IH]; cbn [remediate_each]; scored. Qed.
Hint Resolve scored_remediate_each : safe.
Lemma scored_remediate alerts : sound scored (remediate_poisoning alerts).
Proof. unfold remediate_poisoning, load_poisoning_config, load_f32_config, load_u32_config. call_scored. Qed.

(** *** Every call but [corroborate] *)
Hint Resolve scored_hard_delete scored_purge_where scored_purge_all scored_rollback scored_promote_memory_to
  scored_run_promotion_pass scored_record_feedback scored_correct_memory scored_remediate : sound safe.
Lemma scored_finish {A} (p : MTask A) : sound scored p -> sound scored (finish p).
Proof. intros Hp. apply sound_prog_bind; [done|]. by intros [a|e]. Qed.
Lemma scored_call call : well_typed call -> corroborates call = false -> sound scored (memory_call (scope, call)).
Proof.
  intros Ht Hc. destruct call; try done; apply scored_finish; cbn [fst snd]; try solve [eauto with sound];
    unfold make_dormant, reactivate, get_raw, list_memories, get_stale_embeddings, purge_user, purge_scope,
      record_contradiction, update_contradiction_status, list_contradictions, list_versions, list_corrections,
      record_link, list_links, delete_link, traverse_links, enforce_budget, enforce_budget_with_policy,
      resolve_configured_forgetting_policy, mark_consolidation_run, export_for_sharing, import_shared,
      import_shared_with_report, evaluate; call_scored.
  - by apply scored_store.
  - by apply scored_update_metadata; apply Ht.
  - unfold require_memory_or_not_found, require_memory. conn_safe.
  - by apply scored_import_each.
Qed.
End Scores.

(** ** Histories *)
Definition plain_call (call : MemoryScope * MemoryCall) : Prop :=
  well_typed (snd call) /\ corroborates (snd call) = false.
(** C34. While nobody corroborates, the importance and the reliability of every
    memory are finite numbers between 0 and 1 in every state that calls of one
    store or of several reach: what is stored, imported or set is checked,
    and what feedback, corrections and contradictions compute of it in [f32]
    rounds to such a number again. *)
Theorem scores_stay_between_zero_and_one `{MemoryHost} `{L : Locking} `{!LawfulLocking L}
    config (conf : MemoryConf) id m :
  rtc (step_of memory_call plain_call) (fresh_store config) conf ->
  find_memory (mw_db (c_state conf)) id = Some m ->
  unit_value (m_importance_score m) /\ unit_value (m_reliability_score m).
Proof.
  intros Hs Hm. apply (kept_steps_of memory_call plain_call (inside scored)) in Hs as [Hok _].
  - by eapply scored_found.
  - intros [scope call] [Ht Hc]. by apply scored_call.
  - split; [|by intros c p ?%not_elem_of_nil]. by intros r ?%not_elem_of_nil.
Qed.
