(* ===== verification/MemoryHistory.v ===== *)
(** What becomes of a memory while it stays in the store: its versions only
    grow, what it said is what it says or one of them, and its scope is never
    narrowed.  [since db0 rec] holds of the databases that come from [db0] in
    this way, the texts [rec] being among the new versions: the code of a
    transaction keeps it, statement by statement ([safe]); in one store
    every call keeps the trail of the memories, so every history does. *)
From S2P Require Import Prelude Text Table Threads Floats Memories MemoryDb Embeddings Forgetting MemoryStore MemoryCuration SalienceGate MemoryReview MemoryFacts MemoryInvariant.

Definition trail (id : MemoryId) (db db' : MemoryDb) (m m' : Memory) : Prop :=
  (exists new, versions_of id db' = versions_of id db ++ new
     /\ (m_content m' = m_content m \/ m_content m ∈ map mv_content new))
  /\ (scope_rank (m_scope m) <= scope_rank (m_scope m'))%Z.
(** Every memory of the second database comes from one of the first. *)
Definition evolves (db db' : MemoryDb) : Prop :=
  forall id m', find_memory db' id = Some m' ->
    exists m, find_memory db id = Some m /\ trail id db db' m m'.
(** The memories of both databases. *)
Definition keeps_trail (db db' : MemoryDb) : Prop :=
  forall id m m', find_memory db id = Some m -> find_memory db' id = Some m' -> trail id db db' m m'.

Lemma trail_refl id db db' m m' :
  versions_of id db' = versions_of id db -> m_content m' = m_content m -> m_scope m' = m_scope m ->
  trail id db db' m m'.
Proof. intros E Ec Es. split; [exists []; rewrite app_nil_r; by split; [|left]|by rewrite Es]. Qed.
Lemma trail_trans id db1 db2 db3 m1 m2 m3 :
  trail id db1 db2 m1 m2 -> trail id db2 db3 m2 m3 -> trail id db1 db3 m1 m3.
Proof.
  intros [(l & El & Hl) H1] [(l' & El' & Hl') H2]. split; [|lia]. exists (l ++ l').
  rewrite El', El, app_assoc, map_app, elem_of_app. split; [done|].
  destruct Hl as [E|?]; [|by right; left]. rewrite <- E. destruct Hl' as [?|?]; [by left|by right; right].
Qed.

#[export] Instance evolves_preorder : PreOrder evolves.
Proof.
  split.
  - intros db id m Hm. exists m. split; [done|by apply trail_refl].
  - intros db1 db2 db3 H12 H23 id m3 (m2 & Hm2 & H2)%H23. apply H12 in Hm2 as (m1 & Hm1 & H1).
    exists m1. split; [done|by eapply trail_trans].
Qed.
Lemma evolves_keeps_trail db db' : evolves db db' -> keeps_trail db db'.
Proof. intros He id m m' Hm (m0 & Hm0 & Ht)%He. by simplify_eq. Qed.
#[export] Instance keeps_trail_refl : Reflexive keeps_trail.
Proof. intros db. apply evolves_keeps_trail. done. Qed.

Definition recorded (db0 db : MemoryDb) (r : MemoryId * string) : Prop :=
  forall m, find_memory db (fst r) = Some m ->
    exists new, versions_of (fst r) db = versions_of (fst r) db0 ++ new /\ snd r ∈ map mv_content new.
Record since (db0 : MemoryDb) (rec : list (MemoryId * string)) (db : MemoryDb) : Prop := {
  since_ok : db_ok db;
  since_evolves : evolves db0 db;
  since_recorded : forall r, r ∈ rec -> recorded db0 db r }.

Lemma since_refl db : db_ok db -> since db [] db.
Proof. intros Hok. split; [done|done|]. by intros r ?%not_elem_of_nil. Qed.
Lemma since_trans db0 rec db rec' db' : since db0 rec db -> since db rec' db' -> since db0 rec db'.
Proof.
  intros [_ H2 H3] [H1' H2' _]. split; [done|by transitivity db|].
  intros r Hr m' (m & Hm & [(l & El & _) _])%H2'. destruct (H3 r Hr m Hm) as (l0 & E0 & Hin).
  exists (l0 ++ l). rewrite El, E0, app_assoc, map_app, elem_of_app. split; [done|by left].
Qed.
Lemma since_weaken db0 rec db : since db0 rec db -> since db0 [] db.
Proof. intros [H1 H2 _]. split; [done|done|]. by intros r ?%not_elem_of_nil. Qed.

(** Code that changes the memories only as they may. *)
Definition evolving {A} (m : Conn A) : Prop := forall db, safe (since db []) m.
Lemma evolving_since {A} (m : Conn A) db0 rec : evolving m -> safe (since db0 rec) m.
Proof.
  intros Hm w Hw. eapply since_trans; [exact Hw|]. apply (Hm (mw_db w)), since_refl, Hw.
Qed.

Section Trail.
Context `{MemoryHost} (db0 : MemoryDb) (rec : list (MemoryId * string)).

(** ** Statements *)
Lemma since_same db db' :
  since db0 rec db -> db_ok db' -> (forall id, find_memory db' id = find_memory db id) ->
  (forall id, versions_of id db' = versions_of id db) -> since db0 rec db'.
Proof.
  intros Hs Hok Hf Hv. eapply since_trans; [exact Hs|]. apply (since_weaken _ []). split; [done| |].
  - intros id m. rewrite Hf. intros Hm. exists m. split; [done|]. by apply trail_refl.
  - by intros r ?%not_elem_of_nil.
Qed.
Lemma safe_same {A} (m : Conn A) :
  safe db_ok m -> (forall w, same_rows (mw_db w) (mw_db (snd (m w)))) -> safe (since db0 rec) m.
Proof.
  intros Hm Hs w Hw. destruct (Hs w) as [Em Ev]. apply (since_same (mw_db w)); [done|apply Hm, Hw| |].
  - intros id. unfold find_memory, find_row. by rewrite Em.
  - intros id. by apply versions_of_same.
Qed.

Lemma since_change db m f :
  since db0 rec db -> db_ok (f db) -> (forall id, versions_of id (f db) = versions_of id db) ->
  (forall id m1, find_memory (f db) id = Some m1 -> exists m0, find_memory db id = Some m0 /\
     (m1 = m0 \/ (exists m', m1 = m /\ find_memory db0 id = Some m' /\
        (m_content m = m_content m' \/ (id, m_content m') ∈ rec) /\
        (scope_rank (m_scope m') <= scope_rank (m_scope m))%Z))) ->
  since db0 rec (f db).
Proof.
  intros Hs Hok Hv Hf. split; [done| |].
  - intros id m1 (m0 & Hm0 & Hm1)%Hf.
    destruct (since_evolves _ _ _ Hs id m0 Hm0) as (m' & Hm' & [(new & En & Hc) Hrank]).
    exists m'. split; [done|]. destruct Hm1 as [-> |(m'' & -> & Hm'' & Hc' & Hr)].
    + split; [|done]. exists new. by rewrite Hv.
    + simplify_eq. split; [|done]. destruct Hc' as [Hc'|Hin].
      * exists new. rewrite Hv. split; [done|by left].
      * destruct (since_recorded _ _ _ Hs _ Hin m0 Hm0) as (new' & En' & Hin').
        exists new'. rewrite Hv. split; [done|by right].
  - intros r Hr m1 (m0 & Hm0 & _)%Hf. rewrite Hv. by apply (since_recorded _ _ _ Hs _ Hr m0).
Qed.
Lemma since_persist m m' :
  find_memory db0 (m_id m) = Some m' ->
  m_content m = m_content m' \/ (m_id m, m_content m') ∈ rec ->
  (scope_rank (m_scope m') <= scope_rank (m_scope m))%Z ->
  safe (since db0 rec) (persist_memory m).
Proof.
  intros Hm' Hc Hr w Hw.
  refine (since_change (mw_db w) m (fun db => db <| db_memories ::= _ |>) Hw _ _ _); [|done|].
  - apply (safe_persist_memory m w), Hw.
  - intros id m1. rewrite find_memory_persist. destruct (find_memory (mw_db w) id) as [m0|]; [|done].
    intros [= <-]. exists m0. split; [done|]. case_decide as Hd; [subst id; right; eauto|by left].
Qed.
Lemma since_update_memory id f :
  (forall m, m_id (f m) = m_id m /\ m_content (f m) = m_content m /\ m_scope (f m) = m_scope m) ->
  safe (since db0 rec) (update_memory id f).
Proof.
  intros Hf w Hw. eapply since_trans; [exact Hw|]. apply (since_weaken _ []). split.
  - apply safe_update_memory; [intros m; apply Hf|apply Hw].
  - intros id' m1.
    assert (find_memory (mw_db (snd (update_memory id f w))) id' =
      (fun m0 => if decide (id' = id) then f m0 else m0) <$> find_memory (mw_db w) id') as ->
      by (apply find_memory_update_memory; intros m; apply Hf).
    destruct (find_memory (mw_db w) id') as [m0|] eqn:E; [|done]. intros [= <-]. exists m0.
    split; [done|]. apply trail_refl; [done|..]; by case_decide; [apply Hf|].
  - by intros r ?%not_elem_of_nil.
Qed.
Lemma insert_memory_version_row_Err id c t b r e w w' :
  insert_memory_version_row id c t b r w = (Err e, w') -> mw_db w' = mw_db w.
Proof.
  unfold insert_memory_version_row, load_next_version_number, insert_version, insert_referring.
  unfold query, fresh_uuid, check, execute, raise, mret, Conn_ret, mbind, Conn_bind. cbn.
  destruct (_ <? _)%Z; [|by intros [= _ <-]]. cbn. by destruct (_ && _); [|intros [= _ <-]].
Qed.
Lemma since_version_then {A} id c t b r (k : unit -> Conn A) :
  safe (since db0 ((id, c) :: rec)) (k tt) ->
  safe (since db0 rec) (insert_memory_version_row id c t b r ≫= k).
Proof.
  intros Hk w Hw.
  pose proof (safe_insert_memory_version_row id c t b r w (since_ok _ _ _ Hw)) as Hok. revert Hok.
  unfold mbind, Conn_bind. destruct (insert_memory_version_row id c t b r w) as [[[]|e] w1] eqn:E; cbn; intros Hok.
  - cut (since db0 ((id, c) :: rec) (mw_db w1)).
    { intros [H1 H2 H3]%(Hk w1). split; [done|done|]. intros rc Hr. apply H3. by right. }
    unfold insert_memory_version_row, load_next_version_number, insert_version in E. conn_inv. cbn in *.
    set (v := mkMemoryVersion _ _ _ _ _ _ _) in *.
    assert (forall id', versions_of id' ((mw_db w) <| db_versions ::= fun l => l ++ [v] |>) =
      versions_of id' (mw_db w) ++ (if decide (id = id') then [v] else [])) as Ev by (intros; apply versions_of_app).
    assert (since db0 rec ((mw_db w) <| db_versions ::= fun l => l ++ [v] |>)) as [Hs1 Hs2 Hs3].
    { eapply since_trans; [exact Hw|]. split; [done| |by intros r' ?%not_elem_of_nil].
      intros id' m Hm. exists m. split; [done|]. split; [|done]. eexists. split; [apply Ev|by left]. }
    split; [done|done|]. intros r' [-> |Hr]%elem_of_cons; [|by apply Hs3].
    intros m Hm. destruct (since_evolves _ _ _ Hw id m Hm) as (m0 & _ & [(new & En & _) _]).
    exists (new ++ [v]). split; [|rewrite map_app, elem_of_app; right; by left].
    etrans; [exact (Ev id)|]. rewrite decide_True by done. by rewrite app_assoc, En.
  - assert (mw_db w1 = mw_db w) as -> by (by eapply insert_memory_version_row_Err). done.
Qed.

Lemma since_insert_row l f :
  (forall db, same_rows db (f db) /\ db_links (f db) = db_links db) ->
  (forall db id, id ∈ referenced (f db) -> id ∈ referenced db \/ id ∈ l) ->
  safe (since db0 rec) (insert_referring l f).
Proof.
  intros Hf Hr. apply safe_same; [by apply safe_insert_row|]. intros w. unfold insert_referring, check.
  unfold query, mbind, Conn_bind. cbn -[references_exist].
  destruct (references_exist l (mw_db w)); [apply Hf|done].
Qed.
Lemma since_record_link_row a b r : safe (since db0 rec) (record_link_row a b r).
Proof.
  apply safe_same; [apply safe_record_link_row|]. intros w. unfold record_link_row, insert_referring, check.
  unfold query, fresh_uuid, now, mbind, Conn_bind. cbn -[references_exist].
  destruct (existsb _ _); [done|]. cbn -[references_exist]. by destruct (references_exist [a; b] (mw_db w)).
Qed.

(** ** Deletions *)
Lemma find_memory_delete db p id m :
  db_ok db -> find_memory (delete_memories p db) id = Some m <-> find_memory db id = Some m /\ p m = false.
Proof.
  intros Hok. split.
  - intros (Hid & r & [Hr Hp]%elem_of_delete_where & <-)%find_memory_Some. split; [|done].
    rewrite <- Hid. by apply find_memory_elem; [apply Hok|].
  - intros [(<- & r & Hr & <-)%find_memory_Some Hp]. apply find_memory_elem.
    + apply ok_delete_memories, Hok.
    + by apply elem_of_delete_where.
Qed.
Lemma evolves_purge p gone db db1 :
  db_ok db -> db_ok db1 -> db_memories db1 = db_memories db ->
  db_versions db1 = delete_where (fun v => gone (mv_memory_id v)) (db_versions db) ->
  (forall id m, find_memory db id = Some m -> gone id = true -> p m = true) ->
  evolves db (delete_memories p db1).
Proof.
  intros Hok Hok1 Em Ev Hg id m [Hm Hp]%find_memory_delete; [|done].
  assert (find_memory db id = Some m) as Hm' by (revert Hm; unfold find_memory, find_row; by rewrite Em).
  exists m. split; [done|]. apply trail_refl; [|done|done]. rewrite versions_of_delete_memories.
  destruct (selected p db1 id) eqn:Es.
  - apply selected_true in Es as (r & Hr & Hid & Hpr).
    pose proof (find_memory_elem db1 r (ok_ids _ Hok1) Hr) as Hf. rewrite Hid, Hm in Hf. simplify_eq. congruence.
  - unfold versions_of. rewrite Ev, versions_of_delete_memory.
    destruct (gone id) eqn:Eg; [|done]. specialize (Hg id m Hm' Eg). congruence.
Qed.
Lemma since_delete_memories p : safe (since db0 rec) (execute (delete_memories p)).
Proof.
  intros w Hw. eapply since_trans; [exact Hw|]. apply (since_weaken _ []). split.
  - apply ok_delete_memories, Hw.
  - apply (evolves_purge p (fun _ => false)); [apply Hw..|done| |done].
    unfold delete_where. by rewrite List.filter_true.
  - by intros r ?%not_elem_of_nil.
Qed.

Lemma since_safe_same {A} (m : Conn A) :
  safe db_ok m -> (forall w, db_memories (mw_db (snd (m w))) = db_memories (mw_db w)) ->
  (forall w, db_versions (mw_db (snd (m w))) = db_versions (mw_db w)) -> safe (since db0 rec) m.
Proof. intros Hm H1 H2. by apply safe_same. Qed.
Lemma since_fts f : safe (since db0 rec) (execute (fun db => db <| db_fts ::= f |>)).
Proof. apply since_safe_same; [apply safe_fts|done|done]. Qed.
Lemma since_delete_fts_entry rowid m : safe (since db0 rec) (delete_fts_entry rowid m).
Proof. apply since_fts. Qed.
Lemma since_sync_fts_entry rowid p m : safe (since db0 rec) (sync_fts_entry rowid p m).
Proof. apply safe_bind; [destruct p; [apply since_fts|apply safe_ret]|]. intros _. apply since_fts. Qed.
Lemma since_rebuild_fts : safe (since db0 rec) rebuild_fts.
Proof. apply since_safe_same; [apply safe_rebuild_fts|done|done]. Qed.
Lemma since_delete_vector v : safe (since db0 rec) (delete_vector v).
Proof. apply since_safe_same; [apply safe_delete_vector|by destruct v..]. Qed.
Lemma since_vectors f : safe (since db0 rec) (execute (fun db => db <| db_vectors ::= f |>)).
Proof. apply since_safe_same; [apply safe_vectors|done|done]. Qed.
Lemma since_set_config key value : safe (since db0 rec) (execute (set_config_value key value)).
Proof. apply since_safe_same; [apply safe_set_config|done|done]. Qed.
Lemma since_persist_learned_weights w : safe (since db0 rec) (persist_learned_weights w).
Proof. apply since_safe_same; [apply safe_persist_learned_weights|done|done]. Qed.
End Trail.
#[export] Hint Resolve since_delete_fts_entry since_sync_fts_entry since_rebuild_fts since_delete_vector
  since_vectors since_set_config since_persist_learned_weights since_record_link_row since_delete_memories
  since_update_memory : safe.

(** ** Transactions *)
Section Transactions.
Context `{MemoryHost}.

Lemma evolving_transaction {A} (m : Conn A) : evolving m -> evolving (transaction m).
Proof. intros Hm db. apply safe_transaction, Hm. Qed.
Lemma evolving_bind {A B} (m : Conn A) (k : A -> Conn B) :
  evolving m -> (forall a, evolving (k a)) -> evolving (m ≫= k).
Proof. intros Hm Hk db. apply safe_bind; [apply Hm|]. intros a. apply Hk. Qed.
Lemma evolving_reading {A} (m : Conn A) : (forall P, safe P m) -> evolving m.
Proof. intros Hm db. apply Hm. Qed.
Lemma safe_reading_memory P id : safe P (require_memory_or_not_found id).
Proof. unfold require_memory_or_not_found, require_memory. conn_safe. Qed.
Lemma evolving_start {A} (m : Conn A) :
  (forall w, db_ok (mw_db w) -> since (mw_db w) [] (mw_db (snd (m w)))) -> evolving m.
Proof. intros Hm db w Hw. eapply since_trans; [exact Hw|]. apply Hm, Hw. Qed.
Lemma evolving_require_memory {A} id (k : option Memory -> Conn A) :
  (forall db m, m_id m = id -> find_memory db (m_id m) = Some m -> safe (since db []) (k (Some m))) ->
  evolving (k None) -> evolving (require_memory id ≫= k).
Proof.
  intros Hs Hn. apply evolving_start. intros w Hok. unfold require_memory, query, mbind, Conn_bind.
  destruct (find_memory (mw_db w) id) as [m|] eqn:E; [|by apply Hn, since_refl].
  pose proof (find_memory_Some _ _ _ E) as [Hid _]. apply Hs; [done|by rewrite Hid|by apply since_refl].
Qed.
Lemma evolving_require {A} id (k : Memory -> Conn A) :
  (forall db m, m_id m = id -> find_memory db (m_id m) = Some m -> safe (since db []) (k m)) ->
  evolving (require_memory_or_not_found id ≫= k).
Proof.
  intros Hs. apply evolving_start. intros w Hok.
  unfold require_memory_or_not_found, require_memory, query, some_or_raise, mret, Conn_ret, raise, mbind, Conn_bind.
  destruct (find_memory (mw_db w) id) as [m|] eqn:E; [|by apply since_refl]. cbn.
  pose proof (find_memory_Some _ _ _ E) as [Hid _]. apply Hs; [done|by rewrite Hid|by apply since_refl].
Qed.

(** A memory written back as it was read, but for columns that do not matter here. *)
Lemma since_persist_same db rec m m' :
  find_memory db (m_id m) = Some m -> m_id m' = m_id m -> m_content m' = m_content m -> m_scope m' = m_scope m ->
  safe (since db rec) (persist_memory m').
Proof. intros Hm Ei Ec Es. eapply since_persist; [by rewrite Ei|by left|by rewrite Es]. Qed.
(** A memory written back after its text has been recorded. *)
Lemma since_persist_recorded db rec m m' :
  find_memory db (m_id m) = Some m -> m_id m' = m_id m -> m_scope m' = m_scope m ->
  (m_id m, m_content m) ∈ rec -> safe (since db rec) (persist_memory m').
Proof. intros Hm Ei Es Hin. eapply since_persist; [by rewrite Ei|right; by rewrite Ei|by rewrite Es]. Qed.

Lemma safe_require_rowid P id : safe P (require_memory_rowid id).
Proof. unfold require_memory_rowid. conn_safe. Qed.
End Transactions.
#[export] Hint Resolve safe_require_rowid : safe.
#[export] Hint Extern 3 (safe (since _ _) (persist_memory _)) => by eapply since_persist_same : safe.
#[export] Hint Extern 3 (safe (since _ _) (persist_memory _)) =>
  eapply since_persist_recorded; [done..|subst; by left] : safe.
Ltac since := repeat lazymatch goal with
  | |- safe (since _ _) (insert_memory_version_row _ _ _ _ _ ≫= _) => apply since_version_then
  | |- safe _ (check _ _ ≫= _) => apply safe_check_bind; intros ?
  | _ => conn_safe_step
  end.
Ltac evolve := repeat first
  [ lazymatch goal with |- evolving _ => solve [eauto with safe] end
  | apply evolving_transaction
  | apply evolving_require; intros ? ? ? ?; since
  | apply evolving_require_memory; [intros ? ? ? ?; since|intros ?; since]
  | lazymatch goal with |- evolving _ => intros ?; since end ].

Section Deletions.
Context `{MemoryHost}.

Lemma evolving_record_contradiction_row a b d : evolving (record_contradiction_row a b d).
Proof.
  intros db. unfold record_contradiction_row, require_memory_or_not_found, require_memory, lower_reliability. since.
  apply since_insert_row; [done|]. intros db' id. in_referenced.
Qed.
Lemma evolving_upsert_encoded_embedding id e sha : evolving (upsert_encoded_embedding id e sha).
Proof.
  intros db. unfold upsert_encoded_embedding. since.
  - apply since_safe_same; [|done|done]. apply safe_execute. intros db' Hok.
    apply (db_ok_same_rows db'); [done|done| |apply Hok].
    intros id'. unfold referenced. cbn -[update_where]. rewrite keys_update_where by done. by left.
  - apply since_insert_row; [done|]. intros db' id'. in_referenced.
Qed.

(** Deleting what belongs to some memories, then the memories. *)
Lemma evolving_purge {A} p gone f (k : unit -> Conn A) :
  safe db_ok (execute f) -> (forall db, db_memories (f db) = db_memories db) ->
  (forall db, db_versions (f db) = delete_where (fun v => gone db (mv_memory_id v)) (db_versions db)) ->
  (forall db id m, db_ok db -> find_memory db id = Some m -> gone db id = true -> p m = true) ->
  (forall db w, since db [] (delete_memories p (mw_db w)) -> since db [] (mw_db (snd (k tt w)))) ->
  evolving (execute f ≫= k).
Proof.
  intros Hf Hm Hv Hg Hk. apply evolving_start. intros w Hok. unfold mbind, Conn_bind, execute. apply Hk.
  pose proof (Hf w Hok) as Hok'. split; [exact (ok_delete_memories p _ Hok')| |by intros ? ?%not_elem_of_nil].
  apply (evolves_purge p (gone (mw_db w))); [done|done|apply Hm|apply Hv|]. intros id m. by apply Hg.
Qed.
Lemma selected_found p db id m : db_ok db -> find_memory db id = Some m -> selected p db id = true -> p m = true.
Proof.
  intros Hok Hm (r & Hr & <- & Hp)%selected_true. rewrite find_memory_elem in Hm by (done || apply Hok). congruence.
Qed.
Lemma evolving_purge_where p : evolving (purge_where p).
Proof.
  apply evolving_transaction. intros db. apply safe_bind; [apply safe_query|]. intros report. revert db.
  apply (evolving_purge p (selected p)); [apply safe_purge_dependents|done|done|intros db id m; apply selected_found|].
  intros db w Hw. apply (since_rebuild_fts db [] (w <| mw_db ::= delete_memories p |>)). exact Hw.
Qed.
Lemma evolving_delete_dormant m : evolving (delete_dormant m).
Proof.
  apply evolving_transaction. intros db. do 4 (apply safe_bind; [since|intros ?]). revert db.
  apply (evolving_purge (fun m' => bool_decide (m_id m' = m_id m)) (fun _ id => bool_decide (id = m_id m)));
    [apply safe_purge_dormant|done|done| |done].
  intros db id m' _ [<- _]%find_memory_Some. done.
Qed.
End Deletions.
#[export] Hint Resolve evolving_since evolving_record_contradiction_row evolving_upsert_encoded_embedding
  evolving_purge_where evolving_delete_dormant : safe.

(** * Under the mutex of one store every section of every call of the memory
    store keeps the trail of the memories. *)
(** ** Calls

    [steady p]: every section of [p] keeps the invariant and the trail.  The
    mutex of the one store makes a section of all that [with_connection] runs. *)
Definition trail_step (w w' : MemoryWorld) : Prop := inside db_ok w' /\ keeps_trail (mw_db w) (mw_db w').
Notation steady := (guarantees (inside db_ok) trail_step).

Section Calls.
Context `{MemoryHost} (scope : MemoryScope).
#[local] Existing Instance one_store.

Lemma since_trail_step w w' : since (mw_db w) [] (mw_db w') -> trail_step w w'.
Proof. intros [H1 H2 _]. split; [done|by apply evolves_keeps_trail]. Qed.
Lemma steady_with_connection {A} (p : MTask A) : (forall db, sound (since db []) p) -> steady (with_connection p).
Proof.
  intros Hp w Hw. split; [|done]. apply since_trail_step. apply (sound_run _ _ w (Hp (mw_db w))). by apply since_refl.
Qed.
Lemma steady_traverse_links id n filter : steady (traverse_links id n filter).
Proof.
  apply steady_with_connection. intros db. unfold require_memory_or_not_found, require_memory. sound.
Qed.
Lemma steady_locked {A} (m : Conn A) : evolving m -> steady (locked m).
Proof. intros Hm. apply steady_with_connection. intros db. apply sound_section, Hm. Qed.
Lemma steady_query {A} (f : MemoryDb -> A) : steady (locked (query f)).
Proof. apply steady_locked. intros db. apply safe_query. Qed.
Lemma steady_outside {A} (m : Conn A) : evolving m -> steady (outside m).
Proof. intros Hm w Hw. split; [|done]. apply since_trail_step, (Hm (mw_db w) w). by apply since_refl. Qed.
Lemma steady_ask {X R} (f : MemoryWorld -> X) (rest : X -> Prog MemoryWorld R) :
  (forall x, steady (rest x)) -> steady (Atomic (fun w => (f w, w <| mw_calls ::= S |>)) rest).
Proof. intros Hr w Hw. split; [|done]. by split. Qed.

Lemma evolving_purge_all : evolving (
    report ← query (fun db => mkPurgeReport (Z.of_nat (length (db_memories db)))
      (Z.of_nat (length (db_versions db))) (Z.of_nat (length (db_links db)))
      (Z.of_nat (length (db_contradictions db))) (Z.of_nat (length (db_embeddings db))));
    _ ← execute (fun db => db <| db_contradictions := [] |> <| db_links := [] |> <| db_versions := [] |>
          <| db_embeddings := [] |> <| db_vectors := [] |>);
    _ ← execute (delete_memories (fun _ => true));
    _ ← rebuild_fts;
    mret report).
Proof.
  intros db. apply safe_bind; [apply safe_query|]. intros report. revert db.
  apply (evolving_purge (fun _ => true) (fun _ _ => true)); [apply safe_purge_all_dependents|done| |done|].
  - intros db. cbn. unfold delete_where. by induction (db_versions db).
  - intros db w Hw. apply (since_rebuild_fts db [] (w <| mw_db ::= delete_memories (fun _ => true) |>)). exact Hw.
Qed.
Lemma keeps_trail_same db db' : same_rows db db' -> keeps_trail db db'.
Proof.
  intros [Em Ev] id m m'. unfold find_memory, find_row. rewrite Em. intros ? ?. simplify_eq.
  apply trail_refl; [by apply versions_of_same|done|done].
Qed.
Lemma insert_memory_keeps_trail m w : keeps_trail (mw_db w) (mw_db (snd (insert_memory m w))).
Proof.
  unfold insert_memory. destruct (insert_row _ _ _) as [l|] eqn:E; [|done].
  apply insert_row_Some in E as [-> _]. intros id m0 m' Hm Hm'. unfold find_memory, find_row in *.
  cbn in Hm'. destruct (find_by row_id id (db_memories (mw_db w))) as [r|] eqn:Ef; [|done].
  rewrite (find_by_app_l _ _ _ _ r Ef) in Hm'. simplify_eq. by apply trail_refl.
Qed.
Lemma steady_insert_stored_memory m : steady (locked (insert_stored_memory m)).
Proof.
  intros w Hw. split; [|done]. split; [by apply safe_insert_stored_memory|].
  change (keeps_trail (mw_db w) (mw_db (snd (insert_stored_memory m w)))).
  unfold insert_stored_memory, transaction.
  match goal with |- context [match ?b w with _ => _ end] => destruct (b w) as [[id|e] w1] eqn:E end; [|done].
  cbn. revert E. pose proof (insert_memory_keeps_trail m w) as Hi.
  intros (u & w2 & E & Hr)%conn_bind_Ok. rewrite E in Hi. cbn in Hi.
  conn_inv. unfold require_memory_rowid, sync_fts_entry in *. conn_inv. exact Hi.
Qed.

End Calls.
Ltac steadily := repeat first [sections_step | apply steady_locked; evolve | apply steady_ask; intros ?].

Section Updates.
Context `{MemoryHost} (scope : MemoryScope).
#[local] Existing Instance one_store.
(** *** Storing and updating *)
Lemma steady_reuse_cached_embedding id sha : steady (reuse_cached_embedding scope id sha).
Proof. unfold reuse_cached_embedding. steadily. Qed.
Lemma steady_store_embedding id e : steady (store_embedding id e).
Proof. unfold store_embedding. steadily. Qed.
Lemma steady_generate_embedding text task : steady (generate_embedding text task).
Proof. unfold generate_embedding. steadily. Qed.
Lemma steady_of_result {A} (r : Result StoreError A) : steady (of_result r).
Proof. done. Qed.
Hint Resolve steady_reuse_cached_embedding steady_store_embedding steady_generate_embedding
  steady_insert_stored_memory steady_of_result : sections.
Lemma steady_store m : steady (store scope m).
Proof. unfold store. steadily. Qed.
Lemma steady_insert_memory_without_embedding m : steady (insert_memory_without_embedding scope m).
Proof. unfold insert_memory_without_embedding. steadily. Qed.
Lemma steady_update_content id c b r : steady (update_content id c b r).
Proof. unfold update_content. steadily. Qed.
Lemma steady_update_metadata id u : steady (update_metadata id u).
Proof. unfold update_metadata, check_score. steadily. Qed.
Lemma steady_transition_state id s : steady (transition_state id s).
Proof. unfold transition_state. steadily. Qed.
Lemma steady_get id : steady (get id).
Proof. unfold get, touch. steadily. Qed.
Lemma steady_find_similar e t n : steady (find_similar scope e t n).
Proof. unfold find_similar, validate_query_embedding. steadily. Qed.
Hint Resolve steady_store steady_insert_memory_without_embedding steady_find_similar : sections.

(** *** Curation *)
Lemma steady_hard_delete id : steady (hard_delete id).
Proof. unfold hard_delete. steadily. Qed.
Lemma steady_purge_all : steady purge_all.
Proof. apply steady_locked, evolving_transaction, evolving_purge_all. Qed.
Lemma steady_corroborate a b : steady (corroborate a b).
Proof.
  unfold corroborate. apply guarantees_bind; [eauto with sections|]. intros _. apply steady_locked, evolving_transaction.
  apply evolving_bind; [apply evolving_reading; intros P; apply safe_reading_memory|]. intros _. evolve.
Qed.
Lemma steady_record_contradiction a b d : steady (record_contradiction a b d).
Proof. unfold record_contradiction. steadily. Qed.

Lemma since_record_promotion db m to_scope r b t :
  find_memory db (m_id m) = Some m -> (scope_rank (m_scope m) <= scope_rank to_scope)%Z ->
  safe (since db []) (record_promotion m to_scope r b t).
Proof.
  intros Hm Hr. unfold record_promotion. since.
  - apply since_insert_row; [done|]. intros db' id. in_referenced.
  - eapply since_persist; [done|by left|done].
Qed.
Lemma steady_promote_memory_to id s b r t : steady (promote_memory_to id s b r t).
Proof.
  apply steady_with_connection. intros db. apply sound_bind; [apply sound_section; since|]. intros _.
  apply sound_section. revert db. evolve. apply since_record_promotion; [done|].
  unfold can_promote_to in *. lia.
Qed.
Lemma steady_rollback_to_version id n : steady (rollback_to_version id n).
Proof.
  apply steady_with_connection. intros db. apply sound_bind; [apply sound_section; since|]. intros c.
  apply sound_section. revert db. evolve.
Qed.
End Updates.

(** *** Locked code in several sections

    [from db p]: what [p] makes of the database [db], no other call
    intervening, keeps the trail. *)
Section Locked.
Context `{MemoryHost} (scope : MemoryScope).

Definition from {R} (db : MemoryDb) (p : Prog MemoryWorld R) : Prop :=
  forall w, mw_db w = db -> since db [] (mw_db (snd (run p w))).
Lemma steady_from {A} (p : MTask A) :
  (forall db, db_ok db -> from db p) -> steady (with_connection (Locking := one_store) p).
Proof. intros Hp w Hw. split; [|done]. by apply since_trail_step, Hp. Qed.

Lemma from_sound {R} db (p : Prog MemoryWorld R) : db_ok db -> sound (since db []) p -> from db p.
Proof. intros Hok Hp w <-. apply sound_run; [done|]. by apply since_refl. Qed.
Lemma from_bind {A B} db (p : MTask A) (k : A -> MTask B) :
  from db p -> (forall a db', db_ok db' -> from db' (k a)) -> from db (p ≫= k).
Proof.
  intros Hp Hk w Hw. rewrite run_bind. specialize (Hp w Hw). destruct (run p w) as [[a|e] w1]; [|done].
  cbn in Hp. eapply since_trans; [exact Hp|]. apply (Hk a (mw_db w1)); [apply Hp|done].
Qed.
(** A section that reads. *)
Lemma from_read {A B} db (m : Conn A) (k : A -> MTask B) :
  db_ok db -> (forall P, safe P m) -> (forall a w w', mw_db w = db -> m w = (Ok a, w') -> from db (k a)) ->
  from db (section m ≫= k).
Proof.
  intros Hok Hm Hk w Hw. rewrite run_bind. cbn. pose proof (Hm (eq db) w (eq_sym Hw)) as E.
  destruct (m w) as [[a|e] w1] eqn:Em; [by eapply Hk|]. cbn in E |- *. rewrite <- E. by apply since_refl.
Qed.

Lemma search_memories_found db scopes state types agent m :
  db_ok db -> m ∈ load_search_memories scopes state types agent db -> find_memory db (m_id m) = Some m.
Proof.
  intros Hok (r & -> & [Hr _]%elem_of_order_by%elem_of_select_where)%list_elem_of_fmap.
  by apply find_memory_elem; [apply Hok|].
Qed.
Lemma search_memories_NoDup db scopes state types agent :
  db_ok db -> NoDup (map m_id (load_search_memories scopes state types agent db)).
Proof.
  intros Hok. unfold load_search_memories. rewrite map_map. unfold order_by. rewrite sort_by_perm.
  apply NoDup_select, Hok.
Qed.

Lemma from_transaction {A} db (m : Conn A) :
  db_ok db -> safe (since db []) m -> from db (section (transaction m)).
Proof. intros Hok Hm. apply from_sound; [done|]. by apply sound_section, safe_transaction. Qed.

(** *** The budget, feedback *)
Lemma from_demote_excess policy n db : db_ok db -> from db (demote_excess scope policy n).
Proof.
  intros Hok. apply from_read; [done|intros P; since|]. intros active w1 w1' _ _.
  destruct (active <=? n)%Z; [by apply from_sound|].
  apply from_read; [done|intros P; since|]. intros memories w2 w2' E2 [-> _]%query_Ok.
  apply from_read; [done|intros P; since|]. intros config w3 w3' _ _.
  apply from_read; [done|intros P; since|]. intros t w4 w4' _ _. cbv zeta.
  apply from_bind; [|intros a db' Hok'; by apply from_sound].
  apply from_transaction; [done|]. apply safe_for_rows. intros m Hm.
  apply (since_persist_same _ _ m); [|done..]. rewrite <- E2 in *.
  apply in_take, elem_of_order_by in Hm. by eapply search_memories_found.
Qed.
Lemma sound_delete_until_since db n l : sound (since db []) (delete_until n l).
Proof.
  induction l as [|m l IH]; cbn [delete_until]; sound.
  intros w Hw. unfold live_storage_bytes. by destruct (pages _) as [[]].
Qed.
Lemma from_delete_excess policy n db : db_ok db -> from db (delete_excess scope policy n).
Proof.
  intros Hok. apply from_sound; [done|]. unfold delete_excess. sound; try apply sound_delete_until_since.
  intros w Hw. unfold live_storage_bytes. by destruct (pages _) as [[]].
Qed.
Lemma from_run_enforce_budget policy db : db_ok db -> from db (run_enforce_budget scope policy).
Proof.
  intros Hok. unfold run_enforce_budget. apply from_read; [done|intros P; since|]. intros n w1 w1' _ _.
  apply from_read; [done|intros P; since|]. intros mb w2 w2' _ _. apply from_bind.
  - destruct (0 <? n)%Z; [by apply from_demote_excess|by apply from_sound].
  - intros a db' Hok'. apply from_bind; [by apply from_delete_excess|]. intros b db2 Hok2. by apply from_sound.
Qed.
Lemma since_compute_learned_weights db : safe (since db []) compute_learned_weights.
Proof. unfold compute_learned_weights. since. Qed.
Hint Resolve since_compute_learned_weights : safe.
Lemma steady_record_feedback id q r : steady (record_feedback (H0 := one_store) id q r).
Proof.
  apply steady_from. intros db Hok. apply from_read; [done|intros P; apply safe_reading_memory|].
  intros m w1 w1' E Hm. unfold require_memory_or_not_found, require_memory in Hm. conn_inv.
  match goal with Hm : _ = Some m |- _ => pose proof (find_memory_Some _ _ _ Hm) as [<- _] end.
  apply from_transaction; [done|]. since.
  - apply since_insert_row; [done|]. intros db' id'. in_referenced.
  - by destruct r; apply (since_persist_same _ _ m).
Qed.
Lemma steady_enforce_budget : steady (enforce_budget (H0 := one_store) scope).
Proof.
  apply steady_from. intros db Hok. apply from_read; [done| |].
  - intros P. unfold resolve_configured_forgetting_policy. since.
  - intros policy _ _ _ _. by apply from_run_enforce_budget.
Qed.
Lemma steady_enforce_budget_with_policy policy : steady (enforce_budget_with_policy (H0 := one_store) scope policy).
Proof. apply steady_from. intros db. apply from_run_enforce_budget. Qed.

(** *** Promotion *)
Lemma promotion_target_Ok m config w s w' :
  promotion_target m config w = (Ok (Some s), w') -> (scope_rank (m_scope m) <= scope_rank s)%Z.
Proof.
  unfold promotion_target. destruct (next_scope (m_scope m)) as [next|] eqn:En; intros E; [|conn_inv; done].
  apply next_scope_rank in En. conn_inv. destruct (bool_decide _ && _)%Z eqn:Eb; conn_inv.
  { simplify_eq. apply andb_prop in Eb as [Hb%bool_decide_eq_true _]. by rewrite Hb. }
  destruct (2 <=? _)%Z; conn_inv; [simplify_eq; lia|].
  destruct (7 <=? _)%Z; conn_inv; [|done]. destruct (fle _ _); simplify_eq; lia.
Qed.
(** A promotion leaves the other memories alone. *)
Lemma promotion_of_another id o m to_scope r b t :
  id <> m_id m -> safe (fun db => find_memory db id = o) (record_promotion m to_scope r b t).
Proof.
  intros Hn. unfold record_promotion, insert_memory_version_row, load_next_version_number, insert_version,
    sync_fts_entry, delete_fts_entry. conn_safe; try (by apply safe_execute); try (by apply safe_insert_referring).
  apply safe_execute. intros db <-. rewrite find_memory_persist. cbn. destruct (find_memory db id); [|done].
  cbn. by rewrite decide_False.
Qed.
Lemma from_promote_each config t r l db :
  db_ok db -> NoDup (map m_id l) -> (forall m, m ∈ l -> find_memory db (m_id m) = Some m) ->
  from db (promote_each config t r l).
Proof.
  revert db. induction l as [|m l IH]; intros db Hok; cbn [promote_each map]; [by intros; apply from_sound|].
  intros [Hm Hl]%NoDup_cons Hf.
  assert (forall m', m' ∈ l -> find_memory db (m_id m') = Some m') as Hf' by (intros; apply Hf; by right).
  apply from_read; [done|intros P; unfold promotion_target; since|]. intros [to_scope|] w w' Ew Ht; [|by apply IH].
  apply promotion_target_Ok in Ht.
  intros w1 Ew1. rewrite run_bind. cbn [run section fst snd].
  match goal with |- context [transaction ?b w1] => set (body := b) end.
  pose (body' := m' ← record_promotion m to_scope r "system:promotion" t; mret (Some m')).
  assert (transaction body w1 = transaction body' w1) as ->.
  { unfold transaction. assert (body w1 = body' w1) as ->; [|done].
    unfold body, require_memory, query, mbind at 1, Conn_bind at 1. rewrite Ew1, Hf by (by left). done. }
  assert (since db [] (mw_db (snd (transaction body' w1)))) as H1.
  { apply (safe_transaction (since db []) body'); [|rewrite Ew1; by apply since_refl].
    apply safe_bind; [apply since_record_promotion; [apply Hf; by left|done]|]. intros a. apply safe_ret. }
  assert (forall m', m' ∈ l -> find_memory (mw_db (snd (transaction body' w1))) (m_id m') = Some m') as H2.
  { intros m' Hm'. apply (safe_transaction (fun db => find_memory db (m_id m') = Some m') body').
    - apply safe_bind; [apply promotion_of_another|intros a; apply safe_ret].
      intros E. apply Hm. rewrite <- E. apply list_elem_of_fmap. by exists m'.
    - rewrite Ew1. by apply Hf'. }
  destruct (transaction body' w1) as [[promoted|e] w2]; [|done]. cbn in H1, H2 |- *.
  rewrite run_bind. pose proof (IH (mw_db w2) (since_ok _ _ _ H1) Hl H2 w2 eq_refl) as H3.
  destruct (run (promote_each config t r l) w2) as [[rest|e] w3]; (eapply since_trans; [exact H1|exact H3]).
Qed.
Lemma steady_run_promotion_pass n t : steady (run_promotion_pass (H0 := one_store) scope n t).
Proof.
  apply steady_from. intros db Hok. apply from_read; [done|intros P; since|]. intros config w w' _ _.
  apply from_read; [done|intros P; since|]. intros l w1 w1' E [-> _]%query_Ok. cbv zeta. rewrite E.
  set (l := order_by recently_updated (load_search_memories (visible_scopes scope) Active None None db)).
  assert (NoDup (map m_id l)) as Hn.
  { unfold l, order_by. rewrite sort_by_perm. by apply search_memories_NoDup. }
  assert (forall m, m ∈ l -> find_memory db (m_id m) = Some m) as Hf.
  { intros m Hm%elem_of_order_by. by eapply search_memories_found. }
  destruct n as [n|]; apply from_promote_each; try done.
  - rewrite <- (take_drop n l), map_app in Hn. by apply NoDup_app in Hn as [? _].
  - intros m Hm%in_take. by apply Hf.
Qed.
End Locked.

Section Reviews.
Context `{MemoryHost} (scope : MemoryScope).
#[local] Existing Instance one_store.
Hint Resolve steady_reuse_cached_embedding steady_store_embedding steady_generate_embedding
  steady_insert_stored_memory steady_of_result steady_insert_memory_without_embedding steady_find_similar : sections.

(** *** The gate *)
Lemma steady_novelty_embedding c : steady (novelty_embedding c).
Proof. unfold novelty_embedding. steadily. Qed.
Lemma steady_judge_match `{SimilarStore} config model c s : steady (judge_match config model c s).
Proof. unfold judge_match, llm_contradiction_verdict. steadily. Qed.
Hint Resolve steady_novelty_embedding steady_judge_match : sections.
Lemma steady_evaluate config model c excluded :
  steady (evaluate_internal (H0 := sqlite_similar scope) config model c excluded).
Proof. unfold evaluate_internal, sqlite_similar. cbn [similar]. steadily. Qed.
Lemma steady_load_config : steady load_config.
Proof. unfold load_config. steadily. Qed.
Hint Resolve steady_evaluate steady_load_config : sections.

(** *** Corrections, imports, quarantine *)
Lemma evolving_merge_correction id t c b r n : evolving (merge_correction id t c b r n).
Proof.
  unfold merge_correction. apply evolving_require. intros db m Hid Hm. apply safe_bind; [since|]. intros rowid.
  cbv zeta. destruct (bool_decide _); since.
Qed.
Hint Resolve evolving_merge_correction : safe.
Lemma evolving_apply_correction id c b r d : evolving (apply_correction id c b r d).
Proof.
  unfold apply_correction. evolve.
  - destruct d; (apply (since_persist_recorded _ _ m); [done..|subst; by left]).
  - apply since_insert_row; [done|]. intros db' id'. in_referenced.
Qed.
Lemma steady_apply_correction id c b r d : steady (locked (apply_correction id c b r d)).
Proof. apply steady_locked, evolving_apply_correction. Qed.
Lemma steady_refresh_embedding id c : steady (refresh_embedding_after_content_change scope id c).
Proof. unfold refresh_embedding_after_content_change. steadily. Qed.
Lemma steady_evaluate_correction_decision id m c : steady (evaluate_correction_decision scope id m c).
Proof. unfold evaluate_correction_decision, exact_correction_duplicate_decision, evaluate_excluding. steadily. Qed.
Hint Resolve steady_apply_correction steady_refresh_embedding steady_evaluate_correction_decision : sections.
Lemma steady_correct_memory id c b r : steady (correct_memory scope id c b r).
Proof. unfold correct_memory. steadily. Qed.
Lemma steady_import_as m s d r o : steady (import_as scope m s d r o).
Proof. unfold import_as. steadily; apply steady_outside; intros db; since. Qed.
Hint Resolve steady_import_as : sections.
Lemma steady_shared_decision config m : steady (shared_decision scope config m).
Proof. unfold shared_decision, exact_shared_import_duplicate_decision, evaluate. steadily. Qed.
Hint Resolve steady_shared_decision : sections.
Lemma steady_import_each config l : steady (import_each scope config l).
Proof. induction l as [|m l IH]; cbn [import_each]; unfold import_one; steadily. Qed.
Hint Resolve steady_import_each : sections.
Lemma evolving_remediate_each ceiling t alerts l : evolving (remediate_each ceiling t alerts l).
Proof. induction l as [|id l IH]; cbn [remediate_each]; evolve. Qed.
Hint Resolve evolving_remediate_each : safe.
Lemma steady_remediate_poisoning alerts : steady (remediate_poisoning alerts).
Proof. unfold remediate_poisoning, load_poisoning_config, load_f32_config, load_u32_config. steadily. Qed.

(** *** Every call *)
Lemma steady_finish {A} (p : MTask A) : steady p -> steady (finish p).
Proof. intros Hp. apply guarantees_prog_bind; [done|]. by intros [a|e]. Qed.
Hint Resolve steady_store steady_update_content steady_update_metadata steady_transition_state steady_get
  steady_hard_delete steady_purge_all steady_corroborate steady_record_contradiction steady_rollback_to_version
  steady_promote_memory_to steady_run_promotion_pass steady_enforce_budget steady_enforce_budget_with_policy
  steady_record_feedback steady_correct_memory steady_remediate_poisoning steady_traverse_links : sections.
Lemma memory_call_steady call : steady (memory_call (scope, call)).
Proof.
  destruct call; apply steady_finish; cbn [fst snd]; try solve [eauto with sections];
    unfold make_dormant, reactivate, get_raw, list_memories, get_stale_embeddings, purge_user, purge_scope,
      update_contradiction_status, list_contradictions, list_versions, list_corrections, record_link, list_links,
      delete_link, mark_consolidation_run, export_for_sharing, import_shared,
      import_shared_with_report, evaluate; steadily.
  - by apply since_safe_same; [apply safe_update_contradictions|..].
  - by apply since_safe_same; [apply safe_delete_links|..].
Qed.
End Reviews.

(** ** Histories

    The store of [scope] is opened on a consistent database, whoever wrote it
    before; from then on only its calls are made. *)
Section Histories.
Context `{MemoryHost} (scope : MemoryScope).
#[local] Existing Instance one_store.

Definition store_reachable (conf : MemoryConf) : Prop :=
  exists conf0, db_ok (mw_db (c_state conf0)) /\ c_threads conf0 = []
    /\ rtc (step_of memory_call (of_store scope)) conf0 conf.

Let G (w w' : MemoryWorld) : Prop := keeps_trail (mw_db w) (mw_db w').
Let kept_calls : MemoryConf -> Prop := kept (inside db_ok) G.
Lemma kept_calls_step conf conf' :
  step_of memory_call (of_store scope) conf conf' -> kept_calls conf ->
  kept_calls conf' /\ G (c_state conf) (c_state conf').
Proof.
  assert (Reflexive G) as HG by (intros w; unfold G; done).
  intros [[scope' c] conf1 Hc|i conf1 conf2 Ha] Hk; [|by eapply kept_advance].
  unfold of_store in Hc. cbn in Hc. subst scope'. split; [|apply HG].
  apply kept_start; [apply memory_call_steady|exact Hk].
Qed.
Lemma store_reachable_kept conf : store_reachable conf -> kept_calls conf.
Proof.
  intros (conf0 & Hok & Ht & Hs).
  assert (kept_calls conf0) as Hk by (split; [exact Hok|rewrite Ht; by intros c p ?%not_elem_of_nil]).
  clear Hok Ht. induction Hs as [|conf1 conf2 conf3 Hs _ IH]; [done|]. by apply IH, (kept_calls_step conf1).
Qed.
Lemma histories_keep_the_trail conf0 conf id m m' :
  store_reachable conf0 -> rtc (step_with scope id) conf0 conf ->
  find_memory (mw_db (c_state conf0)) id = Some m -> find_memory (mw_db (c_state conf)) id = Some m' ->
  trail id (mw_db (c_state conf0)) (mw_db (c_state conf)) m m'.
Proof.
  intros Hk%store_reachable_kept Hs. revert m Hk.
  induction Hs as [conf|conf0 conf1 conf [Hs [m1 Hm1]] _ IH]; intros m Hk Hm Hm'.
  - simplify_eq. by apply trail_refl.
  - destruct (kept_calls_step _ _ Hs Hk) as [Hk1 Hg]. eapply trail_trans; [by apply Hg|]. by apply IH.
Qed.
End Histories.
