(* ===== verification/MemoryScenario.v ===== *)
(** A concrete host for the memory plugin, to run its calls on: ASCII texts, a
    clock that ticks once a second, numbered identifiers, no models and a table
    of vectors without an index; what holds of every history of the store, shown
    on histories of one and of two stores. *)
From stdpp Require Import pretty.
From Stdlib Require Import Ascii.
From S2P Require Import Prelude Text Substring Table Threads Concrete Floats Memories MemoryDb Embeddings Forgetting MemoryStore MemoryCuration SalienceGate MemoryReview MemoryFacts MemoryInvariant MemoryScores MemoryHistory.

Definition one_of (p : ascii -> bool) (c : string) : bool :=
  match to_bytes c with [b] => p b | _ => false end.
Definition is_upper (c : ascii) : bool := (65 <=? nat_of_ascii c) && (nat_of_ascii c <=? 90).
#[export] Instance demo_memory_host : MemoryHost := {|
  is_alphanumeric := one_of (fun c => is_lower (ascii_lower c) || is_digit c);
  is_alphabetic := one_of (fun c => is_lower (ascii_lower c));
  is_lowercase := one_of is_lower;
  is_uppercase := one_of is_upper;
  to_lowercase := to_ascii_lowercase;
  utc_now n := (Z.of_nat n * 1000000000)%Z;
  timestamp_text t := pretty t;
  new_uuid n := numbered "uuid-" n;
  uuid_parses := starts_with (to_bytes "uuid-") ∘ to_bytes;
  sha256_text s := s;
  sha256_prefix s := Z.of_nat (String.length s);
  json_text l := join "," l;
  parse_f32 s := if decide (s = "0.250000") then Some (F32.lit 25 100) else None;
  fixed6 _ := "0.250000";
  exp64 _ := F64.of_Z 1;
  pages _ := (1, 4096, 0)%Z;
  vec_native := false;
  vec_match _ _ _ := [];
  embedding_model := None;
  language_model := None |}.

(** A memory as [store] is given one. *)
Definition plain_memory (id content : string) (scope : MemoryScope) : Memory := {|
  m_id := id; m_content := content; m_summary := None; m_scope := scope; m_memory_type := Fact;
  m_provenance := UserStated; m_importance_score := F32.lit 5 10; m_reliability_score := F32.one;
  m_sensitivity := Low; m_state := Active; m_tags := []; m_status := None; m_custom_metadata := ∅;
  m_access_count := 0; m_corroboration_count := 0; m_embedding_stale := false; m_created_at := 0;
  m_updated_at := 0; m_last_accessed_at := None; m_tenant_id := None; m_user_id := None; m_agent_id := None |}.

(** Playing a schedule of calls of stores of [scope], the memory [id] being
    there after every move. *)
Section Schedules.
Context `{L : Locking}.
Fixpoint play_with (scope : MemoryScope) (id : MemoryId) (moves : list ((MemoryScope * MemoryCall) + nat))
    (conf : MemoryConf) : option MemoryConf :=
  match moves with
  | [] => Some conf
  | move :: moves =>
      conf' ← play memory_call [move] conf;
      if match move with inl (s, _) => bool_decide (s = scope) | inr _ => true end
         && bool_decide (is_Some (find_memory (mw_db (c_state conf')) id))
      then play_with scope id moves conf' else None
  end.
Lemma play_with_steps scope id moves conf conf' :
  play_with scope id moves conf = Some conf' -> rtc (step_with scope id) conf conf'.
Proof.
  revert conf. induction moves as [|move moves IH]; intros conf; cbn [play_with]; [by intros [= ->]|].
  intros (conf1 & H1 & H2)%bind_Some. destruct (_ && _) eqn:E; [|done].
  apply andb_prop in E as [Hs Hm%bool_decide_eq_true]. eapply rtc_l; [split; [|exact Hm]|by apply IH].
  destruct move as [[s c]|i]; [injection H1 as <-; apply step_of_start; by apply bool_decide_eq_true in Hs|].
  apply bind_Some in H1 as (conf2 & H1 & [= <-]). by eapply step_of_advance.
Qed.
Definition played (moves : list ((MemoryScope * MemoryCall) + nat)) (conf : MemoryConf) : MemoryConf :=
  default conf (play memory_call moves conf).
Lemma played_reachable moves : memory_reachable (played moves (fresh_store [])).
Proof. exists []. apply play_default. Qed.
(** A schedule that starts only calls that [allowed] admits. *)
Lemma play_steps_of allowed moves conf conf' :
  (forall c, inl c ∈ moves -> allowed c) -> play memory_call moves conf = Some conf' ->
  rtc (step_of memory_call allowed) conf conf'.
Proof.
  revert conf. induction moves as [|move moves IH]; intros conf Ha; cbn [play]; [by intros [= ->]|].
  assert (forall c, inl c ∈ moves -> allowed c) as Ha' by (intros c Hc; apply Ha; by right).
  destruct move as [c|i].
  - intros H1. eapply rtc_l; [apply step_of_start, Ha; by left|by apply IH].
  - intros (conf1 & H1 & H2)%bind_Some. eapply rtc_l; [by eapply step_of_advance|by apply IH].
Qed.
End Schedules.

(** * What holds of every history of the memory store, and histories to show it on. *)
(** C6. However the calls of one store or of several interleave, the database
    stays consistent: no two memories share an identifier or a rowid, every
    column that the schema declares to refer to a memory refers to one that
    exists, the versions of each memory are numbered 1, 2, ... without a gap, and
    no link is recorded twice. *)
Theorem database_stays_consistent `{MemoryHost} `{L : Locking} `{!LawfulLocking L} (conf : MemoryConf) :
  memory_reachable conf -> db_ok (mw_db (c_state conf)).
Proof. apply reachable_ok. Qed.

(** C5. A store is opened on a consistent database, and only its calls are
    made.  While a memory stays in the database nothing it said is lost: its
    versions only grow, its text of an earlier state is its text or is among the
    versions added since, and its scope has not become narrower.  Updates,
    corrections, merges, rollbacks, promotions, feedback, budgets, imports and
    quarantines may run in any order and number, and interleave where the store's
    mutex is not held. *)
Theorem contents_are_never_lost `{MemoryHost} scope (conf0 conf : MemoryConf) id m m' :
  store_reachable scope conf0 -> rtc (step_with (L := one_store) scope id) conf0 conf ->
  find_memory (mw_db (c_state conf0)) id = Some m -> find_memory (mw_db (c_state conf)) id = Some m' ->
  (exists new, versions_of id (mw_db (c_state conf)) = versions_of id (mw_db (c_state conf0)) ++ new
     /\ (m_content m' = m_content m \/ m_content m ∈ map mv_content new))
  /\ (scope_rank (m_scope m) <= scope_rank (m_scope m'))%Z.
Proof. apply histories_keep_the_trail. Qed.

(** ** One store: a memory is stored, updated, rolled back and promoted *)
Section OneStore.
#[local] Existing Instance one_store.
Definition stored_moves : list ((MemoryScope * MemoryCall) + nat) :=
  [inl (Session, Store_ (plain_memory "a" "The port is 80" Session)); inr 0].
Definition later_moves : list ((MemoryScope * MemoryCall) + nat) :=
  [inl (Session, UpdateContent "a" "The port is 81" "me" "moved"); inr 0;
   inl (Session, RollbackToVersion "a" 1); inl (Session, RecordFeedback "a" "port" true); inr 1; inr 0;
   inl (Session, PromoteMemoryTo "a" User "me" "useful" None); inr 0].
Definition stored_conf : MemoryConf := played stored_moves (fresh_store []).
Definition later_conf : MemoryConf := played later_moves stored_conf.
End OneStore.

Lemma database_stays_consistent_witness :
  let conf := played (L := many_stores) (stored_moves ++ later_moves) (fresh_store []) in
  db_ok (mw_db (c_state conf)).
Proof. exact (database_stays_consistent (L := many_stores) _ (played_reachable _)). Defined.

Lemma contents_are_never_lost_witness :
  let m := plain_memory "a" "The port is 80" Session in
  exists m', m_scope m' = User
  /\ (exists new, versions_of "a" (mw_db (c_state later_conf)) = versions_of "a" (mw_db (c_state stored_conf)) ++ new
       /\ (m_content m' = m_content m \/ m_content m ∈ map mv_content new))
  /\ (scope_rank (m_scope m) <= scope_rank (m_scope m'))%Z.
Proof.
  destruct (find_memory (mw_db (c_state later_conf)) "a") as [m'|] eqn:E; [|vm_compute in E; done].
  exists m'. split; [vm_compute in E; by injection E as <-|].
  apply (contents_are_never_lost Session); [|..|by vm_compute|exact E].
  - exists (fresh_store []). split_and!; [apply empty_db_ok|done|].
    apply (play_steps_of _ stored_moves); [|by vm_compute].
    assert (Forall (fun move => match move with inl c => of_store Session c | inr _ => True end) stored_moves) as Hs
      by by repeat constructor.
    intros c Hc. exact (proj1 (Forall_forall _ _) Hs _ Hc).
  - apply (play_with_steps _ _ later_moves). vm_compute. reflexivity.
Defined.

(** ** Scores: feedback lowers one, a contradiction another; corroboration is not bounded *)
Definition scoring_moves : list ((MemoryScope * MemoryCall) + nat) :=
  stored_moves ++
  [inl (Session, Store_ ((plain_memory "b" "The port is 82" Session) <| m_provenance := AgentInferred |>)); inr 0;
   inl (Session, RecordContradiction "a" "b" "two ports"); inr 0;
   inl (Session, RecordFeedback "b" "port" false); inr 0; inr 0].
Lemma scoring_moves_plain c : inl c ∈ scoring_moves -> plain_call c.
Proof.
  unfold scoring_moves, stored_moves. cbn [app]. rewrite !elem_of_cons, elem_of_nil.
  intros Hc. destruct_or!; simplify_eq; by vm_compute.
Qed.
Lemma scores_stay_between_zero_and_one_witness :
  exists m, unit_value (m_importance_score m) /\ unit_value (m_reliability_score m)
  /\ flt (m_importance_score m) (F32.lit 5 10) = true /\ flt (m_reliability_score m) (F32.lit 8 10) = true.
Proof.
  destruct (play (memory_call (H0 := many_stores)) scoring_moves (fresh_store [])) as [conf|] eqn:Ep;
    [|by vm_compute in Ep].
  destruct (find_memory (mw_db (c_state conf)) "b") as [m|] eqn:Em;
    [|vm_compute in Ep; injection Ep as <-; by vm_compute in Em].
  exists m. split; [|split; [|by vm_compute in Ep; injection Ep as <-; vm_compute in Em; injection Em as <-; vm_compute]].
  - by apply (scores_stay_between_zero_and_one (L := many_stores) [] conf "b" m (play_steps_of _ _ _ _ scoring_moves_plain Ep)).
  - by apply (scores_stay_between_zero_and_one (L := many_stores) [] conf "b" m (play_steps_of _ _ _ _ scoring_moves_plain Ep)).
Defined.

Definition corroborated_conf : MemoryConf :=
  played (L := many_stores) (scoring_moves ++ [inl (Session, Corroborate "b" "a"); inr 0]) (fresh_store []).
Example corroboration_exceeds_one :
  match find_memory (mw_db (c_state corroborated_conf)) "a" with
  | Some m => flt F32.one (m_reliability_score m)
  | None => false
  end = true.
Proof. vm_compute. reflexivity. Qed.

(** ** Two stores: an update while feedback is being recorded *)
Section TwoStores.
#[local] Existing Instance many_stores.
Definition raced_conf0 : MemoryConf :=
  played (stored_moves ++ [inl (Session, RecordFeedback "a" "port" true); inr 0;
    inl (Session, UpdateContent "a" "The port is 81" "me" "moved"); inr 1]) (fresh_store []).
Definition raced_conf : MemoryConf := played [inr 0] raced_conf0.
Definition corrected_conf : MemoryConf :=
  played (stored_moves ++ [inl (Session, Store_ (plain_memory "b" "The port is 81" Session)); inr 0;
    inl (Session, CorrectMemory "a" "The port is 81" "me" None)] ++ replicate 4 (inr 0) ++
    [inl (Session, HardDelete "b"); inr 0]) (fresh_store []).
End TwoStores.

(** In two stores on one file, of the same scope even, it can be lost: feedback
    reads the memory before its transaction starts and writes the whole row
    back, so an update that another store makes in between is undone, and no
    version keeps its text. *)
Theorem feedback_overwrites_an_update :
  exists conf0 conf m m',
    memory_reachable (L := many_stores) conf0 /\ rtc (step_with (L := many_stores) Session "a") conf0 conf
    /\ find_memory (mw_db (c_state conf0)) "a" = Some m /\ find_memory (mw_db (c_state conf)) "a" = Some m'
    /\ m_content m = "The port is 81" /\ m_content m' = "The port is 80"
    /\ map mv_content (versions_of "a" (mw_db (c_state conf))) = ["The port is 80"].
Proof.
  assert (m_content <$> find_memory (mw_db (c_state raced_conf0)) "a" = Some "The port is 81") as Hm by by vm_compute.
  assert (m_content <$> find_memory (mw_db (c_state raced_conf)) "a" = Some "The port is 80") as Hm' by by vm_compute.
  apply fmap_Some in Hm as (m & Hm & Ec), Hm' as (m' & Hm' & Ec').
  exists raced_conf0, raced_conf, m, m'. split_and!; [| |exact Hm|exact Hm'|exact (eq_sym Ec)|exact (eq_sym Ec')|].
  - apply played_reachable.
  - apply (play_with_steps _ _ [inr 0]). vm_compute. reflexivity.
  - vm_compute. reflexivity.
Qed.

(** The identifier of the memory that a correction was merged into is no
    reference of the schema: when that memory is deleted, the record of the
    correction still names it. *)
Theorem corrections_outlive_what_they_name :
  memory_reachable (L := many_stores) corrected_conf
  /\ map cr_related_memory_id (db_corrections (mw_db (c_state corrected_conf))) = [Some "b"]
  /\ find_memory (mw_db (c_state corrected_conf)) "b" = None.
Proof. split; [apply played_reachable|]. by vm_compute. Qed.
