(* ===== verification/MemoryOutcomes.v ===== *)
(** What the calls of the memory store do when they run alone, however the
    store locks: rollback, purging a user, importing what others
    share, following links. *)
From stdpp Require Import pretty relations sorting.
From S2P Require Import Prelude Text Table Threads Floats Memories MemoryDb Embeddings Forgetting MemoryStore MemoryCuration SalienceGate MemoryReview MemoryFacts MemoryInvariant MemoryHistory MemoryScenario.

Section Outcomes.
Context `{MemoryHost} `{L : Locking} `{!LawfulLocking L} (scope : MemoryScope).

Lemma run_locked {A} (m : Conn A) w : run (locked m) w = m w.
Proof. unfold locked. by rewrite run_with_connection, run_section. Qed.

(** ** Runs of statements *)
Lemma conn_bind_run {A B} (m : Conn A) (k : A -> Conn B) w a w' :
  m w = (Ok a, w') -> (m ≫= k) w = k a w'.
Proof. intros E. unfold mbind, Conn_bind. by rewrite E. Qed.
Lemma require_memory_run id m w :
  find_memory (mw_db w) id = Some m -> require_memory_or_not_found id w = (Ok m, w).
Proof.
  intros Hm. unfold require_memory_or_not_found, require_memory. erewrite conn_bind_run by done. by rewrite Hm.
Qed.
Lemma require_rowid_run id m w :
  find_memory (mw_db w) id = Some m -> exists rowid, require_memory_rowid id w = (Ok rowid, w).
Proof.
  unfold find_memory. intros (r & Hr & _)%fmap_Some. exists (mr_rowid r). unfold require_memory_rowid.
  erewrite conn_bind_run by done. by rewrite Hr.
Qed.
Lemma insert_version_run id m c t b r w :
  db_ok (mw_db w) -> find_memory (mw_db w) id = Some m ->
  (Z.of_nat (length (versions_of id (mw_db w))) + 1 < 2 ^ 32)%Z ->
  let v := mkMemoryVersion (new_uuid (mw_uuids w)) id (Z.of_nat (length (versions_of id (mw_db w))) + 1) c b r t in
  insert_memory_version_row id c t b r w =
    (Ok tt, w <| mw_uuids ::= S |> <| mw_db ::= fun db => db <| db_versions ::= fun l => l ++ [v] |> |>).
Proof.
  intros Hok Hm Hn. cbv zeta. unfold insert_memory_version_row, load_next_version_number.
  pose proof (max_version_number _ (ok_versions _ Hok id)) as E.
  erewrite conn_bind_run. 2:{ erewrite conn_bind_run by done. rewrite E. unfold check.
    rewrite (proj2 (Z.ltb_lt _ _) Hn). done. }
  erewrite conn_bind_run by done. unfold insert_version, insert_referring.
  erewrite conn_bind_run by done. cbn -[references_exist].
  assert (references_exist [id] (mw_db w) = true) as ->; [|done].
  unfold references_exist. cbn. by rewrite Hm.
Qed.

(** ** Rewriting the text of a memory *)
Definition rewrite_content (id : MemoryId) (m : Memory) (c b r : string) : Conn unit :=
  rowid ← require_memory_rowid id;
  t ← now;
  _ ← insert_memory_version_row id (m_content m) t b r;
  let m' := m <| m_content := c |> <| m_embedding_stale := true |> <| m_updated_at := t |> in
  _ ← persist_memory m';
  sync_fts_entry rowid (Some m) m'.
Lemma rewrite_content_run id m c b r w :
  db_ok (mw_db w) -> find_memory (mw_db w) id = Some m ->
  (Z.of_nat (length (versions_of id (mw_db w))) + 1 < 2 ^ 32)%Z ->
  exists w' t v, rewrite_content id m c b r w = (Ok tt, w') /\ db_ok (mw_db w')
  /\ find_memory (mw_db w') id = Some (m <| m_content := c |> <| m_embedding_stale := true |> <| m_updated_at := t |>)
  /\ versions_of id (mw_db w') = versions_of id (mw_db w) ++ [v] /\ mv_content v = m_content m.
Proof.
  intros Hok Hm Hn. pose proof (find_memory_Some _ _ _ Hm) as [Hid _].
  destruct (require_rowid_run _ _ _ Hm) as [rowid Hr].
  assert (safe db_ok (rewrite_content id m c b r)) as Hsafe.
  { unfold rewrite_content, require_memory_rowid. conn_safe. }
  pose proof (Hsafe w Hok) as Hok'. revert Hok'. unfold rewrite_content.
  erewrite conn_bind_run by done. erewrite conn_bind_run by done.
  erewrite conn_bind_run by (by eapply insert_version_run).
  set (v := mkMemoryVersion _ _ _ _ _ _ _). cbv zeta. erewrite conn_bind_run by done.
  intros Hok'. eexists _, (utc_now (mw_clock w)), v. split; [reflexivity|]. split; [exact Hok'|]. split_and!; [| |done].
  - etrans; [exact (find_memory_persist _ (m <| m_content := c |> <| m_embedding_stale := true |>
      <| m_updated_at := utc_now (mw_clock w) |>) id)|].
    change (find_memory _ id) with (find_memory (mw_db w) id). rewrite Hm. cbn. by rewrite decide_True.
  - etrans; [exact (versions_of_app id (mw_db w) v)|]. by rewrite decide_True.
Qed.

Lemma find_first {A} (p : A -> bool) l v l' :
  (forall x, x ∈ l -> p x = false) -> p v = true -> find p (l ++ v :: l') = Some v.
Proof.
  intros Hl Hv. induction l as [|x l IH]; cbn; [by rewrite Hv|].
  rewrite Hl by by left. apply IH. intros y Hy. apply Hl. by right.
Qed.
Lemma version_content_found id db l l' v :
  db_ok db -> versions_of id db = l ++ v :: l' ->
  version_content id (Z.of_nat (length l) + 1) db = Some (mv_content v).
Proof.
  intros Hok E. pose proof (ok_versions _ Hok id) as En. unfold version_numbers in En. rewrite E in En.
  unfold version_content. cut (find (fun v => mv_version_number v =? Z.of_nat (length l) + 1)%Z (versions_of id db) = Some v).
  { unfold versions_of, select_where. intros Hf.
    assert (forall vs, find (fun v => mv_version_number v =? Z.of_nat (length l) + 1)%Z
        (List.filter (fun v => bool_decide (mv_memory_id v = id)) vs) =
      find (fun v => bool_decide (mv_memory_id v = id) && (mv_version_number v =? Z.of_nat (length l) + 1)%Z) vs) as E'.
    { induction vs as [|x vs IH]; [done|]. cbn. case_bool_decide; cbn; [by rewrite IH|done]. }
    by rewrite <- E', Hf. }
  rewrite E. rewrite length_app, Nat2Z.inj_add, seqZ_app, map_app in En by lia.
  apply app_inj_1 in En as [E1 E2]; [|by rewrite length_map, length_seqZ, Nat2Z.id].
  rewrite seqZ_cons in E2 by (cbn; lia). injection E2 as E2 _.
  assert (forall x, x ∈ l -> (mv_version_number x =? Z.of_nat (length l) + 1)%Z = false) as Hl.
  { intros x Hx. assert (mv_version_number x ∈ seqZ 1 (Z.of_nat (length l))) as Hin%elem_of_seqZ; [|lia].
    rewrite <- E1. apply list_elem_of_fmap. by exists x. }
  apply find_first; [done|]. by rewrite E2, Z.add_comm, Z.eqb_refl.
Qed.

Lemma rollback_run id m l l' v w :
  db_ok (mw_db w) -> find_memory (mw_db w) id = Some m -> versions_of id (mw_db w) = l ++ v :: l' ->
  m_content m <> mv_content v ->
  let n := (Z.of_nat (length l) + 1)%Z in
  run (rollback_to_version id n) w =
    transaction (rewrite_content id m (mv_content v) "system:rollback" ("rollback to version " +:+ pretty n)) w.
Proof.
  intros Hok Hm Hv Hc. cbv zeta. unfold rollback_to_version. rewrite run_with_connection, run_bind, run_section.
  erewrite conn_bind_run by done. erewrite version_content_found by done. cbn [some_or_raise].
  cbn [mret Conn_ret]. rewrite run_section. unfold transaction. erewrite conn_bind_run by by apply require_memory_run.
  by rewrite decide_False.
Qed.
(** C38. Rolling a memory back to one of its versions gives it the text of that
    version and changes nothing else but when it was updated and that its vector
    is stale; the text it had becomes its newest version, and rolling back to
    that one restores it. *)
Theorem rollbacks_can_be_undone id m l l' v w :
  db_ok (mw_db w) -> find_memory (mw_db w) id = Some m -> versions_of id (mw_db w) = l ++ v :: l' ->
  m_content m <> mv_content v -> (Z.of_nat (length (versions_of id (mw_db w))) + 2 < 2 ^ 32)%Z ->
  exists w1 w2 t1 t2,
    run (rollback_to_version id (Z.of_nat (length l) + 1)) w = (Ok tt, w1)
    /\ find_memory (mw_db w1) id =
         Some (m <| m_content := mv_content v |> <| m_embedding_stale := true |> <| m_updated_at := t1 |>)
    /\ run (rollback_to_version id (Z.of_nat (length (versions_of id (mw_db w))) + 1)) w1 = (Ok tt, w2)
    /\ find_memory (mw_db w2) id = Some (m <| m_embedding_stale := true |> <| m_updated_at := t2 |>)
    /\ map mv_content (versions_of id (mw_db w2)) =
         map mv_content (versions_of id (mw_db w)) ++ [m_content m; mv_content v].
Proof.
  intros Hok Hm Hv Hc Hn.
  destruct (rewrite_content_run id m (mv_content v) "system:rollback"
    ("rollback to version " +:+ pretty (Z.of_nat (length l) + 1)%Z) w) as (w1 & t1 & v1 & E1 & Hok1 & Hm1 & Hv1 & Hc1);
    [done|done|lia|].
  eassert (versions_of id (mw_db w1) = _ ++ v1 :: []) as Hv1' by exact Hv1.
  destruct (rewrite_content_run id _ (mv_content v1) "system:rollback"
    ("rollback to version " +:+ pretty (Z.of_nat (length (versions_of id (mw_db w))) + 1)%Z) w1 Hok1 Hm1)
    as (w2 & t2 & v2 & E2 & Hok2 & Hm2 & Hv2 & Hc2); [rewrite Hv1, length_app; cbn; lia|].
  exists w1, w2, t1, t2. split_and!.
  - rewrite (rollback_run id m l l' v w) by done. by apply transaction_Ok_eq.
  - done.
  - erewrite (rollback_run id _ _ [] v1 w1); [by apply transaction_Ok_eq|done|exact Hm1|exact Hv1|]. cbn. congruence.
  - rewrite Hm2. by rewrite Hc1.
  - rewrite Hv2, Hv1, !map_app, <- app_assoc. cbn. by rewrite Hc1, Hc2.
Qed.

(** ** Purging *)
Definition reindexed (db : MemoryDb) : MemoryDb :=
  db <| db_fts := map (fun r => (mr_rowid r, stored_fts_fields (mr_memory r))) (db_memories db) |>.
Lemma purge_where_run p w :
  purge_where p w = (Ok (purge_report p (mw_db w)),
    w <| mw_db := reindexed (delete_memories p (purge_dependents p (mw_db w))) |>).
Proof. reflexivity. Qed.
Lemma memories_purge_dependents p db : db_memories (purge_dependents p db) = db_memories db.
Proof. reflexivity. Qed.
Lemma vectors_delete_memories p db : db_vectors (delete_memories p db) = db_vectors db.
Proof. reflexivity. Qed.
Lemma vectors_purge_dependents p db e m :
  e ∈ db_embeddings db -> find_memory db (er_memory_id e) = Some m -> p m = true ->
  er_vec_rowid e ∉ map fst (db_vectors (purge_dependents p db)).
Proof.
  intros He Hm Hp (v & Er & [_ Hn]%elem_of_delete_where)%list_elem_of_fmap.
  apply bool_decide_eq_false in Hn. apply Hn. rewrite <- Er. apply list_elem_of_fmap. exists e. split; [done|].
  apply elem_of_select_where. split; [done|]. apply selected_true.
  apply find_memory_Some in Hm as (Hid & r & Hr & <-). by exists r.
Qed.
Lemma count_memories_selected p db :
  db_ok db -> pr_memories_deleted (purge_report p db) = Z.of_nat (length (List.filter (selected p db) (ids db))).
Proof.
  intros Hok. cbn. unfold count_where, select_where, ids. f_equal.
  assert (forall r, r ∈ db_memories db -> selected p db (row_id r) = p (mr_memory r)) as Hs.
  { intros r Hr. destruct (p (mr_memory r)) eqn:E; [apply selected_true; eauto|].
    apply not_true_iff_false. intros (r' & Hr' & Hid & Hp)%selected_true.
    pose proof (find_memory_elem _ _ (ok_ids _ Hok) Hr) as F1.
    pose proof (find_memory_elem _ _ (ok_ids _ Hok) Hr') as F2. rewrite Hid, F1 in F2. congruence. }
  revert Hs. generalize (selected p db). induction (db_memories db) as [|r l IH]; intros sel Hs; [done|].
  assert (length (List.filter (fun r => p (mr_memory r)) l) = length (List.filter sel (map row_id l))) as E
    by (apply IH; intros r' Hr'; apply Hs; by right).
  cbn. rewrite (Hs r) by by left. destruct (p (mr_memory r)); cbn; [by rewrite E|done].
Qed.

(** C39. Purging a user always succeeds when one is named, and is complete and
    exact: the memories of the user are gone and every other memory is as it
    was, no column that the schema declares to refer to a memory refers to one
    that is gone ([cr_related_memory_id] is not declared so, see
    [MemoryScenario.corrections_outlive_what_they_name]), no vector of one is left,
    the index has one entry for each memory left, and the report counts the
    memories deleted. *)
Theorem purge_user_erases_the_user user_id w :
  trim user_id <> "" -> db_ok (mw_db w) ->
  let of_user m := bool_decide (m_user_id m = Some (trim user_id)) in
  exists report w', run (purge_user user_id) w = (Ok report, w')
  /\ (forall id m, find_memory (mw_db w') id = Some m <-> find_memory (mw_db w) id = Some m /\ of_user m = false)
  /\ (forall id, id ∈ referenced (mw_db w') -> id ∈ ids (mw_db w'))
  /\ (forall e m, e ∈ db_embeddings (mw_db w) -> find_memory (mw_db w) (er_memory_id e) = Some m ->
        of_user m = true -> er_vec_rowid e ∉ map fst (db_vectors (mw_db w')))
  /\ map fst (db_fts (mw_db w')) = map mr_rowid (db_memories (mw_db w'))
  /\ pr_memories_deleted report =
       Z.of_nat (length (List.filter (selected of_user (mw_db w)) (ids (mw_db w)))).
Proof.
  intros Hu Hok of_user. unfold purge_user. rewrite bool_decide_true by done.
  fold of_user. clearbody of_user. rewrite run_bind, run_guard_or, run_locked, purge_where_run. eexists _, _. split; [reflexivity|].
  pose proof (ok_purge_dependents of_user _ Hok) as Hok1.
  pose proof (ok_delete_memories of_user _ Hok1) as Hok2.
  pose proof (fun id m => find_memory_delete _ of_user id m Hok1) as Hf.
  pose proof (fun id => find_memory_ext _ _ id (memories_purge_dependents of_user (mw_db w))) as Ep.
  pose proof (vectors_delete_memories of_user (purge_dependents of_user (mw_db w))) as Ev.
  pose proof (vectors_purge_dependents of_user (mw_db w)) as Hv. rewrite <- Ev in Hv. clear Hok1 Ev.
  pose proof (count_memories_selected of_user (mw_db w) Hok) as Hn.
  generalize dependent (delete_memories of_user (purge_dependents of_user (mw_db w))). intros db' Hok2 Hf Hv.
  split_and!; [|apply (ok_references _ Hok2)|exact Hv| |exact Hn].
  - intros id m. rewrite <- Ep, <- Hf. split; intros Hm; exact Hm.
  - cbn. by rewrite map_map.
Qed.
End Outcomes.

(** ** Importing shared memories *)
Section Imports.
Context `{MemoryHost} `{L : Locking} `{!LawfulLocking L} (scope : MemoryScope).

(** *** Asking the gate changes no database *)
Section Asking.
Context (P : MemoryDb -> Prop).
Lemma sound_locked_any {A} (m : Conn A) : safe P m -> sound P (locked m).
Proof. intros Hm. by apply sound_with, sound_section. Qed.
Lemma sound_of_result_any {A} (r : Result StoreError A) : sound P (of_result r).
Proof. done. Qed.
Hint Resolve sound_of_result_any : sound.
Ltac asking := repeat first [sound_step | apply sound_locked_any; conn_safe].
Lemma sound_find_similar_any e t n : sound P (find_similar scope e t n).
Proof. unfold find_similar, validate_query_embedding. asking. Qed.
Lemma sound_generate_embedding_any text task : sound P (generate_embedding text task).
Proof. unfold generate_embedding. asking. Qed.
Hint Resolve sound_find_similar_any sound_generate_embedding_any : sound.
Lemma sound_evaluate_any config model c excluded :
  sound P (evaluate_internal (H0 := sqlite_similar scope) config model c excluded).
Proof.
  unfold evaluate_internal, novelty_embedding, judge_match, llm_contradiction_verdict. asking.
Qed.
Lemma sound_shared_decision config m : sound P (shared_decision scope config m).
Proof.
  unfold shared_decision, exact_shared_import_duplicate_decision, evaluate.
  pose proof sound_evaluate_any. asking.
Qed.
Lemma sound_load_config_any : sound P load_config.
Proof. unfold load_config. asking. Qed.
End Asking.

(** *** What an import may change *)
(** The same memory, but for its reliability and when it was updated. *)
Definition same_but_reliability_and_update (m0 m : Memory) : Prop :=
  m = m0 <| m_reliability_score := m_reliability_score m |> <| m_updated_at := m_updated_at m |>.
Definition kept_apart (m : Memory) : Prop :=
  m_state m = Dormant /\ m_provenance m = Imported /\ m_scope m = scope /\ m_embedding_stale m = true
  /\ m_tenant_id m = None /\ m_user_id m = None /\ m_agent_id m = None.
Definition only_imports (db0 db : MemoryDb) : Prop :=
  forall id, match find_memory db0 id, find_memory db id with
             | Some m0, Some m => same_but_reliability_and_update m0 m
             | None, Some m => kept_apart m
             | Some _, None => False
             | None, None => True
             end.
Lemma only_imports_same db0 db db' : db_memories db = db_memories db' -> only_imports db0 db -> only_imports db0 db'.
Proof. intros E Hi id. rewrite <- (find_memory_ext db db' id E). apply Hi. Qed.
Lemma find_memory_insert m w l id :
  insert_row row_id (mkMemoryRow (next_rowid mr_rowid (db_memories (mw_db w))) m) (db_memories (mw_db w)) = Some l ->
  find_memory ((mw_db w) <| db_memories := l |>) id =
    match find_memory (mw_db w) id with Some m' => Some m' | None => if decide (id = m_id m) then Some m else None end.
Proof.
  intros [-> _]%insert_row_Some. unfold find_memory, find_row. cbn.
  destruct (find_by row_id id (db_memories (mw_db w))) as [r|] eqn:Ef; [by rewrite (find_by_app_l _ _ _ _ r Ef)|].
  rewrite find_by_app_r by done. cbn. unfold row_id. cbn. case_decide as E; case_decide as E'; by subst.
Qed.
Lemma safe_insert_apart db0 m : kept_apart m -> safe (only_imports db0) (insert_memory m).
Proof.
  intros Hm w Hw. unfold insert_memory. destruct (insert_row _ _ _) as [l|] eqn:E; [|done].
  intros id. cbn [snd].
  change (mw_db (w <| mw_db := (mw_db w) <| db_memories := l |> |>)) with ((mw_db w) <| db_memories := l |>).
  rewrite (find_memory_insert _ _ _ _ E). specialize (Hw id).
  destruct (find_memory (mw_db w) id), (find_memory db0 id); try done. by case_decide.
Qed.
Lemma safe_lower_reliability db0 m t : safe (only_imports db0) (lower_reliability m t).
Proof.
  apply safe_execute. intros db Hi id.
  rewrite (find_memory_update_memory db (m_id m) (fun r => r
    <| m_reliability_score := fmax (F32.sub (m_reliability_score m) (F32.lit 3 10)) fzero |>
    <| m_updated_at := t |>)) by done.
  specialize (Hi id).
  destruct (find_memory db id) as [m1|], (find_memory db0 id) as [m0|]; try done; cbn; case_decide; try done.
  unfold same_but_reliability_and_update in *. by rewrite Hi.
Qed.
Lemma safe_same_memories db0 f :
  (forall db, db_memories (f db) = db_memories db) -> safe (only_imports db0) (execute f).
Proof. intros Hf. apply safe_execute. intros db. by apply only_imports_same. Qed.
Lemma safe_contradiction_apart db0 a b d : safe (only_imports db0) (record_contradiction_row a b d).
Proof.
  unfold record_contradiction_row, require_memory_or_not_found, require_memory. conn_safe;
    try apply safe_lower_reliability. apply safe_insert_referring. intros db _. by apply only_imports_same.
Qed.
Lemma sound_import_as_apart db0 m s d r o : sound (only_imports db0) (import_as scope m s d r o).
Proof.
  unfold import_as, outside, insert_memory_without_embedding. pose proof (@sound_of_result_any). sound.
  apply sound_locked_any. unfold insert_stored_memory, require_memory_rowid, sync_fts_entry. conn_safe.
  - by apply safe_insert_apart.
  - by apply safe_same_memories.
Qed.
Hint Resolve sound_import_as_apart sound_shared_decision sound_load_config_any : sound.
Lemma sound_import_one_apart db0 config m : sound (only_imports db0) (import_one scope config m).
Proof.
  unfold import_one. sound. apply sound_locked_any, safe_transaction, safe_contradiction_apart.
Qed.
Hint Resolve sound_import_one_apart : sound.
Lemma sound_import_each_apart db0 config l : sound (only_imports db0) (import_each scope config l).
Proof. induction l as [|m l IH]; cbn [import_each]; sound. Qed.
Hint Resolve sound_import_each_apart : sound.
Lemma sound_import_shared db0 l : sound (only_imports db0) (import_shared scope l).
Proof. unfold import_shared, import_shared_with_report. sound. Qed.

(** C36. Whatever other agents share, importing it puts nothing among the active
    memories: what is added is dormant, marked as imported, of the scope of the
    store and of no tenant, user or agent; a memory that was there stays as it
    is but for its reliability and the time it was updated, which a
    contradiction changes; also when the import fails half-way. *)
Theorem shared_imports_stay_dormant memories w :
  let w' := snd (run (import_shared scope memories) w) in
  (forall id m0, find_memory (mw_db w) id = Some m0 ->
     exists m, find_memory (mw_db w') id = Some m /\ same_but_reliability_and_update m0 m)
  /\ (forall id m, find_memory (mw_db w) id = None -> find_memory (mw_db w') id = Some m -> kept_apart m).
Proof.
  intros w'. assert (only_imports (mw_db w) (mw_db w')) as Hi.
  { apply (sound_run _ _ _ (sound_import_shared (mw_db w) memories)).
    intros id. destruct (find_memory (mw_db w) id) as [m|]; [by destruct m|done]. }
  split; intros id; specialize (Hi id).
  - intros m0 E. rewrite E in Hi. destruct (find_memory (mw_db w') id) as [m|]; [by exists m|done].
  - intros m E E'. by rewrite E, E' in Hi.
Qed.
End Imports.

(** ** On a concrete store *)
Section Demonstrations.
#[local] Existing Instance one_store.
Definition updated_conf : MemoryConf :=
  played [inl (Session, UpdateContent "a" "The port is 81" "me" "moved"); inr 0] stored_conf.
Definition updated_world : MemoryWorld := c_state updated_conf.
Lemma updated_ok : db_ok (mw_db updated_world).
Proof.
  apply reachable_ok. destruct (played_reachable stored_moves) as [config Hr]. exists config.
  etrans; [exact Hr|apply play_default].
Qed.

Lemma updated_shape :
  exists m v, find_memory (mw_db updated_world) "a" = Some m /\ versions_of "a" (mw_db updated_world) = [v]
  /\ m_content m = "The port is 81" /\ mv_content v = "The port is 80".
Proof. eexists _, _. split_and!; by vm_compute. Qed.
Lemma rollbacks_can_be_undone_witness :
  exists w1 w2, run (rollback_to_version "a" 1) updated_world = (Ok tt, w1)
  /\ run (rollback_to_version "a" 2) w1 = (Ok tt, w2)
  /\ map mv_content (versions_of "a" (mw_db w2)) = ["The port is 80"; "The port is 81"; "The port is 80"].
Proof.
  pose proof updated_shape as (m & v & Em & Ev & Ec & Ec'). pose proof updated_ok as Hok.
  generalize dependent updated_world. intros w Em Ev Hok.
  destruct (rollbacks_can_be_undone "a" m [] [] v w Hok Em Ev) as (w1 & w2 & t1 & t2 & H1 & _ & H2 & _ & H3).
  - by rewrite Ec, Ec'.
  - by rewrite Ev.
  - rewrite Ev in H2, H3. rewrite Ec in H3. cbn [map app] in H3. rewrite Ec' in H3.
    exists w1, w2. split; [exact H1|]. split; [exact H2|exact H3].
Defined.

Lemma purge_user_erases_the_user_witness :
  exists report w', run (purge_user " ann ") updated_world = (Ok report, w')
  /\ (forall id m, find_memory (mw_db w') id = Some m <->
        find_memory (mw_db updated_world) id = Some m /\ bool_decide (m_user_id m = Some (trim " ann ")) = false).
Proof.
  destruct (purge_user_erases_the_user " ann " updated_world) as (report & w' & H1 & H2 & _);
    [by vm_compute|apply updated_ok|]. by exists report, w'.
Defined.

(** A memory shared by another agent, with another text. *)
Definition imported_run : Result StoreError (list MemoryId) * MemoryWorld :=
  run (import_shared Session [plain_memory "z" "The disk is full" User]) updated_world.
Lemma imported_something : length (ids (mw_db (snd imported_run))) = 2%nat.
Proof. by vm_compute. Qed.
Lemma shared_imports_stay_dormant_witness :
  length (ids (mw_db (snd imported_run))) = 2%nat
  /\ forall id m, id <> "a" -> find_memory (mw_db (snd imported_run)) id = Some m -> kept_apart Session m.
Proof.
  split; [exact imported_something|]. assert (ids (mw_db updated_world) = ["a"]) as Hids by by vm_compute.
  intros id m Hid. unfold imported_run. generalize dependent updated_world. intros w Hids.
  refine (proj2 (shared_imports_stay_dormant Session [plain_memory "z" "The disk is full" User] w) id m _).
  destruct (find_memory (mw_db w) id) as [m0|] eqn:E; [|done]. destruct Hid.
  apply list_elem_of_singleton. rewrite <- Hids. apply find_memory_is_Some. by rewrite E.
Defined.
End Demonstrations.

(** ** The loop of a traversal ends *)
Section Ends.
Context (max_depth : Z) (filter : option string).

(** The entries of the queue that are at depth [d], then those one deeper. *)
Definition levelled (d : Z) (n : nat) (queue : list (MemoryId * Z)) : Prop :=
  exists now next, queue = now ++ next /\ length now = n
  /\ Forall (fun q => snd q = d) now /\ Forall (fun q => snd q = d + 1 /\ d < max_depth)%Z next.
Lemma visit_links_queue current d ls t tr t' :
  exec (visit_links filter current d ls t) tr (Ok t') ->
  exists new, tr_queue t' = tr_queue t ++ new /\ Forall (fun q => snd q = d + 1)%Z new.
Proof.
  revert t tr. induction ls as [|l ls IH]; intros t tr; cbn [visit_links].
  { intros [-> _]%exec_ret. exists []. by rewrite app_nil_r. }
  cbv zeta. destruct (negb _); [apply IH|]. case_decide; [apply IH|].
  intros (tr1 & tr2 & neighbor & _ & _ & (new & E & Hnew)%IH)%exec_bind_Ok. destruct neighbor as [m|]; [|by exists new].
  cbn in E. rewrite <- app_assoc in E. exists ((neighbor_id current l, (d + 1)%Z) :: new). split; [exact E|]. by constructor.
Qed.
Lemma pop_level_queue d n t tr t' :
  levelled d n (tr_queue t) -> exec (pop_level max_depth filter n t) tr (Ok t') -> levelled d 0 (tr_queue t').
Proof.
  revert t tr. induction n as [|n IH]; intros t tr Hl; cbn [pop_level]; [by intros [-> _]%exec_ret|].
  destruct Hl as ([|[current depth] now] & next & E & [= Hn] & Hnow & Hnext). rewrite E. cbn [app].
  apply Forall_cons in Hnow as [Hd Hnow']. cbn in Hd. subst d. cbv zeta. destruct (Z.leb_spec max_depth depth) as [Hk|Hk].
  - apply IH. by exists now, next.
  - intros (tr1 & tr2 & ls & _ & _ & (tr3 & tr4 & t1 & _ & (new & E1 & Hnew)%visit_links_queue & H2)%exec_bind_Ok)%exec_bind_Ok.
    revert H2. apply IH. exists now, (next ++ new). cbn in E1. rewrite E1, app_assoc. split_and!; [done|done|done|].
    apply Forall_app. split; [done|]. eapply Forall_impl; [exact Hnew|]. by intros q Hq.
Qed.
(** Whatever happens to the database between its statements, a traversal has
    emptied its queue when it returns. *)
Lemma walk_empties_the_queue levels d t tr t' :
  levels = S (Z.to_nat (max_depth - d)) -> Forall (fun q => snd q = d) (tr_queue t) -> (d <= max_depth)%Z ->
  exec (walk max_depth filter levels t) tr (Ok t') -> tr_queue t' = [].
Proof.
  revert d t tr. induction levels as [|levels IH]; intros d t tr; [done|]. intros [= El] Hd Hk. cbn [walk].
  intros (tr1 & tr2 & t1 & _ & H1 & H2)%exec_bind_Ok.
  apply (pop_level_queue d) in H1 as (now & next & E & Hn%nil_length_inv & _ & Hnext);
    [|exists (tr_queue t), []; by rewrite app_nil_r]. subst now. cbn in E.
  destruct (Z.eq_dec d max_depth) as [->|Hne].
  - rewrite Z.sub_diag in El. subst levels. apply exec_ret in H2 as [-> _]. rewrite E.
    destruct next as [|q next]; [done|]. inversion Hnext as [|? ? [_ ?]]; subst; lia.
  - apply (IH (d + 1)%Z) in H2; [done|lia| |lia]. rewrite E. eapply Forall_impl; [exact Hnext|]. by intros q [? _].
Qed.
End Ends.

(** * Following the links of a memory: the breadth-first walk finds exactly the
    memories that are near enough, each with its distance. *)
Section Traversal.
Context (db : MemoryDb) (filter : option string).

(** *** Distances *)
(** A link that the filter lets through joins the two memories. *)
Definition adjacent (a b : MemoryId) : Prop :=
  b ∈ ids db /\ exists l, l ∈ db_links db /\ option_is filter (Some (ml_relation_type l)) = true
  /\ (ml_source_id l = a /\ ml_target_id l = b \/ ml_target_id l = a /\ ml_source_id l = b).
(** [b] is reached from [a] over [d] links and not over fewer. *)
Definition distance (a b : MemoryId) (d : nat) : Prop :=
  nsteps adjacent d a b /\ forall d', nsteps adjacent d' a b -> (d <= d')%nat.
Definition node_id (n : GraphNode) : MemoryId := m_id (gn_memory n).
Definition queued (n : GraphNode) : MemoryId * Z := (node_id n, gn_depth n).

Lemma adjacent_link a b :
  adjacent a b <-> b ∈ ids db /\ exists l, l ∈ load_links db a
    /\ option_is filter (Some (ml_relation_type l)) = true /\ neighbor_id a l = b.
Proof.
  unfold adjacent, load_links, neighbor_id. split; intros [Hb (l & Hl & Hf & Hab)]; (split; [done|]); exists l.
  - rewrite elem_of_order_by, elem_of_select_where, orb_true_iff, !bool_decide_eq_true.
    case_decide; naive_solver.
  - rewrite elem_of_order_by, elem_of_select_where, orb_true_iff, !bool_decide_eq_true in Hl.
    case_decide; naive_solver.
Qed.

(** *** One link, in a database that stays as it is *)
Definition visit_link (current : MemoryId) (depth : Z) (t : Traversal) (l : MemoryLink) : Traversal :=
  if negb (option_is filter (Some (ml_relation_type l))) then t
  else
    let id := neighbor_id current l in
    if decide (id ∈ tr_visited t) then t
    else match find_memory db id with
         | Some m => mkTraversal (id :: tr_visited t) (tr_queue t ++ [(id, depth + 1)%Z])
                       (tr_nodes t ++ [mkGraphNode m (depth + 1) [l]])
         | None => mkTraversal (id :: tr_visited t) (tr_queue t) (tr_nodes t)
         end.
Lemma visit_links_run current depth ls t w :
  mw_db w = db -> run (visit_links filter current depth ls t) w = (Ok (fold_left (visit_link current depth) ls t), w).
Proof.
  intros Ew. revert t. induction ls as [|l ls IH]; intros t; [done|]. cbn [visit_links fold_left].
  unfold visit_link at 2. cbv zeta. destruct (negb _); [apply IH|]. case_decide; [apply IH|].
  rewrite run_bind, run_section. cbn. rewrite Ew. by destruct (find_memory db _); rewrite IH.
Qed.

(** *** The invariant of the walk
    [dn] are the nodes whose links have been followed, [pend] those in the
    queue, [c] is the depth the walk has come to. *)
Context (start : MemoryId) (k : Z).
Record walked (c : Z) (dn pend : list GraphNode) (t : Traversal) : Prop := {
  walked_nodes : tr_nodes t = dn ++ pend;
  walked_queue : tr_queue t = map queued pend;
  walked_once : NoDup (map node_id (tr_nodes t));
  walked_visited : forall id, id ∈ map node_id (tr_nodes t) <-> id ∈ tr_visited t /\ id ∈ ids db;
  walked_found : forall n, n ∈ tr_nodes t -> find_memory db (node_id n) = Some (gn_memory n);
  walked_near : forall n, n ∈ tr_nodes t -> (0 <= gn_depth n <= k)%Z /\ (gn_depth n <= c + 1)%Z;
  walked_steps : forall n, n ∈ tr_nodes t -> nsteps adjacent (Z.to_nat (gn_depth n)) start (node_id n);
  walked_later : forall n, n ∈ pend -> (c <= gn_depth n)%Z;
  walked_sorted : StronglySorted (fun a b => gn_depth a <= gn_depth b)%Z pend }.
Definition at_most (t : Traversal) (d : Z) (b : MemoryId) : Prop :=
  exists n, n ∈ tr_nodes t /\ node_id n = b /\ (gn_depth n <= d)%Z.
Definition closed (dn : list GraphNode) (t : Traversal) : Prop :=
  forall n b, n ∈ dn -> (gn_depth n < k)%Z -> adjacent (node_id n) b -> at_most t (gn_depth n + 1) b.

Lemma at_most_grows t t' d b :
  (forall n, n ∈ tr_nodes t -> n ∈ tr_nodes t') -> at_most t d b -> at_most t' d b.
Proof. intros Hs (n & Hn & H). exists n. auto. Qed.
(** **** One link *)
Lemma visit_link_walked dn pend t cur l :
  walked (gn_depth cur) dn pend t -> cur ∈ dn -> (gn_depth cur < k)%Z -> l ∈ load_links db (node_id cur) ->
  exists new, let t' := visit_link (node_id cur) (gn_depth cur) t l in
    walked (gn_depth cur) dn (pend ++ new) t'
    /\ (option_is filter (Some (ml_relation_type l)) = true -> neighbor_id (node_id cur) l ∈ ids db ->
        at_most t' (gn_depth cur + 1) (neighbor_id (node_id cur) l)).
Proof.
  intros W Hcur Hk Hl. unfold visit_link. cbv zeta.
  destruct (option_is _ _) eqn:Ef; cbn [negb]; [|exists []; rewrite app_nil_r; by split].
  set (id := neighbor_id (node_id cur) l). case_decide as Hv.
  { exists []. rewrite app_nil_r. split; [done|]. intros _ Hid.
    assert (id ∈ map node_id (tr_nodes t)) as (n & En & Hn)%list_elem_of_fmap by by apply (walked_visited _ _ _ _ W).
    exists n. split_and!; [done|done|]. by apply (walked_near _ _ _ _ W). }
  destruct (find_memory db id) as [m|] eqn:Em.
  2:{ exists []. rewrite app_nil_r. assert (id ∉ ids db) as Hid.
      { rewrite <- find_memory_is_Some, Em. by intros [? ?]. }
      split; [|done]. destruct W. split; cbn; try done.
      intros id'. rewrite walked_visited0, elem_of_cons. naive_solver. }
  assert (m_id m = id /\ id ∈ ids db) as [Eid Hid].
  { split; [by apply find_memory_Some in Em as [? _]|]. apply find_memory_is_Some. by rewrite Em. }
  assert (cur ∈ tr_nodes t) as Hcur' by (rewrite (walked_nodes _ _ _ _ W), elem_of_app; by left).
  pose proof (walked_near _ _ _ _ W _ Hcur') as Hd. pose proof (walked_steps _ _ _ _ W _ Hcur') as Hs.
  exists [mkGraphNode m (gn_depth cur + 1) [l]]. split.
  2:{ intros _ _. eexists. split; [cbn; rewrite elem_of_app; right; by left|]. by split. }
  destruct W. split; cbn [tr_nodes tr_queue tr_visited].
  - by rewrite walked_nodes0, app_assoc.
  - rewrite walked_queue0, map_app. cbn. unfold queued, node_id. cbn. by rewrite Eid.
  - rewrite map_app. cbn. apply NoDup_app. split_and!; [done| |apply NoDup_singleton].
    intros id' Hid' ->%list_elem_of_singleton. apply walked_visited0 in Hid' as [? _].
    unfold node_id in *. cbn in *. by rewrite Eid in *.
  - intros id'. rewrite map_app, elem_of_app, walked_visited0, elem_of_cons. cbn. rewrite list_elem_of_singleton.
    unfold node_id at 1. cbn. rewrite Eid. naive_solver.
  - intros n [?| ->%list_elem_of_singleton]%elem_of_app; [by auto|]. unfold node_id. cbn. by rewrite Eid.
  - intros n [?| ->%list_elem_of_singleton]%elem_of_app; [by auto|]. cbn. lia.
  - intros n [?| ->%list_elem_of_singleton]%elem_of_app; [by auto|]. unfold node_id at 1. cbn. rewrite Eid.
    rewrite Z2Nat.inj_add by lia. rewrite Nat.add_1_r. eapply nsteps_r; [exact Hs|].
    apply adjacent_link. split; [done|]. by exists l.
  - intros n [?| ->%list_elem_of_singleton]%elem_of_app; [by auto|]. cbn. lia.
  - apply StronglySorted_app_2; [|done|by repeat constructor].
    intros n ? Hn ->%list_elem_of_singleton. cbn. apply walked_near0. rewrite walked_nodes0. apply elem_of_app. by right.
Qed.

(** **** A node: its links in their order *)
Lemma visit_link_keeps t cur d l n :
  n ∈ tr_nodes t -> n ∈ tr_nodes (visit_link cur d t l).
Proof.
  intros Hn. unfold visit_link. cbv zeta. destruct (negb _); [done|]. case_decide; [done|].
  destruct (find_memory _ _); [|done]. cbn. apply elem_of_app. by left.
Qed.
Lemma visit_links_keep t cur d ls n :
  n ∈ tr_nodes t -> n ∈ tr_nodes (fold_left (visit_link cur d) ls t).
Proof. revert t. induction ls as [|l ls IH]; intros t Hn; [done|]. cbn. by apply IH, visit_link_keeps. Qed.
Lemma visit_links_walked dn pend t cur ls :
  walked (gn_depth cur) dn pend t -> cur ∈ dn -> (gn_depth cur < k)%Z ->
  (forall l, l ∈ ls -> l ∈ load_links db (node_id cur)) ->
  exists new, let t' := fold_left (visit_link (node_id cur) (gn_depth cur)) ls t in
    walked (gn_depth cur) dn (pend ++ new) t'
    /\ forall l, l ∈ ls -> option_is filter (Some (ml_relation_type l)) = true ->
         neighbor_id (node_id cur) l ∈ ids db -> at_most t' (gn_depth cur + 1) (neighbor_id (node_id cur) l).
Proof.
  revert pend t. induction ls as [|l ls IH]; intros pend t W Hcur Hk Hls.
  { exists []. rewrite app_nil_r. split; [done|]. by intros l ?%not_elem_of_nil. }
  destruct (visit_link_walked dn pend t cur l W Hcur Hk) as (new & W' & Hl); [apply Hls; by left|].
  destruct (IH _ _ W' Hcur Hk) as (new' & W'' & Hl'); [intros l' Hl'; apply Hls; by right|].
  exists (new ++ new'). rewrite app_assoc. split; [exact W''|].
  intros l' [->|Hin]%elem_of_cons Hf Hid; [|by apply Hl'].
  eapply at_most_grows; [|by apply Hl]. cbn. intros n Hn. by apply visit_links_keep.
Qed.
Lemma walked_pop c dn cur pend t :
  walked c dn (cur :: pend) t ->
  walked (gn_depth cur) (dn ++ [cur]) pend (mkTraversal (tr_visited t) (map queued pend) (tr_nodes t)).
Proof.
  intros []. inversion_clear walked_sorted0 as [|? ? Hs Hle]. rewrite Forall_forall in Hle.
  assert (c <= gn_depth cur)%Z as Hc by (apply walked_later0; by left).
  split; cbn; try done.
  - by rewrite walked_nodes0, <- app_assoc.
  - intros n Hn. destruct (walked_near0 n Hn). lia.
Qed.
Lemma walked_step c dn cur pend t :
  walked c dn (cur :: pend) t -> closed dn t -> (gn_depth cur < k)%Z ->
  exists new, let t' := fold_left (visit_link (node_id cur) (gn_depth cur)) (load_links db (node_id cur))
      (mkTraversal (tr_visited t) (map queued pend) (tr_nodes t)) in
    walked (gn_depth cur) (dn ++ [cur]) (pend ++ new) t' /\ closed (dn ++ [cur]) t'.
Proof.
  intros W%walked_pop Hc Hk.
  destruct (visit_links_walked _ _ _ cur (load_links db (node_id cur)) W) as (new & W' & Hl);
    [rewrite elem_of_app; right; by left|done|done|].
  exists new. split; [exact W'|]. intros n b [Hn| ->%list_elem_of_singleton]%elem_of_app Hd Hab.
  - eapply at_most_grows; [|by apply (Hc n b)]. intros n' Hn'. by apply visit_links_keep.
  - apply adjacent_link in Hab as [Hb (l & Hlin & Hf & <-)]. by apply Hl.
Qed.
Lemma walked_skip c dn cur pend t :
  walked c dn (cur :: pend) t -> closed dn t -> ~ (gn_depth cur < k)%Z ->
  closed (dn ++ [cur]) (mkTraversal (tr_visited t) (map queued pend) (tr_nodes t)).
Proof. intros W Hc Hk n b [Hn| ->%list_elem_of_singleton]%elem_of_app Hd Hab; [by apply (Hc n b)|done]. Qed.

(** *** The walk *)
Lemma pop_level_walked n w c dn pend t :
  mw_db w = db -> walked c dn pend t -> closed dn t ->
  exists c' dn' pend' t', run (pop_level k filter n t) w = (Ok t', w) /\ walked c' dn' pend' t' /\ closed dn' t'
    /\ (forall n, n ∈ tr_nodes t -> n ∈ tr_nodes t').
Proof.
  intros Ew. revert c dn pend t. induction n as [|n IH]; intros c dn pend t W Hc.
  { exists c, dn, pend, t. by split_and!. }
  cbn [pop_level]. rewrite (walked_queue _ _ _ _ W). destruct pend as [|cur pend]; cbn [map].
  { exists c, dn, [], t. by split_and!. }
  unfold queued at 1. cbv zeta. destruct (Z.leb_spec k (gn_depth cur)) as [Hk|Hk].
  - destruct (IH _ _ _ _ (walked_pop _ _ _ _ _ W) (walked_skip _ _ _ _ _ W Hc (proj2 (Z.nlt_ge _ _) Hk)))
      as (c' & dn' & pend' & t' & E & W' & Hc' & Hg).
    exists c', dn', pend', t'. by split_and!.
  - destruct (walked_step _ _ _ _ _ W Hc Hk) as (new & W1 & Hc1).
    destruct (IH _ _ _ _ W1 Hc1) as (c' & dn' & pend' & t' & E & W' & Hc' & Hg).
    exists c', dn', pend', t'. split_and!; [|done|done|intros n' Hn'; by apply Hg, visit_links_keep].
    rewrite run_bind, run_section. cbn. rewrite Ew, run_bind, (visit_links_run _ _ _ _ w Ew). exact E.
Qed.
Lemma walk_walked levels w c dn pend t :
  mw_db w = db -> walked c dn pend t -> closed dn t ->
  exists c' dn' pend' t', run (walk k filter levels t) w = (Ok t', w) /\ walked c' dn' pend' t' /\ closed dn' t'
    /\ (forall n, n ∈ tr_nodes t -> n ∈ tr_nodes t').
Proof.
  intros Ew. revert c dn pend t. induction levels as [|levels IH]; intros c dn pend t W Hc.
  { exists c, dn, pend, t. by split_and!. }
  cbn [walk]. rewrite run_bind.
  destruct (pop_level_walked (length (tr_queue t)) w _ _ _ _ Ew W Hc) as (c1 & dn1 & pend1 & t1 & -> & W1 & Hc1 & Hg1).
  destruct (IH _ _ _ _ W1 Hc1) as (c' & dn' & pend' & t' & E & W' & Hc' & Hg).
  exists c', dn', pend', t'. split_and!; [done..|]. intros n Hn. by apply Hg, Hg1.
Qed.
Lemma walked_complete c dn t n :
  walked c dn [] t -> closed dn t -> (Z.of_nat n <= k)%Z -> at_most t 0 start ->
  forall b, nsteps adjacent n start b -> at_most t (Z.of_nat n) b.
Proof.
  intros W Hc Hk Hs. induction n as [|n IH]; intros b Hb; [by inversion Hb; subst|].
  apply nsteps_inv_r in Hb as (a & Ha & Hab). apply IH in Ha as (m & Hm & <- & Hd); [|lia].
  rewrite (walked_nodes _ _ _ _ W), app_nil_r in Hm.
  destruct (Hc m b Hm) as (n' & Hn' & E & Hd'); [lia|done|]. exists n'. split_and!; [done|done|lia].
Qed.
Lemma walked_start m :
  find_memory db start = Some m -> m_id m = start -> (0 <= k)%Z ->
  walked 0 [] [mkGraphNode m 0 []] (mkTraversal [m_id m] [(m_id m, 0%Z)] [mkGraphNode m 0 []]).
Proof.
  intros Hm Eid Hk. assert (start ∈ ids db) as Hs by (apply find_memory_is_Some; by rewrite Hm).
  split; cbn [tr_nodes tr_queue tr_visited]; try done.
  - apply NoDup_singleton.
  - intros id. cbn. rewrite !list_elem_of_singleton. unfold node_id. cbn. rewrite Eid. naive_solver.
  - intros n ->%list_elem_of_singleton. unfold node_id. cbn. by rewrite Eid.
  - intros n ->%list_elem_of_singleton. cbn. lia.
  - intros n ->%list_elem_of_singleton. unfold node_id. cbn. rewrite Eid. constructor.
  - by intros n ->%list_elem_of_singleton.
  - by repeat constructor.
Qed.
Lemma walked_distance c dn t :
  walked c dn [] t -> closed dn t -> at_most t 0 start ->
  forall id d, (id, d) ∈ map queued (tr_nodes t) <-> (0 <= d <= k)%Z /\ distance start id (Z.to_nat d).
Proof.
  intros W Hc Hs.
  assert (forall d b, nsteps adjacent d start b -> (Z.of_nat d <= k)%Z -> at_most t (Z.of_nat d) b) as Hcomplete
    by by intros d b Hb Hd; apply (walked_complete c dn).
  intros id d. split.
  - intros (n & E & Hn)%list_elem_of_fmap. injection E as -> ->.
    destruct (walked_near _ _ _ _ W n Hn) as [Hd _]. split; [done|]. split; [by apply (walked_steps _ _ _ _ W)|].
    intros d' Hd'. destruct (decide (d' < Z.to_nat (gn_depth n))%nat) as [Hlt|]; [|lia].
    destruct (Hcomplete d' _ Hd') as (n' & Hn' & E & Hle); [lia|].
    enough (n' = n) as -> by lia.
    pose proof (walked_found _ _ _ _ W _ Hn) as Hf. pose proof (walked_once _ _ _ _ W) as Honce.
    apply list_elem_of_lookup in Hn as [i Hi], Hn' as [j Hj].
    assert (i = j) as ->; [|congruence]. eapply (NoDup_lookup _ _ _ (node_id n) Honce); rewrite list_lookup_fmap.
    + by rewrite Hi.
    + by rewrite Hj, <- E.
  - intros [Hd [Hsteps Hmin]]. destruct (Hcomplete _ _ Hsteps) as (n & Hn & <- & Hle); [lia|].
    assert (gn_depth n = d) as <-; [|apply list_elem_of_fmap; by exists n].
    pose proof (Hmin _ (walked_steps _ _ _ _ W n Hn)). destruct (walked_near _ _ _ _ W n Hn). lia.
Qed.
End Traversal.

(** C35. Following links from a memory always ends and answers each memory that
    can be reached over at most [max_depth] links of the relation asked for,
    whichever way they point, exactly once, with the length of the shortest way
    to it; nothing else is answered and nothing is written. *)
Theorem traversal_finds_what_is_near `{MemoryHost} `{L : Locking} `{!LawfulLocking L} id max_depth filter w :
  id ∈ ids (mw_db w) -> (0 <= max_depth)%Z ->
  exists nodes, run (traverse_links id max_depth filter) w = (Ok (mkGraphTraversalResult id max_depth nodes), w)
  /\ NoDup (map node_id nodes)
  /\ (forall n, n ∈ nodes -> find_memory (mw_db w) (node_id n) = Some (gn_memory n))
  /\ (forall id' d, (id', d) ∈ map queued nodes <->
        (0 <= d <= max_depth)%Z /\ distance (mw_db w) filter id id' (Z.to_nat d)).
Proof.
  intros Hid Hk. pose proof Hid as [start Hm]%find_memory_is_Some.
  assert (m_id start = id) as Eid by by apply find_memory_Some in Hm as [? _].
  set (t := mkTraversal [id] [(id, 0%Z)] [mkGraphNode start 0 []]).
  assert (walked (mw_db w) filter id max_depth 0 [] [mkGraphNode start 0 []] t) as W.
  { unfold t. rewrite <- Eid in Hm |- *. by apply walked_start. }
  destruct (walk_walked (mw_db w) filter id max_depth (S (Z.to_nat max_depth)) w 0 [] _ t eq_refl W)
    as (c & dn & pend & t' & E & W' & Hc & Hg); [by intros ? ? ?%not_elem_of_nil|].
  assert (tr_queue t' = []) as Hq.
  { destruct (run_exec (walk max_depth filter (S (Z.to_nat max_depth)) t) w) as [tr Ht]. rewrite E in Ht. cbn in Ht.
    apply (walk_empties_the_queue max_depth filter (S (Z.to_nat max_depth)) 0 t tr); [|by repeat constructor|done..].
    by rewrite Z.sub_0_r. }
  rewrite (walked_queue _ _ _ _ _ _ _ _ W') in Hq. apply map_eq_nil in Hq as ->.
  exists (tr_nodes t'). split_and!; [|apply W'|apply W'|].
  - unfold traverse_links. rewrite run_with_connection, run_bind, run_section.
    rewrite (require_memory_run _ _ _ Hm). fold t. by rewrite run_bind, E.
  - apply (walked_distance _ _ _ _ c dn); [done|done|]. exists (mkGraphNode start 0 []).
    split_and!; [apply Hg; by left|done|done].
Qed.

(** *** On a concrete store *)
Section LinkedStore.
#[local] Existing Instance one_store.
Definition linked_moves : list ((MemoryScope * MemoryCall) + nat) :=
  stored_moves ++ [inl (Session, Store_ (plain_memory "b" "The host is up" Session)); inr 0;
    inl (Session, Store_ (plain_memory "c" "The disk is full" Session)); inr 0;
    inl (Session, RecordLink "b" "a" "related"); inr 0; inl (Session, RecordLink "b" "c" "related"); inr 0;
    inl (Session, RecordLink "a" "c" "contradicts"); inr 0].
Definition linked : MemoryWorld := c_state (played linked_moves (fresh_store [])).
Lemma linked_walk :
  "a" ∈ ids (mw_db linked)
  /\ match fst (run (traverse_links "a" 5 (Some "related")) linked) with
     | Ok result => map queued (gt_nodes result)
     | Err _ => []
     end = [("a", 0%Z); ("b", 1%Z); ("c", 2%Z)].
Proof. split; [|by vm_compute]. apply (bool_decide_unpack _). by vm_compute. Qed.

Lemma traversal_finds_what_is_near_witness :
  exists nodes, run (traverse_links "a" 5 (Some "related")) linked = (Ok (mkGraphTraversalResult "a" 5 nodes), linked)
  /\ map queued nodes = [("a", 0%Z); ("b", 1%Z); ("c", 2%Z)]
  /\ distance (mw_db linked) (Some "related") "a" "c" 2.
Proof.
  pose proof linked_walk as (Hid & Hwalk). generalize dependent linked. intros w Hid Hwalk.
  destruct (traversal_finds_what_is_near "a" 5 (Some "related") w Hid) as (nodes & H1 & _ & _ & H2); [lia|].
  rewrite H1 in Hwalk. exists nodes. split; [exact H1|]. split; [exact Hwalk|].
  apply (H2 "c" 2%Z). change (map queued nodes = [("a", 0%Z); ("b", 1%Z); ("c", 2%Z)]) in Hwalk. rewrite Hwalk.
  right; right; left.
Defined.
End LinkedStore.
