(* ===== verification/MemoryBudget.v ===== *)
(** Enforcing the budget of active memories: how many are left, and which. *)
From S2P Require Import Prelude Text Table Threads Floats Memories MemoryDb Embeddings Forgetting MemoryStore MemoryCuration SalienceGate MemoryReview MemoryFacts MemoryInvariant MemoryScores MemoryHistory MemoryScenario MemoryOutcomes.

(** ** Sorting by a comparison that is transitive on the list *)
Section SortedOn.
Context {A : Type} (le : A -> A -> bool).
Lemma Sorted_strongly_on l :
  (forall x y z, x ∈ l -> y ∈ l -> z ∈ l -> le x y = true -> le y z = true -> le x z = true) ->
  Sorted (fun a b => le a b = true) l -> StronglySorted (fun a b => le a b = true) l.
Proof.
  intros Ht Hs. induction Hs as [|x l Hs IH Hhd]; [constructor|].
  assert (StronglySorted (fun a b => le a b = true) l) as Hl.
  { apply IH. intros a b c Ha Hb Hc. apply Ht; by right. }
  constructor; [done|]. destruct Hhd as [|y l Hxy]; [constructor|]. constructor; [done|].
  inversion_clear Hl as [|? ? _ Hy]. rewrite Forall_forall in Hy |- *. intros z Hz. apply (Ht x y z); [by left|by right; left| |done|].
  - right. by right.
  - by apply Hy.
Qed.
Lemma StronglySorted_take n l x y :
  StronglySorted (fun a b => le a b = true) l -> x ∈ take n l -> y ∈ drop n l -> le x y = true.
Proof.
  revert n. induction l as [|z l IH]; intros n Hs; [rewrite take_nil; by intros ?%not_elem_of_nil|].
  destruct n as [|n]; [by intros ?%not_elem_of_nil|]. inversion_clear Hs as [|? ? Hl Hz]. cbn.
  intros [->|Hx]%elem_of_cons Hy; [|by apply (IH n)]. rewrite Forall_forall in Hz. apply Hz.
  rewrite <- (take_drop n l). apply elem_of_app. by right.
Qed.
End SortedOn.

Lemma string_compare_le a b : String.compare a b <> Gt <-> string_leb a b = true.
Proof. unfold string_leb, String.leb. by destruct (String.compare a b). Qed.
Lemma string_compare_le_trans a b c :
  String.compare a b <> Gt -> String.compare b c <> Gt -> String.compare a c <> Gt.
Proof. rewrite !string_compare_le. apply string_leb_trans. Qed.

(** The lexicographic order of two comparisons. *)
Section ThenBy.
Context {A : Type} (c d : A -> A -> comparison) (P : A -> Prop).
Context (c_anti : forall x y, c y x = CompOpp (c x y)).
Context (c_trans : forall x y z, P y -> c x y <> Gt -> c y z <> Gt -> c x z <> Gt).
Context (d_trans : forall x y z, d x y <> Gt -> d y z <> Gt -> d x z <> Gt).
Lemma then_by_le_trans x y z :
  P x -> P y -> P z -> then_by c d x y <> Gt -> then_by c d y z <> Gt -> then_by c d x z <> Gt.
Proof.
  intros Hx Hy Hz. unfold then_by.
  assert (c x y <> Gt -> c y z <> Gt -> c x z <> Gt) as H1 by by apply c_trans.
  (* equal first columns of [x] and [z] make all three equal *)
  assert (c x z = Eq -> c y z <> Gt -> c x y <> Lt) as H2.
  { intros E Hyz Hlt. apply (c_trans y z x); [done|done| |by rewrite c_anti, Hlt].
    by rewrite c_anti, E. }
  assert (c x z = Eq -> c x y <> Gt -> c y z <> Lt) as H3.
  { intros E Hxy Hlt. apply (c_trans z x y); [done| |done|by rewrite c_anti, Hlt].
    by rewrite c_anti, E. }
  destruct (c x y) eqn:E1, (c y z) eqn:E2, (c x z) eqn:E3; try done; intros G1 G2;
    try (by apply H1); try (by destruct (H2 eq_refl)); try (by destruct (H3 eq_refl)); by eapply d_trans.
Qed.
End ThenBy.

Section Budget.
Context `{MemoryHost} `{L : Locking} `{!LawfulLocking L} (scope : MemoryScope).
Implicit Types policy : ForgettingPolicy.

Lemma leb_by_le {A} (cmp : A -> A -> comparison) x y : leb_by cmp x y = true <-> cmp x y <> Gt.
Proof. unfold leb_by. by destruct (cmp x y). Qed.
Lemma eviction_order_total policy context x y :
  leb_by (eviction_order policy context) x y = true \/ leb_by (eviction_order policy context) y x = true.
Proof.
  unfold leb_by, eviction_order, then_by, asc_str.
  rewrite (fcmp_antisym (retention_score policy x context)). destruct (fcmp _ _); cbn; [|by left|by right].
  rewrite (String.compare_antisym (m_id x)). destruct (String.compare _ _); cbn; auto.
Qed.
Lemma eviction_order_trans policy context x y z :
  let scored m := is_nan (retention_score policy m context) = false in
  scored x -> scored y -> scored z ->
  leb_by (eviction_order policy context) x y = true -> leb_by (eviction_order policy context) y z = true ->
  leb_by (eviction_order policy context) x z = true.
Proof.
  intros scored. rewrite !leb_by_le. apply (then_by_le_trans _ _ scored).
  - intros a b. apply fcmp_antisym.
  - intros a b c Hb. by apply fcmp_le_trans.
  - intros a b c. apply string_compare_le_trans.
Qed.
(** What is evicted does not come after what stays. *)
Lemma evicted_before_kept policy context n l x y :
  (forall m, m ∈ l -> is_nan (retention_score policy m context) = false) ->
  x ∈ take n (order_by (eviction_order policy context) l) -> y ∈ drop n (order_by (eviction_order policy context) l) ->
  fcmp (retention_score policy x context) (retention_score policy y context) <> Gt.
Proof.
  intros Hn Hx Hy. set (sorted := order_by (eviction_order policy context) l) in *.
  assert (leb_by (eviction_order policy context) x y = true) as Hle.
  { eapply StronglySorted_take; [|exact Hx|exact Hy]. apply Sorted_strongly_on.
    - intros a b c Ha%elem_of_order_by Hb%elem_of_order_by Hc%elem_of_order_by. apply eviction_order_trans; by apply Hn.
    - apply sort_by_sorted, eviction_order_total. }
  revert Hle. unfold leb_by, eviction_order, then_by. by destruct (fcmp _ _).
Qed.

Lemma default_score_is_a_number m context :
  unit_scored m -> is_nan (retention_score ImportanceReliability m context) = false.
Proof. intros [Hi Hr]. by apply mul_unit_not_nan. Qed.

(** ** What demotion does to the rows *)
Definition dormant_at (t : Z) (m : Memory) : Memory := m <| m_state := Dormant |> <| m_updated_at := t |>.
Definition demoted (t : Z) (l : list Memory) (rows : list MemoryRow) : list MemoryRow :=
  map (fun r => if bool_decide (row_id r ∈ map m_id l) then set_memory (dormant_at t (mr_memory r)) r else r) rows.
Definition rows_of (rows : list MemoryRow) (l : list Memory) : Prop :=
  forall m r, m ∈ l -> r ∈ rows -> row_id r = m_id m -> mr_memory r = m.

Lemma demoted_nil t rows : demoted t [] rows = rows.
Proof.
  unfold demoted. rewrite <- (map_id rows) at 2. apply map_ext. intros r.
  rewrite bool_decide_false; [done|]. apply not_elem_of_nil.
Qed.
Lemma demoted_cons t m l rows :
  m_id m ∉ map m_id l -> rows_of rows (m :: l) ->
  demoted t l (update_where (fun r => bool_decide (row_id r = m_id (dormant_at t m))) (set_memory (dormant_at t m)) rows) =
    demoted t (m :: l) rows.
Proof.
  intros Hm Hr. unfold demoted, update_where. rewrite map_map. apply map_ext_in. intros r Hin%list_elem_of_In.
  cbn [map]. change (m_id (dormant_at t m)) with (m_id m).
  destruct (decide (row_id r = m_id m)) as [E|E].
  - rewrite (bool_decide_true (row_id r = m_id m)) by done. rewrite (Hr m r) by (by left || done || by apply list_elem_of_In).
    change (row_id (set_memory (dormant_at t m) r)) with (m_id m).
    rewrite bool_decide_false by done. rewrite bool_decide_true; [done|]. rewrite E. by left.
  - rewrite (bool_decide_false (row_id r = m_id m)) by done.
    by rewrite (bool_decide_ext (row_id r ∈ map m_id l) (row_id r ∈ m_id m :: map m_id l)) by set_solver.
Qed.
Lemma rows_of_tail t m l rows :
  m_id m ∉ map m_id l -> rows_of rows (m :: l) ->
  rows_of (update_where (fun r => bool_decide (row_id r = m_id (dormant_at t m))) (set_memory (dormant_at t m)) rows) l.
Proof.
  intros Hm Hr m' r' Hm' (r & Hin & ->)%elem_of_update_where. case_bool_decide as E.
  - cbn. intros E'. destruct Hm. rewrite E'. apply list_elem_of_fmap. by exists m'.
  - apply Hr; [by right|done].
Qed.
Lemma demote_run t l w :
  NoDup (map m_id l) -> rows_of (db_memories (mw_db w)) l ->
  for_rows l (fun m => persist_memory (dormant_at t m)) w =
    (Ok tt, w <| mw_db ::= fun db => db <| db_memories ::= demoted t l |> |>).
Proof.
  revert w. induction l as [|m l IH]; intros w Hn Hr; cbn [for_rows map] in *.
  - unfold mret, Conn_ret. f_equal. destruct w as [[]]. cbn -[demoted]. by rewrite demoted_nil.
  - apply NoDup_cons in Hn as [Hm Hn]. erewrite conn_bind_run by done.
    rewrite IH; [|done|by apply (rows_of_tail t)]. destruct w as [[]]. cbn -[update_where]. do 3 f_equal.
    by apply demoted_cons.
Qed.

(** ** How many active memories are left *)
Definition active_row (r : MemoryRow) : bool :=
  bool_decide (m_scope (mr_memory r) = scope) && bool_decide (m_state (mr_memory r) = Active).
Lemma load_active db :
  load_search_memories [scope] Active None None db =
    map mr_memory (order_by newest_first (select_where active_row (db_memories db))).
Proof.
  unfold load_search_memories. do 2 f_equal. apply filter_ext. intros r. unfold active_row. cbv zeta.
  rewrite !andb_true_r. f_equal. apply bool_decide_ext. apply list_elem_of_singleton.
Qed.
Lemma count_active db :
  count_memories_by_state scope Active db = Z.of_nat (length (select_where active_row (db_memories db))).
Proof. done. Qed.
Lemma length_active db :
  Z.of_nat (length (load_search_memories [scope] Active None None db)) = count_memories_by_state scope Active db.
Proof. rewrite load_active, length_map. unfold order_by. by rewrite length_sort_by. Qed.
Lemma active_found db m :
  db_ok db -> m ∈ load_search_memories [scope] Active None None db <->
    find_memory db (m_id m) = Some m /\ m_scope m = scope /\ m_state m = Active.
Proof.
  intros Hok. split.
  - intros Hm. split; [by eapply search_memories_found|]. revert Hm. rewrite load_active.
    intros (r & -> & [_ Hr]%elem_of_order_by%elem_of_select_where)%list_elem_of_fmap.
    apply andb_true_iff in Hr as [H1%bool_decide_eq_true H2%bool_decide_eq_true]. done.
  - intros ((_ & r & Hr & <-)%find_memory_Some & H1 & H2). rewrite load_active. apply list_elem_of_fmap.
    exists r. split; [done|]. apply elem_of_order_by, elem_of_select_where. split; [done|].
    unfold active_row. by rewrite !bool_decide_true.
Qed.

Lemma active_demoted t l rows :
  length (select_where active_row (demoted t l rows)) =
    length (List.filter (fun id => negb (bool_decide (id ∈ map m_id l))) (map row_id (select_where active_row rows))).
Proof.
  induction rows as [|r rows IH]; [done|]. unfold select_where, demoted in *. cbn [map List.filter].
  destruct (bool_decide (row_id r ∈ map m_id l)) eqn:E.
  - assert (active_row (set_memory (dormant_at t (mr_memory r)) r) = false) as -> by apply andb_false_r.
    rewrite IH. destruct (active_row r); [|done]. cbn [map List.filter]. by rewrite E.
  - destruct (active_row r); [|done]. cbn [map List.filter length]. by rewrite E, IH.
Qed.
Lemma length_removed {A} `{EqDecision A} (l k : list A) :
  NoDup l -> NoDup k -> (forall x, x ∈ k -> x ∈ l) ->
  (length (List.filter (fun x => negb (bool_decide (x ∈ k))) l) + length k = length l)%nat.
Proof.
  intros Hl Hk Hsub. rewrite Nat.add_comm, <- length_app. apply Permutation_length, NoDup_Permutation; [|done|].
  - apply NoDup_app. split_and!; [done| |by apply NoDup_ListNoDup, List.NoDup_filter, NoDup_ListNoDup].
    intros x Hx. rewrite list_elem_of_In, filter_In. intros [_ Hn]. by rewrite bool_decide_true in Hn.
  - intros x. rewrite elem_of_app, !list_elem_of_In, filter_In, <- !list_elem_of_In.
    destruct (decide (x ∈ k)) as [Hx|Hx]; [rewrite bool_decide_true by done|rewrite bool_decide_false by done]; naive_solver.
Qed.
Lemma count_demoted t l w :
  db_ok (mw_db w) -> NoDup (map m_id l) ->
  (forall m, m ∈ l -> m ∈ load_search_memories [scope] Active None None (mw_db w)) ->
  (count_memories_by_state scope Active ((mw_db w) <| db_memories ::= demoted t l |>) + Z.of_nat (length l)
     = count_memories_by_state scope Active (mw_db w))%Z.
Proof.
  intros Hok Hn Hl. rewrite !count_active. change (db_memories (_ <| db_memories ::= demoted t l |>)) with (demoted t l (db_memories (mw_db w))).
  rewrite active_demoted. rewrite <- (length_map m_id l), <- Nat2Z.inj_add, length_removed.
  - by rewrite length_map.
  - apply NoDup_select, Hok.
  - done.
  - intros id (m & -> & Hm%Hl)%list_elem_of_fmap. rewrite load_active in Hm.
    apply list_elem_of_fmap in Hm as (r & -> & Hr%elem_of_order_by). apply list_elem_of_fmap. by exists r.
Qed.
Lemma find_memory_demoted t l db id :
  (forall m, m ∈ l -> find_memory db (m_id m) = Some m) ->
  find_memory (db <| db_memories ::= demoted t l |>) id =
    (if bool_decide (id ∈ map m_id l) then dormant_at t <$> find_memory db id else find_memory db id).
Proof.
  intros Hl.
  pose proof (find_memory_update db (fun r => bool_decide (row_id r ∈ map m_id l))
    (fun r => set_memory (dormant_at t (mr_memory r)) r) id (fun _ _ => eq_refl)) as E.
  change (db <| db_memories ::= demoted t l |>) with
    (db <| db_memories ::= update_where (fun r => bool_decide (row_id r ∈ map m_id l))
       (fun r => set_memory (dormant_at t (mr_memory r)) r) |>). rewrite E.
  unfold find_memory. destruct (find_row db id) as [r|] eqn:Er; [|by case_bool_decide]. cbn.
  apply find_by_Some in Er as [_ <-]. by case_bool_decide.
Qed.

(** *** The first phase *)
Lemma first_phase_run policy budget config w :
  db_ok (mw_db w) -> load_scope_config w = (Ok config, w) ->
  let active := load_search_memories [scope] Active None None (mw_db w) in
  exists evicted t w', let context := retention_context_for t config active in
    run ((if (0 <? budget)%Z then demote_excess scope policy budget else mret 0%Z) : MTask Z) w =
      (Ok (Z.of_nat (length evicted)), w')
    /\ (db_config (mw_db w') = db_config (mw_db w) /\ mw_calls w' = mw_calls w)
    /\ count_memories_by_state scope Active (mw_db w') =
         (if (0 <? budget)%Z then Z.min budget (count_memories_by_state scope Active (mw_db w))
          else count_memories_by_state scope Active (mw_db w))
    /\ (count_memories_by_state scope Active (mw_db w') + Z.of_nat (length evicted)
          = count_memories_by_state scope Active (mw_db w))%Z
    /\ (forall m, m ∈ evicted -> m ∈ active)
    /\ (forall id, find_memory (mw_db w') id =
          if bool_decide (id ∈ map m_id evicted) then dormant_at t <$> find_memory (mw_db w) id
          else find_memory (mw_db w) id)
    /\ (policy = ImportanceReliability /\ scored (mw_db w)
         \/ (forall m, m ∈ active -> is_nan (retention_score policy m context) = false) ->
         forall x y, x ∈ evicted -> y ∈ active -> y ∉ evicted ->
         fcmp (retention_score policy x context) (retention_score policy y context) <> Gt).
Proof.
  intros Hok Hc active. destruct (Z.ltb_spec 0 budget) as [Hn|_].
  2:{ exists [], 0%Z, w. cbv zeta.
    split_and!; [done..|cbn; lia|by intros ? ?%not_elem_of_nil|done|by intros _ ? ? ?%not_elem_of_nil]. }
  unfold demote_excess. rewrite run_bind, run_section. unfold query at 1.
  destruct (Z.leb_spec (count_memories_by_state scope Active (mw_db w)) budget) as [Hle|Hlt].
  { exists [], 0%Z, w. cbv zeta. split_and!; [done..|lia|cbn; lia|by intros ? ?%not_elem_of_nil|done|by intros _ ? ? ?%not_elem_of_nil]. }
  rewrite run_bind, run_section. unfold query at 1. fold active.
  rewrite run_bind, run_section, Hc, run_bind, run_section. unfold now at 1. cbv zeta.
  set (t := utc_now (mw_clock w)). set (context := retention_context_for t config active).
  set (sorted := order_by (eviction_order policy context) active).
  set (k := Z.to_nat (count_memories_by_state scope Active (mw_db w) - budget)).
  assert (length (take k sorted) = k) as Hk.
  { rewrite length_take. unfold sorted, order_by. rewrite length_sort_by. pose proof (length_active (mw_db w)) as E.
    fold active in E. lia. }
  assert (forall m, m ∈ take k sorted -> m ∈ active) as Hsub by by intros m Hm%in_take%elem_of_order_by.
  assert (forall m, m ∈ take k sorted -> find_memory (mw_db w) (m_id m) = Some m) as Hf.
  { intros m Hm%Hsub. by eapply search_memories_found. }
  assert (NoDup (map m_id (take k sorted))) as Hd.
  { assert (NoDup (map m_id sorted)) as Hs.
    { unfold sorted, order_by. rewrite sort_by_perm. by apply search_memories_NoDup. }
    rewrite <- (take_drop k sorted), map_app in Hs. by apply NoDup_app in Hs as [? _]. }
  pose proof (count_demoted t _ w Hok Hd Hsub) as Hcount.
  exists (take k sorted), t. eexists. split.
  { rewrite run_bind, run_section. erewrite transaction_Ok_eq; [reflexivity|]. apply demote_run; [done|].
    intros m r Hm Hr E. apply Hf in Hm. rewrite <- E, find_memory_elem in Hm by (done || apply Hok). congruence. }
  cbn [snd]. split_and!; [done|done| |exact Hcount|exact Hsub|intros id; exact (find_memory_demoted t _ _ id Hf)|].
  - rewrite Hk in Hcount. unfold k in Hcount at 2. rewrite Z.min_l by lia. apply (Z.add_cancel_r _ _ (count_memories_by_state scope Active (mw_db w) - budget)).
    rewrite Z2Nat.id in Hcount by lia. etrans; [exact Hcount|]. symmetry. apply Zplus_minus.
  - intros Hscores x y Hx Hy Hny.
    assert (forall m, m ∈ active -> is_nan (retention_score policy m context) = false) as Hnan.
    { destruct Hscores as [[-> Hs]|Hnan]; [|done]. intros m Hm.
      apply default_score_is_a_number. by eapply scored_search. }
    apply (evicted_before_kept policy context k active); [done|done|].
    fold sorted. apply (elem_of_order_by (eviction_order policy context)) in Hy. fold sorted in Hy.
    rewrite <- (take_drop k sorted) in Hy. by apply elem_of_app in Hy as [?|?].
Qed.

(** *** The second phase *)
(** What a look at the configuration gives depends on the configuration only. *)
Definition reads_config {A} (m : Conn A) : Prop :=
  forall w w', db_config (mw_db w) = db_config (mw_db w') -> m w = (fst (m w'), w).
Lemma reads_config_bind {A B} (m : Conn A) (k : A -> Conn B) :
  reads_config m -> (forall a, reads_config (k a)) -> reads_config (m ≫= k).
Proof.
  intros Hm Hk w w' E. unfold mbind, Conn_bind. rewrite (Hm w w' E), (Hm w' w' eq_refl). cbn.
  destruct (fst (m w')) as [a|e]; [|done]. by apply Hk.
Qed.
Lemma reads_config_parsed {A} (parse : string -> option A) key d : reads_config (load_parsed parse key d).
Proof.
  intros w w' E. unfold load_parsed, query, mbind, Conn_bind, load_config_value. cbn. rewrite E.
  destruct (find_by _ _ _) as [[]|]; [|done]. cbn. by destruct (parse _).
Qed.
Lemma reads_config_ret {A} (a : A) : reads_config (mret a).
Proof. by intros w w' E. Qed.
Lemma reads_scope_config : reads_config load_scope_config.
Proof.
  unfold load_scope_config, load_f32_config, load_u32_config. cbv zeta.
  repeat (apply reads_config_bind; [apply reads_config_parsed|intros ?]). apply reads_config_ret.
Qed.
Lemma reads_config_Ok {A} (m : Conn A) a w w' :
  reads_config m -> m w = (Ok a, w) -> db_config (mw_db w') = db_config (mw_db w) -> m w' = (Ok a, w').
Proof. intros Hm E Ec. rewrite (Hm w' w Ec). by rewrite E. Qed.

Lemma delete_dormant_run m w :
  is_Some (find_memory (mw_db w) (m_id m)) ->
  exists w', delete_dormant m w = (Ok tt, w')
  /\ db_memories (mw_db w') = delete_where (fun r => bool_decide (row_id r ∈ [m_id m])) (db_memories (mw_db w)).
Proof.
  intros [m0 Hm]. destruct (require_rowid_run _ _ _ Hm) as [rowid Hr].
  assert (forall v w1, exists w2, delete_vector v w1 = (Ok tt, w2) /\ db_memories (mw_db w2) = db_memories (mw_db w1)) as Hv
    by (intros [v|] w1; by eexists).
  unfold delete_dormant.
  destruct (Hv (vec_rowid_of (m_id m) (mw_db w)) (w <| mw_db ::= fun db => db <| db_fts ::= remove_one (rowid, indexed_fts_fields m) |> |>))
    as (w2 & E2 & Em). eexists. split.
  - apply transaction_Ok_eq. erewrite conn_bind_run by exact Hr. erewrite conn_bind_run by done.
    erewrite conn_bind_run by done. erewrite conn_bind_run by exact E2. cbv zeta.
    erewrite conn_bind_run by done. reflexivity.
  - cbn in Em |- *. rewrite Em. apply filter_ext. intros r. f_equal. apply bool_decide_ext.
    by rewrite list_elem_of_singleton.
Qed.
Lemma delete_where_where (gone gone' : list MemoryId) (rows : list MemoryRow) :
  delete_where (fun r => bool_decide (row_id r ∈ gone')) (delete_where (fun r => bool_decide (row_id r ∈ gone)) rows) =
    delete_where (fun r => bool_decide (row_id r ∈ gone ++ gone')) rows.
Proof.
  unfold delete_where. induction rows as [|r rows IH]; [done|]. cbn [List.filter].
  rewrite (bool_decide_ext (row_id r ∈ gone ++ gone') (row_id r ∈ gone \/ row_id r ∈ gone')) by apply elem_of_app.
  rewrite bool_decide_or. destruct (bool_decide (row_id r ∈ gone)); cbn; [done|]. by rewrite IH.
Qed.
Lemma find_memory_deleted (gone : list MemoryId) db db' id :
  db_memories db' = delete_where (fun r => bool_decide (row_id r ∈ gone)) (db_memories db) ->
  find_memory db' id = if bool_decide (id ∈ gone) then None else find_memory db id.
Proof.
  unfold find_memory, find_row. intros ->. generalize (db_memories db). intros rows.
  unfold delete_where. induction rows as [|r rows IH]; [by case_bool_decide|]. cbn [List.filter].
  cbn [find_by]. destruct (decide (row_id r = id)) as [<-|E].
  - destruct (bool_decide (row_id r ∈ gone)); cbn [negb]; [exact IH|]. cbn [find_by]. by rewrite decide_True.
  - destruct (bool_decide (row_id r ∈ gone)); cbn [negb]; [exact IH|]. cbn [find_by]. by rewrite decide_False.
Qed.
Lemma delete_until_run cap l w :
  NoDup (map m_id l) -> (forall m, m ∈ l -> is_Some (find_memory (mw_db w) (m_id m))) ->
  exists k w', run (delete_until cap l) w = (Ok (Z.of_nat (length (take k l))), w')
  /\ db_memories (mw_db w') =
       delete_where (fun r => bool_decide (row_id r ∈ map m_id (take k l))) (db_memories (mw_db w)).
Proof.
  revert w. induction l as [|m l IH]; intros w; cbn [delete_until map].
  { intros _ _. exists 0%nat, w. split; [done|]. cbn. unfold delete_where. by rewrite List.filter_true. }
  intros [Hm Hl]%NoDup_cons Hf. destruct (delete_dormant_run m w) as (w1 & E1 & Ed); [apply Hf; by left|].
  rewrite run_bind, run_section, E1, run_bind, run_section. unfold live_storage_bytes.
  destruct (pages _) as [[a b] c]. destruct (_ <=? cap)%Z.
  { exists 1%nat. eexists. split; [done|]. cbn. by rewrite take_0. }
  destruct (IH (w1 <| mw_calls ::= S |>) Hl) as (k & w' & E & Er).
  { intros m' Hm'. cbn. rewrite (find_memory_deleted _ _ _ _ Ed), bool_decide_false; [apply Hf; by right|].
    rewrite list_elem_of_singleton. intros E. apply Hm. rewrite <- E. apply list_elem_of_fmap. by exists m'. }
  exists (S k), w'. split.
  - rewrite run_bind, E. cbn. do 2 f_equal. lia.
  - rewrite Er. cbn [mw_db]. change (db_memories (mw_db (w1 <| mw_calls ::= S |>))) with (db_memories (mw_db w1)).
    rewrite Ed. by rewrite delete_where_where.
Qed.
Lemma delete_excess_run policy cap config w :
  db_ok (mw_db w) -> load_scope_config w = (Ok config, w) ->
  exists deleted w', run (delete_excess scope policy cap) w = (Ok (Z.of_nat (length deleted)), w')
  /\ (forall id, id ∈ deleted ->
        exists m, find_memory (mw_db w) id = Some m /\ m_scope m = scope /\ m_state m = Dormant)
  /\ db_memories (mw_db w') = delete_where (fun r => bool_decide (row_id r ∈ deleted)) (db_memories (mw_db w))
  /\ (forall live w1, live_storage_bytes w = (Ok live, w1) -> (live <= cap)%Z -> deleted = []).
Proof.
  intros Hok Hc. unfold delete_excess. rewrite run_bind, run_section.
  destruct (live_storage_bytes w) as [r w1] eqn:El. pose proof El as El'. unfold live_storage_bytes in El'.
  destruct (pages _) as [[a b] c]. injection El' as <- <-. destruct (Z.leb_spec (Z.max 0 (a - c) * b) cap) as [Hle|Hgt].
  { exists []. eexists. split_and!; [done|by intros id ?%not_elem_of_nil| |done].
    unfold delete_where. cbn. by rewrite List.filter_true. }
  rewrite run_bind, run_section. unfold query at 1. cbn [mw_db].
  set (dormant := load_search_memories [scope] Dormant None None _).
  rewrite run_bind, run_section, (reads_config_Ok _ _ _ _ reads_scope_config Hc) by done.
  rewrite run_bind, run_section. unfold now at 1. cbv zeta.
  set (sorted := order_by _ dormant).
  assert (NoDup (map m_id sorted)) as Hn by (unfold sorted, order_by; rewrite sort_by_perm; by apply search_memories_NoDup).
  assert (forall m, m ∈ sorted -> m ∈ dormant) as Hs by by intros m Hm%elem_of_order_by.
  match goal with |- context [run (delete_until cap sorted) ?w2] => destruct (delete_until_run cap sorted w2 Hn) as (k & w' & E & Ed) end.
  { intros m Hm%Hs. exists m. by eapply search_memories_found. }
  exists (map m_id (take k sorted)), w'. rewrite length_map. split_and!; [exact E| |exact Ed|intros live w1 [= <- _] ?; lia].
  intros id (m & -> & Hm%in_take%Hs)%list_elem_of_fmap. exists m.
  split; [by eapply search_memories_found|].
  unfold dormant, load_search_memories in Hm.
  apply list_elem_of_fmap in Hm as (r & -> & [_ Hr]%elem_of_order_by%elem_of_select_where). cbv zeta in Hr.
  rewrite !andb_true_r in Hr. apply andb_true_iff in Hr as [H1%bool_decide_eq_true H2%bool_decide_eq_true].
  by apply list_elem_of_singleton in H1.
Qed.
(** Deleting dormant memories leaves the active ones. *)
Lemma count_deleted (deleted : list MemoryId) db db' :
  db_ok db -> db_memories db' = delete_where (fun r => bool_decide (row_id r ∈ deleted)) (db_memories db) ->
  (forall id, id ∈ deleted -> exists m, find_memory db id = Some m /\ m_state m = Dormant) ->
  count_memories_by_state scope Active db' = count_memories_by_state scope Active db.
Proof.
  intros Hok E Hd. rewrite !count_active, E. do 2 f_equal.
  assert (forall r, r ∈ db_memories db -> row_id r ∈ deleted -> active_row r = false) as Ha.
  { intros r Hr (m & Hm & Hs)%Hd. rewrite find_memory_elem in Hm by (done || apply Hok). simplify_eq.
    unfold active_row. rewrite Hs. apply andb_false_r. }
  clear E Hd. unfold select_where, delete_where. induction (db_memories db) as [|r rows IH]; [done|].
  cbn [List.filter]. destruct (bool_decide_reflect (row_id r ∈ deleted)) as [Hr|Hr]; cbn [negb List.filter].
  - rewrite (Ha r) by (by left || done). apply IH. intros r' Hr'. apply Ha. by right.
  - rewrite IH; [done|]. intros r' Hr'. apply Ha. by right.
Qed.

(** *** Both *)
(** C37. Enforcing the budget of a scope always succeeds when its configuration
    can be read.  It leaves as many active memories in the scope as the budget
    allows, or all of them when there are fewer or the budget is 0: the excess
    becomes dormant, and no memory that became dormant had a better retention
    score than one that stayed active: under the default policy because
    importance and reliability are between 0 and 1, under another unless one of
    its scores is not a number.  Then, if the live storage exceeds its cap,
    memories are deleted, but only ones of the scope that are dormant, perhaps
    only since the first phase.  Every other memory is as it was. *)
Theorem budget_evicts_the_lowest_scores policy budget cap config w :
  db_ok (mw_db w) ->
  load_parsed (parse_unsigned 64) "budget_active_max" (budget_default scope) w = (Ok budget, w) ->
  load_parsed (parse_unsigned 64) "storage_cap_mb" 512%Z w = (Ok cap, w) ->
  load_scope_config w = (Ok config, w) ->
  let active := load_search_memories [scope] Active None None (mw_db w) in
  exists evicted deleted t w', let context := retention_context_for t config active in
    run (run_enforce_budget scope policy) w = (Ok (Z.of_nat (length evicted), Z.of_nat (length deleted)), w')
    /\ count_memories_by_state scope Active (mw_db w') =
         (if (0 <? budget)%Z then Z.min budget (count_memories_by_state scope Active (mw_db w))
          else count_memories_by_state scope Active (mw_db w))
    /\ (count_memories_by_state scope Active (mw_db w') + Z.of_nat (length evicted)
          = count_memories_by_state scope Active (mw_db w))%Z
    /\ (forall m, m ∈ evicted -> m ∈ active)
    /\ (forall id, id ∈ deleted -> exists m, find_memory (mw_db w) id = Some m /\ m_scope m = scope
          /\ (m_state m = Dormant \/ m ∈ evicted))
    /\ (forall live w1, live_storage_bytes w = (Ok live, w1) -> (live <= (cap * 1024 * 1024) mod 2 ^ 64)%Z -> deleted = [])
    /\ (forall id, find_memory (mw_db w') id =
          if bool_decide (id ∈ deleted) then None
          else if bool_decide (id ∈ map m_id evicted) then dormant_at t <$> find_memory (mw_db w) id
          else find_memory (mw_db w) id)
    /\ (policy = ImportanceReliability /\ scored (mw_db w)
         \/ (forall m, m ∈ active -> is_nan (retention_score policy m context) = false) ->
         forall x y, x ∈ evicted -> y ∈ active -> y ∉ evicted ->
         fcmp (retention_score policy x context) (retention_score policy y context) <> Gt).
Proof.
  intros Hok Hb Hcap Hc active.
  destruct (first_phase_run policy budget config w Hok Hc)
    as (evicted & t & w1 & E1 & [Ecfg Ecalls] & Hcount & Hsum & Hsub & Hfind & Hscores).
  assert (db_ok (mw_db w1)) as Hok1.
  { change w1 with (snd (Ok (A:=Z) (E:=StoreError) (Z.of_nat (length evicted)), w1)). rewrite <- E1.
    apply (sound_run db_ok); [|done]. destruct (0 <? budget)%Z; [apply sound_demote_excess|apply sound_ret]. }
  destruct (delete_excess_run policy ((cap * 1024 * 1024) mod 2 ^ 64) config w1 Hok1)
    as (deleted & w' & E2 & Hdel & Emem & Hlive); [by apply (reads_config_Ok _ _ w); [apply reads_scope_config|..]|].
  exists evicted, deleted, t, w'. cbv zeta.
  assert (count_memories_by_state scope Active (mw_db w') = count_memories_by_state scope Active (mw_db w1)) as Ecount.
  { apply (count_deleted deleted); [done..|]. intros id (m & Hm & _ & Hs)%Hdel. by exists m. }
  split_and!; [|by rewrite Ecount|by rewrite Ecount|done| | |intros id; by rewrite (find_memory_deleted _ _ _ id Emem), Hfind|done].
  - unfold run_enforce_budget. rewrite run_bind, run_section, Hb, run_bind, run_section, Hcap.
    rewrite run_bind. cbv zeta. rewrite E1, run_bind, E2. done.
  - intros id (m1 & Hm1 & Hs & Hd)%Hdel. rewrite Hfind in Hm1. case_bool_decide as He.
    + apply fmap_Some in Hm1 as (m & Hm & ->). exists m. split_and!; [done|exact Hs|right].
      apply list_elem_of_fmap in He as (m' & -> & Hm'). pose proof (search_memories_found _ _ _ _ _ _ Hok (Hsub _ Hm')) as Hf.
      congruence.
    + exists m1. split_and!; [done..|by left].
  - intros live w2 El. apply (Hlive live (w1 <| mw_calls ::= S |>)). revert El. unfold live_storage_bytes. rewrite Ecalls.
    destruct (pages _) as [[a b] c]. by intros [= <- _].
Qed.
End Budget.

(** ** On a concrete store *)
Section Demonstration.
#[local] Existing Instance one_store.
Definition crowded_moves : list ((MemoryScope * MemoryCall) + nat) :=
  stored_moves ++ [inl (Session, Store_ (plain_memory "b" "The host is up" Session)); inr 0].
Definition crowded : MemoryWorld := c_state (played crowded_moves (fresh_store [("budget_active_max", "1")])).
Lemma crowded_ok : db_ok (mw_db crowded).
Proof. apply reachable_ok. exists [("budget_active_max", "1")]. apply play_default. Qed.
Lemma crowded_shape :
  count_memories_by_state Session Active (mw_db crowded) = 2%Z /\
  exists config, load_parsed (parse_unsigned 64) "budget_active_max" (budget_default Session) crowded = (Ok 1%Z, crowded)
    /\ load_parsed (parse_unsigned 64) "storage_cap_mb" 512%Z crowded = (Ok 512%Z, crowded)
    /\ load_scope_config crowded = (Ok config, crowded).
Proof. split; [by vm_compute|]. eexists. split_and!; vm_compute; reflexivity. Qed.

Lemma budget_evicts_the_lowest_scores_witness :
  exists (evicted : list Memory) (deleted : list MemoryId) w',
    run (run_enforce_budget Session Lru) crowded = (Ok (Z.of_nat (length evicted), Z.of_nat (length deleted)), w')
    /\ count_memories_by_state Session Active (mw_db w') = 1%Z /\ length evicted = 1%nat /\ deleted = [].
Proof.
  pose proof crowded_ok as Hok. pose proof crowded_shape as (Hcount & config & Hb & Hcap & Hc).
  generalize dependent crowded. intros w Hok Hcount Hb Hcap Hc.
  destruct (budget_evicts_the_lowest_scores Session Lru 1 512 config w Hok Hb Hcap Hc)
    as (evicted & deleted & t & w' & H1 & H2 & H3 & _ & _ & Hlive & _).
  rewrite Hcount in H2, H3. change (count_memories_by_state Session Active (mw_db w') = 1%Z) in H2.
  exists evicted, deleted, w'. split; [exact H1|]. split; [exact H2|].
  split; [rewrite H2 in H3; lia|]. eapply Hlive; [reflexivity|]. vm_compute. discriminate.
Defined.
End Demonstration.
