(* ===== verification/MemoryGate.v ===== *)
(** What the salience gate decides on a store of memories: every decision
    rests on a memory of the store that is similar enough, or on the absence
    of one. *)
From S2P Require Import Prelude Text Table Threads Floats Memories MemoryDb Embeddings Forgetting MemoryStore MemoryCuration SalienceGate MemoryReview MemoryFacts MemoryInvariant MemoryScores MemoryHistory MemoryScenario MemoryOutcomes.

Section Gate.
Context `{MemoryHost} `{L : Locking} `{!LawfulLocking L} (scope : MemoryScope).

(** ** What the vector search answers *)
Definition similar_memory (db : MemoryDb) (threshold : float) (s : ScoredMemory) : Prop :=
  (exists r, r ∈ db_memories db /\ mr_memory r = sm_memory s)
  /\ m_state (sm_memory s) = Active /\ (scope_rank scope <= scope_rank (m_scope (sm_memory s)))%Z
  /\ m_embedding_stale (sm_memory s) = false
  /\ fle threshold (sm_similarity s) = true /\ flt fzero (sm_similarity s) = true.

Lemma vector_filter_spec m :
  vector_filter (visible_scopes scope) Active m = true ->
  m_state m = Active /\ (scope_rank scope <= scope_rank (m_scope m))%Z /\ m_embedding_stale m = false.
Proof.
  unfold vector_filter. rewrite !andb_true_iff, !bool_decide_eq_true, visible_scopes_spec, negb_true_iff. tauto.
Qed.
Lemma found_similar db threshold m similarity :
  (exists r, r ∈ db_memories db /\ mr_memory r = m) -> vector_filter (visible_scopes scope) Active m = true ->
  similar_enough threshold similarity = true -> similar_memory db threshold (mkScoredMemory m similarity similarity).
Proof.
  intros Hm (? & ? & ?)%vector_filter_spec [? ?]%andb_true_iff. by split_and!.
Qed.
Lemma via_knn_similar embedding threshold n db m similarity :
  (m, similarity) ∈ via_knn (visible_scopes scope) Active embedding threshold n db ->
  similar_memory db threshold (mkScoredMemory m similarity similarity).
Proof.
  unfold via_knn. intros ([rowid distance] & _ & E)%list_elem_of_omap.
  apply bind_Some in E as (m' & Hm & E). apply bind_Some in E as (d & -> & E). cbv zeta in E.
  destruct (vector_filter _ _ _ && _) eqn:Ef; [|done]. injection E as <- <-. apply andb_true_iff in Ef as [? ?].
  apply found_similar; [|done|done]. unfold memory_of_vector in Hm. apply bind_Some in Hm as (e & _ & Hm).
  by apply find_memory_Some in Hm as [_ ?].
Qed.
Lemma score_vectors_similar embedding dimensions threshold rows scores m similarity :
  score_vectors embedding dimensions threshold rows = Ok scores -> (m, similarity) ∈ scores ->
  (exists encoded, (m, encoded) ∈ rows) /\ similar_enough threshold similarity = true.
Proof.
  revert scores. induction rows as [|[m0 encoded] rows IH]; intros scores; cbn [score_vectors].
  { intros [= <-]. by intros ?%not_elem_of_nil. }
  destruct (decode_embedding _ _) as [stored|]; [|done]. cbn.
  destruct (cosine_similarity _ _) as [s0|]; [|done]. cbn.
  destruct (score_vectors _ _ _ _) as [rest|]; [|done]. cbn. intros [= <-] Hin.
  assert ((m, similarity) = (m0, s0) /\ similar_enough threshold s0 = true \/ (m, similarity) ∈ rest) as [[[= -> ->] Hs]|Hr].
  { destruct (similar_enough threshold s0) eqn:E; [|by right]. apply elem_of_cons in Hin as [?|?]; [by left|by right]. }
  - split; [|done]. exists encoded. by left.
  - destruct (IH rest eq_refl Hr) as [[e He] ?]. split; [|done]. exists e. by right.
Qed.
Lemma via_scan_similar embedding dimensions threshold db scores m similarity :
  via_scan (visible_scopes scope) Active embedding dimensions threshold db = Ok scores -> (m, similarity) ∈ scores ->
  similar_memory db threshold (mkScoredMemory m similarity similarity).
Proof.
  intros E Hin. apply (score_vectors_similar _ _ _ _ _ _ _ E) in Hin as [[encoded Hr] Hs].
  apply list_elem_of_omap in Hr as (r & Hr & Em). apply bind_Some in Em as (e & _ & Em).
  apply bind_Some in Em as (v & _ & Em). destruct (vector_filter _ _ _) eqn:Ef; [|done].
  injection Em as <- _. apply found_similar; [by exists r|done|done].
Qed.
Lemma find_similar_found embedding threshold n w l w' s :
  run (find_similar scope embedding threshold n) w = (Ok l, w') -> s ∈ l -> similar_memory (mw_db w) threshold s.
Proof.
  unfold find_similar. case_decide; [intros [= <- _]; by intros ?%not_elem_of_nil|].
  rewrite run_bind. destruct (run (of_result _) w) as [[u|e] w1] eqn:E1; [|done]. cbn in E1. injection E1 as _ <-.
  rewrite run_locked. intros E Hs. pose proof (safe_load_embedding_dimensions (fun db => db = mw_db w) w eq_refl) as Hd.
  unfold validate_query_embedding in E. conn_inv. rewrite R in Hd. cbn in Hd. rewrite <- Hd.
  apply in_take, elem_of_order_by, list_elem_of_fmap in Hs as ([m similarity] & -> & Hs).
  destruct vec_native; conn_inv; [by eapply via_knn_similar|by eapply via_scan_similar].
Qed.

(** ** What the gate makes of it *)
Lemma run_matches {A} (k : list ScoredMemory -> GTask A) embedding threshold n w :
  run (map_err GateStore (similar (SimilarStore := sqlite_similar scope) embedding threshold n) ≫= k) w =
    match run (find_similar scope embedding threshold n) w with
    | (Ok l, w') => run (k l) w'
    | (Err e, w') => (Err (GateStore e), w')
    end.
Proof.
  unfold mbind, Task_bind, map_err. rewrite !run_prog_bind. cbn.
  by destruct (run (find_similar scope embedding threshold n) w) as [[l|e] w1].
Qed.
Lemma run_return_bind {A B} (a : A) (k : A -> GTask B) w : run ((Return (Ok a) : GTask A) ≫= k) w = run (k a) w.
Proof. done. Qed.
Lemma sound_novelty_any P c : sound P (novelty_embedding c).
Proof. unfold novelty_embedding. pose proof (sound_generate_embedding_any P). sound. Qed.
Context (config : ScopeConfig) (model : option (nat -> string -> option string)).
(** What must hold of the store for a decision about [c], the memory [excluded]
    not being considered. *)
Definition justified (db : MemoryDb) (c : MemoryCandidate) (excluded : option MemoryId) (d : GateDecision) : Prop :=
  let near s := similar_memory db (novelty_floor config) s /\ excluded <> Some (m_id (sm_memory s)) in
  let mergeable s := near s /\ m_scope (sm_memory s) = scope /\ fle (merge_threshold config) (sm_similarity s) = true in
  match d with
  | Merge target_id enriched_content promote_to => exists s, mergeable s /\ target_id = m_id (sm_memory s)
      /\ enriched_content = merge_content (m_content (sm_memory s)) (mc_content c) (sm_similarity s)
      /\ promote_to = None
      /\ (model = None -> contradiction_description (m_content (sm_memory s)) (mc_content c) = None)
  | Contradiction conflicting_id description => exists s, mergeable s /\ conflicting_id = m_id (sm_memory s)
      /\ (model = None -> contradiction_description (m_content (sm_memory s)) (mc_content c) = Some description)
  | Reject _ => exists s, near s /\ (scope_rank scope < scope_rank (m_scope (sm_memory s)))%Z
  | Archive => flt (mc_importance_score c) (sc_salience_threshold config) = true
      \/ mc_provenance c = AgentInferred
         /\ flt (mc_importance_score c) (sc_agent_inferred_importance_threshold config) = true
  | Accept None _ => model = None -> flt (mc_importance_score c) (sc_salience_threshold config) = false
  | Accept (Some similar_to) _ => exists s, near s /\ similar_to = m_id (sm_memory s)
      /\ flt (sm_similarity s) (merge_threshold config) = true
  end.

Lemma verdict_without_model existing candidate w :
  model = None -> run (llm_contradiction_verdict model existing candidate) w = (None, w).
Proof. by intros ->. Qed.
Lemma judge_salience_justified db c excluded duplicate :
  (forall id similarity, duplicate = Some (id, similarity) -> exists s,
     similar_memory db (novelty_floor config) s /\ excluded <> Some (m_id (sm_memory s))
     /\ id = m_id (sm_memory s) /\ flt (sm_similarity s) (merge_threshold config) = true) ->
  justified db c excluded (judge_salience config c duplicate).
Proof.
  intros Hd. unfold judge_salience. destruct (flt (mc_importance_score c) _) eqn:E1; [by left|].
  destruct (bool_decide _ && _) eqn:E2.
  { right. apply andb_true_iff in E2 as [?%bool_decide_eq_true ?]. done. }
  destruct duplicate as [[id similarity]|]; [|by intros _].
  destruct (Hd id similarity eq_refl) as (s & ? & ? & ? & ?). exists s. by split_and!.
Qed.
Lemma judge_match_justified db c excluded best w judged w' :
  similar_memory db (novelty_floor config) best -> excluded <> Some (m_id (sm_memory best)) ->
  run (judge_match (H0 := sqlite_similar scope) config model c best) w = (judged, w') ->
  justified db c excluded (match judged with inl d => d | inr duplicate => judge_salience config c duplicate end).
Proof.
  intros Hs He. pose proof Hs as (_ & _ & Hscope & _). unfold judge_match.
  change (@similar_scope _) with scope. cbv zeta.
  destruct (Z.ltb_spec (scope_rank scope) (scope_rank (m_scope (sm_memory best)))) as [Hr|Hr].
  { intros [= <- _]. by exists best. }
  assert (m_scope (sm_memory best) = scope) as Es.
  { assert (scope_rank (m_scope (sm_memory best)) = scope_rank scope) as E by lia.
    by destruct (m_scope (sm_memory best)), scope. }
  unfold should_merge. destruct (fle (merge_threshold config) (sm_similarity best)) eqn:Em.
  - rewrite run_prog_bind. pose proof (verdict_without_model (m_content (sm_memory best)) (mc_content c) w) as Hv.
    destruct (run (llm_contradiction_verdict _ _ _) w) as [verdict w1]. cbn [fst snd run]. intros [= <- _].
    assert (model = None -> verdict = None) as Hnone by (intros E; specialize (Hv E); congruence).
    assert (promotes_to (H0 := sqlite_similar scope) best = None) as Hp.
    { unfold promotes_to. change (@similar_scope _) with scope. by rewrite Es, Z.ltb_irrefl. }
    destruct verdict as [[|description|]|].
    + exists best. unfold merge_decision. split_and!; try done. by intros E%Hnone.
    + exists best. split_and!; try done. by intros E%Hnone.
    + by intros E%Hnone.
    + destruct (contradiction_description _ _) as [description|] eqn:Ed; exists best; split_and!; done.
  - intros [= <- _]. apply judge_salience_justified. unfold is_likely_duplicate.
    destruct (fle _ _ && _) eqn:El; [|done]. intros id similarity [= <- <-].
    apply andb_true_iff in El as [_ ?]. by exists best.
Qed.
End Gate.

(** C33. The gate's decision on a store of memories rests on what the store has:
    it asks about valid candidates only; it merges only into an active memory of
    the store's own scope that is similar enough, with the text that
    [merge_content] makes of the two and no change of scope, and without a model
    only when the heuristics find no contradiction; it reports a contradiction
    only with such a memory, and rejects only for a similar memory of a wider
    scope; it archives only what is not important enough.  It writes nothing. *)
Theorem gate_decisions_are_justified `{MemoryHost} `{L : Locking} `{!LawfulLocking L}
    scope config model c excluded decision w w' :
  run (evaluate_internal (H0 := sqlite_similar scope) config model c excluded) w = (Ok decision, w') ->
  validate_candidate c = Ok tt /\ mw_db w' = mw_db w
  /\ justified scope config model (mw_db w) c excluded decision.
Proof.
  intros E. assert (mw_db w' = mw_db w) as Edb.
  { pose proof (sound_run (fun db => db = mw_db w) _ w (sound_evaluate_any scope _ config model c excluded) eq_refl) as Hs.
    by rewrite E in Hs. }
  unfold evaluate_internal in E. destruct (validate_candidate c) as [[]|e]; [|done]. split_and!; [done|exact Edb|].
  rewrite run_return_bind, run_prog_bind in E.
  pose proof (sound_run (fun db => db = mw_db w) _ w (sound_novelty_any _ c) eq_refl) as Hn. unfold inside in Hn.
  destruct (run (novelty_embedding c) w) as [embedding w1]. cbn [fst snd] in E, Hn.
  destruct embedding as [embedding|]; [|injection E as <- _; by apply judge_salience_justified].
  rewrite run_matches in E. destruct (run (find_similar scope _ _ _) w1) as [[matches|e] w2] eqn:Ef; [|done].
  destruct (find _ matches) as [best|] eqn:Eb; [|injection E as <- _; by apply judge_salience_justified].
  apply find_some in Eb as [Hb He%negb_true_iff%bool_decide_eq_false]. apply list_elem_of_In in Hb.
  pose proof (find_similar_found _ _ _ _ _ _ _ _ Ef Hb) as Hs. rewrite Hn in Hs.
  rewrite run_prog_bind in E. destruct (run (judge_match _ _ _ _) w2) as [judged w3] eqn:Ej. cbn in E.
  injection E as <- _. by eapply judge_match_justified.
Qed.

(** ** On a concrete store *)
Section Demonstration.
#[local] Existing Instance many_stores.
Definition port_vector : list float := [F32.one; F32.lit 1 2].
Definition port_candidate : MemoryCandidate :=
  mkMemoryCandidate "the port is 80" None Fact UserStated (F32.lit 5 10) Low [] ∅ (Some port_vector).
Definition embedded : MemoryWorld := c_state (played (stored_moves ++
  [inl (Session, StoreEmbedding "a" port_vector); inr 0]) (fresh_store [("embedding_dimensions", "2")])).
Lemma port_is_merged :
  fst (run (evaluate_internal (H0 := sqlite_similar Session) default_scope_config None port_candidate None) embedded) =
    Ok (Merge "a" "the port is 80" None).
Proof. vm_compute. reflexivity. Qed.

Lemma gate_decisions_are_justified_witness :
  exists s, similar_memory Session (mw_db embedded) (novelty_floor default_scope_config) s
  /\ m_id (sm_memory s) = "a" /\ m_scope (sm_memory s) = Session /\ m_state (sm_memory s) = Active
  /\ fle (merge_threshold default_scope_config) (sm_similarity s) = true
  /\ contradiction_description (m_content (sm_memory s)) "the port is 80" = None.
Proof.
  pose proof port_is_merged as E. generalize dependent embedded. intros w E.
  destruct (run (evaluate_internal (H0 := sqlite_similar Session) default_scope_config None port_candidate None) w)
    as [r w'] eqn:Er. cbn [fst] in E. rewrite E in Er.
  destruct (gate_decisions_are_justified Session default_scope_config None port_candidate None _ w w' Er)
    as (_ & _ & s & (((Hs & _) & Hscope & Hm) & Hid & _ & _ & Hc)).
  exists s. pose proof Hs as (_ & Hstate & _). specialize (Hc eq_refl). by split_and!.
Defined.
End Demonstration.
